(** * Majsoul record downloader: wire codec, record decoding and statistics

    A shallow embedding of [paipu_dl.py] and [stats_batch.py].

    Conventions of the embedding:
    - a Python [int] is a [Z] (unbounded, signed);
    - a Python [bytes]/[bytearray] is a [list byte];
    - a Python [str] is a [string] holding its UTF-8 encoding, so that
      [s.encode("utf-8")] only changes the type and [b.decode("utf-8")] is a
      validity check;
    - a Python [dict] whose iteration order matters is an association list in
      insertion order; the codec's registries, which are only looked up, are
      [gmap]s;
    - a raising computation returns [Raise e]; loops that are not structural
      take a bound on their number of iterations and return [OutOfFuel] when
      it is exhausted (the theorems show that the bounds used are enough);
    - the network, the clock and the generated protobuf module are parameters
      of the sections that use them; a method that changes its object returns
      the object after the call next to its result. *)

From Stdlib Require Import ZArith List String Ascii Lia Bool.
From Stdlib.Strings Require Import Byte.
From stdpp Require Import base option gmap strings list pretty.

Local Open Scope string_scope.
Local Open Scope list_scope.
Local Open Scope Z_scope.

(** ** Exceptions and results *)

Inductive exn_kind :=
  | IndexError | ValueError | TypeError | KeyError | AttributeError
  | UnicodeDecodeError | StructError | BinasciiError | OverflowError
  | ZeroDivisionError | DecodeError | OSError | Exception.

(** An exception object: its class and its message ([str(e)]).  Messages of
    exceptions raised by the interpreter itself are left empty. *)
Record exn := mk_exn { exn_class : exn_kind; exn_msg : string }.

Definition builtin_exn (k : exn_kind) : exn := mk_exn k "".

Inductive result (A : Type) :=
  | Ok (a : A)
  | Raise (e : exn)
  | OutOfFuel.
Arguments Ok {A} a.
Arguments Raise {A} e.
Arguments OutOfFuel {A}.

#[global] Instance result_ret : MRet result := fun A a => Ok a.
#[global] Instance result_bind : MBind result := fun A B f r =>
  match r with
  | Ok a => f a
  | Raise e => Raise e
  | OutOfFuel => OutOfFuel
  end.

Definition raise {A} (k : exn_kind) : result A := Raise (builtin_exn k).

Definition raises {A} (r : result A) : bool :=
  match r with Raise _ => true | _ => false end.

(** ** Bytes *)

Abbreviation bytes := (list byte).

Definition byte_to_Z (b : byte) : Z := Z.of_N (Byte.to_N b).

(** [bytes([z])] and [bytearray.__setitem__] accept only [range(256)]. *)
Definition byte_of_Z (z : Z) : option byte :=
  if (0 <=? z) && (z <? 256) then Byte.of_N (Z.to_N z) else None.

(** [bytes(l)] for a list of ints *)
Fixpoint py_bytes (l : list Z) : result bytes :=
  match l with
  | [] => Ok []
  | z :: l' =>
      match byte_of_Z z with
      | Some b => bs ← py_bytes l'; Ok (b :: bs)
      | None => raise ValueError
      end
  end.

Definition len {A} (l : list A) : Z := Z.of_nat (length l).

(** [data[pos]] on a byte string, negative indices counting from the end *)
Definition bytes_getitem (data : bytes) (pos : Z) : result Z :=
  let i := if pos <? 0 then pos + len data else pos in
  if i <? 0 then raise IndexError
  else match data !! Z.to_nat i with
       | Some b => Ok (byte_to_Z b)
       | None => raise IndexError
       end.

(** [data[lo:hi]] with Python's clamping of the two bounds *)
Definition slice_bound {A} (l : list A) (i : Z) : nat :=
  let i := if i <? 0 then Z.max 0 (i + len l) else Z.min i (len l) in
  Z.to_nat i.

Definition py_slice {A} (l : list A) (lo hi : Z) : list A :=
  let lo' := slice_bound l lo in
  let hi' := slice_bound l hi in
  take (hi' - lo') (drop lo' l).

Definition bytes_of_str (s : string) : bytes := list_byte_of_string s.
Definition str_of_bytes (b : bytes) : string := string_of_list_byte b.

(** ** Varints ([MajsoulCodec._encode_varint], [MajsoulCodec._decode_varint]) *)

Module Varint.

(** The [while value > 127] loop; [acc] is the list [result]. *)
Fixpoint encode_loop (fuel : nat) (value : Z) (acc : list Z) : result (list Z) :=
  match fuel with
  | O => OutOfFuel
  | S fuel' =>
      if value >? 127
      then encode_loop fuel' (Z.shiftr value 7)
                       (acc ++ [Z.lor (Z.land value 0x7F) 0x80])
      else Ok (acc ++ [value])
  end.

(** The loop shifts [value] right by 7 bits per iteration, so one more than
  the bit length of [value] iterations are always enough. *)
Definition encode_fuel (value : Z) : nat := S (Z.to_nat (Z.log2 value)).

Definition _encode_varint (value : Z) : result bytes :=
  l ← encode_loop (encode_fuel value) value [];
  py_bytes l.

(** The [while True] loop; it reads one byte per iteration and leaves by
  [break] or by the [IndexError] of [data[pos]]. *)
Fixpoint decode_loop (fuel : nat) (data : bytes) (pos result_ shift : Z)
  : result (Z * Z) :=
  match fuel with
  | O => OutOfFuel
  | S fuel' =>
      byte ← bytes_getitem data pos;
      let result_ := Z.lor result_ (Z.shiftl (Z.land byte 0x7F) shift) in
      let pos := pos + 1 in
      if Z.land byte 0x80 =? 0
      then Ok (result_, pos)
      else decode_loop fuel' data pos result_ (shift + 7)
  end.

Definition _decode_varint (data : bytes) (pos : Z) : result (Z * Z) :=
  decode_loop (S (length data)) data pos 0 0.

End Varint.
Export Varint.

(** ** Encoding of fields ([_encode_field], [_encode_string]) *)

Definition _encode_field (field_num wire_type : Z) (value : bytes) : result bytes :=
  let tag := Z.lor (Z.shiftl field_num 3) wire_type in
  t ← _encode_varint tag;
  Ok (t ++ value).

Definition _encode_string (field_num : Z) (value : bytes) : result bytes :=
  l ← _encode_varint (len value);
  _encode_field field_num 2 (l ++ value).

Definition bs (l : list Z) : bytes :=
  match py_bytes l with Ok b => b | _ => [] end.

(** ** Python values and dicts *)

#[local] Set Warnings "-register-all".

Inductive PyVal :=
  | VNone
  | VBool (b : bool)
  | VInt (z : Z)
  | VStr (s : string)
  | VBytes (b : bytes)
  | VList (l : list PyVal)
  | VDict (d : list (string * PyVal)).

(** A [dict] with string keys, in insertion order. *)
Abbreviation dict V := (list (string * V)).

Fixpoint dict_get {V} (d : dict V) (k : string) : option V :=
  match d with
  | [] => None
  | (k', v) :: d' => if String.eqb k' k then Some v else dict_get d' k
  end.

(** [d[k] = v]: an existing key keeps its place, a new one goes last. *)
Fixpoint dict_set {V} (d : dict V) (k : string) (v : V) : dict V :=
  match d with
  | [] => [(k, v)]
  | (k', v') :: d' =>
      if String.eqb k' k then (k', v) :: d' else (k', v') :: dict_set d' k v
  end.

Definition dict_has {V} (d : dict V) (k : string) : bool :=
  match dict_get d k with Some _ => true | None => false end.

(** Truth value of an object ([if v:], [not v]) *)
Definition truthy (v : PyVal) : bool :=
  match v with
  | VNone => false
  | VBool b => b
  | VInt z => negb (z =? 0)
  | VStr s => negb (String.eqb s "")
  | VBytes b => negb (Nat.eqb (length b) 0)
  | VList l => negb (Nat.eqb (length l) 0)
  | VDict d => negb (Nat.eqb (length d) 0)
  end.

(** ** UTF-8 and base64 *)

Definition in_range (lo hi : Z) (b : byte) : bool :=
  (lo <=? byte_to_Z b) && (byte_to_Z b <=? hi).

(** Well-formed UTF-8 (no overlong forms, no surrogates, at most U+10FFFF),
    as the strict error handler of [bytes.decode] requires. *)
Fixpoint utf8_valid (l : bytes) : bool :=
  match l with
  | [] => true
  | b0 :: l1 =>
      if in_range 0x00 0x7F b0 then utf8_valid l1
      else match l1 with
      | [] => false
      | b1 :: l2 =>
          if in_range 0xC2 0xDF b0 then in_range 0x80 0xBF b1 && utf8_valid l2
          else match l2 with
          | [] => false
          | b2 :: l3 =>
              if in_range 0xE0 0xEF b0 then
                (if in_range 0xE0 0xE0 b0 then in_range 0xA0 0xBF b1
                 else if in_range 0xED 0xED b0 then in_range 0x80 0x9F b1
                 else in_range 0x80 0xBF b1)
                && in_range 0x80 0xBF b2 && utf8_valid l3
              else match l3 with
              | [] => false
              | b3 :: l4 =>
                  if in_range 0xF0 0xF4 b0 then
                    (if in_range 0xF0 0xF0 b0 then in_range 0x90 0xBF b1
                     else if in_range 0xF4 0xF4 b0 then in_range 0x80 0x8F b1
                     else in_range 0x80 0xBF b1)
                    && in_range 0x80 0xBF b2 && in_range 0x80 0xBF b3
                    && utf8_valid l4
                  else false
              end
          end
      end
  end.

(** [value.decode("utf-8")] *)
Definition decode_utf8 (value : bytes) : result string :=
  if utf8_valid value then Ok (str_of_bytes value) else raise UnicodeDecodeError.

Definition b64_alphabet : string :=
  "ABCDEFGHIJKLMNOPQRSTUVWXYZabcdefghijklmnopqrstuvwxyz0123456789+/".

Definition b64_char (i : Z) : string :=
  match String.get (Z.to_nat (Z.land i 63)) b64_alphabet with
  | Some c => String c EmptyString
  | None => EmptyString
  end.

(** [base64.b64encode(data).decode()] *)
Fixpoint b64encode (data : bytes) : string :=
  match data with
  | [] => ""
  | [a] =>
      let n := Z.shiftl (byte_to_Z a) 16 in
      b64_char (Z.shiftr n 18) +:+ b64_char (Z.shiftr n 12) +:+ "=="
  | [a; b] =>
      let n := Z.lor (Z.shiftl (byte_to_Z a) 16) (Z.shiftl (byte_to_Z b) 8) in
      b64_char (Z.shiftr n 18) +:+ b64_char (Z.shiftr n 12)
        +:+ b64_char (Z.shiftr n 6) +:+ "="
  | a :: b :: c :: rest =>
      let n := Z.lor (Z.lor (Z.shiftl (byte_to_Z a) 16) (Z.shiftl (byte_to_Z b) 8))
                     (byte_to_Z c) in
      b64_char (Z.shiftr n 18) +:+ b64_char (Z.shiftr n 12)
        +:+ b64_char (Z.shiftr n 6) +:+ b64_char n +:+ b64encode rest
  end.

(** ** The schema-driven codec ([MajsoulCodec]) *)

(** One entry of a message type's ["fields"]: its ["id"], ["type"] and
    optional ["rule"]. *)
Record FieldDef := mk_field {
  fd_id : Z;
  fd_type : string;
  fd_rule : option string
}.

(** A registered message type is kept by its ["fields"], in the order of the
    schema; a service by its ["methods"], each with its request and response
    type. *)
Abbreviation TypeDef := (dict FieldDef).

Record MethodDef := mk_method {
  requestType : string;
  responseType : string
}.

Abbreviation ServiceDef := (dict MethodDef).

Module Codec.

Section WithRegistry.

(** [self.types] *)
Variable types : gmap string TypeDef.

(** [int(s)] for a [str] and for a [bytes] argument: the builtin parser of
    integer literals, which the codec calls on integer fields *)
Variable int_of_str : string → result Z.
Variable int_of_bytes : bytes → result Z.

(** [self.types.get(name)], then [self.types.get(f"lq.{name}")].  A
    registered type definition is a non-empty dict, hence true. *)
Definition lookup_type (type_name : string) : option TypeDef :=
  match types !! type_name with
  | Some type_def => Some type_def
  | None => types !! ("lq." +:+ type_name)
  end.

(** [field_type in self.types or f"lq.{field_type}" in self.types] *)
Definition is_message_type (field_type : string) : bool :=
  bool_decide (is_Some (types !! field_type))
  || bool_decide (is_Some (types !! ("lq." +:+ field_type))).

Definition is_int_type (field_type : string) : bool :=
  String.eqb field_type "int32" || String.eqb field_type "int64"
  || String.eqb field_type "uint32" || String.eqb field_type "uint64".

(** [self._encode_string(field_id, value)] for an arbitrary object: only a
    bytes value has both a [len] and a [bytes + value]. *)
Definition encode_string_obj (field_id : Z) (value : PyVal) : result bytes :=
  match value with
  | VBytes b => _encode_string field_id b
  | _ => raise TypeError
  end.

(** [int(value)] *)
Definition py_int (value : PyVal) : result Z :=
  match value with
  | VInt z => Ok z
  | VBool b => Ok (if b then 1 else 0)
  | VStr s => int_of_str s
  | VBytes b => int_of_bytes b
  | VNone | VList _ | VDict _ => raise TypeError
  end.

(** [_encode_single_field]; [encode_nested] stands for the recursive call
    of [_encode_message]. *)
Definition _encode_single_field
    (encode_nested : string → dict PyVal → result bytes)
    (field_id : Z) (field_type : string) (value : PyVal) : result bytes :=
  match value with
  | VNone => Ok []
  | _ =>
      if String.eqb field_type "string" then
        match value with
        | VStr s => _encode_string field_id (bytes_of_str s)
        | _ => encode_string_obj field_id value
        end
      else if String.eqb field_type "bytes" then
        encode_string_obj field_id value
      else if is_int_type field_type then
        i ← py_int value;
        v ← _encode_varint i;
        _encode_field field_id 0 v
      else if String.eqb field_type "bool" then
        v ← _encode_varint (if truthy value then 1 else 0);
        _encode_field field_id 0 v
      else if is_message_type field_type then
        match value with
        | VDict d =>
            nested_bytes ← encode_nested field_type d;
            _encode_string field_id nested_bytes
        | _ => Ok []
        end
      else Ok []
  end.

(** [for item in value: result += self._encode_single_field(...)] *)
Fixpoint encode_items (encode_nested : string → dict PyVal → result bytes)
    (field_id : Z) (field_type : string) (items : list PyVal)
    (result_ : bytes) : result bytes :=
  match items with
  | [] => Ok result_
  | item :: items' =>
      r ← _encode_single_field encode_nested field_id field_type item;
      encode_items encode_nested field_id field_type items' (result_ ++ r)
  end.

(** The loop [for field_name, field_def in fields.items()] *)
Fixpoint encode_fields (encode_nested : string → dict PyVal → result bytes)
    (fields : TypeDef) (data : dict PyVal) (result_ : bytes) : result bytes :=
  match fields with
  | [] => Ok result_
  | (field_name, field_def) :: fields' =>
      match dict_get data field_name with
      | None => encode_fields encode_nested fields' data result_
      | Some value =>
          let field_id := fd_id field_def in
          let field_type := fd_type field_def in
          let is_repeated :=
            bool_decide (fd_rule field_def = Some "repeated") in
          result_ ←
            match value with
            | VList items =>
                if is_repeated
                then encode_items encode_nested field_id field_type items result_
                else r ← _encode_single_field encode_nested field_id field_type value;
                     Ok (result_ ++ r)
            | _ =>
                r ← _encode_single_field encode_nested field_id field_type value;
                Ok (result_ ++ r)
            end;
          encode_fields encode_nested fields' data result_
      end
  end.

(** [_encode_message], with a bound on the nesting depth of [data]. *)
Fixpoint encode_message_fuel (fuel : nat) (type_name : string)
    (data : dict PyVal) : result bytes :=
  match lookup_type type_name with
  | None => Raise (mk_exn ValueError ("Unknown type: " +:+ type_name))
  | Some type_def =>
      match fuel with
      | O => OutOfFuel
      | S fuel' => encode_fields (encode_message_fuel fuel') type_def data []
      end
  end.

(** Nesting depth of dicts in a value: the recursion depth of
    [_encode_message] on it. *)
Fixpoint depth (v : PyVal) : nat :=
  match v with
  | VDict d => S (list_max (map (λ kv, depth (snd kv)) d))
  | VList l => list_max (map depth l)
  | _ => O
  end.

Definition _encode_message (type_name : string) (data : dict PyVal) : result bytes :=
  encode_message_fuel (depth (VDict data)) type_name data.

(** *** Decoding *)

(** [{f["id"]: (name, f) for name, f in fields.items()}]: of two fields
    with one id the later one stays. *)
Definition field_by_id (fields : TypeDef) : gmap Z (string * FieldDef) :=
  foldl (λ m nf, <[fd_id (snd nf) := nf]> m) ∅ fields.

(** The length-delimited branch of a known field: the value stored under
    the field's name.  [decode_nested] stands for the recursive call. *)
Definition decode_delimited
    (decode_nested : string → bytes → result PyVal)
    (field_type : string) (value : bytes) : result PyVal :=
  if String.eqb field_type "string" then
    s ← decode_utf8 value; Ok (VStr s)
  else if String.eqb field_type "bytes" then
    Ok (VStr (b64encode value))
  else if is_message_type field_type then
    decode_nested field_type value
  else Ok (VStr (b64encode value)).

(** One iteration of the loop [while pos < len(data)], from the read of the
    tag: the new [pos] and [result]. *)
Definition decode_record
    (decode_nested : string → bytes → result PyVal)
    (by_id : gmap Z (string * FieldDef))
    (data : bytes) (pos : Z) (result_ : dict PyVal)
  : result (Z * dict PyVal) :=
  '(tag, pos) ← _decode_varint data pos;
  let field_id := Z.shiftr tag 3 in
  let wire_type := Z.land tag 0x7 in
  match by_id !! field_id with
  | None =>
      (* Skip unknown field *)
      if wire_type =? 0 then
        '(_, pos) ← _decode_varint data pos;
        Ok (pos, result_)
      else if wire_type =? 2 then
        '(length, pos) ← _decode_varint data pos;
        Ok (pos + length, result_)
      else Ok (pos, result_)
  | Some (field_name, field_def) =>
      let field_type := fd_type field_def in
      if wire_type =? 0 then
        '(value, pos) ← _decode_varint data pos;
        let value :=
          if String.eqb field_type "bool" then VBool (negb (value =? 0))
          else VInt value in
        Ok (pos, dict_set result_ field_name value)
      else if wire_type =? 2 then
        '(length, pos) ← _decode_varint data pos;
        let value := py_slice data pos (pos + length) in
        let pos := pos + length in
        v ← decode_delimited decode_nested field_type value;
        Ok (pos, dict_set result_ field_name v)
      else Ok (pos, result_)
  end.

Fixpoint decode_loop (decode_nested : string → bytes → result PyVal)
    (by_id : gmap Z (string * FieldDef)) (fuel : nat)
    (data : bytes) (pos : Z) (result_ : dict PyVal) : result (dict PyVal) :=
  match fuel with
  | O => OutOfFuel
  | S fuel' =>
      if pos <? len data then
        '(pos, result_) ← decode_record decode_nested by_id data pos result_;
        decode_loop decode_nested by_id fuel' data pos result_
      else Ok result_
  end.

(** [_decode_message], with a bound on the depth of nested messages; every
    level runs its loop at most [len(data)] times. *)
Fixpoint decode_message_fuel (fuel : nat) (type_name : string) (data : bytes)
  : result PyVal :=
  match lookup_type type_name with
  | None => Ok (VDict [("_raw", VStr (b64encode data))])
  | Some type_def =>
      match fuel with
      | O => OutOfFuel
      | S fuel' =>
          r ← decode_loop (decode_message_fuel fuel') (field_by_id type_def)
                (S (length data)) data 0 [];
          Ok (VDict r)
      end
  end.

(** A nested message is a strict part of its parent's bytes, so the depth
    never exceeds the length of [data]. *)
Definition _decode_message (type_name : string) (data : bytes) : result PyVal :=
  decode_message_fuel (S (length data)) type_name data.

End WithRegistry.

End Codec.

(** *** Well-formed buffers

    The buffers that the codec itself writes are sequences of records of
    wire type 0 (a tag and a varint) and wire type 2 (a tag, a length and as
    many bytes), built by [_encode_field] and [_encode_string]. *)

Inductive WireRecord :=
  | WVarint (field_num : Z) (value : Z)
  | WDelimited (field_num : Z) (value : bytes).

Definition wire_field_num (r : WireRecord) : Z :=
  match r with
  | WVarint field_num _ => field_num
  | WDelimited field_num _ => field_num
  end.

Definition encode_wire_record (r : WireRecord) : result bytes :=
  match r with
  | WVarint field_num value =>
      v ← _encode_varint value;
      _encode_field field_num 0 v
  | WDelimited field_num value => _encode_string field_num value
  end.

Fixpoint encode_wire_records (records : list WireRecord) : result bytes :=
  match records with
  | [] => Ok []
  | r :: records' =>
      b ← encode_wire_record r;
      rest ← encode_wire_records records';
      Ok (b ++ rest)
  end.

(** Field numbers and varint values are not negative. *)
Definition wire_record_ok (r : WireRecord) : Prop :=
  match r with
  | WVarint field_num value => 0 ≤ field_num ∧ 0 ≤ value
  | WDelimited field_num _ => 0 ≤ field_num
  end.

(** Whether the field number of a record is defined for a message type *)
Definition known_record (fields : TypeDef) (r : WireRecord) : bool :=
  bool_decide (is_Some (Codec.field_by_id fields !! wire_field_num r)).

(** What a record contributes to the decoded dict: nothing when its field
    number is not defined for the type, else the value stored under the
    name of the field. *)
Definition store_record (types : gmap string TypeDef)
    (decode_nested : string → bytes → result PyVal)
    (by_id : gmap Z (string * FieldDef))
    (result_ : dict PyVal) (r : WireRecord) : result (dict PyVal) :=
  match by_id !! wire_field_num r with
  | None => Ok result_
  | Some (field_name, field_def) =>
      match r with
      | WVarint _ value =>
          Ok (dict_set result_ field_name
                (if String.eqb (fd_type field_def) "bool"
                 then VBool (negb (value =? 0)) else VInt value))
      | WDelimited _ value =>
          v ← Codec.decode_delimited types decode_nested (fd_type field_def) value;
          Ok (dict_set result_ field_name v)
      end
  end.

(** The records of a buffer taken in order, from a given dict *)
Fixpoint store_records (types : gmap string TypeDef)
    (decode_nested : string → bytes → result PyVal)
    (by_id : gmap Z (string * FieldDef))
    (result_ : dict PyVal) (records : list WireRecord) : result (dict PyVal) :=
  match records with
  | [] => Ok result_
  | r :: records' =>
      result_ ← store_record types decode_nested by_id result_ r;
      store_records types decode_nested by_id result_ records'
  end.

(** Two decoders of nested messages that agree on the byte strings shorter
    than [data] *)
Definition agree_below (data : bytes) (D1 D2 : string → bytes → result PyVal) : Prop :=
  ∀ name (v : bytes), (length v < length data)%nat → D1 name v = D2 name v.

(** A decoder of nested messages that returns on the byte strings shorter
    than [data] *)
Definition returns_below (data : bytes) (D : string → bytes → result PyVal) : Prop :=
  ∀ name (v : bytes), (length v < length data)%nat → D name v ≠ OutOfFuel.

(** *** Complete records

    On the wire a varint is any run of bytes with the continuation bit
    [0x80] closed by one byte without it, whether or not it is the shortest
    one for its value; a record of wire type 0 is a tag and a varint, a
    record of wire type 2 a tag, a length and as many bytes. *)

(** Whether a byte string is one complete varint *)
Fixpoint is_varint (b : bytes) : bool :=
  match b with
  | [] => false
  | x :: rest =>
      if Z.land (byte_to_Z x) 0x80 =? 0
      then match rest with [] => true | _ :: _ => false end
      else is_varint rest
  end.

(** The integer that a varint stands for: groups of 7 bits, the lowest
    first *)
Fixpoint varint_value (b : bytes) : Z :=
  match b with
  | [] => 0
  | x :: rest => Z.lor (Z.land (byte_to_Z x) 0x7F) (Z.shiftl (varint_value rest) 7)
  end.

(** A record as its bytes: the tag and the value of a varint record; the
    tag, the length and the payload of a length-delimited one *)
Inductive RawRecord :=
  | RVarint (tag value : bytes)
  | RDelimited (tag length_ value : bytes).

Definition raw_bytes (r : RawRecord) : bytes :=
  match r with
  | RVarint tag value => tag ++ value
  | RDelimited tag length_ value => tag ++ length_ ++ value
  end.

(** The buffer made of the records, one after the other *)
Definition raw_buffer (records : list RawRecord) : bytes :=
  concat (map raw_bytes records).

(** A complete record of wire type 0 or 2 *)
Definition raw_record_ok (r : RawRecord) : Prop :=
  match r with
  | RVarint tag value =>
      is_varint tag = true ∧ is_varint value = true
      ∧ Z.land (varint_value tag) 0x7 = 0
  | RDelimited tag length_ value =>
      is_varint tag = true ∧ is_varint length_ = true
      ∧ Z.land (varint_value tag) 0x7 = 2
      ∧ varint_value length_ = len value
  end.

(** The field number and the value that a record carries *)
Definition wire_of_raw (r : RawRecord) : WireRecord :=
  match r with
  | RVarint tag value => WVarint (Z.shiftr (varint_value tag) 3) (varint_value value)
  | RDelimited tag _ value => WDelimited (Z.shiftr (varint_value tag) 3) value
  end.

(** Whether the field number of a record is defined for a message type *)
Definition known_raw (fields : TypeDef) (r : RawRecord) : bool :=
  known_record fields (wire_of_raw r).

(** *** The example schema [Foo{bar: {id: 1, type: "string"}}] *)

Definition Foo_types : gmap string TypeDef :=
  {[ "Foo" := [("bar", mk_field 1 "string" None)] ]}.

(** The field [bar] holding "hi", then the unregistered field 2 holding 0 in
    two bytes, [80 00], where the shortest varint is the one byte [00] *)
Definition Foo_then_unknown : list RawRecord :=
  [ RDelimited (bs [0x0a]) (bs [2]) (bytes_of_str "hi");
    RVarint (bs [0x10]) (bs [0x80; 0x00]) ].

Definition no_int_of_str (s : string) : result Z := raise ValueError.
Definition no_int_of_bytes (b : bytes) : result Z := raise ValueError.


(** ** Requests ([MajsoulCodec.encode_request]) *)

(** [s.lstrip(".")] *)
Fixpoint lstrip_dot (s : string) : string :=
  match s with
  | String "." s' => lstrip_dot s'
  | _ => s
  end.

(** [s.split(".")]; [cur] is the part being read, reversed. *)
Fixpoint split_dot_aux (s : string) (cur : string) : list string :=
  match s with
  | EmptyString => [String.rev cur]
  | String "." s' => String.rev cur :: split_dot_aux s' ""
  | String c s' => split_dot_aux s' (String c cur)
  end.

Definition split_dot (s : string) : list string := split_dot_aux s "".

(** [".".join(parts)] *)
Fixpoint join_dot (parts : list string) : string :=
  match parts with
  | [] => ""
  | [p] => p
  | p :: parts' => p +:+ "." +:+ join_dot parts'
  end.

(** [struct.pack("<H", n)] *)
Definition pack_H (n : Z) : result bytes :=
  if (0 <=? n) && (n <=? 65535)
  then py_bytes [Z.land n 0xFF; Z.shiftr n 8]
  else raise StructError.

Module MsgType.
Definition NOTIFY : Z := 1.
Definition REQUEST : Z := 2.
Definition RESPONSE : Z := 3.
End MsgType.

(** The mutable part of a codec object *)
Record CodecState := mk_codec {
  msg_index : Z;
  pending_requests : gmap Z (string * string)
}.

(** The state [__init__] leaves *)
Definition codec_init : CodecState := mk_codec 0 ∅.

Section Requests.

Variable types : gmap string TypeDef.
Variable services : gmap string ServiceDef.
Variable int_of_str : string → result Z.
Variable int_of_bytes : bytes → result Z.

(** The part of [encode_request] after [msg_id] is taken and before the
    pending entry is stored: the method's request and response types. *)
Definition resolve_method (method_name : string) : result (string * string) :=
  let parts := split_dot (lstrip_dot method_name) in
  if 3 <=? len parts then
    let service_name := join_dot (removelast parts) in
    let method := List.last parts "" in
    match services !! service_name with
    | None => Raise (mk_exn ValueError ("Unknown service: " +:+ service_name))
    | Some service =>
        match dict_get service method with
        | None => Raise (mk_exn ValueError ("Unknown method: " +:+ method))
        | Some method_def => Ok (requestType method_def, responseType method_def)
        end
    end
  else Raise (mk_exn ValueError ("Invalid method name: " +:+ method_name)).

(** The frame, once the method is resolved *)
Definition build_frame (msg_id : Z) (method_name request_type : string)
    (payload : dict PyVal) : result bytes :=
  request_data ← Codec._encode_message types int_of_str int_of_bytes request_type payload;
  w1 ← _encode_string 1 (bytes_of_str method_name);
  w2 ← _encode_string 2 request_data;
  let wrapper_data := w1 ++ w2 in
  t ← py_bytes [MsgType.REQUEST];
  i ← pack_H msg_id;
  Ok (t ++ i ++ wrapper_data).

(** [encode_request]: the codec after the call (the counter is advanced
    and the pending entry stored even when a later step raises) and the
    frame or the exception. *)
Definition encode_request (self : CodecState) (method_name : string)
    (payload : dict PyVal) : CodecState * result bytes :=
  let self := mk_codec (msg_index self + 1) (pending_requests self) in
  let msg_id := msg_index self in
  match resolve_method method_name with
  | Ok (request_type, response_type) =>
      let self := mk_codec (msg_index self)
                    (<[msg_id := (method_name, response_type)]> (pending_requests self)) in
      (self, build_frame msg_id method_name request_type payload)
  | Raise e => (self, Raise e)
  | OutOfFuel => (self, OutOfFuel)
  end.

(** A session: the codec after a sequence of calls, whatever their
    outcome, and the frames or exceptions of the calls in order. *)
Fixpoint encode_requests (self : CodecState) (calls : list (string * dict PyVal))
  : CodecState * list (result bytes) :=
  match calls with
  | [] => (self, [])
  | (method_name, payload) :: calls' =>
      let '(self, r) := encode_request self method_name payload in
      let '(self, rs) := encode_requests self calls' in
      (self, r :: rs)
  end.

End Requests.

(** A sample registry, with the heartbeat method of the lobby service as the
    schema resource declares it. *)
Definition sample_types : gmap string TypeDef :=
  {[ "lq.ReqHeatBeat" := [("no_operation_counter", mk_field 1 "uint32" None)];
     "lq.ResCommon" := [("error", mk_field 1 "Error" None)] ]}.

Definition sample_services : gmap string ServiceDef :=
  {[ "lq.Lobby" := [("heatbeat", mk_method "ReqHeatBeat" "ResCommon")] ]}.

Definition heartbeat : string * dict PyVal :=
  (".lq.Lobby.heatbeat", [("no_operation_counter", VInt 0)]).

(** ** The record cipher ([decode_record_data]) *)

Definition DECODE_KEYS : list Z :=
  [0x84; 0x5e; 0x4e; 0x42; 0x39; 0xa2; 0x1f; 0x60; 0x1c].

(** [l[i]] on a list of ints, for [i >= 0] *)
Definition list_getitem (l : list Z) (i : Z) : result Z :=
  if i <? 0 then raise IndexError
  else match l !! Z.to_nat i with
       | Some x => Ok x
       | None => raise IndexError
       end.

(** [data[i] = x] on a bytearray, for [0 <= i < len(data)] *)
Definition bytearray_setitem (data : bytes) (i : Z) (x : Z) : result bytes :=
  if (i <? 0) || (len data <=? i) then raise IndexError
  else match byte_of_Z x with
       | Some b => Ok (<[Z.to_nat i := b]> data)
       | None => raise ValueError
       end.

(** The body of the loop: [u = ... & 255; data[i] ^= u].  In Python [&]
    binds weaker than [+], so the mask applies to the whole sum. *)
Definition xor_step (data : bytes) (i : Z) : result bytes :=
  k ← list_getitem DECODE_KEYS (i mod len DECODE_KEYS);
  let u := Z.land (Z.lxor 23 (len data) + 5 * i + k) 255 in
  b ← bytes_getitem data i;
  bytearray_setitem data i (Z.lxor b u).

(** [for i in range(len(data))] over the indices still to visit *)
Fixpoint xor_loop (indices : list nat) (data : bytes) : result bytes :=
  match indices with
  | [] => Ok data
  | i :: indices' =>
      data ← xor_step data (Z.of_nat i);
      xor_loop indices' data
  end.

Definition decode_record_data (data : bytes) : result bytes :=
  xor_loop (seq 0 (length data)) data.

(** The keystream as the specification words it: the key byte at index [i]
    of a buffer of [n] bytes is ((23 XOR n) + 5 i + TABLE[i mod 9]) mod 256. *)
Definition keystream (n i : Z) : Z :=
  (Z.lxor 23 n + 5 * i + nth (Z.to_nat (i mod 9)) DECODE_KEYS 0) mod 256.

(** ** Connecting ([MajsoulClient.connect]) *)

(** [v.get(k, default)], which only a dict has *)
Definition py_get (v : PyVal) (k : string) (default : PyVal) : result PyVal :=
  match v with
  | VDict d => Ok (match dict_get d k with Some x => x | None => default end)
  | _ => raise AttributeError
  end.

(** [str(last_error)] *)
Definition str_of_error (e : option exn) : string :=
  match e with
  | Some e => exn_msg e
  | None => "None"
  end.

Module Client.

Section WithNetwork.

(** The network and the clock are a state [World] that every request
    reads and changes; a socket is a [Socket]. *)
Variable World : Type.
Variable Socket : Type.

(** [self._fetch_json(url, bust_cache=True)]: the parsed JSON document or
    the exception of the HTTP request *)
Variable fetch_json : World → string → World * result PyVal.

(** [websockets.connect(ws_url, additional_headers=...)] *)
Variable ws_connect : World → string → World * result Socket.

(** The fields of the client that [connect] reads and writes, and the
    lines printed so far *)
Record Client := mk_client {
  ws : option Socket;
  version : string;
  stdout : list string
}.

Definition print (self : Client) (line : string) : Client :=
  mk_client (ws self) (version self) (stdout self ++ [line]).

Definition route_url (self : Client) (server : string) : string :=
  "https://" +:+ server +:+ "/api/clientgate/routes?platform=Web&version="
    +:+ version self.

Definition ws_url (server : string) : string := "wss://" +:+ server +:+ "/gateway".

(** The inner [try]: whether the probe reports maintenance.  Any exception
    of the request or of the two [get]s is passed over. *)
Definition reports_maintenance (probe : result PyVal) : bool :=
  match probe with
  | Ok route_info =>
      match py_get route_info "data" (VDict []) with
      | Ok data =>
          match py_get data "maintenance" VNone with
          | Ok m => truthy m
          | _ => false
          end
      | _ => false
      end
  | _ => false
  end.

(** How one turn of [for server in servers] ends: by [continue] after the
    maintenance message, by [return], or in the [except] clause with the
    exception of the socket upgrade. *)
Inductive Attempt :=
  | Maintenance
  | Connected
  | Failed (e : exn)
  | AttemptOutOfFuel.

(** The body of the loop *)
Definition attempt (w : World) (self : Client) (server : string)
  : World * Client * Attempt :=
  let '(w, probe) := fetch_json w (route_url self server) in
  if reports_maintenance probe then
    (w, print self ("Server " +:+ server +:+ " is under maintenance"), Maintenance)
  else
    let self := print self ("Connecting to " +:+ ws_url server +:+ "...") in
    let '(w, r) := ws_connect w (ws_url server) in
    match r with
    | Ok sock =>
        let self := mk_client (Some sock) (version self) (stdout self) in
        (w, print self "Connected!", Connected)
    | Raise e =>
        (w, print self ("Failed to connect to " +:+ server +:+ ": " +:+ exn_msg e),
         Failed e)
    | OutOfFuel => (w, self, AttemptOutOfFuel)
    end.

(** The loop [for server in servers] and the final [raise] *)
Fixpoint connect_loop (servers : list string) (w : World) (self : Client)
    (last_error : option exn) : World * Client * result unit :=
  match servers with
  | [] =>
      (w, self,
       Raise (mk_exn Exception
                ("Failed to connect to any server: " +:+ str_of_error last_error)))
  | server :: servers' =>
      match attempt w self server with
      | (w, self, Maintenance) => connect_loop servers' w self last_error
      | (w, self, Connected) => (w, self, Ok tt)
      | (w, self, Failed e) => connect_loop servers' w self (Some e)
      | (w, self, AttemptOutOfFuel) => (w, self, OutOfFuel)
      end
  end.

(** [self._get_server_list()]: the chain of resource requests that sets
    [self.version] and the codec and returns the candidate hosts.  Only its
    outcome matters to [connect]. *)
Variable _get_server_list : World → Client → World * Client * result (list string).

Definition connect (w : World) (self : Client) : World * Client * result unit :=
  match _get_server_list w self with
  | (w, self, Ok servers) =>
      match servers with
      | [] => (w, self, Raise (mk_exn Exception "No servers available"))
      | _ => connect_loop servers w self None
      end
  | (w, self, Raise e) => (w, self, Raise e)
  | (w, self, OutOfFuel) => (w, self, OutOfFuel)
  end.

(** What the document of a probe must hold for the candidate to be skipped
    as under maintenance: [route_info["data"]["maintenance"]], present and
    true.  A probe that raised, or whose document has another shape, does
    not say so. *)
Definition says_maintenance (probe : result PyVal) : Prop :=
  ∃ route_info data m,
    probe = Ok (VDict route_info)
    ∧ dict_get route_info "data" = Some (VDict data)
    ∧ dict_get data "maintenance" = Some m
    ∧ truthy m = true.

(** Candidates that are all passed over, told by the outcomes of their
    requests alone, from the network [w] and for the client [self] as
    [_get_server_list] left it: each one either has a probe that says
    maintenance, and then no upgrade is tried, or has a probe that does not
    and an upgrade that raises.  The network after the last of them, the
    exceptions of the upgrades and the lines printed, in order. *)
Inductive passed_over (self : Client)
  : list string → World → World → list exn → list string → Prop :=
  | passed_none w : passed_over self [] w w [] []
  | passed_maintenance server servers w w1 probe w' errors lines :
      fetch_json w (route_url self server) = (w1, probe) →
      says_maintenance probe →
      passed_over self servers w1 w' errors lines →
      passed_over self (server :: servers) w w' errors
        (("Server " +:+ server +:+ " is under maintenance") :: lines)
  | passed_failed server servers w w1 probe w2 e w' errors lines :
      fetch_json w (route_url self server) = (w1, probe) →
      ¬ says_maintenance probe →
      ws_connect w1 (ws_url server) = (w2, Raise e) →
      passed_over self servers w2 w' errors lines →
      passed_over self (server :: servers) w w' (e :: errors)
        (("Connecting to " +:+ ws_url server +:+ "...")
         :: ("Failed to connect to " +:+ server +:+ ": " +:+ exn_msg e)
         :: lines).

End WithNetwork.

(** A sample network: the host [a.example] refuses the socket upgrade and
    its maintenance probe times out, the host [b.example] accepts; the state
    of the network counts the requests made. *)
Definition sample_fetch_json (w : nat) (url : string) : nat * result PyVal :=
  (S w, Raise (mk_exn OSError "timed out")).

Definition sample_ws_connect (w : nat) (url : string) : nat * result string :=
  if String.eqb url "wss://b.example/gateway"
  then (S w, Ok url)
  else (S w, Raise (mk_exn OSError "connection refused")).

Definition sample_client : Client string := mk_client string None "" [].

Definition sample_get_server_list (w : nat) (self : Client string)
  : nat * Client string * result (list string) :=
  (w + 4, mk_client string (ws string self) "0.11.1.w" (stdout string self),
   Ok ["a.example"; "b.example"])%nat.

(** A second network, of four hosts: [m.example] answers its probe with a
    maintenance notice; the probe of [a.example] times out and its socket
    upgrade is refused; [b.example] answers its probe with a document
    without notice and accepts the upgrade; [c.example] is never reached.
    The state of the network is the list of the URLs requested. *)
Definition route_fetch_json (w : list string) (url : string)
  : list string * result PyVal :=
  (w ++ [url],
   if String.prefix "https://m.example/" url then
     Ok (VDict [("data", VDict [("maintenance", VDict [("message", VStr "down")])])])
   else if String.prefix "https://b.example/" url then
     Ok (VDict [("data", VDict [])])
   else Raise (mk_exn OSError "timed out")).

Definition route_ws_connect (w : list string) (url : string)
  : list string * result string :=
  (w ++ [url],
   if String.eqb url "wss://b.example/gateway" then Ok url
   else Raise (mk_exn OSError "connection refused")).

Definition route_get_server_list (w : list string) (self : Client string)
  : list string * Client string * result (list string) :=
  (w, mk_client string (ws string self) "0.11.1.w" (stdout string self),
   Ok ["m.example"; "a.example"; "b.example"; "c.example"]).

End Client.

(** ** Record parsing ([parse_single_pb], [parse_game_record]) *)

(** [key in v] for a string [key] *)
Definition py_contains (key : string) (v : PyVal) : result bool :=
  match v with
  | VDict d => Ok (dict_has d key)
  | VList l =>
      Ok (existsb (λ x, match x with VStr s => String.eqb s key | _ => false end) l)
  | VStr s => Ok (bool_decide (is_Some (String.index 0 key s)))
  | VNone | VBool _ | VInt _ | VBytes _ => raise TypeError
  end.

(** [v[key]] for a string [key] *)
Definition py_getitem (v : PyVal) (key : string) : result PyVal :=
  match v with
  | VDict d =>
      match dict_get d key with
      | Some x => Ok x
      | None => Raise (mk_exn KeyError key)
      end
  | _ => raise TypeError
  end.

(** [v[key] = x] for a string [key] *)
Definition py_setitem (v : PyVal) (key : string) (x : PyVal) : result PyVal :=
  match v with
  | VDict d => Ok (VDict (dict_set d key x))
  | _ => raise TypeError
  end.

(** [v.copy()], a shallow copy *)
Definition py_copy (v : PyVal) : result PyVal :=
  match v with
  | VDict _ | VList _ => Ok v
  | _ => raise AttributeError
  end.

(** What [parse_game_record] uses of the generated module [proto.liqi_pb2]
    ([pb]) and of [google.protobuf]: for a message class, the composition of
    [msg = cls(); msg.ParseFromString(data)] with the reading of the
    attributes used, or with [MessageToDict]. *)
Record PbModule := mk_pb {
  (** [pb.Wrapper]: its [name] and [data] *)
  pb_Wrapper : bytes → result (string * bytes);
  (** [pb.GameDetailRecords]: its [version] and, for each of its [actions],
      the action's [result] *)
  pb_GameDetailRecords : bytes → result (Z * list bytes);
  pb_PlayerGameView : bytes → result PyVal;
  pb_RecordPlayerResult : bytes → result PyVal;
  (** [getattr(pb, type_name, None)], when it is true *)
  pb_getattr : string → option (bytes → result PyVal)
}.

Module Parser.

Section WithPb.

Variable pb : PbModule.

(** [base64.b64decode(s)] *)
Variable b64decode : PyVal → result bytes.

(** [parse_single_pb]: [None] when anything raises *)
Definition parse_single_pb (data : bytes) (msg_class : bytes → result PyVal)
  : result PyVal :=
  match msg_class data with
  | Ok v => Ok v
  | Raise _ => Ok VNone
  | OutOfFuel => OutOfFuel
  end.

(** [if key in obj and obj[key]: parsed = parse_single_pb(b64decode(obj[key]), cls);
    if parsed: obj[key] = parsed] *)
Definition decode_subfield (obj : PyVal) (key : string)
    (msg_class : bytes → result PyVal) : result PyVal :=
  present ← py_contains key obj;
  if (present : bool) then
    v ← py_getitem obj key;
    if truthy v then
      data ← b64decode v;
      parsed ← parse_single_pb data msg_class;
      if truthy parsed then py_setitem obj key parsed else Ok obj
    else Ok obj
  else Ok obj.

(** The block [if "head" in record]: [result] after it.  The inner dict
    [head["result"]] is shared with [record], whose other keys are not
    touched. *)
Definition parse_head (record : dict PyVal) : result (dict PyVal) :=
  match dict_get record "head" with
  | None => Ok []
  | Some h =>
      head ← py_copy h;
      head ← decode_subfield head "accounts" (pb_PlayerGameView pb);
      has_result ← py_contains "result" head;
      head ←
        (if (has_result : bool) then
           result_data ← py_getitem head "result";
           if truthy result_data then
             result_data ← decode_subfield result_data "players"
                             (pb_RecordPlayerResult pb);
             py_setitem head "result" result_data
           else Ok head
         else Ok head);
      uuid ← py_get head "uuid" VNone;
      Ok [("head", head); ("uuid", uuid)]
  end.

(** One turn of [for action in detail.actions]: [None] for [continue],
    else the entry appended to [result["actions"]]. *)
Definition parse_action (action_result : bytes) : result (option PyVal) :=
  if Nat.eqb (length action_result) 0 then Ok None
  else
    '(name, data) ← pb_Wrapper pb action_result;
    let type_name := List.last (split_dot name) "" in
    match pb_getattr pb type_name with
    | Some msg_class =>
        d ← msg_class data;
        Ok (Some (VDict [("type", VStr type_name); ("data", d)]))
    | None =>
        Ok (Some (VDict [("type", VStr type_name);
                         ("raw", VStr (b64encode data))]))
    end.

(** The loop over the actions: the list [result["actions"]] when it ends
    or is left by an exception, and how it ended. *)
Fixpoint parse_actions (actions : list bytes) (acc : list PyVal)
  : list PyVal * result unit :=
  match actions with
  | [] => (acc, Ok tt)
  | action :: actions' =>
      match parse_action action with
      | Ok None => parse_actions actions' acc
      | Ok (Some entry) => parse_actions actions' (acc ++ [entry])
      | Raise e => (acc, Raise e)
      | OutOfFuel => (acc, OutOfFuel)
      end
  end.

(** The [except Exception as e] handler *)
Definition on_parse_error (record : dict PyVal) (e : exn) (result_ : dict PyVal)
  : dict PyVal :=
  let result_ := dict_set result_ "parse_error" (VStr (exn_msg e)) in
  dict_set result_ "raw_data"
    (match dict_get record "data" with Some v => v | None => VNone end).

(** The body of the [try], up to the loop: the version and the actions *)
Definition parse_envelope (data : PyVal) : result (Z * list bytes) :=
  data_bytes ← b64decode data;
  '(_, wrapper_data) ← pb_Wrapper pb data_bytes;
  pb_GameDetailRecords pb wrapper_data.

(** The part of [parse_game_record] after the head *)
Definition parse_data (record : dict PyVal) (result_ : dict PyVal)
  : result (dict PyVal) :=
  match dict_get record "data" with
  | None => Ok (dict_set result_ "error" (VStr "No game data"))
  | Some data =>
      if negb (truthy data) then Ok (dict_set result_ "error" (VStr "No game data"))
      else
        match parse_envelope data with
        | Ok (version, actions) =>
            let result_ := dict_set result_ "version" (VInt version) in
            let '(entries, r) := parse_actions actions [] in
            let result_ := dict_set result_ "actions" (VList entries) in
            match r with
            | Ok _ => Ok result_
            | Raise e => Ok (on_parse_error record e result_)
            | OutOfFuel => OutOfFuel
            end
        | Raise e => Ok (on_parse_error record e result_)
        | OutOfFuel => OutOfFuel
        end
  end.

Definition parse_game_record (record : dict PyVal) : result (dict PyVal) :=
  result_ ← parse_head record;
  parse_data record result_.

End WithPb.

(** *** A sample module and decoder for the concrete runs

    [sample_pb] stands for the generated module on the few message classes
    the runs need.  It reads a buffer strictly, as [ParseFromString] does:
    a varint or a payload cut short is a [DecodeError]; the fixed-width
    records of wire types 1 and 5, which none of these classes declares, are
    passed over; groups, which the samples do not hold, are refused. *)

Definition decode_error {A} : result A :=
  Raise (mk_exn DecodeError "Error parsing message").

Definition strict_varint (data : bytes) (pos : Z) : result (Z * Z) :=
  match _decode_varint data pos with
  | Ok r => Ok r
  | _ => decode_error
  end.

Fixpoint scan_fields (fuel : nat) (data : bytes) (pos : Z)
    (acc : list (Z * (Z + bytes))) : result (list (Z * (Z + bytes))) :=
  match fuel with
  | O => OutOfFuel
  | S fuel' =>
      if pos <? len data then
        '(tag, pos) ← strict_varint data pos;
        let field_num := Z.shiftr tag 3 in
        let wire_type := Z.land tag 7 in
        if wire_type =? 0 then
          '(v, pos) ← strict_varint data pos;
          scan_fields fuel' data pos (acc ++ [(field_num, inl v)])
        else if wire_type =? 2 then
          '(l, pos) ← strict_varint data pos;
          if len data <? pos + l then decode_error
          else scan_fields fuel' data (pos + l)
                 (acc ++ [(field_num, inr (py_slice data pos (pos + l)))])
        else if wire_type =? 1 then
          if len data <? pos + 8 then decode_error
          else scan_fields fuel' data (pos + 8) acc
        else if wire_type =? 5 then
          if len data <? pos + 4 then decode_error
          else scan_fields fuel' data (pos + 4) acc
        else decode_error
      else Ok acc
  end.

Definition scan (data : bytes) : result (list (Z * (Z + bytes))) :=
  scan_fields (S (length data)) data 0 [].

(** The last value of a length-delimited field, empty when it is absent *)
Definition last_delimited (field_num : Z) (fs : list (Z * (Z + bytes))) : bytes :=
  foldl (λ acc f, match f with
                  | (n, inr b) => if n =? field_num then b else acc
                  | _ => acc
                  end) [] fs.

Definition last_varint (field_num : Z) (fs : list (Z * (Z + bytes))) : Z :=
  foldl (λ acc f, match f with
                  | (n, inl v) => if n =? field_num then v else acc
                  | _ => acc
                  end) 0 fs.

Definition all_delimited (field_num : Z) (fs : list (Z * (Z + bytes))) : list bytes :=
  omap (λ f, match f with
             | (n, inr b) => if n =? field_num then Some b else None
             | _ => None
             end) fs.

(** [Wrapper {string name = 1; bytes data = 2}] *)
Definition sample_Wrapper (data : bytes) : result (string * bytes) :=
  fs ← scan data;
  match decode_utf8 (last_delimited 1 fs) with
  | Ok name => Ok (name, last_delimited 2 fs)
  | _ => decode_error
  end.

(** [GameAction {bytes result = 3}] *)
Definition sample_GameAction (data : bytes) : result bytes :=
  fs ← scan data;
  Ok (last_delimited 3 fs).

(** [GameDetailRecords {uint32 version = 2; repeated GameAction actions = 3}] *)
Definition sample_GameDetailRecords (data : bytes) : result (Z * list bytes) :=
  fs ← scan data;
  actions ← mapM sample_GameAction (all_delimited 3 fs);
  Ok (last_varint 2 fs, actions).

(** A player view or result, shown by its first integer field *)
Definition sample_view (field_name : string) (data : bytes) : result PyVal :=
  fs ← scan data;
  Ok (VDict (if last_varint 1 fs =? 0 then []
             else [(field_name, VInt (last_varint 1 fs))])).

Definition sample_pb : PbModule :=
  mk_pb sample_Wrapper sample_GameDetailRecords
        (sample_view "account_id") (sample_view "seat")
        (λ type_name,
           if String.eqb type_name "PlayerGameView"
           then Some (sample_view "account_id")
           else None).

Definition b64_value (c : ascii) : option Z :=
  let n := Z.of_N (N_of_ascii c) in
  if (65 <=? n) && (n <=? 90) then Some (n - 65)
  else if (97 <=? n) && (n <=? 122) then Some (n - 71)
  else if (48 <=? n) && (n <=? 57) then Some (n + 4)
  else if n =? 43 then Some 62
  else if n =? 47 then Some 63
  else None.

(** [binascii.a2b_base64] in its default, lenient mode, which
    [base64.b64decode] calls: characters outside the alphabet are skipped; a
    [=] is skipped unless it completes a group that holds at least two
    characters, and then the rest of the text is not read; text that ends
    inside a group is an error.  [quad_pos] is the number of characters of
    the group read so far, [leftchar] the bits they leave, [pads] the number
    of [=] seen in the group. *)
Fixpoint a2b_base64 (s : string) (quad_pos leftchar pads : Z) (acc : list Z)
  : result (list Z) :=
  match s with
  | EmptyString =>
      if quad_pos =? 0 then Ok acc
      else if quad_pos =? 1 then
        Raise (mk_exn BinasciiError
                 ("Invalid base64-encoded string: number of data characters ("
                  +:+ pretty (len acc / 3 * 4 + 1)
                  +:+ ") cannot be 1 more than a multiple of 4"))
      else Raise (mk_exn BinasciiError "Incorrect padding")
  | String c rest =>
      if Ascii.eqb c "=" then
        if 2 <=? quad_pos then
          let pads := pads + 1 in
          if 4 <=? quad_pos + pads then Ok acc
          else a2b_base64 rest quad_pos leftchar pads acc
        else a2b_base64 rest quad_pos leftchar pads acc
      else
        match b64_value c with
        | None => a2b_base64 rest quad_pos leftchar pads acc
        | Some this_ch =>
            if quad_pos =? 0 then a2b_base64 rest 1 this_ch 0 acc
            else if quad_pos =? 1 then
              a2b_base64 rest 2 (Z.land this_ch 0x0f) 0
                (acc ++ [Z.lor (Z.shiftl leftchar 2) (Z.shiftr this_ch 4)])
            else if quad_pos =? 2 then
              a2b_base64 rest 3 (Z.land this_ch 0x03) 0
                (acc ++ [Z.lor (Z.shiftl leftchar 4) (Z.shiftr this_ch 2)])
            else
              a2b_base64 rest 0 0 0 (acc ++ [Z.lor (Z.shiftl leftchar 6) this_ch])
        end
  end.

(** Whether a text is ASCII *)
Fixpoint is_ascii (s : string) : bool :=
  match s with
  | EmptyString => true
  | String c rest => (Z.of_N (N_of_ascii c) <? 128) && is_ascii rest
  end.

(** [base64.b64decode(v)]: a [str] must be ASCII, a [bytes] is read as it
    is, anything else is a [TypeError]. *)
Definition sample_b64decode (v : PyVal) : result bytes :=
  match v with
  | VStr s =>
      if is_ascii s then l ← a2b_base64 s 0 0 0 []; py_bytes l
      else Raise (mk_exn ValueError "string argument should contain only ASCII characters")
  | VBytes b => l ← a2b_base64 (str_of_bytes b) 0 0 0 []; py_bytes l
  | _ => raise TypeError
  end.

(** An action envelope of a type without a decoder, a malformed action, and
    the record payload that holds the three actions good, malformed, good. *)
Definition future_action : bytes :=
  bs [0x0a; 20] ++ bytes_of_str ".lq.RecordFutureType" ++ bs [0x12; 1; 1].

Definition broken_action : bytes := bs [0xFF].

Definition game_action (result_ : bytes) : bytes :=
  bs [0x1a; len result_] ++ result_.

Definition detail_of (actions : list bytes) : bytes :=
  bs [0x10; 1]
  ++ concat (map (λ a, bs [0x1a; len (game_action a)] ++ game_action a) actions).

Definition record_payload (actions : list bytes) : bytes :=
  bs [0x0a; 21] ++ bytes_of_str ".lq.GameDetailRecords"
  ++ bs [0x12; len (detail_of actions)] ++ detail_of actions.

Definition sample_record (actions : list bytes) : dict PyVal :=
  [("head", VDict [("uuid", VStr "230101-aaaa")]);
   ("data", VStr (b64encode (record_payload actions)))].

End Parser.

(** *** The outcomes of a header sub-field

    [left_unparsed] and [parsed_as] tell, from the results of the two calls
    that the code makes on the value of [obj[key]], which branch it takes. *)

(** A sub-field that is kept as it is: it is absent or empty, or its bytes
    do not parse, the class raising or giving an empty message *)
Definition left_unparsed (b64decode : PyVal → result bytes)
    (msg_class : bytes → result PyVal) (obj : dict PyVal) (key : string) : Prop :=
  match dict_get obj key with
  | None => True
  | Some v =>
      truthy v = false
      ∨ ∃ data, b64decode v = Ok data
          ∧ ((∃ e, msg_class data = Raise e)
             ∨ (∃ parsed, msg_class data = Ok parsed ∧ truthy parsed = false))
  end.

(** A sub-field whose bytes parse to the non-empty message [parsed] *)
Definition parsed_as (b64decode : PyVal → result bytes)
    (msg_class : bytes → result PyVal) (obj : dict PyVal) (key : string)
    (parsed : PyVal) : Prop :=
  ∃ v data, dict_get obj key = Some v ∧ truthy v = true
            ∧ b64decode v = Ok data
            ∧ msg_class data = Ok parsed ∧ truthy parsed = true.

(** [head["result"]] is absent or empty, or a dict whose [players] is kept
    as it is *)
Definition result_left_unparsed (b64decode : PyVal → result bytes)
    (msg_class : bytes → result PyVal) (head : dict PyVal) : Prop :=
  match dict_get head "result" with
  | None => True
  | Some r =>
      truthy r = false
      ∨ ∃ res, r = VDict res ∧ left_unparsed b64decode msg_class res "players"
  end.

(** [head.get("uuid")] *)
Definition head_uuid (head : dict PyVal) : PyVal :=
  match dict_get head "uuid" with Some x => x | None => VNone end.

(** The entries that the actions before a point append to
    [result["actions"]]: none for an action that is skipped *)
Definition entries_of (outs : list (option PyVal)) : list PyVal := omap id outs.

(** A record with a header sub-field that is base64 text but no message:
    the byte [FF] *)
Definition sample_record_bad_accounts (actions : list bytes) : dict PyVal :=
  [("head", VDict [("uuid", VStr "230101-aaaa"); ("accounts", VStr "/w==")]);
   ("data", VStr (b64encode (Parser.record_payload actions)))].

(** ** Statistics ([stats_batch.py]) *)

(** The values of [int(float(x))] on the score strings of the examples
    below; on every other argument this table raises [ValueError]. *)
Definition sample_int_of_float (x : PyVal) : result Z :=
  match x with
  | VStr "35000" => Ok 35000
  | VStr "27000" => Ok 27000
  | VStr "23000" => Ok 23000
  | VStr "15000" => Ok 15000
  | _ => raise ValueError
  end.

Definition sample_player (rank : Z) (name score : string) : dict PyVal :=
  [("rank", VInt rank); ("account_id", VStr "100"); ("nickname", VStr name);
   ("score", VStr score)].

Definition sample_players : list (dict PyVal) :=
  [sample_player 1 "A" "35000"; sample_player 2 "B" "27000";
   sample_player 3 "C" "23000"; sample_player 4 "D" "15000"].

Module Stats.

(** The per-player counters, as [batch_analyze] creates them *)
Record PlayerStats := mk_stats {
  nickname : string;
  account_id : string;
  game_count : Z;
  round_count : Z;
  riichi_count : Z;
  furo_round_count : Z;
  win_count : Z;
  deal_in_count : Z;
  win_points : Z;
  deal_in_points : Z
}.

Section Rates.

(** The value of a float is kept abstract: [int_div a b] is the float
    nearest to [a / b], for [b <> 0] and a quotient within the range of the
    floats, and [mul_int x n] is the float [x * n], which is an infinity,
    not an error, when the product leaves the range. *)
Variable float : Type.
Variable int_div : Z → Z → float.
Variable mul_int : float → Z → float.

Inductive StatVal :=
  | SStr (s : string)
  | SInt (z : Z)
  | SFloat (x : float).

(** The least magnitude that rounds to no float: half way between the
    largest float, [2^1024 - 2^971], and [2^1024] *)
Definition float_limit : Z := 2 ^ 1024 - 2 ^ 970.

(** [a / b] on ints: the quotient of two ints of any size, rounded to the
    nearest float; [ZeroDivisionError] for a zero divisor, [OverflowError]
    when the quotient rounds to no float *)
Definition truediv (a b : Z) : result float :=
  if b =? 0 then raise ZeroDivisionError
  else if float_limit * Z.abs b <=? Z.abs a then raise OverflowError
  else Ok (int_div a b).

(** [a / b * 100] *)
Definition percent (a b : Z) : result StatVal :=
  q ← truediv a b;
  Ok (SFloat (mul_int q 100)).

(** [a / b if b > 0 else 0] *)
Definition average (a b : Z) : result StatVal :=
  if b >? 0 then q ← truediv a b; Ok (SFloat q) else Ok (SInt 0).

(** [{**stats}] *)
Definition stats_items (stats : PlayerStats) : dict StatVal :=
  [ ("nickname", SStr (nickname stats));
    ("account_id", SStr (account_id stats));
    ("game_count", SInt (game_count stats));
    ("round_count", SInt (round_count stats));
    ("riichi_count", SInt (riichi_count stats));
    ("furo_round_count", SInt (furo_round_count stats));
    ("win_count", SInt (win_count stats));
    ("deal_in_count", SInt (deal_in_count stats));
    ("win_points", SInt (win_points stats));
    ("deal_in_points", SInt (deal_in_points stats)) ].

Definition calculate_rates (stats : PlayerStats) : result (dict StatVal) :=
  let round_count_ := round_count stats in
  let round_count_ := if round_count_ =? 0 then 1 else round_count_ in
  let win_count_ := win_count stats in
  let deal_in_count_ := deal_in_count stats in
  riichi_rate ← percent (riichi_count stats) round_count_;
  furo_rate ← percent (furo_round_count stats) round_count_;
  win_rate ← percent win_count_ round_count_;
  deal_in_rate ← percent deal_in_count_ round_count_;
  avg_win_points ← average (win_points stats) win_count_;
  avg_deal_in_points ← average (deal_in_points stats) deal_in_count_;
  Ok (foldl (λ d kv, dict_set d (fst kv) (snd kv)) (stats_items stats)
        [ ("riichi_rate", riichi_rate);
          ("furo_rate", furo_rate);
          ("win_rate", win_rate);
          ("deal_in_rate", deal_in_rate);
          ("avg_win_points", avg_win_points);
          ("avg_deal_in_points", avg_deal_in_points) ]).

(** The counters that [calculate_rates] divides *)
Definition dividends (stats : PlayerStats) : list Z :=
  [ riichi_count stats; furo_round_count stats; win_count stats;
    deal_in_count stats; win_points stats; deal_in_points stats ].

End Rates.

Arguments SStr {float} s.
Arguments SInt {float} z.
Arguments SFloat {float} x.

(** Floats as the expressions that denote them, for the samples *)
Inductive sample_float :=
  | Quotient (a b : Z)
  | Times (x : sample_float) (n : Z).

(** One player after two games: 21 rounds, 5 riichi, 7 rounds with a call,
    6 wins for 31200 points, 3 deal-ins for 15600 points *)
Definition sample_stats : PlayerStats :=
  mk_stats "A" "1001" 2 21 5 7 6 3 31200 15600.

(** A record with integer counters, one of them beyond the floats *)
Definition huge_stats : PlayerStats :=
  mk_stats "A" "1001" 1 1 (10 ^ 400) 0 0 0 0 0.

Section Matching.

(** A row of [csv_players] *)
Abbreviation Player := (dict PyVal).

(** [int(float(x))], two builtins; the parsing of the decimal text is not
    unfolded. *)
Variable int_of_float : PyVal → result Z.

(** The [try] of the first loop: the score of one player, 0 when the
    conversion raises [ValueError] or [TypeError] *)
Definition csv_score (p : Player) : result Z :=
  let v := match dict_get p "score" with Some v => v | None => VStr "0" end in
  match int_of_float v with
  | Ok score => Ok score
  | Raise e =>
      match exn_class e with
      | ValueError | TypeError => Ok 0
      | _ => Raise e
      end
  | OutOfFuel => OutOfFuel
  end.

Fixpoint csv_scores_of (csv_players : list Player) : result (list (Player * Z)) :=
  match csv_players with
  | [] => Ok []
  | p :: ps =>
      score ← csv_score p;
      rest ← csv_scores_of ps;
      Ok ((p, score) :: rest)
  end.

(** The state of the inner loop: [best_match] and [best_diff], [None]
    standing for Python's [None] and for [float('inf')]. *)
Definition Best := (option (nat * Player) * option Z)%type.

(** One turn of [for i, (player, csv_score) in enumerate(csv_scores)] *)
Definition best_step (used_players : gset nat) (json_score : Z)
    (best : Best) (i : nat) (pc : Player * Z) : Best :=
  if bool_decide (i ∈ used_players) then best
  else
    let diff := Z.abs (json_score - snd pc) in
    let better := match snd best with
                  | None => true
                  | Some best_diff => diff <? best_diff
                  end in
    if better then (Some (i, fst pc), Some diff) else best.

Fixpoint best_loop (used_players : gset nat) (json_score : Z)
    (i : nat) (csv_scores : list (Player * Z)) (best : Best) : Best :=
  match csv_scores with
  | [] => best
  | pc :: rest =>
      best_loop used_players json_score (S i) rest
        (best_step used_players json_score best i pc)
  end.

(** The state of the outer loop: [seat_to_player] and [used_players] *)
Definition Seats := (gmap nat Player * gset nat)%type.

(** One turn of [for seat, json_score in enumerate(final_scores)] *)
Definition seat_step (csv_scores : list (Player * Z)) (st : Seats)
    (seat : nat) (json_score : Z) : Seats :=
  let '(seat_to_player, used_players) := st in
  match best_loop used_players json_score 0 csv_scores (None, None) with
  | (Some best_match, Some best_diff) =>
      if best_diff <? 100
      then (<[seat := snd best_match]> seat_to_player,
            {[fst best_match]} ∪ used_players)
      else st
  | _ => st
  end.

Fixpoint seat_loop (csv_scores : list (Player * Z)) (seat : nat)
    (final_scores : list Z) (st : Seats) : Seats :=
  match final_scores with
  | [] => st
  | json_score :: rest =>
      seat_loop csv_scores (S seat) rest (seat_step csv_scores st seat json_score)
  end.

Definition match_players_by_score (csv_players : list Player)
    (final_scores : option (list Z)) : result (gmap nat Player) :=
  match final_scores with
  | None => Ok ∅
  | Some scores =>
      if Nat.eqb (length scores) 0 || negb (Nat.eqb (length scores) 4) then Ok ∅
      else
        csv_scores ← csv_scores_of csv_players;
        Ok (fst (seat_loop csv_scores 0 scores (∅, ∅)))
  end.

(** *** Invariants of the two loops *)

(** After the inner loop has seen the players of index below [n]:
    [best_match] is an unused player of least difference among them, and
    [best_diff] is that difference; both are unset when all of them are
    used. *)
Definition best_inv (csv_scores : list (Player * Z)) (used_players : gset nat)
    (json_score : Z) (n : nat) (best : Best) : Prop :=
  match best with
  | (None, None) =>
      ∀ i pc, (i < n)%nat → csv_scores !! i = Some pc → i ∈ used_players
  | (Some (ib, p), Some d) =>
      (ib < n)%nat ∧ (ib ∉ used_players)
      ∧ ∃ c, csv_scores !! ib = Some (p, c) ∧ d = Z.abs (json_score - c)
        ∧ ∀ i p' c', (i < n)%nat → i ∉ used_players →
            csv_scores !! i = Some (p', c') → d ≤ Z.abs (json_score - c')
  | _ => False
  end.

(** What the seat of number [seat] owes to the player of index [i] that it
    is matched with: their scores differ by less than 100, and by no more
    than the score of any player that no earlier seat has taken. *)
Definition seat_matched (csv_scores : list (Player * Z)) (final_scores : list Z)
    (g : gmap nat nat) (seat i : nat) : Prop :=
  ∃ json_score p c,
    final_scores !! seat = Some json_score
    ∧ csv_scores !! i = Some (p, c)
    ∧ Z.abs (json_score - c) < 100
    ∧ ∀ i' p' c', csv_scores !! i' = Some (p', c') →
        (∀ s', (s' < seat)%nat → g !! s' ≠ Some i') →
        Z.abs (json_score - c) ≤ Z.abs (json_score - c').

(** After the outer loop has seen the seats below [k]: [g] gives, for each
    matched seat, the index of its player in [csv_players]. *)
Definition seat_inv (csv_scores : list (Player * Z)) (final_scores : list Z)
    (k : nat) (st : Seats) (g : gmap nat nat) : Prop :=
  (∀ seat, fst st !! seat = (g !! seat) ≫= (λ i, fst <$> (csv_scores !! i)))
  ∧ (∀ i, i ∈ snd st ↔ ∃ seat, g !! seat = Some i)
  ∧ (∀ seat i, g !! seat = Some i →
       (seat < k)%nat ∧ seat_matched csv_scores final_scores g seat i)
  ∧ (∀ s1 s2 i, g !! s1 = Some i → g !! s2 = Some i → s1 = s2).

End Matching.

End Stats.


(** ** Responses ([MajsoulCodec.decode_response]) *)

(** [struct.unpack("<H", b)[0]]; [b] must be exactly two bytes. *)
Definition unpack_H (b : bytes) : result Z :=
  match b with
  | [b1; b2] => Ok (byte_to_Z b1 + 256 * byte_to_Z b2)
  | _ => raise StructError
  end.

Module Response.

(** The locals [method] and [payload_data] of the wrapper loop, [None] as in
    the source *)
Record Envelope := mk_envelope {
  env_method : option string;
  env_payload : option bytes
}.

(** One turn of the loop [while pos < len(wrapper_data)].  Only a value of
    wire type 2 is consumed: after a tag of another wire type the loop goes
    on at the byte that follows the tag. *)
Definition wrapper_step (wrapper_data : bytes) (pos : Z) (env : Envelope)
  : result (Z * Envelope) :=
  '(tag, pos) ← _decode_varint wrapper_data pos;
  let field_id := Z.shiftr tag 3 in
  let wire_type := Z.land tag 0x7 in
  if wire_type =? 2 then
    '(length, pos) ← _decode_varint wrapper_data pos;
    let value := py_slice wrapper_data pos (pos + length) in
    let pos := pos + length in
    if field_id =? 1 then
      m ← decode_utf8 value;
      Ok (pos, mk_envelope (Some m) (env_payload env))
    else if field_id =? 2 then
      Ok (pos, mk_envelope (env_method env) (Some value))
    else Ok (pos, env)
  else Ok (pos, env).

Fixpoint wrapper_loop (fuel : nat) (wrapper_data : bytes) (pos : Z)
    (env : Envelope) : result Envelope :=
  match fuel with
  | O => OutOfFuel
  | S fuel' =>
      if pos <? len wrapper_data then
        '(pos, env) ← wrapper_step wrapper_data pos env;
        wrapper_loop fuel' wrapper_data pos env
      else Ok env
  end.

(** The loop reads at least one byte per turn. *)
Definition parse_wrapper (wrapper_data : bytes) : result Envelope :=
  wrapper_loop (S (length wrapper_data)) wrapper_data 0 (mk_envelope None None).

Section WithTypes.

Variable types : gmap string TypeDef.

(** The part of [decode_response] after the pending entry is popped: the
    returned dict, or [None]. *)
Definition decode_body (msg_id : Z) (method_name response_type : string)
    (wrapper_data : bytes) : result (option PyVal) :=
  env ← parse_wrapper wrapper_data;
  match env_payload env with
  | Some payload_data =>
      if negb (Nat.eqb (length payload_data) 0) then
        payload ← Codec._decode_message types response_type payload_data;
        Ok (Some (VDict [("id", VInt msg_id); ("method", VStr method_name);
                         ("data", payload)]))
      else Ok None
  | None => Ok None
  end.

(** [decode_response]: the codec after the call and the dict, [None] or the
    exception.  The pending entry is removed before the wrapper is read. *)
Definition decode_response (self : CodecState) (data : bytes)
  : CodecState * result (option PyVal) :=
  if len data <? 3 then (self, Ok None)
  else
    match bytes_getitem data 0 with
    | Ok msg_type =>
        if msg_type =? MsgType.RESPONSE then
          match unpack_H (py_slice data 1 3) with
          | Ok msg_id =>
              match pending_requests self !! msg_id with
              | None => (self, Ok None)
              | Some (method_name, response_type) =>
                  let self := mk_codec (msg_index self)
                                (delete msg_id (pending_requests self)) in
                  (self, decode_body msg_id method_name response_type
                           (drop 3 data))
              end
          | Raise e => (self, Raise e)
          | OutOfFuel => (self, OutOfFuel)
          end
        else (self, Ok None)
    | Raise e => (self, Raise e)
    | OutOfFuel => (self, OutOfFuel)
    end.

End WithTypes.

End Response.

(** ** Calls ([MajsoulClient.call], [MajsoulClient.login]) *)

Module Session.

(** The codec of a client and its socket: the frames sent so far, and the
    frames the socket will deliver, in order.  The socket is taken to accept
    every frame sent. *)
Record Session := mk_session {
  codec : CodecState;
  sent : list bytes;
  inbox : list bytes
}.

Section WithRegistry.

Variable types : gmap string TypeDef.
Variable services : gmap string ServiceDef.
Variable int_of_str : string → result Z.
Variable int_of_bytes : bytes → result Z.

(** The loop [while True] of [call]: it reads frames until
    [decode_response] gives a dict, whose ["data"] it returns.  [Ok None]
    stands for a call still waiting in [recv] when the inbox is used up. *)
Fixpoint recv_loop (codec_ : CodecState) (inbox_ : list bytes)
  : CodecState * list bytes * result (option PyVal) :=
  match inbox_ with
  | [] => (codec_, [], Ok None)
  | response :: inbox' =>
      match Response.decode_response types codec_ response with
      | (codec_, Ok (Some result_)) =>
          if truthy result_ then
            (codec_, inbox', r ← py_getitem result_ "data"; Ok (Some r))
          else recv_loop codec_ inbox'
      | (codec_, Ok None) => recv_loop codec_ inbox'
      | (codec_, Raise e) => (codec_, inbox', Raise e)
      | (codec_, OutOfFuel) => (codec_, inbox', OutOfFuel)
      end
  end.

Definition call (self : Session) (method : string) (payload : option (dict PyVal))
  : Session * result (option PyVal) :=
  let payload := match payload with Some p => p | None => [] end in
  match encode_request types services int_of_str int_of_bytes (codec self) method payload with
  | (codec_, Ok request) =>
      let '(codec_, inbox_, r) := recv_loop codec_ (inbox self) in
      (mk_session codec_ (sent self ++ [request]) inbox_, r)
  | (codec_, Raise e) => (mk_session codec_ (sent self) (inbox self), Raise e)
  | (codec_, OutOfFuel) => (mk_session codec_ (sent self) (inbox self), OutOfFuel)
  end.

End WithRegistry.

End Session.

Module Login.

Section WithCall.

(** [login] is read over the calls it makes: [call] is [self.call], which
    returns the decoded payload or raises; [sleep] is [asyncio.sleep], with
    the delay in milliseconds; [uuid4] is [str(uuid.uuid4())]; [repr] and
    [str] give the text of an object in the two messages. *)
Variable World : Type.
Variable call : World → string → dict PyVal → World * result PyVal.
Variable sleep : World → Z → World.
Variable uuid4 : World → World * string.
Variable py_repr : PyVal → string.
Variable py_str : PyVal → string.

Definition check_payload (access_token : string) : dict PyVal :=
  [("type", VInt 0); ("access_token", VStr access_token)].

Definition login_payload (version client_version_string access_token random_key : string)
  : dict PyVal :=
  [("type", VInt 0);
   ("access_token", VStr access_token);
   ("reconnect", VBool false);
   ("device", VDict [("platform", VStr "pc"); ("hardware", VStr "pc");
                     ("os", VStr "windows"); ("os_version", VStr "win10");
                     ("is_browser", VBool true); ("software", VStr "Chrome");
                     ("sale_platform", VStr "web")]);
   ("random_key", VStr random_key);
   ("client_version", VDict [("resource", VStr version)]);
   ("currency_platforms", VList []);
   ("client_version_string", VStr client_version_string)].

(** [not check_result.get("has_account")] *)
Definition unlinked (check_result : PyVal) : result bool :=
  v ← py_get check_result "has_account" VNone;
  Ok (negb (truthy v)).

(** The last steps of [login], once the account is known to be linked *)
Definition do_login (w : World) (version client_version_string access_token : string)
  : World * list string * result PyVal :=
  let '(w, random_key) := uuid4 w in
  match call w ".lq.Lobby.oauth2Login"
          (login_payload version client_version_string access_token random_key) with
  | (w, Ok result_) =>
      match py_get result_ "account_id" VNone with
      | Ok account_id =>
          if negb (truthy account_id)
          then (w, [], Raise (mk_exn Exception ("Login failed: " +:+ py_repr result_)))
          else (w, ["Logged in as account: " +:+ py_str account_id], Ok result_)
      | Raise e => (w, [], Raise e)
      | OutOfFuel => (w, [], OutOfFuel)
      end
  | (w, Raise e) => (w, [], Raise e)
  | (w, OutOfFuel) => (w, [], OutOfFuel)
  end.

(** The second [if not check_result.get("has_account")] and what follows *)
Definition after_check (w : World) (version client_version_string access_token : string)
    (check_result : PyVal) : World * list string * result PyVal :=
  match unlinked check_result with
  | Ok true =>
      (w, [], Raise (mk_exn Exception "Token invalid or no account associated"))
  | Ok false => do_login w version client_version_string access_token
  | Raise e => (w, [], Raise e)
  | OutOfFuel => (w, [], OutOfFuel)
  end.

(** [login]: the world after it, the lines printed and the result *)
Definition login (w : World) (version client_version_string access_token : string)
  : World * list string * result PyVal :=
  match call w ".lq.Lobby.heatbeat" [("no_operation_counter", VInt 0)] with
  | (w, Ok _) =>
      let w := sleep w 100 in
      match call w ".lq.Lobby.oauth2Check" (check_payload access_token) with
      | (w, Ok check_result) =>
          match unlinked check_result with
          | Ok true =>
              let w := sleep w 2000 in
              match call w ".lq.Lobby.oauth2Check" (check_payload access_token) with
              | (w, Ok check_result) =>
                  after_check w version client_version_string access_token check_result
              | (w, Raise e) => (w, [], Raise e)
              | (w, OutOfFuel) => (w, [], OutOfFuel)
              end
          | Ok false =>
              after_check w version client_version_string access_token check_result
          | Raise e => (w, [], Raise e)
          | OutOfFuel => (w, [], OutOfFuel)
          end
      | (w, Raise e) => (w, [], Raise e)
      | (w, OutOfFuel) => (w, [], OutOfFuel)
      end
  | (w, Raise e) => (w, [], Raise e)
  | (w, OutOfFuel) => (w, [], OutOfFuel)
  end.

End WithCall.

(** A world that only records the methods called and the delays slept, over
    a script of the payloads the server answers with, in order *)
Record Trace := mk_trace {
  script : list (result PyVal);
  methods : list string;
  delays : list Z
}.

Definition traced_call (w : Trace) (method : string) (payload : dict PyVal)
  : Trace * result PyVal :=
  match script w with
  | [] => (mk_trace [] (methods w ++ [method]) (delays w),
           Raise (mk_exn OSError "connection closed"))
  | r :: rest => (mk_trace rest (methods w ++ [method]) (delays w), r)
  end.

Definition traced_sleep (w : Trace) (ms : Z) : Trace :=
  mk_trace (script w) (methods w) (delays w ++ [ms]).

Definition traced_uuid4 (w : Trace) : Trace * string :=
  (w, "00000000-0000-4000-8000-000000000000").

Definition traced_login (py_repr py_str : PyVal → string) (answers : list (result PyVal))
    (access_token : string) : Trace * list string * result PyVal :=
  login Trace traced_call traced_sleep traced_uuid4 py_repr py_str
    (mk_trace answers [] []) "0.11.1.w" "web-0.11.1" access_token.

End Login.

(** ** Repeated messages ([parse_repeated_pb]) *)

Module Repeated.

(** The inner loop, which reads the length: [while pos < len(data)] with a
    [break] at the last group.  It checks the bound itself and never raises;
    it returns [length] and [pos]. *)
Fixpoint length_loop (fuel : nat) (data : bytes) (pos length_ shift : Z)
  : result (Z * Z) :=
  match fuel with
  | O => OutOfFuel
  | S fuel' =>
      if pos <? len data then
        b ← bytes_getitem data pos;
        let pos := pos + 1 in
        let length_ := Z.lor length_ (Z.shiftl (Z.land b 0x7f) shift) in
        if Z.land b 0x80 =? 0 then Ok (length_, pos)
        else length_loop fuel' data pos length_ (shift + 7)
      else Ok (length_, pos)
  end.

Section WithClass.

(** [msg = msg_class(); msg.ParseFromString(b); MessageToDict(msg, ...)] *)
Variable msg_class : bytes → result PyVal.

Fixpoint outer_loop (fuel : nat) (data : bytes) (pos : Z) (results : list PyVal)
  : result (list PyVal) :=
  match fuel with
  | O => OutOfFuel
  | S fuel' =>
      if pos <? len data then
        if len data <=? pos then Ok results
        else
          tag ← bytes_getitem data pos;
          let pos := pos + 1 in
          let wire_type := Z.land tag 0x7 in
          if wire_type =? 2 then
            '(length_, pos) ← length_loop (S (length data)) data pos 0 0;
            if pos + length_ <=? len data then
              m ← msg_class (py_slice data pos (pos + length_));
              outer_loop fuel' data (pos + length_) (results ++ [m])
            else outer_loop fuel' data pos results
          else Ok results
      else Ok results
  end.

Definition parse_repeated_pb (data : bytes) : result (list PyVal) :=
  outer_loop (S (length data)) data 0 [].

End WithClass.

End Repeated.

(** *** Specification notions for the response envelope and the session *)

(** What a length-delimited record of the envelope contributes: field 1 is
    the method name, field 2 the payload, any other field nothing. *)
Definition store_envelope (env : Response.Envelope) (r : WireRecord)
  : result Response.Envelope :=
  match r with
  | WDelimited field_num value =>
      if field_num =? 1 then
        m ← decode_utf8 value;
        Ok (Response.mk_envelope (Some m) (Response.env_payload env))
      else if field_num =? 2 then
        Ok (Response.mk_envelope (Response.env_method env) (Some value))
      else Ok env
  | WVarint _ _ => Ok env
  end.

Fixpoint store_envelopes (env : Response.Envelope) (records : list WireRecord)
  : result Response.Envelope :=
  match records with
  | [] => Ok env
  | r :: records' =>
      env ← store_envelope env r;
      store_envelopes env records'
  end.

Definition is_delimited (r : WireRecord) : Prop :=
  match r with WDelimited _ _ => True | WVarint _ _ => False end.

(** The codecs that a session can be in: from the state [__init__] leaves,
    by any sequence of [encode_request] and [decode_response]. *)
Inductive reachable (types : gmap string TypeDef) (services : gmap string ServiceDef)
    (int_of_str : string → result Z) (int_of_bytes : bytes → result Z)
  : CodecState → Prop :=
  | reachable_init : reachable types services int_of_str int_of_bytes codec_init
  | reachable_request self method_name payload :
      reachable types services int_of_str int_of_bytes self →
      reachable types services int_of_str int_of_bytes
        (fst (encode_request types services int_of_str int_of_bytes
                self method_name payload))
  | reachable_response self data :
      reachable types services int_of_str int_of_bytes self →
      reachable types services int_of_str int_of_bytes
        (fst (Response.decode_response types self data)).

(** A frame that is not a response: shorter than 3 bytes, or of another
    kind (a notification, for one). *)
Definition not_response (frame : bytes) : Prop :=
  match frame with
  | kind :: _ :: _ :: _ => byte_to_Z kind ≠ MsgType.RESPONSE
  | _ => True
  end.

(** A response frame as a server writes it: the kind, the id of the request
    it answers, and the envelope with the method name and the payload. *)
Definition response_frame (b1 b2 : byte) (name : string) (payload : bytes)
  : result bytes :=
  k ← py_bytes [MsgType.RESPONSE];
  w ← encode_wire_records [WDelimited 1 (bytes_of_str name); WDelimited 2 payload];
  Ok (k ++ [b1; b2] ++ w).

(** [[f(x) for x in l]]: the results in order, or the first exception *)
Fixpoint map_result {A B} (f : A → result B) (l : list A) : result (list B) :=
  match l with
  | [] => Ok []
  | x :: l' =>
      y ← f x;
      ys ← map_result f l';
      Ok (y :: ys)
  end.

(** Length-delimited records, given by their field numbers and values *)
Definition delimited_records (fields : list (Z * bytes)) : list WireRecord :=
  map (λ field, WDelimited field.1 field.2) fields.

(** *** Specification notions for messages of scalar fields *)

(** A value that a field of type [field_type] carries through the codec
    unchanged: a text for a string field, a non-negative integer for an
    integer field, a truth value for a bool field. *)
Definition scalar_ok (field_type : string) (v : PyVal) : Prop :=
  match v with
  | VStr s => field_type = "string" ∧ utf8_valid (bytes_of_str s) = true
  | VInt z => Codec.is_int_type field_type = true ∧ 0 ≤ z
  | VBool _ => field_type = "bool"
  | _ => False
  end.

(** The record of such a value *)
Definition scalar_record (field_id : Z) (v : PyVal) : option WireRecord :=
  match v with
  | VStr s => Some (WDelimited field_id (bytes_of_str s))
  | VInt z => Some (WVarint field_id z)
  | VBool b => Some (WVarint field_id (if b then 1 else 0))
  | _ => None
  end.

(** The records of the values that [data] has for the fields of a type, in
    the order of the type's fields *)
Fixpoint scalar_records (fields : TypeDef) (data : dict PyVal) : list WireRecord :=
  match fields with
  | [] => []
  | (field_name, field_def) :: fields' =>
      match dict_get data field_name ≫= scalar_record (fd_id field_def) with
      | Some r => r :: scalar_records fields' data
      | None => scalar_records fields' data
      end
  end.

(** A type with one field of each scalar kind *)
Definition scalar_types : gmap string TypeDef :=
  {[ "lq.Point" := [("name", mk_field 1 "string" None);
                    ("n", mk_field 2 "uint32" None);
                    ("ok", mk_field 3 "bool" None)] ]}.

(** A type with a repeated integer field *)
Definition repeated_types : gmap string TypeDef :=
  {[ "lq.Scores" := [("uuid", mk_field 1 "string" None);
                     ("scores", mk_field 2 "int32" (Some "repeated"))] ]}.

(** *** Matching when the scores agree

    After the outer loop of [match_players_by_score] has seen the seats
    below [k], when every final score is the CSV score of some player: each
    of these seats has a player of its own score, the players taken are
    players of these seats' scores, and no other seat is mapped. *)
Definition seats_exact (csv_scores : list (dict PyVal * Z)) (final_scores : list Z)
    (k : nat) (st : Stats.Seats) : Prop :=
  (∀ seat s, (seat < k)%nat → final_scores !! seat = Some s →
     ∃ i p, csv_scores !! i = Some (p, s) ∧ fst st !! seat = Some p)
  ∧ (∀ i, i ∈ snd st →
       ∃ seat s p, (seat < k)%nat ∧ final_scores !! seat = Some s
                   ∧ csv_scores !! i = Some (p, s))
  ∧ (∀ seat, is_Some (fst st !! seat) → (seat < k)%nat).

(** ** The registries ([MajsoulCodec.__init__], [_parse_proto_def]) *)

Module ProtoDef.

(** [self.types] and [self.services] as [__init__] fills them: the names in
    insertion order, each with the definition as the schema gives it *)
Record Registry := mk_registry {
  reg_types : dict PyVal;
  reg_services : dict PyVal
}.

(** [f"{prefix}.{name}" if prefix else name] *)
Definition full_name (prefix name : string) : string :=
  if String.eqb prefix "" then name else prefix +:+ "." +:+ name.

(** The two [if]s on one entry of [nested], before the recursive call *)
Definition register (reg : Registry) (full_name : string) (value : PyVal)
  : result Registry :=
  is_message ← py_contains "fields" value;
  if (is_message : bool) then
    Ok (mk_registry (dict_set (reg_types reg) full_name value) (reg_services reg))
  else
    is_service ← py_contains "methods" value;
    if (is_service : bool) then
      Ok (mk_registry (reg_types reg) (dict_set (reg_services reg) full_name value))
    else Ok reg.

(** The loop [for name, value in nested.items()]; [parse_nested] stands for
    the recursive call of [_parse_proto_def]. *)
Fixpoint parse_items (parse_nested : PyVal → string → Registry → result Registry)
    (items : dict PyVal) (prefix : string) (reg : Registry) : result Registry :=
  match items with
  | [] => Ok reg
  | (name, value) :: items' =>
      let full_name := full_name prefix name in
      reg ← register reg full_name value;
      has_nested ← py_contains "nested" value;
      reg ← (if (has_nested : bool) then parse_nested value full_name reg else Ok reg);
      parse_items parse_nested items' prefix reg
  end.

(** [_parse_proto_def], with a bound on the nesting depth of [proto_def];
    [nested.items()] is an [AttributeError] on anything but a dict. *)
Fixpoint parse_fuel (fuel : nat) (proto_def : PyVal) (prefix : string)
    (reg : Registry) : result Registry :=
  match fuel with
  | O => OutOfFuel
  | S fuel' =>
      nested ← py_get proto_def "nested" (VDict []);
      match nested with
      | VDict items => parse_items (parse_fuel fuel') items prefix reg
      | _ => raise AttributeError
      end
  end.

Definition _parse_proto_def (proto_def : PyVal) (prefix : string) (reg : Registry)
  : result Registry :=
  parse_fuel (S (Codec.depth proto_def)) proto_def prefix reg.

(** The registries after [__init__] *)
Definition init (proto_def : PyVal) : result Registry :=
  _parse_proto_def proto_def "" (mk_registry [] []).

(** What holds of every registry entry: a registered type has a ["fields"]
    member, a registered service a ["methods"] member and no ["fields"]. *)
Definition well_sorted (reg : Registry) : Prop :=
  (∀ name value, dict_get (reg_types reg) name = Some value →
     py_contains "fields" value = Ok true)
  ∧ (∀ name value, dict_get (reg_services reg) name = Some value →
       py_contains "methods" value = Ok true
       ∧ py_contains "fields" value = Ok false).

(** The schema resource as the server publishes it: one package, whose
    members are the messages and services. *)
Definition package (name : string) (members : dict PyVal) : PyVal :=
  VDict [("nested", VDict [(name, VDict [("nested", VDict members)])])].

(** A member without members of its own that is a message *)
Definition is_message (value : PyVal) : bool :=
  match value with VDict d => dict_has d "fields" | _ => false end.

(** A member without members of its own that is a service and no message *)
Definition is_service (value : PyVal) : bool :=
  match value with
  | VDict d => negb (dict_has d "fields") && dict_has d "methods"
  | _ => false
  end.

End ProtoDef.

(** The outcomes of building the registries: well-sorted registries, or the
    [TypeError] of [in] or the [AttributeError] of [get] and [items] on a
    value that is no dict *)
Definition registry_outcome (r : result ProtoDef.Registry) : Prop :=
  match r with
  | Ok reg => ProtoDef.well_sorted reg
  | Raise e => exn_class e = TypeError ∨ exn_class e = AttributeError
  | OutOfFuel => False
  end.

(** A member of a package that has no members of its own *)
Definition is_leaf (value : PyVal) : bool :=
  match value with VDict d => negb (dict_has d "nested") | _ => false end.

(** The registry entries of the members of a package that satisfy [keep] *)
Definition registered (keep : PyVal → bool) (prefix : string) (members : dict PyVal)
  : dict PyVal :=
  map (λ nv, (ProtoDef.full_name prefix nv.1, nv.2)) (List.filter (λ nv, keep nv.2) members).

(** The members of a small package: a message, a service and an enum *)
Definition sample_members : dict PyVal :=
  [("ReqHeatBeat",
    VDict [("fields",
            VDict [("no_operation_counter",
                    VDict [("type", VStr "uint32"); ("id", VInt 1)])])]);
   ("Lobby",
    VDict [("methods",
            VDict [("heatbeat",
                    VDict [("requestType", VStr "ReqHeatBeat");
                           ("responseType", VStr "ResCommon")])])]);
   ("GamePlayerState", VDict [("values", VDict [("NULL", VInt 0)])])].

(** ** Statistics of one record ([analyze_paipu_json]) *)

Module Analyze.

(** The counters of one seat *)
Record SeatStats := mk_seat {
  riichi_count : Z;
  furo_round_count : Z;
  win_count : Z;
  deal_in_count : Z;
  win_points : Z;
  deal_in_points : Z;
  round_count : Z
}.

(** One entry of [action_data["hules"]], as [hule.get] reads it: a key that
    is absent is [None] here and gets the default of the [get]. *)
Record Hule := mk_hule {
  hule_seat : option Z;
  hule_zimo : option bool;
  hule_dadian : option Z
}.

(** One entry of [data["actions"]], as far as the function reads it:
    [action["type"]] and the members of [action["data"]] with the types
    that the parsed records give them, seats and points integers, flags
    booleans. *)
Record Action := mk_action {
  action_type : string;
  is_liqi : option bool;
  seat : option Z;
  hules : option (list Hule);
  delta_scores : option (list Z);
  scores : option (list Z)
}.

Definition seat_init : SeatStats := mk_seat 0 0 0 0 0 0 0.

(** [{i: {...} for i in range(4)}] *)
Definition stats_init : gmap Z SeatStats :=
  <[0 := seat_init]> (<[1 := seat_init]> (<[2 := seat_init]> (<[3 := seat_init]> ∅))).

(** [{i: False for i in range(4)}] *)
Definition furo_init : gmap Z bool :=
  <[0 := false]> (<[1 := false]> (<[2 := false]> (<[3 := false]> ∅))).

Definition range4 : list Z := [0; 1; 2; 3].

Definition add_riichi (st : SeatStats) : SeatStats :=
  mk_seat (riichi_count st + 1) (furo_round_count st) (win_count st) (deal_in_count st)
    (win_points st) (deal_in_points st) (round_count st).

Definition add_furo (st : SeatStats) : SeatStats :=
  mk_seat (riichi_count st) (furo_round_count st + 1) (win_count st) (deal_in_count st)
    (win_points st) (deal_in_points st) (round_count st).

Definition add_win (dadian : Z) (st : SeatStats) : SeatStats :=
  mk_seat (riichi_count st) (furo_round_count st) (win_count st + 1) (deal_in_count st)
    (win_points st + dadian) (deal_in_points st) (round_count st).

Definition add_deal_in (dadian : Z) (st : SeatStats) : SeatStats :=
  mk_seat (riichi_count st) (furo_round_count st) (win_count st) (deal_in_count st + 1)
    (win_points st) (deal_in_points st + dadian) (round_count st).

Definition add_round (st : SeatStats) : SeatStats :=
  mk_seat (riichi_count st) (furo_round_count st) (win_count st) (deal_in_count st)
    (win_points st) (deal_in_points st) (round_count st + 1).

(** [seat_stats[seat][...] += ...]: a [KeyError] when [seat] is no key *)
Definition update_seat (seat_stats : gmap Z SeatStats) (seat : Z)
    (f : SeatStats → SeatStats) : result (gmap Z SeatStats) :=
  match seat_stats !! seat with
  | Some st => Ok (<[seat := f st]> seat_stats)
  | None => raise KeyError
  end.

(** [for i in range(4): if current_round_furo[i]: ... += 1] *)
Fixpoint flush_furo (seats : list Z) (current_round_furo : gmap Z bool)
    (seat_stats : gmap Z SeatStats) : result (gmap Z SeatStats) :=
  match seats with
  | [] => Ok seat_stats
  | i :: seats' =>
      match current_round_furo !! i with
      | None => raise KeyError
      | Some called =>
          seat_stats ← (if (called : bool) then update_seat seat_stats i add_furo
                        else Ok seat_stats);
          flush_furo seats' current_round_furo seat_stats
      end
  end.

(** [for i in range(4): seat_stats[i]['round_count'] += 1] *)
Fixpoint bump_rounds (seats : list Z) (seat_stats : gmap Z SeatStats)
  : result (gmap Z SeatStats) :=
  match seats with
  | [] => Ok seat_stats
  | i :: seats' =>
      seat_stats ← update_seat seat_stats i add_round;
      bump_rounds seats' seat_stats
  end.

(** [min(delta_scores)] of a list that is not empty *)
Definition py_min (first : Z) (others : list Z) : Z := fold_left Z.min others first.

(** The loop [for i, delta in enumerate(delta_scores)] up to its [break]:
    the index whose counters are bumped, if any *)
Fixpoint deal_in_index (i : Z) (delta_scores : list Z) (min_delta winner_seat : Z)
  : option Z :=
  match delta_scores with
  | [] => None
  | delta :: rest =>
      if (delta =? min_delta) && negb (i =? winner_seat) && (delta <? 0)
      then Some i
      else deal_in_index (i + 1) rest min_delta winner_seat
  end.

(** One turn of [for hule in hules].  The two [+=] on the winner's counters
    look the same key up, so they are one update here, and so are the two on
    the counters of the seat that dealt in. *)
Definition hule_step (delta_scores_ : option (list Z)) (seat_stats : gmap Z SeatStats)
    (hule : Hule) : result (gmap Z SeatStats) :=
  let winner_seat := default 0 (hule_seat hule) in
  let is_zimo := default false (hule_zimo hule) in
  let dadian := default 0 (hule_dadian hule) in
  seat_stats ← update_seat seat_stats winner_seat (add_win dadian);
  if negb is_zimo then
    match default [] delta_scores_ with
    | [] => Ok seat_stats
    | first :: others =>
        let min_delta := py_min first others in
        match deal_in_index 0 (first :: others) min_delta winner_seat with
        | Some i => update_seat seat_stats i (add_deal_in dadian)
        | None => Ok seat_stats
        end
    end
  else Ok seat_stats.

Fixpoint hule_loop (delta_scores_ : option (list Z)) (hules_ : list Hule)
    (seat_stats : gmap Z SeatStats) : result (gmap Z SeatStats) :=
  match hules_ with
  | [] => Ok seat_stats
  | hule :: hules' =>
      seat_stats ← hule_step delta_scores_ seat_stats hule;
      hule_loop delta_scores_ hules' seat_stats
  end.

(** The variables of the loop over the actions *)
Record State := mk_state {
  seat_stats : gmap Z SeatStats;
  final_scores : option (list Z);
  current_round_furo : gmap Z bool
}.

(** The [if]/[elif] chain on [action_type] *)
Definition count_action (st : State) (action : Action) : result State :=
  let action_type := action_type action in
  if String.eqb action_type "RecordNewRound" then
    stats ← flush_furo range4 (current_round_furo st) (seat_stats st);
    stats ← bump_rounds range4 stats;
    Ok (mk_state stats (final_scores st) furo_init)
  else if String.eqb action_type "RecordDiscardTile" then
    if default false (is_liqi action) then
      stats ← update_seat (seat_stats st) (default 0 (seat action)) add_riichi;
      Ok (mk_state stats (final_scores st) (current_round_furo st))
    else Ok st
  else if String.eqb action_type "RecordChiPengGang" then
    Ok (mk_state (seat_stats st) (final_scores st)
          (<[default 0 (seat action) := true]> (current_round_furo st)))
  else if String.eqb action_type "RecordHule" then
    stats ← hule_loop (delta_scores action) (default [] (hules action)) (seat_stats st);
    Ok (mk_state stats (final_scores st) (current_round_furo st))
  else Ok st.

(** The last [if] of the loop body: [if scores: final_scores = scores] *)
Definition note_scores (st : State) (action : Action) : State :=
  if String.eqb (action_type action) "RecordHule"
     || String.eqb (action_type action) "RecordNoTile"
  then match scores action with
       | Some (s :: rest) =>
           mk_state (seat_stats st) (Some (s :: rest)) (current_round_furo st)
       | _ => st
       end
  else st.

Fixpoint action_loop (actions : list Action) (st : State) : result State :=
  match actions with
  | [] => Ok st
  | action :: actions' =>
      st ← count_action st action;
      action_loop actions' (note_scores st action)
  end.

(** [analyze_paipu_json] from the actions read from the file: the
    ['seat_stats'] and the ['final_scores'] of the dict returned *)
Definition analyze_paipu_json (actions : list Action)
  : result (gmap Z SeatStats * option (list Z)) :=
  st ← action_loop actions (mk_state stats_init None furo_init);
  stats ← flush_furo range4 (current_round_furo st) (seat_stats st);
  Ok (stats, final_scores st).

(** The actions of a given type *)
Definition count_type (t : string) (actions : list Action) : Z :=
  len (List.filter (λ a, String.eqb (action_type a) t) actions).

(** Whether the record starts with a new round, as a number *)
Definition starts_round (actions : list Action) : Z :=
  match actions with
  | a :: _ => if String.eqb (action_type a) "RecordNewRound" then 1 else 0
  | [] => 0
  end.

(** The entries of [hules] in the [RecordHule] actions *)
Definition all_hules (actions : list Action) : list Hule :=
  concat (map (λ a, if String.eqb (action_type a) "RecordHule"
                    then default [] (hules a) else []) actions).

(** The sum of a counter over the four seats *)
Definition total (f : SeatStats → Z) (seat_stats : gmap Z SeatStats) : Z :=
  foldr (λ i acc, match seat_stats !! i with Some st => f st + acc | None => acc end)
    0 range4.

(** An action that names only seats of the table: the seat of a riichi
    discard, the winners, and at most four score changes *)
Definition action_ok (a : Action) : Prop :=
  (action_type a = "RecordDiscardTile" → default false (is_liqi a) = true →
   0 ≤ default 0 (seat a) < 4)
  ∧ (action_type a = "RecordHule" →
     Forall (λ h, 0 ≤ default 0 (hule_seat h) < 4) (default [] (hules a))
     ∧ (length (default [] (delta_scores a)) ≤ 4)%nat).

End Analyze.

(** *** Invariants of the loop over the actions *)

(** The seats of the table are the keys of [seat_stats], and keys of
    [current_round_furo]. *)
Definition seat_dom (seat_stats : gmap Z Analyze.SeatStats) : Prop :=
  ∀ i, is_Some (seat_stats !! i) ↔ 0 ≤ i < 4.

Definition furo_dom (current_round_furo : gmap Z bool) : Prop :=
  ∀ i, 0 ≤ i < 4 → is_Some (current_round_furo !! i).

(** [current_round_furo[i]] of a seat, false for other keys *)
Definition called (current_round_furo : gmap Z bool) (i : Z) : bool :=
  match current_round_furo !! i with Some true => true | _ => false end.

(** The sum of the points of a list of wins, and the wins by discard *)
Definition sum_dadian (hules : list Analyze.Hule) : Z :=
  foldr (λ h acc, default 0 (Analyze.hule_dadian h) + acc) 0 hules.

Definition by_discard (hules : list Analyze.Hule) : list Analyze.Hule :=
  List.filter (λ h, negb (default false (Analyze.hule_zimo h))) hules.

(** What holds of the counters of a seat when [rounds] new rounds were seen,
    [started] being 1 when the first action seen was a new round: the rounds
    with calls counted are rounds that are over. *)
Definition entry_ok (rounds started : Z) (s : Analyze.SeatStats) : Prop :=
  Analyze.round_count s = rounds
  ∧ 0 ≤ Analyze.furo_round_count s
  ∧ Analyze.furo_round_count s + started ≤ rounds.

(** After the actions [seen]: the rounds counted are the new rounds seen and
    the wins counted are the wins seen. *)
Definition analyze_inv (seen : list Analyze.Action) (st : Analyze.State) : Prop :=
  seat_dom (Analyze.seat_stats st)
  ∧ furo_dom (Analyze.current_round_furo st)
  ∧ Analyze.final_scores st ≠ Some []
  ∧ (∀ i s, Analyze.seat_stats st !! i = Some s →
       entry_ok (Analyze.count_type "RecordNewRound" seen) (Analyze.starts_round seen) s)
  ∧ (seen = [] → ∀ i, called (Analyze.current_round_furo st) i = false)
  ∧ Analyze.total Analyze.win_count (Analyze.seat_stats st)
    = len (Analyze.all_hules seen)
  ∧ Analyze.total Analyze.win_points (Analyze.seat_stats st)
    = sum_dadian (Analyze.all_hules seen)
  ∧ 0 ≤ Analyze.total Analyze.deal_in_count (Analyze.seat_stats st)
    ≤ len (by_discard (Analyze.all_hules seen)).

(** The outcomes of the function: a result, or the [KeyError] of a seat that
    is no key of [seat_stats] *)
Definition key_error_only {A} (r : result A) : Prop :=
  match r with
  | Ok _ => True
  | Raise e => exn_class e = KeyError
  | OutOfFuel => False
  end.

(** A short record: a round with a call, a riichi and a win by discard, and
    a drawn round *)
Definition sample_actions : list Analyze.Action :=
  [Analyze.mk_action "RecordNewRound" None None None None None;
   Analyze.mk_action "RecordChiPengGang" None (Some 1) None None None;
   Analyze.mk_action "RecordDiscardTile" (Some true) (Some 2) None None None;
   Analyze.mk_action "RecordHule" None None
     (Some [Analyze.mk_hule (Some 2) None (Some 8000)])
     (Some [0; -8000; 9000; 0]) (Some [25000; 17000; 33000; 25000]);
   Analyze.mk_action "RecordNewRound" None None None None None;
   Analyze.mk_action "RecordNoTile" None None None None
     (Some [26000; 16000; 34000; 24000])].

(** *** Specification notions for [parse_game_record] *)

(** The classes of the protobuf module return or raise on every buffer. *)
Definition pb_returns (pb : PbModule) : Prop :=
  (∀ b, pb_Wrapper pb b ≠ OutOfFuel)
  ∧ (∀ b, pb_GameDetailRecords pb b ≠ OutOfFuel)
  ∧ (∀ type_name msg_class b,
       pb_getattr pb type_name = Some msg_class → msg_class b ≠ OutOfFuel).

(** The keys that the part of [parse_game_record] after the head writes *)
Definition payload_keys : list string :=
  ["error"; "version"; "actions"; "parse_error"; "raw_data"].

(** A module whose envelopes carry one action of a type without decoder *)
Definition plain_pb : PbModule :=
  mk_pb (λ b, Ok (".lq.RecordFutureType", b)) (λ b, Ok (1, [b]))
        (λ b, Ok (VDict [])) (λ b, Ok (VDict [])) (λ _, None).

(** ** Batch download ([batch_download.py]) *)

Module Batch.

(** The four variables that the loop of [batch_download] keeps and prints at
    the end *)
Record Tally := mk_tally {
  success_count : Z;
  skip_count : Z;
  fail_count : Z;
  failed_ids : list string
}.

Section WithWorld.

(** The disk, the network and the clock are a state [World]:
    [file_exists w paipu_id] is [output_file.exists()] for the file of the
    record; [download_record] is the call in the [try], with the exception
    it raises, if any; [sleep] is [asyncio.sleep(delay)]. *)
Variable World : Type.
Variable file_exists : World → string → bool.
Variable download_record : World → string → World * option exn.
Variable sleep : World → World.

(** The loop [for i, paipu_id in enumerate(paipu_ids, 1)]; [i < len(paipu_ids)]
    holds when ids are left. *)
Fixpoint download_loop (skip_existing : bool) (paipu_ids : list string)
    (w : World) (t : Tally) : World * Tally :=
  match paipu_ids with
  | [] => (w, t)
  | paipu_id :: rest =>
      if skip_existing && file_exists w paipu_id then
        download_loop skip_existing rest w
          (mk_tally (success_count t) (skip_count t + 1) (fail_count t) (failed_ids t))
      else
        let '(w, raised) := download_record w paipu_id in
        let t :=
          match raised with
          | None =>
              if file_exists w paipu_id
              then mk_tally (success_count t + 1) (skip_count t) (fail_count t)
                     (failed_ids t)
              else mk_tally (success_count t) (skip_count t) (fail_count t + 1)
                     (failed_ids t ++ [paipu_id])
          | Some _ =>
              mk_tally (success_count t) (skip_count t) (fail_count t + 1)
                (failed_ids t ++ [paipu_id])
          end in
        let w := match rest with [] => w | _ :: _ => sleep w end in
        download_loop skip_existing rest w t
  end.

(** [batch_download] from the list of ids read from the CSV file, when the
    credentials are there: the variables at the final prints *)
Definition batch_download (paipu_ids : list string) (skip_existing : bool) (w : World)
  : World * Tally :=
  download_loop skip_existing paipu_ids w (mk_tally 0 0 0 []).

End WithWorld.

(** A sample world: the files on disk and the number of sleeps; a download
    writes the file of every id but ["bad"], for which it raises. *)
Record Disk := mk_disk { files : list string; sleeps : Z }.

Definition disk_exists (w : Disk) (paipu_id : string) : bool :=
  existsb (String.eqb paipu_id) (files w).

Definition disk_download (w : Disk) (paipu_id : string) : Disk * option exn :=
  if String.eqb paipu_id "bad" then (w, Some (mk_exn Exception "no such record"))
  else (mk_disk (paipu_id :: files w) (sleeps w), None).

Definition disk_sleep (w : Disk) : Disk := mk_disk (files w) (sleeps w + 1).

End Batch.

(** * Properties *)

(** ** Sanity checks of the embedding on concrete inputs *)

Example varint_300 : _encode_varint 300 = Ok (bs [0xAC; 0x02]).
Proof. reflexivity. Qed.

Example varint_decode_300 : _decode_varint (bs [0xAC; 0x02; 0x01]) 0 = Ok (300, 2).
Proof. reflexivity. Qed.

Example varint_neg : _encode_varint (-1) = raise ValueError.
Proof. reflexivity. Qed.

Example encode_string_hi : _encode_string 1 (bytes_of_str "hi") = Ok (bs [0x0a; 0x02; 0x68; 0x69]).
Proof. reflexivity. Qed.

Example b64_hi : b64encode (bytes_of_str "hi") = "aGk=".
Proof. reflexivity. Qed.

Example b64_foobar : b64encode (bytes_of_str "foobar") = "Zm9vYmFy".
Proof. reflexivity. Qed.

Example utf8_bad : decode_utf8 (bs [0xC0; 0x80]) = raise UnicodeDecodeError.
Proof. reflexivity. Qed.

Example utf8_good : decode_utf8 (bs [0xE4; 0xB8; 0x80]) = Ok (str_of_bytes (bs [0xE4; 0xB8; 0x80])).
Proof. reflexivity. Qed.

Example decode_Foo_hi :
  Codec._decode_message Foo_types "Foo" (bs [0x0a; 0x02; 0x68; 0x69])
  = Ok (VDict [("bar", VStr "hi")]).
Proof. vm_compute. reflexivity. Qed.

Example split_example : split_dot (lstrip_dot ".lq.Lobby.fetchGameRecord") = ["lq"; "Lobby"; "fetchGameRecord"].
Proof. reflexivity. Qed.

Example split_empty_parts : split_dot "a..b." = ["a"; ""; "b"; ""].
Proof. reflexivity. Qed.

Example xor_example :
  decode_record_data (bs [1; 2; 3]) = Ok (bs [0x99; 0x75; 0x6f]).
Proof. reflexivity. Qed.

(** ** Varints *)

(** C2. Varint round-trip on the sample values: for each [v] among 0, 1, 127,
    128, 16383, 16384, 2^31-1 and 2^32-1, [_encode_varint v] returns a byte
    string [b], and [_decode_varint b 0] returns exactly [v] together with
    the position [len b]. *)
Theorem varint_roundtrip_samples :
  Forall (λ v, ∃ b, _encode_varint v = Ok b ∧ _decode_varint b 0 = Ok (v, len b))
         [0; 1; 127; 128; 16383; 16384; 2 ^ 31 - 1; 2 ^ 32 - 1].
Proof.
  repeat (constructor; [eexists; split; vm_compute; reflexivity |]).
  constructor.
Qed.

(** ** Messages *)

(** C8. For a registry in which [Foo] has the single field [bar] with id 1
    and type [string], encoding [{bar: "hi"}] against [Foo] yields exactly the
    bytes 0x0a 0x02 0x68 0x69. *)
Theorem encode_Foo_hi (types : gmap string TypeDef) int_of_str int_of_bytes rule :
  types !! "Foo" = Some [("bar", mk_field 1 "string" rule)] →
  Codec._encode_message types int_of_str int_of_bytes "Foo" [("bar", VStr "hi")]
  = Ok (bs [0x0a; 0x02; 0x68; 0x69]).
Proof.
  intros Hfoo.
  unfold Codec._encode_message. cbn [Codec.depth map snd list_max foldr Nat.max].
  cbn [Codec.encode_message_fuel]. unfold Codec.lookup_type. rewrite Hfoo.
  reflexivity.
Qed.

Lemma encode_Foo_hi_witness :
  Foo_types !! "Foo" = Some [("bar", mk_field 1 "string" None)]
  ∧ Codec._encode_message Foo_types no_int_of_str no_int_of_bytes "Foo" [("bar", VStr "hi")]
    = Ok (bs [0x0a; 0x02; 0x68; 0x69]).
Proof.
  split; [reflexivity | apply (encode_Foo_hi Foo_types _ _ None); reflexivity].
Defined.

(** C6. Decoding against a type name that is registered neither literally
    nor with the [lq.] prefix does not raise: for every byte string it
    returns the marker [{"_raw": base64 of the bytes}]. *)
Theorem decode_unknown_type (types : gmap string TypeDef) type_name data :
  types !! type_name = None →
  types !! ("lq." +:+ type_name) = None →
  Codec._decode_message types type_name data
  = Ok (VDict [("_raw", VStr (b64encode data))]).
Proof.
  intros H1 H2. unfold Codec._decode_message. cbn [Codec.decode_message_fuel].
  unfold Codec.lookup_type. rewrite H1, H2. reflexivity.
Qed.

Lemma decode_unknown_type_witness :
  Foo_types !! "Bar" = None ∧ Foo_types !! ("lq." +:+ "Bar") = None
  ∧ Codec._decode_message Foo_types "Bar" (bs [0x0a; 0x02; 0x68; 0x69])
    = Ok (VDict [("_raw", VStr "CgJoaQ==")]).
Proof.
  split; [reflexivity | split; [reflexivity |]].
  apply (decode_unknown_type Foo_types "Bar"); reflexivity.
Defined.

(** ** Bytes and bit operations *)

Lemma byte_to_Z_range (b : byte) : 0 ≤ byte_to_Z b < 256.
Proof.
  unfold byte_to_Z. pose proof (Byte.to_N_bounded b). lia.
Qed.

Lemma byte_of_to_Z (b : byte) : byte_of_Z (byte_to_Z b) = Some b.
Proof.
  unfold byte_of_Z. pose proof (byte_to_Z_range b).
  replace ((0 <=? byte_to_Z b) && (byte_to_Z b <? 256)) with true
    by (symmetry; apply andb_true_intro; split; [apply Z.leb_le | apply Z.ltb_lt]; lia).
  unfold byte_to_Z. rewrite N2Z.id. apply Byte.of_to_N.
Qed.

Lemma byte_of_Z_Some (z : Z) :
  0 ≤ z < 256 → ∃ b, byte_of_Z z = Some b ∧ byte_to_Z b = z.
Proof.
  intros Hz. unfold byte_of_Z.
  replace ((0 <=? z) && (z <? 256)) with true
    by (symmetry; apply andb_true_intro; split; [apply Z.leb_le | apply Z.ltb_lt]; lia).
  destruct (Byte.of_N (Z.to_N z)) as [b|] eqn:Hb.
  - exists b. split; [reflexivity |].
    unfold byte_to_Z. rewrite (Byte.to_of_N _ Hb). lia.
  - apply Byte.of_N_None_iff in Hb. lia.
Qed.

Lemma byte_of_Z_inv (z : Z) (b : byte) :
  byte_of_Z z = Some b → byte_to_Z b = z ∧ 0 ≤ z < 256.
Proof.
  unfold byte_of_Z. intros H.
  destruct ((0 <=? z) && (z <? 256)) eqn:Hr; [| discriminate].
  apply andb_prop in Hr as [H0 H1]. apply Z.leb_le in H0. apply Z.ltb_lt in H1.
  unfold byte_to_Z. rewrite (Byte.to_of_N _ H). lia.
Qed.

Lemma byte_to_Z_inj (a b : byte) : byte_to_Z a = byte_to_Z b → a = b.
Proof.
  intros H. pose proof (byte_of_to_Z a) as Ha. rewrite H, byte_of_to_Z in Ha.
  congruence.
Qed.

Lemma testbit_high_small (a n m : Z) :
  0 ≤ a < 2 ^ n → 0 ≤ n ≤ m → Z.testbit a m = false.
Proof.
  intros Ha Hm. rewrite <- (Z.mod_small a (2 ^ n)) by lia.
  apply Z.mod_pow2_bits_high. lia.
Qed.

Lemma small_of_high_bits (a n : Z) :
  0 ≤ n → 0 ≤ a → (∀ m, n ≤ m → Z.testbit a m = false) → a < 2 ^ n.
Proof.
  intros Hn Ha Hbits.
  assert (a = a mod 2 ^ n) as ->; [| apply Z.mod_pos_bound; lia].
  rewrite <- Z.land_ones by lia. apply Z.bits_inj'. intros m Hm.
  rewrite Z.land_spec. destruct (Z.lt_ge_cases m n).
  - rewrite Z.ones_spec_low by lia. now rewrite andb_true_r.
  - rewrite Hbits by lia. reflexivity.
Qed.

Lemma lxor_range (a b n : Z) :
  0 ≤ n → 0 ≤ a < 2 ^ n → 0 ≤ b < 2 ^ n → 0 ≤ Z.lxor a b < 2 ^ n.
Proof.
  intros Hn Ha Hb.
  assert (0 ≤ Z.lxor a b) by (apply Z.lxor_nonneg; lia).
  split; [assumption |]. apply small_of_high_bits; [lia | assumption |].
  intros m Hm. rewrite Z.lxor_spec.
  rewrite (testbit_high_small a n m), (testbit_high_small b n m) by lia.
  reflexivity.
Qed.

Lemma lor_range (a b n : Z) :
  0 ≤ n → 0 ≤ a < 2 ^ n → 0 ≤ b < 2 ^ n → 0 ≤ Z.lor a b < 2 ^ n.
Proof.
  intros Hn Ha Hb.
  assert (0 ≤ Z.lor a b) by (apply Z.lor_nonneg; lia).
  split; [assumption |]. apply small_of_high_bits; [lia | assumption |].
  intros m Hm. rewrite Z.lor_spec.
  rewrite (testbit_high_small a n m), (testbit_high_small b n m) by lia.
  reflexivity.
Qed.

Lemma land_255_range (a : Z) : 0 ≤ Z.land a 255 < 256.
Proof.
  change 255 with (Z.ones 8). rewrite Z.land_ones by lia.
  apply Z.mod_pos_bound. lia.
Qed.

Lemma len_nonneg {A} (l : list A) : 0 ≤ len l.
Proof. unfold len. lia. Qed.

Lemma len_app {A} (l1 l2 : list A) : len (l1 ++ l2) = len l1 + len l2.
Proof. unfold len. rewrite length_app. lia. Qed.

Lemma bytes_getitem_lookup (data : bytes) (i : nat) (b : byte) :
  data !! i = Some b → bytes_getitem data (Z.of_nat i) = Ok (byte_to_Z b).
Proof.
  intros H. unfold bytes_getitem.
  destruct (Z.ltb_spec (Z.of_nat i) 0); [lia |].
  destruct (Z.ltb_spec (Z.of_nat i) 0); [lia |].
  rewrite Nat2Z.id, H. reflexivity.
Qed.

Lemma bytes_getitem_out (data : bytes) (pos : Z) :
  len data ≤ pos → bytes_getitem data pos = raise IndexError.
Proof.
  intros H. pose proof (len_nonneg data). unfold bytes_getitem.
  destruct (Z.ltb_spec pos 0); [lia |].
  destruct (Z.ltb_spec pos 0); [lia |].
  rewrite lookup_ge_None_2; [reflexivity |]. unfold len in *. lia.
Qed.

Lemma bytes_getitem_at (pre post : bytes) (b : byte) :
  bytes_getitem (pre ++ b :: post) (len pre) = Ok (byte_to_Z b).
Proof.
  apply bytes_getitem_lookup. rewrite lookup_app_r by lia.
  rewrite Nat.sub_diag. reflexivity.
Qed.

(** ** The record cipher *)

Lemma keystream_land n i :
  Z.land (Z.lxor 23 n + 5 * i + nth (Z.to_nat (i mod 9)) DECODE_KEYS 0) 255
  = keystream n i.
Proof.
  unfold keystream. change 255 with (Z.ones 8). rewrite Z.land_ones by lia.
  reflexivity.
Qed.

Lemma keystream_range n i : 0 ≤ keystream n i < 256.
Proof. unfold keystream. apply Z.mod_pos_bound. lia. Qed.

Lemma DECODE_KEYS_getitem (i : nat) :
  list_getitem DECODE_KEYS (Z.of_nat i mod len DECODE_KEYS)
  = Ok (nth (Z.to_nat (Z.of_nat i mod 9)) DECODE_KEYS 0).
Proof.
  change (len DECODE_KEYS) with 9.
  pose proof (Z.mod_pos_bound (Z.of_nat i) 9 ltac:(lia)) as Hm.
  unfold list_getitem. destruct (Z.ltb_spec (Z.of_nat i mod 9) 0); [lia |].
  assert (Z.to_nat (Z.of_nat i mod 9) < 9)%nat as Hlt by lia.
  destruct (Z.to_nat (Z.of_nat i mod 9)) as [|[|[|[|[|[|[|[|[|k]]]]]]]]];
    try reflexivity; lia.
Qed.

Lemma xor_step_spec (data : bytes) (i : nat) (b : byte) :
  data !! i = Some b →
  ∃ b', xor_step data (Z.of_nat i) = Ok (<[i := b']> data)
        ∧ byte_to_Z b' = Z.lxor (byte_to_Z b) (keystream (len data) (Z.of_nat i)).
Proof.
  intros Hb. unfold xor_step. rewrite DECODE_KEYS_getitem. cbn [mbind result_bind].
  rewrite (bytes_getitem_lookup _ _ _ Hb). cbn [mbind result_bind].
  rewrite keystream_land.
  destruct (byte_of_Z_Some (Z.lxor (byte_to_Z b) (keystream (len data) (Z.of_nat i))))
    as (b' & Hb' & Hv).
  { apply (lxor_range _ _ 8); [lia | apply byte_to_Z_range | apply keystream_range]. }
  exists b'. split; [| assumption].
  unfold bytearray_setitem. apply lookup_lt_Some in Hb.
  destruct (Z.ltb_spec (Z.of_nat i) 0); [lia |].
  destruct (Z.leb_spec (len data) (Z.of_nat i)); [unfold len in *; lia |].
  cbn [orb]. rewrite Hb', Nat2Z.id. reflexivity.
Qed.

(** The loop from index [k] on leaves the bytes before [k] alone and
    replaces each later byte by its XOR with the keystream. *)
Lemma xor_loop_spec (m : nat) : ∀ (k : nat) (data : bytes),
  (k + m = length data)%nat →
  ∃ data', xor_loop (seq k m) data = Ok data'
    ∧ length data' = length data
    ∧ ∀ (j : nat) (b : byte), data !! j = Some b →
        ∃ b', data' !! j = Some b'
          ∧ byte_to_Z b' =
              if decide (k ≤ j)%nat
              then Z.lxor (byte_to_Z b) (keystream (len data) (Z.of_nat j))
              else byte_to_Z b.
Proof.
  induction m as [|m IH]; intros k data Hlen.
  - exists data. split; [reflexivity | split; [reflexivity |]].
    intros j b Hj. exists b. split; [assumption |].
    apply lookup_lt_Some in Hj. destruct (decide (k ≤ j)%nat); [lia | reflexivity].
  - destruct (lookup_lt_is_Some_2 data k ltac:(lia)) as [bk Hbk].
    destruct (xor_step_spec data k bk Hbk) as (bk' & Hstep & Hbk').
    cbn [seq xor_loop]. rewrite Hstep. cbn [mbind result_bind].
    destruct (IH (S k) (<[k := bk']> data)) as (data' & Hloop & Hlen' & Hspec).
    { rewrite length_insert. lia. }
    exists data'. split; [assumption |]. rewrite length_insert in Hlen'.
    split; [assumption |].
    intros j b Hj.
    assert (len (<[k := bk']> data) = len data) as Hl
      by (unfold len; now rewrite length_insert).
    destruct (decide (j = k)) as [-> | Hne].
    + destruct (Hspec k bk') as (b' & Hb' & Hv).
      { apply list_lookup_insert_eq. lia. }
      exists b'. split; [assumption |].
      rewrite Hv. destruct (decide (S k ≤ k)%nat); [lia |].
      destruct (decide (k ≤ k)%nat); [| lia]. congruence.
    + destruct (Hspec j b) as (b' & Hb' & Hv).
      { rewrite list_lookup_insert_ne by congruence. assumption. }
      exists b'. split; [assumption |]. rewrite Hv, Hl.
      destruct (decide (S k ≤ j)%nat), (decide (k ≤ j)%nat); try reflexivity; lia.
Qed.

Lemma decode_record_data_spec (data : bytes) :
  ∃ data', decode_record_data data = Ok data'
    ∧ length data' = length data
    ∧ ∀ (j : nat) (b : byte), data !! j = Some b →
        ∃ b', data' !! j = Some b'
          ∧ byte_to_Z b' = Z.lxor (byte_to_Z b) (keystream (len data) (Z.of_nat j)).
Proof.
  destruct (xor_loop_spec (length data) 0 data eq_refl) as (data' & H & Hl & Hs).
  exists data'. split; [assumption | split; [assumption |]].
  intros j b Hj. destruct (Hs j b Hj) as (b' & Hb' & Hv).
  exists b'. split; [assumption |].
  destruct (decide (0 ≤ j)%nat); [assumption | lia].
Qed.

(** C3. XOR involution: on every buffer [decode_record_data] returns a
    buffer of the same length in which the byte at each index [j] is the
    original byte XORed with [keystream (len data) j], that is with
    ((23 XOR length) + 5 j + TABLE[j mod 9]) mod 256; and applying it to its
    own output gives the original buffer back, so that [decode_record_data]
    composed with itself is the identity. *)
Theorem decode_record_data_involutive (data : bytes) :
  ∃ data', decode_record_data data = Ok data'
    ∧ length data' = length data
    ∧ (∀ (j : nat) (b : byte), data !! j = Some b →
         ∃ b', data' !! j = Some b'
           ∧ byte_to_Z b' = Z.lxor (byte_to_Z b) (keystream (len data) (Z.of_nat j)))
    ∧ decode_record_data data' = Ok data
    ∧ decode_record_data data ≫= decode_record_data = Ok data.
Proof.
  destruct (decode_record_data_spec data) as (d1 & H1 & Hl1 & Hs1).
  destruct (decode_record_data_spec d1) as (d2 & H2 & Hl2 & Hs2).
  exists d1. split; [assumption | split; [assumption | split; [assumption |]]].
  rewrite H1. cbn [mbind result_bind].
  enough (decode_record_data d1 = Ok data) by (split; assumption).
  rewrite H2. f_equal. apply list_eq. intros j.
  destruct (data !! j) as [b|] eqn:Hb.
  - destruct (Hs1 j b Hb) as (b1 & Hb1 & Hv1).
    destruct (Hs2 j b1 Hb1) as (b2 & Hb2 & Hv2).
    rewrite Hb2. f_equal. apply byte_to_Z_inj.
    assert (len d1 = len data) as Hl by (unfold len; now rewrite Hl1).
    rewrite Hv2, Hv1, Hl, Z.lxor_assoc, Z.lxor_nilpotent, Z.lxor_0_r.
    reflexivity.
  - apply lookup_ge_None in Hb. apply lookup_ge_None. lia.
Qed.

(** A sequence of two steps that both return, returns. *)
Lemma bind_returns {A B} (r : result A) (f : A → result B) :
  r ≠ OutOfFuel → (∀ a, f a ≠ OutOfFuel) → r ≫= f ≠ OutOfFuel.
Proof.
  intros Hr Hf. destruct r as [a| |]; cbn; [apply Hf | discriminate | contradiction].
Qed.

(** ** Statistics *)

Section RatesFacts.

Variable float : Type.
Variable int_div : Z → Z → float.
Variable mul_int : float → Z → float.

(** The divisor of the four per-round rates *)
Lemma round_divisor_nonzero (stats : Stats.PlayerStats) :
  (if Stats.round_count stats =? 0 then 1 else Stats.round_count stats) ≠ 0.
Proof.
  destruct (Z.eqb_spec (Stats.round_count stats) 0); lia.
Qed.

Lemma float_limit_pos : 1 ≤ Stats.float_limit.
Proof. apply Z.leb_le. vm_compute. reflexivity. Qed.

Lemma truediv_ok (a b : Z) :
  b ≠ 0 → Z.abs a < Stats.float_limit →
  Stats.truediv float int_div a b = Ok (int_div a b).
Proof.
  intros Hb Ha. unfold Stats.truediv.
  destruct (Z.eqb_spec b 0); [contradiction |].
  pose proof float_limit_pos as Hl.
  destruct (Z.leb_spec (Stats.float_limit * Z.abs b) (Z.abs a)) as [Hle |]; [| reflexivity].
  assert (1 ≤ Z.abs b) by lia.
  assert (Stats.float_limit * 1 ≤ Stats.float_limit * Z.abs b)
    by (apply Z.mul_le_mono_nonneg_l; lia).
  lia.
Qed.

Lemma truediv_raises (a b : Z) (e : exn) :
  Stats.truediv float int_div a b = Raise e →
  (b = 0 ∧ e = builtin_exn ZeroDivisionError)
  ∨ (b ≠ 0 ∧ Stats.float_limit * Z.abs b ≤ Z.abs a ∧ e = builtin_exn OverflowError).
Proof.
  unfold Stats.truediv.
  destruct (Z.eqb_spec b 0) as [-> | Hb].
  - intros [= <-]. left. split; reflexivity.
  - destruct (Z.leb_spec (Stats.float_limit * Z.abs b) (Z.abs a)) as [Hle |].
    + intros [= <-]. right. repeat split; assumption.
    + discriminate.
Qed.

Lemma truediv_returns (a b : Z) : Stats.truediv float int_div a b ≠ OutOfFuel.
Proof.
  unfold Stats.truediv.
  destruct (b =? 0); [discriminate |].
  destruct (Stats.float_limit * Z.abs b <=? Z.abs a); discriminate.
Qed.

Lemma percent_ok (a b : Z) :
  b ≠ 0 → Z.abs a < Stats.float_limit →
  Stats.percent float int_div mul_int a b
  = Ok (Stats.SFloat (mul_int (int_div a b) 100)).
Proof.
  intros Hb Ha. unfold Stats.percent. rewrite truediv_ok by assumption. reflexivity.
Qed.

Lemma average_ok (a b : Z) :
  Z.abs a < Stats.float_limit →
  Stats.average float int_div a b
  = Ok (if b >? 0 then Stats.SFloat (int_div a b) else Stats.SInt 0).
Proof.
  intros Ha. unfold Stats.average.
  destruct (Z.gtb_spec b 0) as [Hpos | Hle]; [| reflexivity].
  rewrite truediv_ok by (lia || assumption). reflexivity.
Qed.

(** What [percent] and [average] raise: never for a zero divisor *)
Lemma percent_raises (a b : Z) (e : exn) :
  b ≠ 0 →
  Stats.percent float int_div mul_int a b = Raise e →
  e = builtin_exn OverflowError ∧ Stats.float_limit ≤ Z.abs a.
Proof.
  intros Hb. unfold Stats.percent.
  destruct (Stats.truediv float int_div a b) as [q | e' |] eqn:Hq;
    cbn [mbind result_bind]; try discriminate.
  intros [= <-].
  destruct (truediv_raises _ _ _ Hq) as [[H0 _] | (_ & Hle & ->)]; [contradiction |].
  split; [reflexivity |].
  pose proof float_limit_pos.
  assert (Stats.float_limit * 1 ≤ Stats.float_limit * Z.abs b)
    by (apply Z.mul_le_mono_nonneg_l; lia).
  lia.
Qed.

Lemma average_raises (a b : Z) (e : exn) :
  Stats.average float int_div a b = Raise e →
  e = builtin_exn OverflowError ∧ Stats.float_limit ≤ Z.abs a.
Proof.
  unfold Stats.average.
  destruct (Z.gtb_spec b 0) as [Hpos | Hle]; [| discriminate].
  destruct (Stats.truediv float int_div a b) as [q | e' |] eqn:Hq;
    cbn [mbind result_bind]; try discriminate.
  intros [= <-].
  destruct (truediv_raises _ _ _ Hq) as [[H0 _] | (_ & Hle & ->)]; [lia |].
  split; [reflexivity |].
  pose proof float_limit_pos.
  assert (Stats.float_limit * 1 ≤ Stats.float_limit * Z.abs b)
    by (apply Z.mul_le_mono_nonneg_l; lia).
  lia.
Qed.

Lemma percent_returns (a b : Z) : Stats.percent float int_div mul_int a b ≠ OutOfFuel.
Proof.
  unfold Stats.percent. pose proof (truediv_returns a b).
  destruct (Stats.truediv float int_div a b); cbn; congruence.
Qed.

Lemma average_returns (a b : Z) : Stats.average float int_div a b ≠ OutOfFuel.
Proof.
  unfold Stats.average. pose proof (truediv_returns a b).
  destruct (b >? 0); [| discriminate].
  destruct (Stats.truediv float int_div a b); cbn; congruence.
Qed.

(** An error of [calculate_rates] is the [OverflowError] of a division
    whose dividend is beyond the floats. *)
Lemma calculate_rates_raises (stats : Stats.PlayerStats) (e : exn) :
  Stats.calculate_rates float int_div mul_int stats = Raise e →
  e = builtin_exn OverflowError
  ∧ ∃ a, In a (Stats.dividends stats) ∧ Stats.float_limit ≤ Z.abs a.
Proof.
  pose proof (round_divisor_nonzero stats) as Hd.
  unfold Stats.calculate_rates, Stats.dividends.
  set (divisor := if Stats.round_count stats =? 0 then 1 else Stats.round_count stats) in *.
  repeat match goal with
  | |- context [Stats.percent float int_div mul_int ?a divisor] =>
      let H := fresh "Hp" in
      destruct (Stats.percent float int_div mul_int a divisor) eqn:H;
        cbn [mbind result_bind];
        [ | intros [= <-]; destruct (percent_raises _ _ _ Hd H) as [-> Hle];
            split; [reflexivity | eexists; split; [| exact Hle]; cbn [In]; auto 10]
          | discriminate ]
  | |- context [Stats.average float int_div ?a ?b] =>
      let H := fresh "Hp" in
      destruct (Stats.average float int_div a b) eqn:H;
        cbn [mbind result_bind];
        [ | intros [= <-]; destruct (average_raises _ _ _ H) as [-> Hle];
            split; [reflexivity | eexists; split; [| exact Hle]; cbn [In]; auto 10]
          | discriminate ]
  end.
  discriminate.
Qed.

Lemma calculate_rates_returns (stats : Stats.PlayerStats) :
  Stats.calculate_rates float int_div mul_int stats ≠ OutOfFuel.
Proof.
  unfold Stats.calculate_rates.
  repeat (apply bind_returns; [first [apply percent_returns | apply average_returns] | intros ?]).
  discriminate.
Qed.

Lemma calculate_rates_ok (stats : Stats.PlayerStats) :
  Forall (λ a, Z.abs a < Stats.float_limit) (Stats.dividends stats) →
  ∃ rates divisor,
    Stats.calculate_rates float int_div mul_int stats = Ok rates
    ∧ divisor = (if Stats.round_count stats =? 0 then 1 else Stats.round_count stats)
    ∧ divisor ≠ 0
    ∧ dict_get rates "riichi_rate"
      = Some (Stats.SFloat (mul_int (int_div (Stats.riichi_count stats) divisor) 100))
    ∧ dict_get rates "furo_rate"
      = Some (Stats.SFloat (mul_int (int_div (Stats.furo_round_count stats) divisor) 100))
    ∧ dict_get rates "win_rate"
      = Some (Stats.SFloat (mul_int (int_div (Stats.win_count stats) divisor) 100))
    ∧ dict_get rates "deal_in_rate"
      = Some (Stats.SFloat (mul_int (int_div (Stats.deal_in_count stats) divisor) 100))
    ∧ dict_get rates "avg_win_points"
      = Some (if Stats.win_count stats >? 0
              then Stats.SFloat (int_div (Stats.win_points stats) (Stats.win_count stats))
              else Stats.SInt 0)
    ∧ dict_get rates "avg_deal_in_points"
      = Some (if Stats.deal_in_count stats >? 0
              then Stats.SFloat (int_div (Stats.deal_in_points stats)
                                         (Stats.deal_in_count stats))
              else Stats.SInt 0)
    ∧ (∀ k v, dict_get (Stats.stats_items float stats) k = Some v → dict_get rates k = Some v).
Proof.
  intros Hb. unfold Stats.dividends in Hb.
  repeat match type of Hb with
         | Forall _ (_ :: _) => apply Forall_cons in Hb as [? Hb]
         end.
  pose proof (round_divisor_nonzero stats) as Hd.
  unfold Stats.calculate_rates.
  set (divisor := if Stats.round_count stats =? 0 then 1 else Stats.round_count stats) in *.
  rewrite !percent_ok by assumption. rewrite !average_ok by assumption.
  cbn [mbind result_bind].
  eexists _, divisor. split; [reflexivity |].
  split; [reflexivity |]. split; [assumption |].
  repeat (split; [reflexivity |]).
  intros k v Hk. cbn [Stats.stats_items dict_get] in Hk.
  cbn [foldl Stats.stats_items dict_set fst snd String.eqb Ascii.eqb Bool.eqb].
  cbn [dict_get].
  repeat match goal with
         | |- context [if String.eqb ?x k then _ else _] =>
             destruct (String.eqb x k); [assumption |]
         end.
  discriminate.
Qed.

End RatesFacts.

(** C9 (amended). [calculate_rates] never divides by zero, and it returns
    on every stats record whose counters are within the range of the floats
    (below [2^1024 - 2^970] in magnitude): the four per-round rates are the
    quotients by [round_count], or by 1 when [round_count] is 0, times 100,
    and each of the two averages is the quotient by its count when the
    count is positive and the integer 0 otherwise (in particular when the
    count is 0).  On any record the only error is the [OverflowError] of
    the division of a counter beyond that range. *)
Theorem calculate_rates_total (float : Type) (int_div : Z → Z → float)
    (mul_int : float → Z → float) (stats : Stats.PlayerStats) :
  Stats.calculate_rates float int_div mul_int stats ≠ OutOfFuel
  ∧ (∀ e, Stats.calculate_rates float int_div mul_int stats = Raise e →
       e = builtin_exn OverflowError
       ∧ ∃ a, In a (Stats.dividends stats) ∧ Stats.float_limit ≤ Z.abs a)
  ∧ (Forall (λ a, Z.abs a < Stats.float_limit) (Stats.dividends stats) →
     ∃ rates divisor,
       Stats.calculate_rates float int_div mul_int stats = Ok rates
       ∧ divisor = (if Stats.round_count stats =? 0 then 1 else Stats.round_count stats)
       ∧ divisor ≠ 0
       ∧ dict_get rates "riichi_rate"
         = Some (Stats.SFloat (mul_int (int_div (Stats.riichi_count stats) divisor) 100))
       ∧ dict_get rates "furo_rate"
         = Some (Stats.SFloat (mul_int (int_div (Stats.furo_round_count stats) divisor) 100))
       ∧ dict_get rates "win_rate"
         = Some (Stats.SFloat (mul_int (int_div (Stats.win_count stats) divisor) 100))
       ∧ dict_get rates "deal_in_rate"
         = Some (Stats.SFloat (mul_int (int_div (Stats.deal_in_count stats) divisor) 100))
       ∧ dict_get rates "avg_win_points"
         = Some (if Stats.win_count stats >? 0
                 then Stats.SFloat (int_div (Stats.win_points stats) (Stats.win_count stats))
                 else Stats.SInt 0)
       ∧ dict_get rates "avg_deal_in_points"
         = Some (if Stats.deal_in_count stats >? 0
                 then Stats.SFloat (int_div (Stats.deal_in_points stats)
                                            (Stats.deal_in_count stats))
                 else Stats.SInt 0)
       ∧ (∀ k v, dict_get (Stats.stats_items float stats) k = Some v
                 → dict_get rates k = Some v)).
Proof.
  split; [apply calculate_rates_returns |].
  split; [apply calculate_rates_raises | apply calculate_rates_ok].
Qed.

Lemma calculate_rates_total_witness :
  Forall (λ a, Z.abs a < Stats.float_limit) (Stats.dividends Stats.sample_stats)
  ∧ ∃ rates,
      Stats.calculate_rates Stats.sample_float Stats.Quotient Stats.Times Stats.sample_stats
      = Ok rates
      ∧ dict_get rates "riichi_rate"
        = Some (Stats.SFloat (Stats.Times (Stats.Quotient 5 21) 100))
      ∧ dict_get rates "avg_win_points"
        = Some (Stats.SFloat (Stats.Quotient 31200 6))
      ∧ dict_get rates "round_count" = Some (Stats.SInt 21).
Proof.
  assert (Forall (λ a, Z.abs a < Stats.float_limit) (Stats.dividends Stats.sample_stats))
    as Hb by (repeat constructor).
  split; [exact Hb |].
  destruct (calculate_rates_total Stats.sample_float Stats.Quotient Stats.Times
              Stats.sample_stats) as (_ & _ & Hok).
  destruct (Hok Hb) as (rates & divisor & Hr & -> & _ & H1 & _ & _ & _ & H5 & _ & Hk).
  exists rates. split; [exact Hr |].
  split; [exact H1 |]. split; [exact H5 |].
  apply Hk. reflexivity.
Defined.

(** A record of integer counters on which [calculate_rates] raises: the
    quotient of [10^400] riichi by one round is no float. *)
Lemma calculate_rates_overflow :
  Forall (λ a, 0 ≤ a) (Stats.dividends Stats.huge_stats)
  ∧ Stats.round_count Stats.huge_stats = 1
  ∧ Stats.calculate_rates Stats.sample_float Stats.Quotient Stats.Times Stats.huge_stats
    = raise OverflowError.
Proof.
  split; [repeat constructor; vm_compute; discriminate |].
  split; [reflexivity |].
  vm_compute. reflexivity.
Qed.

Section MatchingFacts.

Import Stats.

Variable csv_scores : list (dict PyVal * Z).

Lemma best_step_inv used json n best pc :
  csv_scores !! n = Some pc →
  best_inv csv_scores used json n best →
  best_inv csv_scores used json (S n) (best_step used json best n pc).
Proof.
  intros Hn Hinv. unfold best_step. destruct pc as [pn cn]. cbn [fst snd].
  destruct (bool_decide (n ∈ used)) eqn:Hused.
  - apply bool_decide_eq_true in Hused.
    destruct best as [[[ib p]|] [d|]]; cbn [best_inv] in *; try contradiction.
    + destruct Hinv as (Hlt & Hnot & c & Hc & Hd & Hmin).
      split; [lia |]. split; [assumption |]. exists c.
      split; [assumption |]. split; [assumption |].
      intros i p' c' Hi Hni Hci.
      destruct (decide (i = n)) as [-> | Hne]; [contradiction |].
      apply (Hmin i p' c'); [lia | assumption | assumption].
    + intros i pc Hi Hci.
      destruct (decide (i = n)) as [-> | Hne]; [assumption |].
      apply (Hinv i pc); [lia | assumption].
  - apply bool_decide_eq_false in Hused.
    destruct best as [[[ib p]|] [d|]]; cbn [best_inv snd] in *; try contradiction.
    + destruct Hinv as (Hlt & Hnot & c & Hc & Hd & Hmin).
      destruct (Z.ltb_spec (Z.abs (json - cn)) d) as [Hbetter | Hworse];
        cbn [best_inv].
      * split; [lia |]. split; [assumption |]. exists cn.
        split; [assumption |]. split; [reflexivity |].
        intros i p' c' Hi Hni Hci.
        destruct (decide (i = n)) as [-> | Hne].
        -- rewrite Hn in Hci. injection Hci as <- <-. lia.
        -- specialize (Hmin i p' c' ltac:(lia) Hni Hci). lia.
      * split; [lia |]. split; [assumption |]. exists c.
        split; [assumption |]. split; [assumption |].
        intros i p' c' Hi Hni Hci.
        destruct (decide (i = n)) as [-> | Hne].
        -- rewrite Hn in Hci. injection Hci as <- <-. lia.
        -- apply (Hmin i p' c'); [lia | assumption | assumption].
    + split; [lia |]. split; [assumption |]. exists cn.
      split; [assumption |]. split; [reflexivity |].
      intros i p' c' Hi Hni Hci.
      destruct (decide (i = n)) as [-> | Hne].
      * rewrite Hn in Hci. injection Hci as <- <-. lia.
      * exfalso. apply Hni. apply (Hinv i (p', c')); [lia | assumption].
Qed.

Lemma best_loop_inv used json (l : list (dict PyVal * Z)) :
  ∀ pre best,
    csv_scores = pre ++ l →
    best_inv csv_scores used json (length pre) best →
    best_inv csv_scores used json (length csv_scores)
             (best_loop used json (length pre) l best).
Proof.
  induction l as [|pc l IH]; intros pre best Hcsv Hinv.
  - cbn [best_loop]. rewrite Hcsv, length_app, Nat.add_0_r. rewrite Hcsv in Hinv.
    assumption.
  - cbn [best_loop].
    replace (S (length pre)) with (length (pre ++ [pc]))
      by (rewrite length_app; cbn; lia).
    apply IH.
    + rewrite <- app_assoc. assumption.
    + rewrite length_app. cbn [length]. rewrite Nat.add_1_r.
      apply best_step_inv; [| assumption].
      rewrite Hcsv. rewrite lookup_app_r by lia. rewrite Nat.sub_diag. reflexivity.
Qed.

Lemma best_loop_full used json :
  best_inv csv_scores used json (length csv_scores)
           (best_loop used json 0 csv_scores (None, None)).
Proof.
  apply (best_loop_inv used json csv_scores [] (None, None)); [reflexivity |].
  cbn [best_inv length]. intros i pc Hi. lia.
Qed.

Lemma seat_matched_mono final_scores g g' seat i :
  (∀ s', (s' < seat)%nat → g' !! s' = g !! s') →
  seat_matched csv_scores final_scores g seat i →
  seat_matched csv_scores final_scores g' seat i.
Proof.
  intros Hsame (json & p & c & Hj & Hc & Hd & Hmin).
  exists json, p, c. repeat (split; [assumption |]).
  intros i' p' c' Hci Hfree. apply (Hmin i' p' c' Hci).
  intros s' Hs'. rewrite <- Hsame by assumption. apply Hfree. assumption.
Qed.

Lemma seat_step_inv final_scores k st g json :
  final_scores !! k = Some json →
  seat_inv csv_scores final_scores k st g →
  ∃ g', seat_inv csv_scores final_scores (S k)
                 (seat_step csv_scores st k json) g'.
Proof.
  intros Hk Hinv. destruct st as [m used]. unfold seat_step.
  pose proof (best_loop_full used json) as Hbest.
  destruct Hinv as (Hm & Hused & Hprops & Hinj). cbn [fst snd] in *.
  assert (seat_inv csv_scores final_scores (S k) (m, used) g) as Hkeep.
  { repeat split; try assumption; cbn [fst snd];
      try (apply Hused); try (intros; eapply Hinj; eassumption).
    - destruct (Hprops seat i H) as [Hlt _]. lia.
    - destruct (Hprops seat i H) as [_ Hp]. assumption. }
  destruct (best_loop used json 0 csv_scores (None, None)) as [[[ib p]|] [d|]];
    cbn [best_inv] in Hbest; try (exists g; assumption).
  destruct (Z.ltb_spec d 100) as [Hd | Hd]; [| exists g; assumption].
  destruct Hbest as (Hlt & Hnot & c & Hc & Hdc & Hmin). cbn [fst snd].
  assert (g !! k = None) as Hgk.
  { destruct (g !! k) as [i|] eqn:Hg; [| reflexivity].
    destruct (Hprops k i Hg) as [Hkk _]. lia. }
  exists (<[k := ib]> g). repeat split; cbn [fst snd].
  - intros seat. destruct (decide (seat = k)) as [-> | Hne].
    + rewrite !lookup_insert_eq. cbn. rewrite Hc. reflexivity.
    + rewrite !lookup_insert_ne by congruence. apply Hm.
  - intros Hi. apply elem_of_union in Hi as [Hi | Hi].
    + apply elem_of_singleton in Hi as ->. exists k. apply lookup_insert_eq.
    + apply Hused in Hi as [seat Hseat]. exists seat.
      rewrite lookup_insert_ne; [assumption |]. congruence.
  - intros [seat Hseat]. apply elem_of_union.
    destruct (decide (seat = k)) as [-> | Hne].
    + rewrite lookup_insert_eq in Hseat. injection Hseat as <-.
      left. apply elem_of_singleton. reflexivity.
    + rewrite lookup_insert_ne in Hseat by congruence.
      right. apply Hused. exists seat. assumption.
  - destruct (decide (seat = k)) as [-> | Hne]; [lia |].
    rewrite lookup_insert_ne in H by congruence.
    destruct (Hprops seat i H) as [Hs _]. lia.
  - destruct (decide (seat = k)) as [-> | Hne].
    + rewrite lookup_insert_eq in H. injection H as <-.
      exists json, p, c. split; [assumption |]. split; [assumption |].
      split; [lia |]. intros i' p' c' Hci Hfree. rewrite <- Hdc.
      apply (Hmin i' p' c'); [apply lookup_lt_Some in Hci; assumption | | assumption].
      intros Hin. apply Hused in Hin as [s' Hs'].
      destruct (Hprops s' i' Hs') as [Hlts _].
      apply (Hfree s' Hlts). rewrite lookup_insert_ne by lia. assumption.
    + rewrite lookup_insert_ne in H by congruence.
      destruct (Hprops seat i H) as [Hs Hp].
      apply (seat_matched_mono final_scores g); [| assumption].
      intros s' Hs'. apply lookup_insert_ne. lia.
  - intros s1 s2 i H1 H2.
    destruct (decide (s1 = k)) as [-> | Hn1], (decide (s2 = k)) as [-> | Hn2];
      try reflexivity.
    + rewrite lookup_insert_eq in H1. injection H1 as <-.
      rewrite lookup_insert_ne in H2 by congruence.
      exfalso. apply Hnot. apply Hused. exists s2. assumption.
    + rewrite lookup_insert_eq in H2. injection H2 as <-.
      rewrite lookup_insert_ne in H1 by congruence.
      exfalso. apply Hnot. apply Hused. exists s1. assumption.
    + rewrite lookup_insert_ne in H1, H2 by congruence.
      apply (Hinj s1 s2 i); assumption.
Qed.

Lemma seat_loop_inv final_scores (l : list Z) :
  ∀ pre st g,
    final_scores = pre ++ l →
    seat_inv csv_scores final_scores (length pre) st g →
    ∃ g', seat_inv csv_scores final_scores (length final_scores)
                   (seat_loop csv_scores (length pre) l st) g'.
Proof.
  induction l as [|json l IH]; intros pre st g Hfs Hinv.
  - exists g. cbn [seat_loop]. rewrite Hfs, length_app, Nat.add_0_r.
    rewrite Hfs in Hinv. assumption.
  - cbn [seat_loop].
    destruct (seat_step_inv final_scores (length pre) st g json) as [g' Hg'];
      [| assumption |].
    { rewrite Hfs, lookup_app_r by lia. rewrite Nat.sub_diag. reflexivity. }
    replace (S (length pre)) with (length (pre ++ [json])) in *
      by (rewrite length_app; cbn; lia).
    apply (IH (pre ++ [json]) _ g'); [| assumption].
    rewrite <- app_assoc. assumption.
Qed.

End MatchingFacts.

Lemma csv_scores_of_fst int_of_float (csv_players : list (dict PyVal)) :
  ∀ csv_scores,
    Stats.csv_scores_of int_of_float csv_players = Ok csv_scores →
    fst <$> csv_scores = csv_players.
Proof.
  induction csv_players as [|p ps IH]; intros csv_scores H; cbn in H.
  - injection H as <-. reflexivity.
  - destruct (Stats.csv_score int_of_float p) as [c| |]; cbn in H; try discriminate.
    destruct (Stats.csv_scores_of int_of_float ps) as [rest| |]; cbn in H;
      try discriminate.
    injection H as <-. cbn. f_equal. apply IH. reflexivity.
Qed.

(** C10. [match_players_by_score] returns the empty mapping when
    [final_scores] is missing or does not have exactly 4 entries.  Otherwise,
    once the CSV scores are read, it returns a mapping [m] for which there is
    an assignment [g] of CSV player indices to the mapped seats such that
    [m] sends a seat to the player at its index, no index serves two seats,
    and the score of a mapped seat differs from its player's CSV score by
    less than 100 and by no more than from any player that no earlier seat
    has taken. *)
Theorem match_players_by_score_spec (int_of_float : PyVal → result Z)
    (csv_players : list (dict PyVal)) (final_scores : option (list Z)) :
  ((final_scores = None ∨ ∃ scores, final_scores = Some scores ∧ length scores ≠ 4%nat) →
   Stats.match_players_by_score int_of_float csv_players final_scores = Ok ∅)
  ∧ (∀ scores csv_scores,
       final_scores = Some scores → length scores = 4%nat →
       Stats.csv_scores_of int_of_float csv_players = Ok csv_scores →
       ∃ (m : gmap nat (dict PyVal)) (g : gmap nat nat),
         Stats.match_players_by_score int_of_float csv_players final_scores = Ok m
         ∧ (∀ seat, m !! seat = (g !! seat) ≫= (λ i, csv_players !! i))
         ∧ (∀ s1 s2 i, g !! s1 = Some i → g !! s2 = Some i → s1 = s2)
         ∧ (∀ seat i, g !! seat = Some i →
              (seat < 4)%nat ∧ Stats.seat_matched csv_scores scores g seat i)).
Proof.
  split.
  - intros [-> | (scores & -> & Hlen)]; [reflexivity |].
    unfold Stats.match_players_by_score.
    destruct (Nat.eqb_spec (length scores) 0); [reflexivity |].
    destruct (Nat.eqb_spec (length scores) 4); [contradiction | reflexivity].
  - intros scores csv_scores -> Hlen Hcsv.
    unfold Stats.match_players_by_score. rewrite Hlen, Hcsv. cbn [Nat.eqb orb negb].
    cbn [mbind result_bind].
    destruct (seat_loop_inv csv_scores scores scores [] (∅, ∅) ∅ eq_refl)
      as (g & Hm & Hused & Hprops & Hinj).
    { repeat split; cbn [fst snd].
      - intros Hi. apply elem_of_empty in Hi. contradiction.
      - intros [seat Hseat]. rewrite lookup_empty in Hseat. discriminate.
      - rewrite lookup_empty in H. discriminate.
      - rewrite lookup_empty in H. discriminate.
      - intros s1 s2 i H1. rewrite lookup_empty in H1. discriminate. }
    cbn [length] in Hm, Hprops.
    eexists _, g. split; [reflexivity |].
    split; [| split].
    + intros seat. rewrite Hm.
      rewrite <- (csv_scores_of_fst _ _ _ Hcsv).
      destruct (g !! seat) as [i|]; [| reflexivity]. cbn.
      rewrite list_lookup_fmap. reflexivity.
    + assumption.
    + intros seat i Hg. rewrite <- Hlen. apply Hprops. assumption.
Qed.

Lemma match_players_by_score_spec_witness :
  ∃ (m : gmap nat (dict PyVal)) (g : gmap nat nat),
    Stats.match_players_by_score sample_int_of_float sample_players
      (Some [15000; 35000; 23040; 27000]) = Ok m
    ∧ (∀ seat, m !! seat = (g !! seat) ≫= (λ i, sample_players !! i))
    ∧ (∀ s1 s2 i, g !! s1 = Some i → g !! s2 = Some i → s1 = s2)
    ∧ (∀ seat i, g !! seat = Some i →
         (seat < 4)%nat
         ∧ Stats.seat_matched
             [(sample_player 1 "A" "35000", 35000); (sample_player 2 "B" "27000", 27000);
              (sample_player 3 "C" "23000", 23000); (sample_player 4 "D" "15000", 15000)]
             [15000; 35000; 23040; 27000] g seat i).
Proof.
  apply (proj2 (match_players_by_score_spec sample_int_of_float sample_players
                  (Some [15000; 35000; 23040; 27000])));
    reflexivity.
Defined.

Example match_example :
  Stats.match_players_by_score sample_int_of_float sample_players
    (Some [15000; 35000; 23450; 27000])
  = Ok {[ 0%nat := sample_player 4 "D" "15000"; 1%nat := sample_player 1 "A" "35000";
          3%nat := sample_player 2 "B" "27000" ]}.
Proof. vm_compute. reflexivity. Qed.

(** ** Connecting *)

Section ConnectFacts.

Variable World : Type.
Variable Socket : Type.
Variable fetch_json : World → string → World * result PyVal.
Variable ws_connect : World → string → World * result Socket.

Local Abbreviation attempt := (Client.attempt World Socket fetch_json ws_connect).
Local Abbreviation connect_loop := (Client.connect_loop World Socket fetch_json ws_connect).

Lemma last_nonempty_default {A} (l : list A) (x d d' : A) :
  List.last (x :: l) d = List.last (x :: l) d'.
Proof.
  revert x. induction l as [|y l IH]; intros x; [reflexivity |].
  change (List.last (y :: l) d = List.last (y :: l) d'). apply IH.
Qed.

Lemma attempt_connected w self server w' self' :
  attempt w self server = (w', self', Client.Connected) →
  ∃ w1 probe sock,
    fetch_json w (Client.route_url Socket self server) = (w1, probe)
    ∧ Client.reports_maintenance probe = false
    ∧ ws_connect w1 (Client.ws_url server) = (w', Ok sock)
    ∧ Client.ws Socket self' = Some sock
    ∧ Client.version Socket self' = Client.version Socket self.
Proof.
  unfold Client.attempt. intros H.
  destruct (fetch_json w (Client.route_url Socket self server)) as [w1 probe] eqn:Hf.
  destruct (Client.reports_maintenance probe) eqn:Hm; [discriminate |].
  destruct (ws_connect w1 (Client.ws_url server)) as [w2 [sock|e|]] eqn:Hc;
    try discriminate.
  injection H as <- <-. exists w1, probe, sock. cbn.
  repeat split; try reflexivity; assumption.
Qed.

(** The test of the inner [try] holds exactly of the probes that say
    maintenance. *)
Lemma reports_maintenance_spec (probe : result PyVal) :
  Client.reports_maintenance probe = true ↔ Client.says_maintenance probe.
Proof.
  unfold Client.reports_maintenance, Client.says_maintenance. split.
  - destruct probe as [route_info| |]; try discriminate.
    destruct route_info as [| | | | | |d]; try discriminate.
    cbn [py_get].
    destruct (dict_get d "data") as [data|] eqn:Hd; [| discriminate].
    destruct data as [| | | | | |dd]; try discriminate.
    cbn [py_get].
    destruct (dict_get dd "maintenance") as [m|] eqn:Hm; [| discriminate].
    intros Ht. exists d, dd, m. auto.
  - intros (d & dd & m & -> & Hd & Hm & Ht).
    cbn [py_get]. rewrite Hd. cbn [py_get]. rewrite Hm. assumption.
Qed.

Lemma reports_maintenance_not (probe : result PyVal) :
  ¬ Client.says_maintenance probe → Client.reports_maintenance probe = false.
Proof.
  intros Hn. destruct (Client.reports_maintenance probe) eqn:Hr; [| reflexivity].
  apply reports_maintenance_spec in Hr. contradiction.
Qed.

(** The loop runs through candidates that are passed over, printing their
    lines and keeping the exception of the last upgrade that raised, and
    goes on with the rest. *)
Lemma connect_loop_passed_over self (pre : list string) w w' errors lines :
  Client.passed_over World Socket fetch_json ws_connect self pre w w' errors lines →
  ∀ self1 last_error rest,
    Client.version Socket self1 = Client.version Socket self →
    connect_loop (pre ++ rest) w self1 last_error
    = connect_loop rest w'
        (Client.mk_client Socket (Client.ws Socket self1) (Client.version Socket self1)
           (Client.stdout Socket self1 ++ lines))
        (List.last (Some <$> errors) last_error).
Proof.
  assert (∀ self1 server, Client.version Socket self1 = Client.version Socket self →
            Client.route_url Socket self1 server = Client.route_url Socket self server)
    as Hurl.
  { intros self1 server Hv. unfold Client.route_url. rewrite Hv. reflexivity. }
  induction 1 as [w | server servers w w1 probe w' errors lines Hf Hm _ IH
                  | server servers w w1 probe w2 e w' errors lines Hf Hm Hc _ IH];
    intros self1 last_error rest Hv.
  - cbn [app fmap list_fmap List.last]. rewrite app_nil_r.
    destruct self1; reflexivity.
  - cbn [app Client.connect_loop]. unfold Client.attempt.
    rewrite (Hurl self1 server Hv), Hf.
    apply reports_maintenance_spec in Hm. rewrite Hm.
    rewrite (IH _ last_error rest) by exact Hv.
    unfold Client.print. cbn [Client.ws Client.version Client.stdout].
    rewrite <- app_assoc. reflexivity.
  - cbn [app Client.connect_loop]. unfold Client.attempt.
    rewrite (Hurl self1 server Hv), Hf.
    rewrite (reports_maintenance_not probe Hm), Hc.
    rewrite (IH _ (Some e) rest) by exact Hv.
    unfold Client.print. cbn [Client.ws Client.version Client.stdout].
    rewrite <- !app_assoc. f_equal.
    destruct errors as [|e0 errors]; [reflexivity |].
    change (List.last (Some e0 :: (Some <$> errors)) (Some e)
            = List.last (Some e :: Some e0 :: (Some <$> errors)) last_error).
    change (List.last (Some e :: Some e0 :: (Some <$> errors)) last_error)
      with (List.last (Some e0 :: (Some <$> errors)) last_error).
    apply last_nonempty_default.
Qed.

(** The candidate that connects *)
Lemma connect_loop_connects self1 server post w w1 probe w2 sock last_error :
  fetch_json w (Client.route_url Socket self1 server) = (w1, probe) →
  ¬ Client.says_maintenance probe →
  ws_connect w1 (Client.ws_url server) = (w2, Ok sock) →
  connect_loop (server :: post) w self1 last_error
  = (w2,
     Client.mk_client Socket (Some sock) (Client.version Socket self1)
       (Client.stdout Socket self1
        ++ ["Connecting to " +:+ Client.ws_url server +:+ "..."; "Connected!"]),
     Ok tt).
Proof.
  intros Hf Hm Hc. cbn [Client.connect_loop]. unfold Client.attempt.
  rewrite Hf, (reports_maintenance_not probe Hm), Hc.
  unfold Client.print. cbn [Client.ws Client.version Client.stdout].
  rewrite <- app_assoc. reflexivity.
Qed.

End ConnectFacts.



(** ** Varints, in general *)

Lemma land_127_range (v : Z) : 0 ≤ Z.land v 0x7F < 128.
Proof.
  change 0x7F with (Z.ones 7). rewrite Z.land_ones by lia.
  apply Z.mod_pos_bound. lia.
Qed.

Lemma land_127_small (v : Z) : 0 ≤ v ≤ 127 → Z.land v 0x7F = v.
Proof.
  intros Hv. change 0x7F with (Z.ones 7). rewrite Z.land_ones by lia.
  apply Z.mod_small. lia.
Qed.

Lemma continuation_low (v : Z) :
  Z.land (Z.lor (Z.land v 0x7F) 0x80) 0x7F = Z.land v 0x7F.
Proof.
  rewrite Z.land_lor_distr_l, <- Z.land_assoc. change (Z.land 0x7F 0x7F) with 0x7F.
  change (Z.land 0x80 0x7F) with 0. apply Z.lor_0_r.
Qed.

Lemma continuation_high (v : Z) :
  Z.land (Z.lor (Z.land v 0x7F) 0x80) 0x80 = 0x80.
Proof.
  rewrite Z.land_lor_distr_l, <- Z.land_assoc. change (Z.land 0x7F 0x80) with 0.
  rewrite Z.land_0_r. reflexivity.
Qed.

Lemma final_high (v : Z) : 0 ≤ v ≤ 127 → Z.land v 0x80 = 0.
Proof.
  intros Hv. rewrite <- (land_127_small v Hv), <- Z.land_assoc.
  change (Z.land 0x7F 0x80) with 0. apply Z.land_0_r.
Qed.

Lemma split_low7 (v : Z) :
  Z.lor (Z.land v 0x7F) (Z.shiftl (Z.shiftr v 7) 7) = v.
Proof.
  apply Z.bits_inj'. intros n Hn.
  rewrite Z.lor_spec, Z.land_spec. change 0x7F with (Z.ones 7).
  destruct (Z.lt_ge_cases n 7).
  - rewrite Z.ones_spec_low by lia. rewrite Z.shiftl_spec_low by lia.
    now rewrite andb_true_r, orb_false_r.
  - rewrite Z.ones_spec_high by lia. rewrite Z.shiftl_spec by lia.
    rewrite Z.shiftr_spec by lia. rewrite andb_false_r. cbn [orb].
    f_equal. lia.
Qed.

Lemma lor_shift_groups (r v s : Z) :
  0 ≤ s →
  Z.lor (Z.lor r (Z.shiftl (Z.land v 0x7F) s)) (Z.shiftl (Z.shiftr v 7) (s + 7))
  = Z.lor r (Z.shiftl v s).
Proof.
  intros Hs. rewrite <- Z.lor_assoc. f_equal.
  replace (s + 7) with (7 + s) by lia.
  rewrite <- Z.shiftl_shiftl by lia. rewrite <- Z.shiftl_lor.
  rewrite split_low7. reflexivity.
Qed.

Lemma py_bytes_app (l1 l2 : list Z) (b1 b2 : bytes) :
  py_bytes l1 = Ok b1 → py_bytes l2 = Ok b2 → py_bytes (l1 ++ l2) = Ok (b1 ++ b2).
Proof.
  revert b1. induction l1 as [|z l1 IH]; intros b1 H1 H2; cbn in *.
  - injection H1 as <-. assumption.
  - destruct (byte_of_Z z) as [b|]; [| discriminate].
    destruct (py_bytes l1) as [b1'| |] eqn:Hl1; cbn in H1; try discriminate.
    injection H1 as <-. rewrite (IH b1' eq_refl H2). reflexivity.
Qed.

Lemma encode_loop_acc (fuel : nat) :
  ∀ v acc, Varint.encode_loop fuel v acc
           = l ← Varint.encode_loop fuel v []; Ok (acc ++ l).
Proof.
  induction fuel as [|fuel IH]; intros v acc; [reflexivity |].
  cbn [Varint.encode_loop]. destruct (v >? 127).
  - rewrite IH. rewrite (IH _ ([] ++ _)).
    destruct (Varint.encode_loop fuel (Z.shiftr v 7) []) as [l| |]; cbn; try reflexivity.
    now rewrite <- app_assoc.
  - reflexivity.
Qed.

Lemma encode_loop_S (fuel : nat) (v : Z) (acc : list Z) :
  Varint.encode_loop (S fuel) v acc
  = if v >? 127
    then Varint.encode_loop fuel (Z.shiftr v 7) (acc ++ [Z.lor (Z.land v 0x7F) 0x80])
    else Ok (acc ++ [v]).
Proof. reflexivity. Qed.

(** The last group of a varint: a value of at most 7 bits is one byte, which
    the decoder reads as the value itself. *)
Lemma varint_final (v : Z) :
  0 ≤ v ≤ 127 →
  ∃ l b, Ok (A:=list Z) ([] ++ [v]) = Ok l
    ∧ py_bytes l = Ok b
    ∧ (0 < length b)%nat
    ∧ ∀ (pre post : bytes) (fuel' : nat) (r shift : Z),
        (length b ≤ fuel')%nat → 0 ≤ shift →
        Varint.decode_loop fuel' (pre ++ b ++ post) (len pre) r shift
        = Ok (Z.lor r (Z.shiftl v shift), len pre + len b).
Proof.
  intros Hv. destruct (byte_of_Z_Some v) as (b0 & Hb0 & Hv0); [lia |].
  exists [v], [b0].
  split; [reflexivity |].
  split. { cbn [py_bytes]. rewrite Hb0. reflexivity. }
  split. { cbn [length]. lia. }
  intros pre post fuel' r shift Hfuel Hshift.
  destruct fuel' as [|fuel']; [cbn [length] in Hfuel; lia |].
  cbn [Varint.decode_loop].
  change (pre ++ [b0] ++ post) with (pre ++ b0 :: post). rewrite bytes_getitem_at.
  cbn [mbind result_bind]. rewrite Hv0.
  rewrite land_127_small, final_high by lia.
  change (0 =? 0) with true. cbv iota. reflexivity.
Qed.

(** The encoder's loop, given enough iterations, returns the groups of a
    non-negative [v] as bytes; and from any position at which these bytes
    stand in a buffer, the decoder's loop reads [v] back and stops right
    after them. *)
Lemma varint_loops (fuel : nat) :
  ∀ v, 0 ≤ v → v < 2 ^ (7 * Z.of_nat (S fuel)) →
    ∃ l b, Varint.encode_loop (S fuel) v [] = Ok l
      ∧ py_bytes l = Ok b
      ∧ (0 < length b)%nat
      ∧ ∀ (pre post : bytes) (fuel' : nat) (r shift : Z),
          (length b ≤ fuel')%nat → 0 ≤ shift →
          Varint.decode_loop fuel' (pre ++ b ++ post) (len pre) r shift
          = Ok (Z.lor r (Z.shiftl v shift), len pre + len b).
Proof.
  induction fuel as [|fuel IH]; intros v Hv Hbound;
    rewrite encode_loop_S; destruct (Z.gtb_spec v 127) as [Hbig | Hsmall].
  - change (7 * Z.of_nat 1) with 7 in Hbound. change (2 ^ 7) with 128 in Hbound. lia.
  - apply varint_final; lia.
  - destruct (IH (Z.shiftr v 7)) as (l & b & Hl & Hb & Hpos & Hdec).
    { apply Z.shiftr_nonneg. assumption. }
    { rewrite Z.shiftr_div_pow2 by lia.
      apply Z.div_lt_upper_bound; [lia |]. rewrite <- Z.pow_add_r by lia.
      replace (7 + 7 * Z.of_nat (S fuel)) with (7 * Z.of_nat (S (S fuel))) by lia.
      assumption. }
    destruct (byte_of_Z_Some (Z.lor (Z.land v 0x7F) 0x80)) as (b0 & Hb0 & Hv0).
    { apply (lor_range _ _ 8); [lia | | lia]. pose proof (land_127_range v). lia. }
    exists ((Z.lor (Z.land v 0x7F) 0x80) :: l), (b0 :: b).
    split. { rewrite encode_loop_acc, Hl. reflexivity. }
    split. { cbn [py_bytes]. rewrite Hb0, Hb. reflexivity. }
    split. { cbn [length]. lia. }
    intros pre post fuel' r shift Hfuel Hshift.
    destruct fuel' as [|fuel']; [cbn [length] in Hfuel; lia |].
    cbn [Varint.decode_loop].
    change (pre ++ (b0 :: b) ++ post) with (pre ++ b0 :: b ++ post).
    rewrite bytes_getitem_at.
    cbn [mbind result_bind]. rewrite Hv0, continuation_low, continuation_high.
    change (0x80 =? 0) with false. cbv iota.
    replace (pre ++ b0 :: b ++ post) with ((pre ++ [b0]) ++ b ++ post)
      by (rewrite <- app_assoc; reflexivity).
    replace (len pre + 1) with (len (pre ++ [b0]))
      by (rewrite len_app; unfold len; cbn [length]; lia).
    rewrite Hdec by (cbn [length] in Hfuel; lia).
    rewrite lor_shift_groups by lia. f_equal. f_equal.
    rewrite len_app. unfold len. cbn [length]. lia.
  - apply varint_final; lia.
Qed.

Lemma encode_fuel_enough (v : Z) :
  0 ≤ v → v < 2 ^ (7 * Z.of_nat (S (Z.to_nat (Z.log2 v)))).
Proof.
  intros Hv.
  destruct (Z.eq_dec v 0) as [-> | Hne]; [cbn; lia |].
  pose proof (Z.log2_spec v ltac:(lia)) as [_ Hlt].
  pose proof (Z.log2_nonneg v).
  eapply Z.lt_le_trans; [exact Hlt |].
  apply Z.pow_le_mono_r; lia.
Qed.

(** Varint round-trip in general: every non-negative integer is encoded
    without exception, and decoding its bytes, wherever they stand in a
    buffer, gives the integer back and the position after them. *)
Lemma varint_roundtrip (v : Z) :
  0 ≤ v →
  ∃ b, _encode_varint v = Ok b
    ∧ (0 < length b)%nat
    ∧ ∀ pre post, _decode_varint (pre ++ b ++ post) (len pre) = Ok (v, len pre + len b).
Proof.
  intros Hv.
  destruct (varint_loops (Z.to_nat (Z.log2 v)) v Hv (encode_fuel_enough v Hv))
    as (l & b & Hl & Hb & Hpos & Hdec).
  exists b. split. { unfold _encode_varint, encode_fuel. rewrite Hl. exact Hb. }
  split; [assumption |].
  intros pre post. unfold _decode_varint. rewrite Hdec.
  - rewrite Z.shiftl_0_r. reflexivity.
  - rewrite !length_app. lia.
  - lia.
Qed.

(** ** Requests *)

Lemma encode_string_ok (field_num : Z) (value : bytes) :
  0 ≤ field_num → ∃ b, _encode_string field_num value = Ok b.
Proof.
  intros Hf. unfold _encode_string, _encode_field.
  destruct (varint_roundtrip (len value) (len_nonneg value)) as (l & Hl & _).
  rewrite Hl. cbn [mbind result_bind].
  destruct (varint_roundtrip (Z.lor (Z.shiftl field_num 3) 2)) as (t & Ht & _).
  { apply Z.lor_nonneg. split; [apply Z.shiftl_nonneg; assumption | lia]. }
  rewrite Ht. cbn [mbind result_bind]. eauto.
Qed.

Lemma pack_H_spec (n : Z) :
  0 ≤ n ≤ 65535 →
  ∃ b1 b2, pack_H n = Ok [b1; b2] ∧ byte_to_Z b1 + 256 * byte_to_Z b2 = n.
Proof.
  intros Hn. unfold pack_H.
  destruct (Z.leb_spec 0 n); [| lia]. destruct (Z.leb_spec n 65535); [| lia].
  cbn [andb py_bytes].
  destruct (byte_of_Z_Some (Z.land n 0xFF)) as (b1 & Hb1 & Hv1);
    [apply land_255_range |].
  destruct (byte_of_Z_Some (Z.shiftr n 8)) as (b2 & Hb2 & Hv2).
  { rewrite Z.shiftr_div_pow2 by lia. change (2 ^ 8) with 256.
    split; [apply Z.div_pos; lia | apply Z.div_lt_upper_bound; lia]. }
  rewrite Hb1, Hb2. cbn [mbind result_bind]. exists b1, b2.
  split; [reflexivity |]. rewrite Hv1, Hv2.
  change 0xFF with (Z.ones 8). rewrite Z.land_ones by lia.
  rewrite Z.shiftr_div_pow2 by lia. change (2 ^ 8) with 256.
  pose proof (Z.div_mod n 256 ltac:(lia)). lia.
Qed.

Lemma pack_H_overflow (n : Z) : 65535 < n → pack_H n = raise StructError.
Proof.
  intros Hn. unfold pack_H. destruct (Z.leb_spec n 65535); [lia |].
  now rewrite andb_false_r.
Qed.

Section RequestFacts.

Variable types : gmap string TypeDef.
Variable services : gmap string ServiceDef.
Variable int_of_str : string → result Z.
Variable int_of_bytes : bytes → result Z.

Local Abbreviation request := (encode_request types services int_of_str int_of_bytes).
Local Abbreviation requests := (encode_requests types services int_of_str int_of_bytes).
Local Abbreviation frame_of := (build_frame types int_of_str int_of_bytes).

(** Every call advances the counter by one, whatever its outcome. *)
Lemma encode_request_index self method_name payload :
  msg_index (fst (request self method_name payload)) = msg_index self + 1.
Proof.
  unfold encode_request.
  destruct (resolve_method services method_name) as [[req resp]| |]; reflexivity.
Qed.

Lemma encode_requests_index (calls : list (string * dict PyVal)) :
  ∀ self, msg_index (fst (requests self calls)) = msg_index self + len calls.
Proof.
  induction calls as [|[method_name payload] calls IH]; intros self.
  - cbn. unfold len. cbn. lia.
  - cbn [encode_requests].
    destruct (request self method_name payload) as [self1 r] eqn:H1.
    specialize (IH self1).
    destruct (requests self1 calls) as [self2 rs]. cbn [fst] in *.
    rewrite IH. pose proof (encode_request_index self method_name payload) as Hi.
    rewrite H1 in Hi. cbn [fst] in Hi. rewrite Hi.
    unfold len. cbn [length]. lia.
Qed.

(** The outcome of a call whose method resolves is the frame built for the
    advanced counter. *)
Lemma encode_request_frame self method_name payload req resp :
  resolve_method services method_name = Ok (req, resp) →
  snd (request self method_name payload)
  = frame_of (msg_index self + 1) method_name req payload
  ∧ pending_requests (fst (request self method_name payload)) !! (msg_index self + 1)
    = Some (method_name, resp).
Proof.
  intros Hr. unfold encode_request. rewrite Hr. cbn [fst snd msg_index pending_requests].
  split; [reflexivity | apply lookup_insert_eq].
Qed.

Lemma build_frame_in_range msg_id method_name req payload data :
  Codec._encode_message types int_of_str int_of_bytes req payload = Ok data →
  0 ≤ msg_id ≤ 65535 →
  ∃ kind b1 b2 w1 w2,
    frame_of msg_id method_name req payload = Ok (kind :: b1 :: b2 :: w1 ++ w2)
    ∧ byte_to_Z kind = MsgType.REQUEST
    ∧ byte_to_Z b1 + 256 * byte_to_Z b2 = msg_id
    ∧ _encode_string 1 (bytes_of_str method_name) = Ok w1
    ∧ _encode_string 2 data = Ok w2.
Proof.
  intros Hdata Hid. unfold build_frame. rewrite Hdata. cbn [mbind result_bind].
  destruct (encode_string_ok 1 (bytes_of_str method_name) ltac:(lia)) as [w1 Hw1].
  destruct (encode_string_ok 2 data ltac:(lia)) as [w2 Hw2].
  destruct (pack_H_spec msg_id Hid) as (b1 & b2 & Hp & Hv).
  rewrite Hw1, Hw2, Hp. cbn [mbind result_bind].
  destruct (byte_of_Z_Some MsgType.REQUEST) as (kind & Hk & Hkv);
    [unfold MsgType.REQUEST; lia |].
  cbn [py_bytes]. rewrite Hk. cbn [mbind result_bind].
  exists kind, b1, b2, w1, w2. repeat split; assumption.
Qed.

Lemma build_frame_overflow msg_id method_name req payload data :
  Codec._encode_message types int_of_str int_of_bytes req payload = Ok data →
  65535 < msg_id →
  frame_of msg_id method_name req payload = raise StructError.
Proof.
  intros Hdata Hid. unfold build_frame. rewrite Hdata. cbn [mbind result_bind].
  destruct (encode_string_ok 1 (bytes_of_str method_name) ltac:(lia)) as [w1 Hw1].
  destruct (encode_string_ok 2 data ltac:(lia)) as [w2 Hw2].
  rewrite Hw1, Hw2, (pack_H_overflow msg_id Hid). cbn [mbind result_bind].
  destruct (byte_of_Z_Some MsgType.REQUEST) as (kind & Hk & Hkv);
    [unfold MsgType.REQUEST; lia |].
  cbn [py_bytes]. rewrite Hk. reflexivity.
Qed.

End RequestFacts.

(** C4 (amended). Sequence-id allocation: within one session the counter
    starts at 0 and every call advances it by one, so that after [n] prior
    requests the next one is given the id [n + 1] (1, 2, 3 for the first three
    calls) and is stored as pending under it.  The counter itself is never
    reduced modulo 2^16: while [n + 1 <= 65535], a request whose method
    resolves and whose payload encodes yields a frame of kind 2 that carries
    [n + 1] as a little-endian 16-bit id, followed by the two envelope fields;
    beyond that, building the frame raises [struct.error]. *)
Theorem encode_request_sequence_ids (types : gmap string TypeDef)
    (services : gmap string ServiceDef) int_of_str int_of_bytes
    (calls : list (string * dict PyVal)) method_name payload req resp data :
  resolve_method services method_name = Ok (req, resp) →
  Codec._encode_message types int_of_str int_of_bytes req payload = Ok data →
  ∃ self self' frame,
    fst (encode_requests types services int_of_str int_of_bytes codec_init calls) = self
    ∧ encode_request types services int_of_str int_of_bytes self method_name payload
      = (self', frame)
    ∧ msg_index self = len calls
    ∧ msg_index self' = len calls + 1
    ∧ pending_requests self' !! (len calls + 1) = Some (method_name, resp)
    ∧ (len calls + 1 ≤ 65535 →
       ∃ kind b1 b2 w1 w2,
         frame = Ok (kind :: b1 :: b2 :: w1 ++ w2)
         ∧ byte_to_Z kind = 2
         ∧ byte_to_Z b1 + 256 * byte_to_Z b2 = len calls + 1
         ∧ _encode_string 1 (bytes_of_str method_name) = Ok w1
         ∧ _encode_string 2 data = Ok w2)
    ∧ (65535 < len calls + 1 → frame = raise StructError).
Proof.
  intros Hr Hdata.
  set (self := fst (encode_requests types services int_of_str int_of_bytes codec_init calls)).
  assert (msg_index self = len calls) as Hidx.
  { unfold self. rewrite encode_requests_index. cbn. lia. }
  destruct (encode_request_frame types services int_of_str int_of_bytes
              self method_name payload req resp Hr) as [Hframe Hpend].
  pose proof (encode_request_index types services int_of_str int_of_bytes
                self method_name payload) as Hidx'.
  destruct (encode_request types services int_of_str int_of_bytes self method_name payload)
    as [self' frame] eqn:Hreq.
  cbn [fst snd] in *. rewrite Hidx in *.
  exists self, self', frame. repeat (split; [first [reflexivity | assumption] |]).
  split.
  - intros Hsmall. rewrite Hframe.
    apply (build_frame_in_range _ _ _ _ _ _ _ _ Hdata). pose proof (len_nonneg calls). lia.
  - intros Hbig. rewrite Hframe.
    apply (build_frame_overflow _ _ _ _ _ _ _ _ Hdata). assumption.
Qed.

Lemma encode_request_sequence_ids_witness :
  ∃ self self' frame,
    fst (encode_requests sample_types sample_services no_int_of_str no_int_of_bytes
           codec_init [heartbeat; heartbeat]) = self
    ∧ encode_request sample_types sample_services no_int_of_str no_int_of_bytes
        self ".lq.Lobby.heatbeat" [("no_operation_counter", VInt 0)]
      = (self', frame)
    ∧ msg_index self = len [heartbeat; heartbeat]
    ∧ msg_index self' = len [heartbeat; heartbeat] + 1
    ∧ pending_requests self' !! (len [heartbeat; heartbeat] + 1)
      = Some (".lq.Lobby.heatbeat", "ResCommon")
    ∧ (len [heartbeat; heartbeat] + 1 ≤ 65535 →
       ∃ kind b1 b2 w1 w2,
         frame = Ok (kind :: b1 :: b2 :: w1 ++ w2)
         ∧ byte_to_Z kind = 2
         ∧ byte_to_Z b1 + 256 * byte_to_Z b2 = len [heartbeat; heartbeat] + 1
         ∧ _encode_string 1 (bytes_of_str ".lq.Lobby.heatbeat") = Ok w1
         ∧ _encode_string 2 (bs [8; 0]) = Ok w2)
    ∧ (65535 < len [heartbeat; heartbeat] + 1 → frame = raise StructError).
Proof.
  apply (encode_request_sequence_ids sample_types sample_services
           no_int_of_str no_int_of_bytes [heartbeat; heartbeat]
           ".lq.Lobby.heatbeat" [("no_operation_counter", VInt 0)]
           "ReqHeatBeat" "ResCommon" (bs [8; 0]));
    reflexivity.
Defined.

(** Three consecutive calls on a fresh codec are given the ids 1, 2 and 3. *)
Example three_calls_ids :
  let '(self, frames) :=
    encode_requests sample_types sample_services no_int_of_str no_int_of_bytes
      codec_init [heartbeat; heartbeat; heartbeat] in
  msg_index self = 3
  ∧ dom (pending_requests self) = {[1; 2; 3]}
  ∧ frames = [ Ok (bs [2; 1; 0] ++ bs [0x0a; 18] ++ bytes_of_str ".lq.Lobby.heatbeat"
                     ++ bs [0x12; 2; 8; 0]);
               Ok (bs [2; 2; 0] ++ bs [0x0a; 18] ++ bytes_of_str ".lq.Lobby.heatbeat"
                     ++ bs [0x12; 2; 8; 0]);
               Ok (bs [2; 3; 0] ++ bs [0x0a; 18] ++ bytes_of_str ".lq.Lobby.heatbeat"
                     ++ bs [0x12; 2; 8; 0]) ].
Proof. vm_compute. repeat split; reflexivity. Qed.

(** The counter does not wrap: after 65535 requests on one codec, the next
    request is given the id 65536, which [struct.pack("<H", ...)] refuses, so
    that no frame (and none with the id 0) is produced. *)
Lemma sequence_id_overflow_raises :
  snd (encode_request sample_types sample_services no_int_of_str no_int_of_bytes
         (fst (encode_requests sample_types sample_services no_int_of_str
                 no_int_of_bytes codec_init (repeat heartbeat (Z.to_nat 65535))))
         ".lq.Lobby.heatbeat" [("no_operation_counter", VInt 0)])
  = raise StructError.
Proof.
  destruct (encode_request_frame sample_types sample_services no_int_of_str
              no_int_of_bytes
              (fst (encode_requests sample_types sample_services no_int_of_str
                      no_int_of_bytes codec_init (repeat heartbeat (Z.to_nat 65535))))
              ".lq.Lobby.heatbeat" [("no_operation_counter", VInt 0)]
              "ReqHeatBeat" "ResCommon" eq_refl) as [-> _].
  rewrite encode_requests_index.
  apply (build_frame_overflow _ _ _ _ _ _ _ (bs [8; 0])); [reflexivity |].
  unfold len. rewrite repeat_length, Z2Nat.id by lia. cbn. lia.
Qed.

(** ** Decoding well-formed buffers *)

Lemma tag_parts (field_num wire_type : Z) :
  0 ≤ field_num → 0 ≤ wire_type < 8 →
  let tag := Z.lor (Z.shiftl field_num 3) wire_type in
  0 ≤ tag ∧ Z.shiftr tag 3 = field_num ∧ Z.land tag 0x7 = wire_type.
Proof.
  intros Hf Hw tag. unfold tag. split; [| split].
  - apply Z.lor_nonneg. split; [apply Z.shiftl_nonneg; assumption | lia].
  - rewrite Z.shiftr_lor, Z.shiftr_shiftl_l by lia.
    change (3 - 3) with 0. rewrite Z.shiftl_0_r.
    rewrite (Z.shiftr_div_pow2 wire_type 3) by lia. change (2 ^ 3) with 8.
    rewrite Z.div_small by lia. apply Z.lor_0_r.
  - rewrite Z.land_lor_distr_l. change 0x7 with (Z.ones 3).
    rewrite !Z.land_ones by lia. rewrite Z.shiftl_mul_pow2 by lia.
    rewrite Z.mod_mul by lia. rewrite Z.mod_small by (change (2 ^ 3) with 8; lia).
    reflexivity.
Qed.

Lemma slice_bound_nonneg {A} (l : list A) (i : Z) :
  0 ≤ i → slice_bound l i = Nat.min (Z.to_nat i) (length l).
Proof.
  intros Hi. unfold slice_bound. destruct (Z.ltb_spec i 0); [lia |].
  unfold len. lia.
Qed.

Lemma py_slice_middle {A} (pre mid post : list A) :
  py_slice (pre ++ mid ++ post) (len pre) (len pre + len mid) = mid.
Proof.
  unfold py_slice. pose proof (len_nonneg pre). pose proof (len_nonneg mid).
  rewrite !slice_bound_nonneg by lia. unfold len. rewrite !length_app.
  replace (Nat.min (Z.to_nat (Z.of_nat (length pre)))
             (length pre + (length mid + length post)))%nat
    with (length pre) by lia.
  replace (Nat.min (Z.to_nat (Z.of_nat (length pre) + Z.of_nat (length mid)))
             (length pre + (length mid + length post)))%nat
    with (length pre + length mid)%nat by lia.
  rewrite drop_app_length.
  replace (length pre + length mid - length pre)%nat with (length mid) by lia.
  apply take_app_length.
Qed.

Lemma py_slice_shorter {A} (l : list A) (lo hi : Z) :
  0 < lo → l ≠ [] → (length (py_slice l lo hi) < length l)%nat.
Proof.
  intros Hlo Hl. unfold py_slice. rewrite length_take, length_drop.
  rewrite (slice_bound_nonneg l lo) by lia.
  destruct l as [|x l]; [contradiction |]. cbn [length]. lia.
Qed.

Section DecodeRecords.

Variable types : gmap string TypeDef.
Variable decode_nested : string → bytes → result PyVal.
Variable by_id : gmap Z (string * FieldDef).

(** The bytes of a well-formed record: a tag, then a varint, or a length and
    the payload. *)
Lemma encode_wire_record_ok (r : WireRecord) :
  wire_record_ok r →
  ∃ t, _encode_varint (Z.lor (Z.shiftl (wire_field_num r) 3)
                          (match r with WVarint _ _ => 0 | WDelimited _ _ => 2 end))
       = Ok t
    ∧ match r with
      | WVarint _ value =>
          ∃ v, _encode_varint value = Ok v ∧ encode_wire_record r = Ok (t ++ v)
      | WDelimited _ value =>
          ∃ l, _encode_varint (len value) = Ok l
               ∧ encode_wire_record r = Ok (t ++ l ++ value)
      end.
Proof.
  intros Hok. destruct r as [f v | f v]; cbn [wire_record_ok wire_field_num] in *.
  - destruct (tag_parts f 0) as (Ht & _); [lia | lia |].
    destruct (varint_roundtrip _ Ht) as (t & Henc & _).
    destruct (varint_roundtrip v) as (vb & Hv & _); [lia |].
    exists t. split; [assumption |]. exists vb. split; [assumption |].
    cbn [encode_wire_record]. rewrite Hv. cbn [mbind result_bind].
    unfold _encode_field. rewrite Henc. reflexivity.
  - destruct (tag_parts f 2) as (Ht & _); [lia | lia |].
    destruct (varint_roundtrip _ Ht) as (t & Henc & _).
    destruct (varint_roundtrip (len v) (len_nonneg v)) as (l & Hl & _).
    exists t. split; [assumption |]. exists l. split; [assumption |].
    cbn [encode_wire_record]. unfold _encode_string. rewrite Hl.
    cbn [mbind result_bind]. unfold _encode_field. rewrite Henc. reflexivity.
Qed.

(** One turn of the decoder's loop over a well-formed record, wherever it
    stands in the buffer: the position moves to the end of the record and
    the dict changes as [store_record] says. *)
Lemma decode_record_wire (r : WireRecord) (b pre post : bytes) (result_ : dict PyVal) :
  wire_record_ok r →
  encode_wire_record r = Ok b →
  Codec.decode_record types decode_nested by_id (pre ++ b ++ post) (len pre) result_
  = (result_' ← store_record types decode_nested by_id result_ r;
     Ok (len pre + len b, result_'))
  ∧ (0 < length b)%nat.
Proof.
  intros Hok Henc.
  destruct (encode_wire_record_ok r Hok) as (t & Ht & Hr).
  unfold Codec.decode_record, store_record.
  destruct r as [f v | f v]; cbn [wire_record_ok wire_field_num] in *.
  - destruct Hok as [Hf Hv]. destruct Hr as (vb & Hvb & Hb).
    rewrite Hb in Henc. injection Henc as <-.
    destruct (tag_parts f 0) as (Htag & Hid & Hwt); [lia | lia |].
    destruct (varint_roundtrip _ Htag) as (t' & Ht' & Htpos & Htdec).
    rewrite Ht in Ht'. injection Ht' as <-.
    destruct (varint_roundtrip v Hv) as (vb' & Hvb' & Hvpos & Hvdec).
    rewrite Hvb in Hvb'. injection Hvb' as <-.
    split; [| rewrite length_app; lia].
    rewrite <- (app_assoc t vb post), Htdec. cbn [mbind result_bind].
    rewrite Hid, Hwt. change (0 =? 0) with true. cbv iota.
    replace (pre ++ t ++ vb ++ post) with ((pre ++ t) ++ vb ++ post)
      by (now rewrite <- app_assoc).
    rewrite <- len_app, Hvdec. cbn [mbind result_bind].
    rewrite !len_app, Z.add_assoc.
    destruct (by_id !! f) as [[name fd]|]; reflexivity.
  - destruct Hr as (l & Hl & Hb).
    rewrite Hb in Henc. injection Henc as <-.
    destruct (tag_parts f 2) as (Htag & Hid & Hwt); [lia | lia |].
    destruct (varint_roundtrip _ Htag) as (t' & Ht' & Htpos & Htdec).
    rewrite Ht in Ht'. injection Ht' as <-.
    destruct (varint_roundtrip (len v) (len_nonneg v)) as (l' & Hl' & Hlpos & Hldec).
    rewrite Hl in Hl'. injection Hl' as <-.
    split; [| rewrite length_app; lia].
    rewrite <- (app_assoc t (l ++ v) post), Htdec. cbn [mbind result_bind].
    rewrite Hid, Hwt. change (2 =? 0) with false. change (2 =? 2) with true. cbv iota.
    replace (pre ++ t ++ (l ++ v) ++ post) with ((pre ++ t) ++ l ++ (v ++ post))
      by (now rewrite <- !app_assoc).
    rewrite <- len_app, Hldec. cbn [mbind result_bind].
    replace ((pre ++ t) ++ l ++ v ++ post) with (((pre ++ t) ++ l) ++ v ++ post)
      by (now rewrite <- !app_assoc).
    rewrite <- len_app, py_slice_middle.
    replace (len ((pre ++ t) ++ l) + len v) with (len pre + len (t ++ l ++ v))
      by (rewrite !len_app; lia).
    destruct (by_id !! f) as [[name fd]|]; [| reflexivity].
    destruct (Codec.decode_delimited types decode_nested (fd_type fd) v); reflexivity.
Qed.

(** The decoder's loop over a well-formed buffer stores its records in
    order. *)
Lemma decode_loop_wire (records : list WireRecord) :
  ∀ (data pre : bytes) (result_ : dict PyVal) (fuel : nat),
    Forall wire_record_ok records →
    encode_wire_records records = Ok data →
    (length records < fuel)%nat →
    Codec.decode_loop types decode_nested by_id fuel (pre ++ data) (len pre) result_
    = store_records types decode_nested by_id result_ records.
Proof.
  induction records as [|r records IH]; intros data pre result_ fuel Hok Henc Hfuel.
  - cbn in Henc. injection Henc as <-. rewrite app_nil_r.
    destruct fuel as [|fuel]; [lia |]. cbn [Codec.decode_loop store_records].
    destruct (Z.ltb_spec (len pre) (len pre)); [lia | reflexivity].
  - cbn [encode_wire_records] in Henc.
    destruct (encode_wire_record r) as [b| |] eqn:Hb; cbn in Henc; try discriminate.
    destruct (encode_wire_records records) as [rest| |] eqn:Hrest; cbn in Henc;
      try discriminate.
    injection Henc as <-.
    apply Forall_cons in Hok as [Hr Hok].
    destruct (decode_record_wire r b pre rest result_ Hr Hb) as [Hrec Hpos].
    destruct fuel as [|fuel]; [lia |]. cbn [Codec.decode_loop store_records].
    destruct (Z.ltb_spec (len pre) (len (pre ++ b ++ rest))) as [_ | Hge].
    2: { rewrite !len_app in Hge. unfold len in Hge. lia. }
    rewrite Hrec.
    destruct (store_record types decode_nested by_id result_ r) as [result_'| |];
      cbn [mbind result_bind]; try reflexivity.
    rewrite app_assoc, <- len_app.
    apply (IH rest); [assumption | first [assumption | reflexivity] |].
    cbn [length] in Hfuel. lia.
Qed.

End DecodeRecords.

(** ** Decoding arbitrary buffers: progress and termination *)

Lemma bytes_getitem_nonneg (data : bytes) (pos : Z) :
  0 ≤ pos →
  match bytes_getitem data pos with
  | Ok byte => pos < len data ∧ 0 ≤ byte < 256
  | Raise _ => True
  | OutOfFuel => False
  end.
Proof.
  intros Hpos. unfold bytes_getitem.
  destruct (Z.ltb_spec pos 0); [lia |]. destruct (Z.ltb_spec pos 0); [lia |].
  destruct (data !! Z.to_nat pos) as [b|] eqn:Hb; [| exact I].
  apply lookup_lt_Some in Hb. split; [unfold len; lia | apply byte_to_Z_range].
Qed.

(** A varint read from a position [pos >= 0] ends after [pos], within the
    buffer, with a non-negative value; and the bound on the number of bytes
    read is never reached. *)
Lemma varint_decode_loop_facts (fuel : nat) :
  ∀ (data : bytes) (pos r shift : Z),
    0 ≤ pos → 0 ≤ r → 0 ≤ shift →
    match Varint.decode_loop fuel data pos r shift with
    | Ok (v, pos') => pos < pos' ≤ len data ∧ 0 ≤ v
    | Raise _ => True
    | OutOfFuel => (fuel ≤ Z.to_nat (len data - pos))%nat
    end.
Proof.
  induction fuel as [|fuel IH]; intros data pos r shift Hpos Hr Hshift.
  - cbn. lia.
  - cbn [Varint.decode_loop].
    pose proof (bytes_getitem_nonneg data pos Hpos) as Hget.
    destruct (bytes_getitem data pos) as [byte| |]; cbn [mbind result_bind];
      [| exact I | contradiction].
    destruct Hget as [Hlt Hbyte].
    assert (0 ≤ Z.lor r (Z.shiftl (Z.land byte 0x7F) shift)) as Hr'.
    { apply Z.lor_nonneg. split; [assumption |]. apply Z.shiftl_nonneg.
      apply Z.land_nonneg. lia. }
    destruct (Z.land byte 128 =? 0); [lia |].
    specialize (IH data (pos + 1) _ (shift + 7) ltac:(lia) Hr' ltac:(lia)).
    destruct (Varint.decode_loop fuel data (pos + 1) _ (shift + 7)) as [[v pos']| |];
      [lia | exact I | lia].
Qed.

Lemma decode_varint_facts (data : bytes) (pos : Z) :
  0 ≤ pos →
  match _decode_varint data pos with
  | Ok (v, pos') => pos < pos' ≤ len data ∧ 0 ≤ v
  | Raise _ => True
  | OutOfFuel => False
  end.
Proof.
  intros Hpos. unfold _decode_varint.
  pose proof (varint_decode_loop_facts (S (length data)) data pos 0 0 Hpos
                ltac:(lia) ltac:(lia)) as H.
  destruct (Varint.decode_loop (S (length data)) data pos 0 0) as [[v pos']| |];
    [assumption | exact I |].
  unfold len in H. lia.
Qed.

Section DecodeAny.

Variable types : gmap string TypeDef.
Variable by_id : gmap Z (string * FieldDef).

Lemma decode_delimited_ext D1 D2 (data : bytes) field_type (v : bytes) :
  agree_below data D1 D2 → (length v < length data)%nat →
  Codec.decode_delimited types D1 field_type v
  = Codec.decode_delimited types D2 field_type v.
Proof.
  intros Hagree Hv. unfold Codec.decode_delimited.
  destruct (String.eqb field_type "string"); [reflexivity |].
  destruct (String.eqb field_type "bytes"); [reflexivity |].
  destruct (Codec.is_message_type types field_type); [| reflexivity].
  apply Hagree. assumption.
Qed.

Lemma decode_delimited_returns D (data : bytes) field_type (v : bytes) :
  returns_below data D → (length v < length data)%nat →
  Codec.decode_delimited types D field_type v ≠ OutOfFuel.
Proof.
  intros Hret Hv. unfold Codec.decode_delimited, decode_utf8.
  destruct (String.eqb field_type "string").
  { destruct (utf8_valid v); discriminate. }
  destruct (String.eqb field_type "bytes"); [discriminate |].
  destruct (Codec.is_message_type types field_type); [| discriminate].
  apply Hret. assumption.
Qed.

(** One turn of the loop from a position [pos >= 0]: it moves forward, does
    not depend on how nested decoding treats strings as long as [data], and
    returns when nested decoding does. *)
Lemma decode_record_facts D1 D2 (data : bytes) (pos : Z) (result_ : dict PyVal) :
  0 ≤ pos → agree_below data D1 D2 → returns_below data D1 →
  Codec.decode_record types D1 by_id data pos result_
  = Codec.decode_record types D2 by_id data pos result_
  ∧ match Codec.decode_record types D1 by_id data pos result_ with
    | Ok (pos', _) => pos < pos'
    | Raise _ => True
    | OutOfFuel => False
    end.
Proof.
  intros Hpos Hagree Hret. unfold Codec.decode_record.
  pose proof (decode_varint_facts data pos Hpos) as Htag.
  destruct (_decode_varint data pos) as [[tag pos1]| |]; cbn [mbind result_bind];
    [| split; [reflexivity | exact I] | contradiction].
  destruct Htag as [Hpos1 Htag].
  pose proof (decode_varint_facts data pos1 ltac:(lia)) as Hval.
  assert (data ≠ []) as Hne.
  { intros ->. unfold len in Hpos1. cbn in Hpos1. lia. }
  destruct (by_id !! Z.shiftr tag 3) as [[field_name field_def]|].
  - destruct (Z.land tag 7 =? 0).
    { destruct (_decode_varint data pos1) as [[v pos2]| |]; cbn [mbind result_bind];
        [| split; [reflexivity | exact I] | contradiction].
      split; [reflexivity | lia]. }
    destruct (Z.land tag 7 =? 2); [| split; [reflexivity | lia]].
    destruct (_decode_varint data pos1) as [[l pos2]| |]; cbn [mbind result_bind];
      [| split; [reflexivity | exact I] | contradiction].
    assert (length (py_slice data pos2 (pos2 + l)) < length data)%nat as Hshort
      by (apply py_slice_shorter; [lia | assumption]).
    rewrite (decode_delimited_ext D1 D2 data _ _ Hagree Hshort).
    pose proof (decode_delimited_returns D1 data (fd_type field_def) _ Hret Hshort) as Hr.
    rewrite (decode_delimited_ext D1 D2 data _ _ Hagree Hshort) in Hr.
    split; [reflexivity |].
    destruct (Codec.decode_delimited types D2 (fd_type field_def)
                (py_slice data pos2 (pos2 + l))); cbn [mbind result_bind];
      [lia | exact I | contradiction].
  - destruct (Z.land tag 7 =? 0).
    { destruct (_decode_varint data pos1) as [[v pos2]| |]; cbn [mbind result_bind];
        [| split; [reflexivity | exact I] | contradiction].
      split; [reflexivity | lia]. }
    destruct (Z.land tag 7 =? 2); [| split; [reflexivity | lia]].
    destruct (_decode_varint data pos1) as [[l pos2]| |]; cbn [mbind result_bind];
      [| split; [reflexivity | exact I] | contradiction].
    split; [reflexivity | lia].
Qed.

Lemma decode_loop_facts D1 D2 (data : bytes) (fuel : nat) :
  ∀ (pos : Z) (result_ : dict PyVal),
    0 ≤ pos → agree_below data D1 D2 → returns_below data D1 →
    Codec.decode_loop types D1 by_id fuel data pos result_
    = Codec.decode_loop types D2 by_id fuel data pos result_
    ∧ ((Z.to_nat (len data - pos) < fuel)%nat →
       Codec.decode_loop types D1 by_id fuel data pos result_ ≠ OutOfFuel).
Proof.
  induction fuel as [|fuel IH]; intros pos result_ Hpos Hagree Hret.
  - split; [reflexivity | lia].
  - cbn [Codec.decode_loop]. destruct (Z.ltb_spec pos (len data)) as [Hlt | Hge].
    2: { split; [reflexivity | discriminate]. }
    destruct (decode_record_facts D1 D2 data pos result_ Hpos Hagree Hret)
      as [Heq Hprog].
    rewrite <- Heq.
    destruct (Codec.decode_record types D1 by_id data pos result_)
      as [[pos' result_']| |]; cbn [mbind result_bind];
      [| split; [reflexivity | discriminate] | contradiction].
    destruct (IH pos' result_' ltac:(lia) Hagree Hret) as [IHeq IHret].
    split; [assumption |]. intros Hfuel. apply IHret. lia.
Qed.

End DecodeAny.

(** The depth bound of [_decode_message] is never reached, and any larger
    bound gives the same result. *)
Lemma decode_message_fuel_stable (types : gmap string TypeDef) (n : nat) :
  ∀ (data : bytes) type_name (f1 f2 : nat),
    (length data < n)%nat → (length data < f1)%nat → (length data < f2)%nat →
    Codec.decode_message_fuel types f1 type_name data
    = Codec.decode_message_fuel types f2 type_name data
    ∧ Codec.decode_message_fuel types f1 type_name data ≠ OutOfFuel.
Proof.
  induction n as [|n IH]; intros data type_name f1 f2 Hn Hf1 Hf2; [lia |].
  destruct f1 as [|f1]; [lia |]. destruct f2 as [|f2]; [lia |].
  cbn [Codec.decode_message_fuel].
  destruct (Codec.lookup_type types type_name) as [type_def|];
    [| split; [reflexivity | discriminate]].
  assert (agree_below data (Codec.decode_message_fuel types f1)
            (Codec.decode_message_fuel types f2)) as Hagree.
  { intros name v Hv. apply (IH v name f1 f2); lia. }
  assert (returns_below data (Codec.decode_message_fuel types f1)) as Hret.
  { intros name v Hv. apply (IH v name f1 f1); lia. }
  destruct (decode_loop_facts types (Codec.field_by_id type_def) _ _ data
              (S (length data)) 0 [] ltac:(lia) Hagree Hret) as [Heq Hfuel].
  rewrite <- Heq. split; [reflexivity |].
  specialize (Hfuel ltac:(unfold len; lia)).
  destruct (Codec.decode_loop types (Codec.decode_message_fuel types f1)
              (Codec.field_by_id type_def) (S (length data)) data 0 []);
    cbn [mbind result_bind]; [discriminate | discriminate | contradiction].
Qed.

(** [_decode_message] returns or raises on every type name and buffer. *)
Lemma decode_message_terminates (types : gmap string TypeDef) type_name (data : bytes) :
  Codec._decode_message types type_name data ≠ OutOfFuel.
Proof.
  unfold Codec._decode_message.
  apply (decode_message_fuel_stable types (S (length data)) data type_name
           (S (length data)) (S (length data))); lia.
Qed.

(** ** Unknown fields *)

Lemma encode_wire_records_app (r1 r2 : list WireRecord) (b1 b2 : bytes) :
  encode_wire_records r1 = Ok b1 → encode_wire_records r2 = Ok b2 →
  encode_wire_records (r1 ++ r2) = Ok (b1 ++ b2).
Proof.
  revert b1. induction r1 as [|r r1 IH]; intros b1 H1 H2; cbn in *.
  - injection H1 as <-. assumption.
  - destruct (encode_wire_record r) as [b| |]; cbn in *; try discriminate.
    destruct (encode_wire_records r1) as [rest| |]; cbn in *; try discriminate.
    injection H1 as <-. rewrite (IH rest eq_refl H2). cbn.
    now rewrite <- app_assoc.
Qed.

(** Well-formed records always encode. *)
Lemma encode_wire_records_ok (records : list WireRecord) :
  Forall wire_record_ok records → ∃ data, encode_wire_records records = Ok data.
Proof.
  induction 1 as [|r records Hr _ [rest IH]]; [exists []; reflexivity |].
  destruct (encode_wire_record_ok r Hr) as (t & _ & Hb).
  cbn [encode_wire_records]. rewrite IH.
  destruct r as [f v | f v].
  - destruct Hb as (vb & _ & ->). cbn. eauto.
  - destruct Hb as (l & _ & ->). cbn. eauto.
Qed.

(** Every record takes at least one byte, and a length-delimited payload is
    shorter than the buffer that holds its record. *)
Lemma encode_wire_records_sizes (records : list WireRecord) :
  ∀ data, Forall wire_record_ok records →
    encode_wire_records records = Ok data →
    (length records ≤ length data)%nat
    ∧ ∀ f v, In (WDelimited f v) records → (length v < length data)%nat.
Proof.
  induction records as [|r records IH]; intros data Hok Henc.
  - split; [cbn; lia | intros f v []].
  - apply Forall_cons in Hok as [Hr Hok]. cbn [encode_wire_records] in Henc.
    destruct (encode_wire_record_ok r Hr) as (t & Ht & Hb).
    assert (0 < length t)%nat as Htpos.
    { destruct (varint_roundtrip
                  (Z.lor (Z.shiftl (wire_field_num r) 3)
                     match r with WVarint _ _ => 0 | WDelimited _ _ => 2 end))
        as (t' & Ht' & Hpos & _).
      - destruct r as [f v | f v]; cbn in Hr |- *.
        + apply (tag_parts f 0); lia.
        + apply (tag_parts f 2); lia.
      - rewrite Ht in Ht'. injection Ht' as <-. assumption. }
    destruct (encode_wire_records records) as [rest| |] eqn:Hrest;
      [| destruct (encode_wire_record r); discriminate
       | destruct (encode_wire_record r); discriminate].
    destruct (IH rest Hok eq_refl) as [Hlen Hpay].
    destruct r as [f v | f v].
    + destruct Hb as (vb & _ & Hb). rewrite Hb in Henc. cbn in Henc.
      injection Henc as <-. rewrite !length_app. cbn [length]. split; [lia |].
      intros f' v' [Hin | Hin]; [discriminate |].
      specialize (Hpay f' v' Hin). lia.
    + destruct Hb as (l & _ & Hb). rewrite Hb in Henc. cbn in Henc.
      injection Henc as <-. rewrite !length_app. cbn [length]. split; [lia |].
      intros f' v' [Hin | Hin].
      * injection Hin as -> ->. lia.
      * specialize (Hpay f' v' Hin). lia.
Qed.

Lemma store_records_ext (types : gmap string TypeDef) D1 D2 by_id
    (records : list WireRecord) :
  (∀ f v name, In (WDelimited f v) records → D1 name v = D2 name v) →
  ∀ result_, store_records types D1 by_id result_ records
             = store_records types D2 by_id result_ records.
Proof.
  induction records as [|r records IH]; intros Hagree result_; [reflexivity |].
  cbn [store_records].
  assert (store_record types D1 by_id result_ r = store_record types D2 by_id result_ r)
    as ->.
  { unfold store_record. destruct (by_id !! wire_field_num r) as [[name fd]|];
      [| reflexivity].
    destruct r as [f v | f v]; [reflexivity |].
    unfold Codec.decode_delimited.
    destruct (String.eqb (fd_type fd) "string"); [reflexivity |].
    destruct (String.eqb (fd_type fd) "bytes"); [reflexivity |].
    destruct (Codec.is_message_type types (fd_type fd)); [| reflexivity].
    rewrite (Hagree f v (fd_type fd)); [reflexivity | left; reflexivity]. }
  destruct (store_record types D2 by_id result_ r); cbn [mbind result_bind];
    try reflexivity.
  apply IH. intros f v name Hin. apply (Hagree f v name). right. assumption.
Qed.

(** Records of unknown field number store nothing. *)
Lemma store_records_filter (types : gmap string TypeDef) D (fields : TypeDef)
    (records : list WireRecord) :
  ∀ result_,
    store_records types D (Codec.field_by_id fields) result_
      (List.filter (known_record fields) records)
    = store_records types D (Codec.field_by_id fields) result_ records.
Proof.
  induction records as [|r records IH]; intros result_; [reflexivity |].
  cbn [List.filter store_records]. unfold known_record at 1.
  destruct (Codec.field_by_id fields !! wire_field_num r) as [nf|] eqn:Hk.
  - rewrite bool_decide_eq_true_2 by eauto. cbn [store_records].
    destruct (store_record types D (Codec.field_by_id fields) result_ r);
      cbn [mbind result_bind]; try reflexivity.
    apply IH.
  - rewrite bool_decide_eq_false_2 by (intros [x Hx]; discriminate).
    unfold store_record. rewrite Hk. cbn [mbind result_bind]. apply IH.
Qed.

Lemma Forall_filter_ok (f : WireRecord → bool) (records : list WireRecord) :
  Forall wire_record_ok records → Forall wire_record_ok (List.filter f records).
Proof.
  induction 1 as [|r records Hr _ IH]; cbn; [constructor |].
  destruct (f r); [constructor; assumption | assumption].
Qed.

(** Decoding a well-formed buffer against a registered type stores its
    records in order. *)
Lemma decode_message_wire (types : gmap string TypeDef) type_name (fields : TypeDef)
    (records : list WireRecord) (data : bytes) :
  Codec.lookup_type types type_name = Some fields →
  Forall wire_record_ok records →
  encode_wire_records records = Ok data →
  Codec._decode_message types type_name data
  = (r ← store_records types (Codec._decode_message types) (Codec.field_by_id fields)
          [] records;
     Ok (VDict r)).
Proof.
  intros Htype Hok Henc.
  destruct (encode_wire_records_sizes records data Hok Henc) as [Hlen Hpay].
  unfold Codec._decode_message at 1. cbn [Codec.decode_message_fuel]. rewrite Htype.
  rewrite <- (app_nil_l data) at 2.
  change 0 with (len (@nil byte)).
  rewrite (decode_loop_wire types _ _ records data [] [] (S (length data)) Hok Henc)
    by lia.
  rewrite (store_records_ext types (Codec.decode_message_fuel types (length data))
             (Codec._decode_message types)); [reflexivity |].
  intros f v name Hin. specialize (Hpay f v Hin). unfold Codec._decode_message.
  apply (decode_message_fuel_stable types (S (length v)) v name); lia.
Qed.

(** ** Complete records in any varint encoding *)

Lemma is_varint_nonempty (b : bytes) : is_varint b = true → (0 < length b)%nat.
Proof. destruct b; [discriminate | cbn [length]; lia]. Qed.

Lemma varint_value_nonneg (b : bytes) : 0 ≤ varint_value b.
Proof.
  induction b as [|x b IH]; cbn [varint_value]; [lia |].
  apply Z.lor_nonneg. split; [apply land_127_range | apply Z.shiftl_nonneg; assumption].
Qed.

(** The decoder's loop reads a complete varint, minimal or not, wherever it
    stands in a buffer, and stops right after it. *)
Lemma varint_read (b : bytes) :
  is_varint b = true →
  ∀ (pre post : bytes) (fuel : nat) (r shift : Z),
    (length b ≤ fuel)%nat → 0 ≤ shift →
    Varint.decode_loop fuel (pre ++ b ++ post) (len pre) r shift
    = Ok (Z.lor r (Z.shiftl (varint_value b) shift), len pre + len b).
Proof.
  induction b as [|x b IH]; [discriminate |].
  intros Hb pre post fuel r shift Hfuel Hshift.
  destruct fuel as [|fuel]; [cbn [length] in Hfuel; lia |].
  cbn [Varint.decode_loop].
  change (pre ++ (x :: b) ++ post) with (pre ++ x :: b ++ post).
  rewrite bytes_getitem_at. cbn [mbind result_bind].
  cbn [is_varint] in Hb. cbn [varint_value].
  destruct (Z.land (byte_to_Z x) 0x80 =? 0).
  - destruct b; [| discriminate]. cbn [varint_value]. rewrite Z.shiftl_0_l, Z.lor_0_r.
    reflexivity.
  - replace (pre ++ x :: b ++ post) with ((pre ++ [x]) ++ b ++ post)
      by (rewrite <- app_assoc; reflexivity).
    replace (len pre + 1) with (len (pre ++ [x]))
      by (rewrite len_app; unfold len; cbn [length]; lia).
    rewrite (IH Hb) by (cbn [length] in Hfuel; lia).
    f_equal. f_equal.
    + rewrite Z.shiftl_lor, Z.shiftl_shiftl by lia.
      rewrite Z.lor_assoc. f_equal. f_equal. lia.
    + rewrite len_app. unfold len. cbn [length]. lia.
Qed.

Lemma decode_varint_raw (b pre post : bytes) :
  is_varint b = true →
  _decode_varint (pre ++ b ++ post) (len pre) = Ok (varint_value b, len pre + len b).
Proof.
  intros Hb. unfold _decode_varint. rewrite (varint_read b Hb).
  - rewrite Z.shiftl_0_r. reflexivity.
  - rewrite !length_app. lia.
  - lia.
Qed.

(** The bytes that [_encode_varint] writes are a complete varint of the
    value. *)
Lemma encode_loop_raw (fuel : nat) :
  ∀ v, 0 ≤ v → v < 2 ^ (7 * Z.of_nat (S fuel)) →
    ∃ l b, Varint.encode_loop (S fuel) v [] = Ok l
      ∧ py_bytes l = Ok b
      ∧ is_varint b = true ∧ varint_value b = v.
Proof.
  induction fuel as [|fuel IH]; intros v Hv Hbound;
    rewrite encode_loop_S; destruct (Z.gtb_spec v 127) as [Hbig | Hsmall].
  1: { change (7 * Z.of_nat 1) with 7 in Hbound. change (2 ^ 7) with 128 in Hbound. lia. }
  2: { destruct (IH (Z.shiftr v 7)) as (l & b & Hl & Hb & Hvar & Hval).
       { apply Z.shiftr_nonneg. assumption. }
       { rewrite Z.shiftr_div_pow2 by lia.
         apply Z.div_lt_upper_bound; [lia |]. rewrite <- Z.pow_add_r by lia.
         replace (7 + 7 * Z.of_nat (S fuel)) with (7 * Z.of_nat (S (S fuel))) by lia.
         assumption. }
       destruct (byte_of_Z_Some (Z.lor (Z.land v 0x7F) 0x80)) as (b0 & Hb0 & Hv0).
       { apply (lor_range _ _ 8); [lia | | lia]. pose proof (land_127_range v). lia. }
       exists ((Z.lor (Z.land v 0x7F) 0x80) :: l), (b0 :: b).
       split. { rewrite encode_loop_acc, Hl. reflexivity. }
       split. { cbn [py_bytes]. rewrite Hb0, Hb. reflexivity. }
       cbn [is_varint varint_value]. rewrite Hv0, continuation_high, continuation_low.
       change (0x80 =? 0) with false. cbv iota.
       split; [assumption |]. rewrite Hval. apply split_low7. }
  all: destruct (byte_of_Z_Some v) as (b0 & Hb0 & Hv0); [lia |];
    exists [v], [b0];
    (split; [reflexivity |]);
    (split; [cbn [py_bytes]; rewrite Hb0; reflexivity |]);
    cbn [is_varint varint_value]; rewrite Hv0, final_high by lia;
    change (0 =? 0) with true; cbv iota;
    (split; [reflexivity |]);
    rewrite Z.shiftl_0_l, Z.lor_0_r; apply land_127_small; lia.
Qed.

Lemma encode_varint_raw (v : Z) :
  0 ≤ v → ∃ b, _encode_varint v = Ok b ∧ is_varint b = true ∧ varint_value b = v.
Proof.
  intros Hv.
  destruct (encode_loop_raw (Z.to_nat (Z.log2 v)) v Hv (encode_fuel_enough v Hv))
    as (l & b & Hl & Hb & Hvar & Hval).
  exists b. split; [| split; assumption].
  unfold _encode_varint, encode_fuel. rewrite Hl. exact Hb.
Qed.

(** The records that [_encode_field] and [_encode_string] write are complete
    records, with the shortest varints. *)
Lemma encode_wire_record_raw (r : WireRecord) :
  wire_record_ok r →
  ∃ raw, raw_record_ok raw ∧ wire_of_raw raw = r
         ∧ encode_wire_record r = Ok (raw_bytes raw).
Proof.
  intros Hok. destruct r as [f v | f v]; cbn [wire_record_ok] in Hok.
  - destruct (tag_parts f 0) as (Ht & Hid & Hwt); [lia | lia |].
    destruct (encode_varint_raw _ Ht) as (t & Henc & Htv & Htval).
    destruct (encode_varint_raw v) as (vb & Hv & Hvv & Hvval); [lia |].
    exists (RVarint t vb). cbn [raw_record_ok wire_of_raw raw_bytes].
    rewrite Htval, Hvval, Hid, Hwt. repeat split; try assumption.
    cbn [encode_wire_record]. rewrite Hv. cbn [mbind result_bind].
    unfold _encode_field. rewrite Henc. reflexivity.
  - destruct (tag_parts f 2) as (Ht & Hid & Hwt); [lia | lia |].
    destruct (encode_varint_raw _ Ht) as (t & Henc & Htv & Htval).
    destruct (encode_varint_raw (len v) (len_nonneg v)) as (l & Hl & Hlv & Hlval).
    exists (RDelimited t l v). cbn [raw_record_ok wire_of_raw raw_bytes].
    rewrite Htval, Hlval, Hid, Hwt. repeat split; try assumption.
    cbn [encode_wire_record]. unfold _encode_string. rewrite Hl.
    cbn [mbind result_bind]. unfold _encode_field. rewrite Henc. reflexivity.
Qed.

Lemma encode_wire_records_raw (records : list WireRecord) :
  Forall wire_record_ok records →
  ∃ raws, Forall raw_record_ok raws ∧ map wire_of_raw raws = records
          ∧ encode_wire_records records = Ok (raw_buffer raws).
Proof.
  induction 1 as [|r records Hr _ (raws & Hok & Hmap & Henc)].
  - exists []. repeat split; constructor.
  - destruct (encode_wire_record_raw r Hr) as (raw & Hraw & Hw & Hb).
    exists (raw :: raws). split; [constructor; assumption |].
    split; [cbn [map]; rewrite Hw, Hmap; reflexivity |].
    cbn [encode_wire_records]. rewrite Hb, Henc. reflexivity.
Qed.

Section DecodeRaw.

Variable types : gmap string TypeDef.
Variable decode_nested : string → bytes → result PyVal.
Variable by_id : gmap Z (string * FieldDef).

(** One turn of the decoder's loop over a complete record, wherever it
    stands in the buffer. *)
Lemma decode_record_raw (r : RawRecord) (pre post : bytes) (result_ : dict PyVal) :
  raw_record_ok r →
  Codec.decode_record types decode_nested by_id (pre ++ raw_bytes r ++ post) (len pre)
    result_
  = (result_' ← store_record types decode_nested by_id result_ (wire_of_raw r);
     Ok (len pre + len (raw_bytes r), result_'))
  ∧ (0 < length (raw_bytes r))%nat.
Proof.
  intros Hok. unfold Codec.decode_record, store_record.
  destruct r as [t v | t l v]; cbn [raw_record_ok wire_of_raw wire_field_num raw_bytes] in *.
  - destruct Hok as (Ht & Hv & Hwt).
    split; [| rewrite length_app; pose proof (is_varint_nonempty t Ht); lia].
    rewrite <- (app_assoc t v post), (decode_varint_raw t pre _ Ht).
    cbn [mbind result_bind]. rewrite Hwt. change (0 =? 0) with true. cbv iota.
    replace (pre ++ t ++ v ++ post) with ((pre ++ t) ++ v ++ post)
      by (now rewrite <- app_assoc).
    rewrite <- len_app, (decode_varint_raw v _ _ Hv). cbn [mbind result_bind].
    rewrite !len_app, Z.add_assoc.
    destruct (by_id !! Z.shiftr (varint_value t) 3) as [[name fd]|]; reflexivity.
  - destruct Hok as (Ht & Hl & Hwt & Hlen).
    split; [| rewrite length_app; pose proof (is_varint_nonempty t Ht); lia].
    rewrite <- (app_assoc t (l ++ v) post), (decode_varint_raw t pre _ Ht).
    cbn [mbind result_bind].
    rewrite Hwt. change (2 =? 0) with false. change (2 =? 2) with true. cbv iota.
    replace (pre ++ t ++ (l ++ v) ++ post) with ((pre ++ t) ++ l ++ (v ++ post))
      by (now rewrite <- !app_assoc).
    rewrite <- len_app, (decode_varint_raw l _ _ Hl). cbn [mbind result_bind].
    rewrite Hlen.
    replace ((pre ++ t) ++ l ++ v ++ post) with (((pre ++ t) ++ l) ++ v ++ post)
      by (now rewrite <- !app_assoc).
    rewrite <- len_app, py_slice_middle.
    replace (len ((pre ++ t) ++ l) + len v) with (len pre + len (t ++ l ++ v))
      by (rewrite !len_app; lia).
    destruct (by_id !! Z.shiftr (varint_value t) 3) as [[name fd]|]; [| reflexivity].
    destruct (Codec.decode_delimited types decode_nested (fd_type fd) v); reflexivity.
Qed.

(** The decoder's loop over a buffer of complete records stores them in
    order. *)
Lemma decode_loop_raw (records : list RawRecord) :
  ∀ (pre : bytes) (result_ : dict PyVal) (fuel : nat),
    Forall raw_record_ok records →
    (length records < fuel)%nat →
    Codec.decode_loop types decode_nested by_id fuel (pre ++ raw_buffer records)
      (len pre) result_
    = store_records types decode_nested by_id result_ (map wire_of_raw records).
Proof.
  induction records as [|r records IH]; intros pre result_ fuel Hok Hfuel.
  - cbn [raw_buffer map concat]. rewrite app_nil_r.
    destruct fuel as [|fuel]; [lia |]. cbn [Codec.decode_loop store_records].
    destruct (Z.ltb_spec (len pre) (len pre)); [lia | reflexivity].
  - apply Forall_cons in Hok as [Hr Hok].
    change (raw_buffer (r :: records)) with (raw_bytes r ++ raw_buffer records).
    destruct (decode_record_raw r pre (raw_buffer records) result_ Hr) as [Hrec Hpos].
    destruct fuel as [|fuel]; [lia |]. cbn [Codec.decode_loop store_records map].
    destruct (Z.ltb_spec (len pre) (len (pre ++ raw_bytes r ++ raw_buffer records)))
      as [_ | Hge].
    2: { rewrite !len_app in Hge. unfold len in Hge. lia. }
    rewrite Hrec.
    destruct (store_record types decode_nested by_id result_ (wire_of_raw r))
      as [result_'| |]; cbn [mbind result_bind]; try reflexivity.
    rewrite app_assoc, <- len_app.
    apply IH; [assumption |]. cbn [length] in Hfuel. lia.
Qed.

End DecodeRaw.

(** Every complete record takes at least one byte, and a length-delimited
    payload is shorter than the buffer that holds its record. *)
Lemma raw_buffer_sizes (records : list RawRecord) :
  Forall raw_record_ok records →
  (length records ≤ length (raw_buffer records))%nat
  ∧ ∀ f v, In (WDelimited f v) (map wire_of_raw records)
           → (length v < length (raw_buffer records))%nat.
Proof.
  induction 1 as [|r records Hr _ [Hlen Hpay]].
  - split; [cbn; lia | intros f v []].
  - change (raw_buffer (r :: records)) with (raw_bytes r ++ raw_buffer records).
    rewrite length_app. cbn [length map].
    destruct r as [t v | t l v]; cbn [raw_record_ok raw_bytes wire_of_raw] in *.
    + destruct Hr as (Ht & _). pose proof (is_varint_nonempty t Ht).
      rewrite length_app. split; [lia |].
      intros f' v' [Hin | Hin]; [discriminate |]. specialize (Hpay f' v' Hin). lia.
    + destruct Hr as (Ht & _). pose proof (is_varint_nonempty t Ht).
      rewrite !length_app. split; [lia |].
      intros f' v' [Hin | Hin].
      * injection Hin as _ <-. lia.
      * specialize (Hpay f' v' Hin). lia.
Qed.

(** Decoding a buffer of complete records against a registered type stores
    the records in order. *)
Lemma decode_message_raw (types : gmap string TypeDef) type_name (fields : TypeDef)
    (records : list RawRecord) :
  Codec.lookup_type types type_name = Some fields →
  Forall raw_record_ok records →
  Codec._decode_message types type_name (raw_buffer records)
  = (r ← store_records types (Codec._decode_message types) (Codec.field_by_id fields)
          [] (map wire_of_raw records);
     Ok (VDict r)).
Proof.
  intros Htype Hok.
  destruct (raw_buffer_sizes records Hok) as [Hlen Hpay].
  unfold Codec._decode_message at 1. cbn [Codec.decode_message_fuel]. rewrite Htype.
  pose proof (decode_loop_raw types
                (Codec.decode_message_fuel types (length (raw_buffer records)))
                (Codec.field_by_id fields) records [] []
                (S (length (raw_buffer records))) Hok ltac:(lia)) as Hloop.
  cbn [app] in Hloop. change (len (@nil byte)) with 0 in Hloop. rewrite Hloop.
  rewrite (store_records_ext types
             (Codec.decode_message_fuel types (length (raw_buffer records)))
             (Codec._decode_message types)); [reflexivity |].
  intros f v name Hin. specialize (Hpay f v Hin). unfold Codec._decode_message.
  apply (decode_message_fuel_stable types (S (length v)) v name); lia.
Qed.

Lemma map_filter_raw (fields : TypeDef) (records : list RawRecord) :
  map wire_of_raw (List.filter (known_raw fields) records)
  = List.filter (known_record fields) (map wire_of_raw records).
Proof.
  induction records as [|r records IH]; [reflexivity |].
  cbn [List.filter map]. unfold known_raw at 1.
  destruct (known_record fields (wire_of_raw r)); cbn [map]; now rewrite IH.
Qed.

Lemma Forall_filter_raw (f : RawRecord → bool) (records : list RawRecord) :
  Forall raw_record_ok records → Forall raw_record_ok (List.filter f records).
Proof.
  induction 1 as [|r records Hr _ IH]; cbn; [constructor |].
  destruct (f r); [constructor; assumption | assumption].
Qed.

Lemma store_unknown (types : gmap string TypeDef) D (fields : TypeDef)
    (r : WireRecord) (result_ : dict PyVal) :
  known_record fields r = false →
  store_record types D (Codec.field_by_id fields) result_ r = Ok result_.
Proof.
  intros Hu. unfold store_record. unfold known_record in Hu.
  destruct (Codec.field_by_id fields !! wire_field_num r) as [nf|]; [| reflexivity].
  rewrite bool_decide_eq_true_2 in Hu by eauto. discriminate.
Qed.

Lemma decode_skips_raw (types : gmap string TypeDef) type_name
    (fields : TypeDef) (records : list RawRecord) :
  Codec.lookup_type types type_name = Some fields →
  Forall raw_record_ok records →
  Codec._decode_message types type_name (raw_buffer records)
    = (r ← store_records types (Codec._decode_message types)
             (Codec.field_by_id fields) [] (map wire_of_raw records);
       Ok (VDict r))
  ∧ Codec._decode_message types type_name (raw_buffer records)
    = Codec._decode_message types type_name
        (raw_buffer (List.filter (known_raw fields) records))
  ∧ (Forall (λ r, known_raw fields r = false) records →
     Codec._decode_message types type_name (raw_buffer records) = Ok (VDict []))
  ∧ (∀ r pre post result_ D,
       In r records → known_raw fields r = false →
       Codec.decode_record types D (Codec.field_by_id fields)
         (pre ++ raw_bytes r ++ post) (len pre) result_
       = Ok (len pre + len (raw_bytes r), result_))
  ∧ (∀ tag length_ name fd s u,
       records = [RDelimited tag length_ (bytes_of_str s); u] →
       Codec.field_by_id fields !! Z.shiftr (varint_value tag) 3 = Some (name, fd) →
       fd_type fd = "string" → utf8_valid (bytes_of_str s) = true →
       known_raw fields u = false →
       Codec._decode_message types type_name (raw_buffer records)
       = Ok (VDict [(name, VStr s)])).
Proof.
  intros Htype Hok.
  pose proof (Forall_filter_raw (known_raw fields) records Hok) as Hok'.
  pose proof (decode_message_raw types type_name fields records Htype Hok) as Hdec.
  split; [assumption |].
  split; [| split; [| split]].
  - rewrite Hdec.
    rewrite (decode_message_raw types type_name fields _ Htype Hok').
    rewrite map_filter_raw, store_records_filter. reflexivity.
  - intros Hunknown. rewrite Hdec.
    rewrite <- store_records_filter, <- map_filter_raw.
    replace (List.filter (known_raw fields) records) with (@nil RawRecord);
      [reflexivity |].
    clear -Hunknown. induction Hunknown as [|r records Hr _ IH]; [reflexivity |].
    cbn [List.filter]. rewrite Hr. assumption.
  - intros r pre post result_ D Hin Hunknown.
    assert (raw_record_ok r) as Hr.
    { rewrite List.Forall_forall in Hok. apply Hok. assumption. }
    destruct (decode_record_raw types D (Codec.field_by_id fields) r pre post
                result_ Hr) as [-> _].
    rewrite store_unknown by assumption. reflexivity.
  - intros tag length_ name fd s u -> Hf Hty Hutf Hu. rewrite Hdec.
    cbn [map wire_of_raw store_records].
    assert (store_record types (Codec._decode_message types)
              (Codec.field_by_id fields) []
              (WDelimited (Z.shiftr (varint_value tag) 3) (bytes_of_str s))
            = Ok [(name, VStr s)]) as H1.
    { unfold store_record. cbn [wire_field_num]. rewrite Hf.
      unfold Codec.decode_delimited, decode_utf8. rewrite Hty.
      cbn [String.eqb Ascii.eqb Bool.eqb]. rewrite Hutf. cbn [mbind result_bind dict_set].
      unfold str_of_bytes, bytes_of_str.
      rewrite string_of_list_byte_of_string. reflexivity. }
    rewrite H1. cbn [mbind result_bind].
    change (wire_of_raw u) with (wire_of_raw u).
    rewrite store_unknown by assumption. reflexivity.
Qed.

(** C1 (amended). Unknown-field tolerance on buffers of complete records.
    For every registered message type and every buffer made of complete
    records of wire type 0 or 2, whatever the encoding of their varints
    (the shortest one or not), decoding stores the records in order and
    skips those whose field number is not defined for the type: an unknown
    record of either wire type moves the position to the end of the record
    and leaves the result alone; the outcome is that of the buffer with the
    unknown records removed; a buffer of unknown records only decodes to
    the empty dict; and a recognized string field followed by an unknown
    record decodes to that field alone, without exception.  The records
    that [_encode_field] and [_encode_string] write for non-negative field
    numbers and values are such records. *)
Theorem decode_skips_unknown_fields (types : gmap string TypeDef) type_name
    (fields : TypeDef) (records : list RawRecord) :
  Codec.lookup_type types type_name = Some fields →
  Forall raw_record_ok records →
  Codec._decode_message types type_name (raw_buffer records)
    = (r ← store_records types (Codec._decode_message types)
             (Codec.field_by_id fields) [] (map wire_of_raw records);
       Ok (VDict r))
  ∧ Codec._decode_message types type_name (raw_buffer records)
    = Codec._decode_message types type_name
        (raw_buffer (List.filter (known_raw fields) records))
  ∧ (Forall (λ r, known_raw fields r = false) records →
     Codec._decode_message types type_name (raw_buffer records) = Ok (VDict []))
  ∧ (∀ r pre post result_ D,
       In r records → known_raw fields r = false →
       Codec.decode_record types D (Codec.field_by_id fields)
         (pre ++ raw_bytes r ++ post) (len pre) result_
       = Ok (len pre + len (raw_bytes r), result_))
  ∧ (∀ tag length_ name fd s u,
       records = [RDelimited tag length_ (bytes_of_str s); u] →
       Codec.field_by_id fields !! Z.shiftr (varint_value tag) 3 = Some (name, fd) →
       fd_type fd = "string" → utf8_valid (bytes_of_str s) = true →
       known_raw fields u = false →
       Codec._decode_message types type_name (raw_buffer records)
       = Ok (VDict [(name, VStr s)]))
  ∧ (∀ written,
       Forall wire_record_ok written →
       ∃ raws, Forall raw_record_ok raws ∧ map wire_of_raw raws = written
               ∧ encode_wire_records written = Ok (raw_buffer raws)).
Proof.
  intros Htype Hok.
  destruct (decode_skips_raw types type_name fields records Htype Hok)
    as (H1 & H2 & H3 & H4 & H5).
  repeat (split; [assumption |]).
  apply encode_wire_records_raw.
Qed.

Lemma decode_skips_unknown_fields_witness :
  Codec.lookup_type Foo_types "Foo" = Some [("bar", mk_field 1 "string" None)]
  ∧ Forall raw_record_ok Foo_then_unknown
  ∧ raw_buffer Foo_then_unknown = bs [0x0a; 2; 0x68; 0x69; 0x10; 0x80; 0x00]
  ∧ List.filter (known_raw [("bar", mk_field 1 "string" None)]) Foo_then_unknown
    = [RDelimited (bs [0x0a]) (bs [2]) (bytes_of_str "hi")]
  ∧ Codec._decode_message Foo_types "Foo" (bs [0x0a; 2; 0x68; 0x69; 0x10; 0x80; 0x00])
    = Ok (VDict [("bar", VStr "hi")])
  ∧ Codec._decode_message Foo_types "Foo" (bs [0x0a; 2; 0x68; 0x69; 0x10; 0x80; 0x00])
    = Codec._decode_message Foo_types "Foo" (bs [0x0a; 2; 0x68; 0x69])
  ∧ (∀ pre post result_ D,
       Codec.decode_record Foo_types D
         (Codec.field_by_id [("bar", mk_field 1 "string" None)])
         (pre ++ bs [0x10; 0x80; 0x00] ++ post) (len pre) result_
       = Ok (len pre + 3, result_)).
Proof.
  assert (Forall raw_record_ok Foo_then_unknown) as Hok
    by (repeat constructor).
  destruct (decode_skips_unknown_fields Foo_types "Foo"
              [("bar", mk_field 1 "string" None)] Foo_then_unknown eq_refl Hok)
    as (_ & Hfilter & _ & Hskip & Hstring & _).
  split; [reflexivity |]. split; [exact Hok |].
  split; [reflexivity |]. split; [reflexivity |].
  split; [| split].
  - apply (Hstring (bs [0x0a]) (bs [2]) "bar" (mk_field 1 "string" None) "hi"
             (RVarint (bs [0x10]) (bs [0x80; 0x00])));
      reflexivity.
  - exact Hfilter.
  - intros pre post result_ D.
    apply (Hskip (RVarint (bs [0x10]) (bs [0x80; 0x00])) pre post result_ D);
      [right; left; reflexivity | reflexivity].
Defined.

Example decode_known_then_unknown :
  encode_wire_records [WDelimited 1 (bytes_of_str "hi"); WVarint 2 300;
                       WDelimited 7 (bs [1; 2; 3])]
  = Ok (bs [0x0a; 2; 0x68; 0x69; 0x10; 0xAC; 2; 0x3a; 3; 1; 2; 3])
  ∧ Codec._decode_message Foo_types "Foo"
      (bs [0x0a; 2; 0x68; 0x69; 0x10; 0xAC; 2; 0x3a; 3; 1; 2; 3])
    = Ok (VDict [("bar", VStr "hi")]).
Proof. split; vm_compute; reflexivity. Qed.

(** Not every buffer is tolerated.  Against [Foo{bar: {id: 1, string}}]:
    the recognized field followed by a complete 64-bit record (wire type 1)
    of the unregistered field 2 raises [IndexError], because the decoder
    does not skip the 8 bytes and reads them as tags; a 32-bit record
    (wire type 5) of field 2 whose payload happens to read as a record of
    field 1 replaces the decoded value of [bar]; and a varint record of
    field 2 cut short raises [IndexError]. *)
Lemma unknown_field_not_tolerated :
  Codec.lookup_type Foo_types "Foo" = Some [("bar", mk_field 1 "string" None)]
  ∧ Codec._decode_message Foo_types "Foo"
      (bs [0x0a; 2; 0x68; 0x69; 0x11; 1; 2; 3; 4; 5; 6; 7; 8])
    = raise IndexError
  ∧ Codec._decode_message Foo_types "Foo"
      (bs [0x0a; 2; 0x68; 0x69; 0x15; 0x0a; 2; 0x79; 0x6f])
    = Ok (VDict [("bar", VStr "yo")])
  ∧ Codec._decode_message Foo_types "Foo" (bs [0x0a; 2; 0x68; 0x69; 0x10])
    = raise IndexError.
Proof. repeat split; vm_compute; reflexivity. Qed.

(** ** Record parsing *)

Lemma dict_get_set_eq {V} (d : dict V) (k : string) (v : V) :
  dict_get (dict_set d k v) k = Some v.
Proof.
  induction d as [|[k' v'] d IH]; cbn.
  - now rewrite String.eqb_refl.
  - destruct (String.eqb k' k) eqn:Hk; cbn; rewrite Hk; [reflexivity | assumption].
Qed.

Lemma dict_get_set_ne {V} (d : dict V) (k k' : string) (v : V) :
  k ≠ k' → dict_get (dict_set d k v) k' = dict_get d k'.
Proof.
  intros Hne. induction d as [|[k0 v0] d IH]; cbn.
  - destruct (String.eqb_spec k k'); [contradiction | reflexivity].
  - destruct (String.eqb_spec k0 k) as [-> | Hk]; cbn.
    + destruct (String.eqb_spec k k'); [contradiction | reflexivity].
    + destruct (String.eqb k0 k'); [reflexivity | assumption].
Qed.

Section ParserFacts.

Variable pb : PbModule.
Variable b64decode : PyVal → result bytes.

Local Abbreviation parse_action := (Parser.parse_action pb).
Local Abbreviation parse_actions := (Parser.parse_actions pb).
Local Abbreviation parse_data := (Parser.parse_data pb b64decode).

(** The loop over the actions goes on after the actions that succeed and
    stops at the first one that raises. *)
Lemma parse_actions_app (pre rest : list bytes) :
  ∀ acc,
    parse_actions (pre ++ rest) acc
    = match parse_actions pre acc with
      | (entries, Ok _) => parse_actions rest entries
      | (entries, r) => (entries, r)
      end.
Proof.
  induction pre as [|a pre IH]; intros acc; [reflexivity |].
  cbn [app Parser.parse_actions].
  destruct (parse_action a) as [[entry|]| |]; try reflexivity; apply IH.
Qed.

Lemma parse_actions_stop (a : bytes) (post : list bytes) (acc : list PyVal) e :
  parse_action a = Raise e →
  parse_actions (a :: post) acc = (acc, Raise e).
Proof. intros H. cbn [Parser.parse_actions]. rewrite H. reflexivity. Qed.

(** The handler records the message of the exception and keeps the raw
    payload. *)
Lemma on_parse_error_keys (record : dict PyVal) e (result_ : dict PyVal) data :
  dict_get record "data" = Some data →
  dict_get (Parser.on_parse_error record e result_) "parse_error" = Some (VStr (exn_msg e))
  ∧ dict_get (Parser.on_parse_error record e result_) "raw_data" = Some data
  ∧ ∀ k, k ≠ "parse_error" → k ≠ "raw_data" →
      dict_get (Parser.on_parse_error record e result_) k = dict_get result_ k.
Proof.
  intros Hd. unfold Parser.on_parse_error. rewrite Hd. split; [| split].
  - rewrite dict_get_set_ne by discriminate. apply dict_get_set_eq.
  - apply dict_get_set_eq.
  - intros k H1 H2. rewrite !dict_get_set_ne by congruence. reflexivity.
Qed.

End ParserFacts.

Lemma dict_set_same {V} (d : dict V) (k : string) (v : V) :
  dict_get d k = Some v → dict_set d k v = d.
Proof.
  induction d as [|[k' v'] d IH]; cbn; [discriminate |].
  destruct (String.eqb k' k); [intros [= ->]; reflexivity |].
  intros H. rewrite (IH H). reflexivity.
Qed.

Lemma dict_has_get {V} (d : dict V) (k : string) :
  dict_has d k = match dict_get d k with Some _ => true | None => false end.
Proof. unfold dict_has. destruct (dict_get d k); reflexivity. Qed.

Section HeadFacts.

Variable pb : PbModule.
Variable b64decode : PyVal → result bytes.

Local Abbreviation decode_subfield := (Parser.decode_subfield b64decode).

Lemma decode_subfield_left (d : dict PyVal) (key : string) cls :
  left_unparsed b64decode cls d key →
  decode_subfield (VDict d) key cls = Ok (VDict d).
Proof.
  unfold left_unparsed, Parser.decode_subfield.
  cbn [py_contains py_getitem mbind result_bind]. rewrite dict_has_get.
  destruct (dict_get d key) as [v|]; [| reflexivity].
  cbn [mbind result_bind].
  intros [Hf | (data & Hb & [[e He] | (parsed & Hp & Hf)])].
  - rewrite Hf. reflexivity.
  - destruct (truthy v); [| reflexivity]. rewrite Hb. cbn [mbind result_bind].
    unfold Parser.parse_single_pb. rewrite He. reflexivity.
  - destruct (truthy v); [| reflexivity]. rewrite Hb. cbn [mbind result_bind].
    unfold Parser.parse_single_pb. rewrite Hp. cbn [mbind result_bind].
    rewrite Hf. reflexivity.
Qed.

Lemma decode_subfield_parsed (d : dict PyVal) (key : string) cls parsed :
  parsed_as b64decode cls d key parsed →
  decode_subfield (VDict d) key cls = Ok (VDict (dict_set d key parsed)).
Proof.
  intros (v & data & Hget & Ht & Hb & Hp & Htp).
  unfold Parser.decode_subfield.
  cbn [py_contains py_getitem mbind result_bind]. rewrite dict_has_get, Hget.
  cbn [mbind result_bind]. rewrite Ht, Hb. cbn [mbind result_bind].
  unfold Parser.parse_single_pb. rewrite Hp. cbn [mbind result_bind].
  rewrite Htp. reflexivity.
Qed.

(** The block on [head["result"]], on a head whose [result] is kept *)
Lemma result_block_left (head : dict PyVal) :
  result_left_unparsed b64decode (pb_RecordPlayerResult pb) head →
  (has_result ← py_contains "result" (VDict head);
   if (has_result : bool) then
     result_data ← py_getitem (VDict head) "result";
     if truthy result_data then
       result_data ← decode_subfield result_data "players" (pb_RecordPlayerResult pb);
       py_setitem (VDict head) "result" result_data
     else Ok (VDict head)
   else Ok (VDict head))
  = Ok (VDict head).
Proof.
  unfold result_left_unparsed.
  cbn [py_contains py_getitem mbind result_bind]. rewrite dict_has_get.
  destruct (dict_get head "result") as [r|] eqn:Hr; [| reflexivity].
  cbn [mbind result_bind].
  intros [Hf | (res & -> & Hp)].
  - rewrite Hf. reflexivity.
  - destruct (truthy (VDict res)); [| reflexivity].
    rewrite (decode_subfield_left res "players" _ Hp). cbn [mbind result_bind py_setitem].
    rewrite (dict_set_same head "result" (VDict res) Hr). reflexivity.
Qed.

Lemma parse_head_left (record head : dict PyVal) :
  dict_get record "head" = Some (VDict head) →
  left_unparsed b64decode (pb_PlayerGameView pb) head "accounts" →
  result_left_unparsed b64decode (pb_RecordPlayerResult pb) head →
  Parser.parse_head pb b64decode record
  = Ok [("head", VDict head); ("uuid", head_uuid head)].
Proof.
  intros Hh Ha Hr. unfold Parser.parse_head. rewrite Hh.
  cbn [py_copy mbind result_bind].
  rewrite (decode_subfield_left head "accounts" _ Ha). cbn [mbind result_bind].
  pose proof (result_block_left head Hr) as Hblock.
  cbn [py_contains mbind result_bind] in Hblock |- *.
  destruct (dict_has head "result"); cbn [mbind result_bind] in Hblock |- *;
    rewrite ?Hblock; reflexivity.
Qed.

Lemma parse_head_players (record head res : dict PyVal) (parsed : PyVal) :
  dict_get record "head" = Some (VDict head) →
  left_unparsed b64decode (pb_PlayerGameView pb) head "accounts" →
  dict_get head "result" = Some (VDict res) → truthy (VDict res) = true →
  parsed_as b64decode (pb_RecordPlayerResult pb) res "players" parsed →
  Parser.parse_head pb b64decode record
  = Ok [("head", VDict (dict_set head "result"
                          (VDict (dict_set res "players" parsed))));
        ("uuid", head_uuid head)].
Proof.
  intros Hh Ha Hr Ht Hp. unfold Parser.parse_head. rewrite Hh.
  cbn [py_copy mbind result_bind].
  rewrite (decode_subfield_left head "accounts" _ Ha).
  cbn [py_contains py_getitem mbind result_bind]. rewrite dict_has_get, Hr.
  cbn [mbind result_bind]. rewrite Ht.
  rewrite (decode_subfield_parsed res "players" _ parsed Hp).
  cbn [mbind result_bind py_setitem py_get]. unfold head_uuid.
  rewrite dict_get_set_ne by discriminate. reflexivity.
Qed.

Lemma parse_head_accounts (record head : dict PyVal) (parsed : PyVal) :
  dict_get record "head" = Some (VDict head) →
  parsed_as b64decode (pb_PlayerGameView pb) head "accounts" parsed →
  result_left_unparsed b64decode (pb_RecordPlayerResult pb) head →
  Parser.parse_head pb b64decode record
  = Ok [("head", VDict (dict_set head "accounts" parsed)); ("uuid", head_uuid head)].
Proof.
  intros Hh Ha Hr. unfold Parser.parse_head. rewrite Hh.
  cbn [py_copy mbind result_bind].
  rewrite (decode_subfield_parsed head "accounts" _ parsed Ha). cbn [mbind result_bind].
  assert (result_left_unparsed b64decode (pb_RecordPlayerResult pb)
            (dict_set head "accounts" parsed)) as Hr'.
  { unfold result_left_unparsed in *.
    rewrite dict_get_set_ne by discriminate. assumption. }
  pose proof (result_block_left _ Hr') as Hblock.
  cbn [py_contains mbind result_bind] in Hblock |- *.
  unfold head_uuid.
  destruct (dict_has (dict_set head "accounts" parsed) "result");
    cbn [mbind result_bind] in Hblock |- *; rewrite ?Hblock;
    cbn [mbind result_bind py_get]; rewrite dict_get_set_ne by discriminate;
    reflexivity.
Qed.

Lemma parse_head_both (record head res : dict PyVal) (accounts players : PyVal) :
  dict_get record "head" = Some (VDict head) →
  parsed_as b64decode (pb_PlayerGameView pb) head "accounts" accounts →
  dict_get head "result" = Some (VDict res) → truthy (VDict res) = true →
  parsed_as b64decode (pb_RecordPlayerResult pb) res "players" players →
  Parser.parse_head pb b64decode record
  = Ok [("head", VDict (dict_set (dict_set head "accounts" accounts) "result"
                          (VDict (dict_set res "players" players))));
        ("uuid", head_uuid head)].
Proof.
  intros Hh Ha Hr Ht Hp. unfold Parser.parse_head. rewrite Hh.
  cbn [py_copy mbind result_bind].
  rewrite (decode_subfield_parsed head "accounts" _ accounts Ha).
  cbn [py_contains py_getitem mbind result_bind].
  rewrite dict_has_get, dict_get_set_ne, Hr by discriminate.
  cbn [mbind result_bind]. rewrite Ht.
  rewrite (decode_subfield_parsed res "players" _ players Hp).
  cbn [mbind result_bind py_setitem py_get]. unfold head_uuid.
  rewrite !dict_get_set_ne by discriminate. reflexivity.
Qed.

(** What one action gives, from the results of the calls made on it *)
Lemma parse_action_cases (action : bytes) :
  (action = [] → Parser.parse_action pb action = Ok None)
  ∧ (∀ name data cls d,
       action ≠ [] → pb_Wrapper pb action = Ok (name, data) →
       pb_getattr pb (List.last (split_dot name) "") = Some cls → cls data = Ok d →
       Parser.parse_action pb action
       = Ok (Some (VDict [("type", VStr (List.last (split_dot name) ""));
                          ("data", d)])))
  ∧ (∀ name data,
       action ≠ [] → pb_Wrapper pb action = Ok (name, data) →
       pb_getattr pb (List.last (split_dot name) "") = None →
       Parser.parse_action pb action
       = Ok (Some (VDict [("type", VStr (List.last (split_dot name) ""));
                          ("raw", VStr (b64encode data))])))
  ∧ (∀ e, action ≠ [] → pb_Wrapper pb action = Raise e →
          Parser.parse_action pb action = Raise e)
  ∧ (∀ name data cls e,
       action ≠ [] → pb_Wrapper pb action = Ok (name, data) →
       pb_getattr pb (List.last (split_dot name) "") = Some cls → cls data = Raise e →
       Parser.parse_action pb action = Raise e).
Proof.
  unfold Parser.parse_action.
  destruct action as [|b action]; cbn [length Nat.eqb].
  - split; [reflexivity |]. repeat split; intros; contradiction.
  - split; [discriminate |]. split; [| split; [| split]].
    + intros name data cls d _ Hw Hg Hc. rewrite Hw. cbn [mbind result_bind].
      rewrite Hg, Hc. reflexivity.
    + intros name data _ Hw Hg. rewrite Hw. cbn [mbind result_bind].
      rewrite Hg. reflexivity.
    + intros e _ Hw. rewrite Hw. reflexivity.
    + intros name data cls e _ Hw Hg Hc. rewrite Hw. cbn [mbind result_bind].
      rewrite Hg, Hc. reflexivity.
Qed.

(** The loop over actions that all return: their entries, in order *)
Lemma parse_actions_entries (actions : list bytes) (outs : list (option PyVal)) :
  Forall2 (λ a o, Parser.parse_action pb a = Ok o) actions outs →
  ∀ acc, Parser.parse_actions pb actions acc = (acc ++ entries_of outs, Ok tt).
Proof.
  induction 1 as [|a o actions outs Ha _ IH]; intros acc.
  - cbn. rewrite app_nil_r. reflexivity.
  - cbn [Parser.parse_actions]. rewrite Ha. destruct o as [entry|].
    + rewrite IH. unfold entries_of. cbn [omap id option_bind mbind].
      change (omap id outs) with (entries_of outs).
      rewrite <- app_assoc. reflexivity.
    + rewrite IH. reflexivity.
Qed.

Lemma parse_actions_failure (pre post : list bytes) (action : bytes)
    (outs : list (option PyVal)) e :
  Forall2 (λ a o, Parser.parse_action pb a = Ok o) pre outs →
  Parser.parse_action pb action = Raise e →
  Parser.parse_actions pb (pre ++ action :: post) [] = (entries_of outs, Raise e).
Proof.
  intros Hpre Ha. rewrite parse_actions_app.
  rewrite (parse_actions_entries pre outs Hpre). cbn [app].
  apply parse_actions_stop. assumption.
Qed.

(** The envelope, from the results of the three calls *)
Lemma parse_envelope_cases (data : PyVal) :
  (∀ e, b64decode data = Raise e → Parser.parse_envelope pb b64decode data = Raise e)
  ∧ (∀ data_bytes e,
       b64decode data = Ok data_bytes → pb_Wrapper pb data_bytes = Raise e →
       Parser.parse_envelope pb b64decode data = Raise e)
  ∧ (∀ data_bytes name wrapper_data,
       b64decode data = Ok data_bytes →
       pb_Wrapper pb data_bytes = Ok (name, wrapper_data) →
       Parser.parse_envelope pb b64decode data = pb_GameDetailRecords pb wrapper_data).
Proof.
  unfold Parser.parse_envelope. repeat split.
  - intros e ->. reflexivity.
  - intros data_bytes e -> Hw. cbn [mbind result_bind]. rewrite Hw. reflexivity.
  - intros data_bytes name wrapper_data -> Hw. cbn [mbind result_bind].
    rewrite Hw. reflexivity.
Qed.

(** Whether the envelope of the payload fails with [e]: in the base64
    text, in the outer wrapper or in the container *)
Lemma parse_game_record_envelope (record head_part : dict PyVal) (data : PyVal) e :
  Parser.parse_head pb b64decode record = Ok head_part →
  dict_get record "data" = Some data → truthy data = true →
  Parser.parse_envelope pb b64decode data = Raise e →
  Parser.parse_game_record pb b64decode record
  = Ok (dict_set (dict_set head_part "parse_error" (VStr (exn_msg e))) "raw_data" data).
Proof.
  intros Hh Hd Ht He. unfold Parser.parse_game_record. rewrite Hh.
  cbn [mbind result_bind]. unfold Parser.parse_data. rewrite Hd, Ht. cbn [negb].
  rewrite He. unfold Parser.on_parse_error. rewrite Hd. reflexivity.
Qed.

Lemma parse_game_record_actions (record head_part : dict PyVal) (data : PyVal)
    (version : Z) (actions : list bytes) :
  Parser.parse_head pb b64decode record = Ok head_part →
  dict_get record "data" = Some data → truthy data = true →
  Parser.parse_envelope pb b64decode data = Ok (version, actions) →
  Parser.parse_game_record pb b64decode record
  = let '(entries, r) := Parser.parse_actions pb actions [] in
    let result_ := dict_set (dict_set head_part "version" (VInt version))
                     "actions" (VList entries) in
    match r with
    | Ok _ => Ok result_
    | Raise e =>
        Ok (dict_set (dict_set result_ "parse_error" (VStr (exn_msg e))) "raw_data" data)
    | OutOfFuel => OutOfFuel
    end.
Proof.
  intros Hh Hd Ht He. unfold Parser.parse_game_record. rewrite Hh.
  cbn [mbind result_bind]. unfold Parser.parse_data. rewrite Hd, Ht. cbn [negb].
  rewrite He. destruct (Parser.parse_actions pb actions []) as [entries r].
  unfold Parser.on_parse_error. rewrite Hd. reflexivity.
Qed.

End HeadFacts.
(** C5 (amended). Record-decode error policy, for every record.
    Header: (1) a sub-field ([accounts], [result.players]) whose bytes do
    not parse is left as it was, its base64 text, and the record is
    produced from the head so kept; (2), (3) the failure of one sub-field
    does not keep the other from being replaced by its message, (4) as
    both are when both parse.  Actions: (5) an empty action is skipped, an
    action of a known type gives [{type, data}], one whose type has no
    decoder degrades to [{type, raw}], and an action whose envelope or
    body does not parse raises.  Payload, after a head that returned:
    (6a) when the base64 text, the outer envelope or the container cannot
    be parsed, the output is what the head gave plus [parse_error] and the
    raw payload under [raw_data]; (6b) when no action raises, [version]
    and the entries of all the actions, in order, are added; (6c) when an
    action raises, the loop stops there: [actions] holds the entries of
    the actions before it only, the failing action and those after it are
    not represented, and [parse_error] and [raw_data] are added as in
    (6a).  (7) Without payload the output is what the head gave plus
    [error]. *)
Theorem parse_game_record_policy (pb : PbModule) (b64decode : PyVal → result bytes)
    (record : dict PyVal) :
  (∀ head,
     dict_get record "head" = Some (VDict head) →
     left_unparsed b64decode (pb_PlayerGameView pb) head "accounts" →
     result_left_unparsed b64decode (pb_RecordPlayerResult pb) head →
     Parser.parse_head pb b64decode record
     = Ok [("head", VDict head); ("uuid", head_uuid head)]
     ∧ Parser.parse_game_record pb b64decode record
       = Parser.parse_data pb b64decode record
           [("head", VDict head); ("uuid", head_uuid head)])
  ∧ (∀ head res parsed,
       dict_get record "head" = Some (VDict head) →
       left_unparsed b64decode (pb_PlayerGameView pb) head "accounts" →
       dict_get head "result" = Some (VDict res) → truthy (VDict res) = true →
       parsed_as b64decode (pb_RecordPlayerResult pb) res "players" parsed →
       Parser.parse_head pb b64decode record
       = Ok [("head", VDict (dict_set head "result"
                               (VDict (dict_set res "players" parsed))));
             ("uuid", head_uuid head)])
  ∧ (∀ head parsed,
       dict_get record "head" = Some (VDict head) →
       parsed_as b64decode (pb_PlayerGameView pb) head "accounts" parsed →
       result_left_unparsed b64decode (pb_RecordPlayerResult pb) head →
       Parser.parse_head pb b64decode record
       = Ok [("head", VDict (dict_set head "accounts" parsed));
             ("uuid", head_uuid head)])
  ∧ (∀ head res accounts players,
       dict_get record "head" = Some (VDict head) →
       parsed_as b64decode (pb_PlayerGameView pb) head "accounts" accounts →
       dict_get head "result" = Some (VDict res) → truthy (VDict res) = true →
       parsed_as b64decode (pb_RecordPlayerResult pb) res "players" players →
       Parser.parse_head pb b64decode record
       = Ok [("head", VDict (dict_set (dict_set head "accounts" accounts) "result"
                               (VDict (dict_set res "players" players))));
             ("uuid", head_uuid head)])
  ∧ (∀ action,
       (action = [] → Parser.parse_action pb action = Ok None)
       ∧ (∀ name data cls d,
            action ≠ [] → pb_Wrapper pb action = Ok (name, data) →
            pb_getattr pb (List.last (split_dot name) "") = Some cls →
            cls data = Ok d →
            Parser.parse_action pb action
            = Ok (Some (VDict [("type", VStr (List.last (split_dot name) ""));
                               ("data", d)])))
       ∧ (∀ name data,
            action ≠ [] → pb_Wrapper pb action = Ok (name, data) →
            pb_getattr pb (List.last (split_dot name) "") = None →
            Parser.parse_action pb action
            = Ok (Some (VDict [("type", VStr (List.last (split_dot name) ""));
                               ("raw", VStr (b64encode data))])))
       ∧ (∀ e, action ≠ [] → pb_Wrapper pb action = Raise e →
               Parser.parse_action pb action = Raise e)
       ∧ (∀ name data cls e,
            action ≠ [] → pb_Wrapper pb action = Ok (name, data) →
            pb_getattr pb (List.last (split_dot name) "") = Some cls →
            cls data = Raise e →
            Parser.parse_action pb action = Raise e))
  ∧ (∀ head_part data,
       Parser.parse_head pb b64decode record = Ok head_part →
       dict_get record "data" = Some data → truthy data = true →
       (∀ e,
          b64decode data = Raise e
          ∨ (∃ data_bytes,
               b64decode data = Ok data_bytes
               ∧ (pb_Wrapper pb data_bytes = Raise e
                  ∨ ∃ name wrapper_data,
                      pb_Wrapper pb data_bytes = Ok (name, wrapper_data)
                      ∧ pb_GameDetailRecords pb wrapper_data = Raise e)) →
          ∃ out,
            Parser.parse_game_record pb b64decode record = Ok out
            ∧ out = dict_set (dict_set head_part "parse_error" (VStr (exn_msg e)))
                      "raw_data" data
            ∧ dict_get out "parse_error" = Some (VStr (exn_msg e))
            ∧ dict_get out "raw_data" = Some data
            ∧ dict_get out "actions" = dict_get head_part "actions"
            ∧ ∀ k, k ∉ payload_keys → dict_get out k = dict_get head_part k)
       ∧ (∀ data_bytes name wrapper_data version actions,
            b64decode data = Ok data_bytes →
            pb_Wrapper pb data_bytes = Ok (name, wrapper_data) →
            pb_GameDetailRecords pb wrapper_data = Ok (version, actions) →
            (∀ outs,
               Forall2 (λ a o, Parser.parse_action pb a = Ok o) actions outs →
               Parser.parse_game_record pb b64decode record
               = Ok (dict_set (dict_set head_part "version" (VInt version))
                       "actions" (VList (entries_of outs))))
            ∧ (∀ pre action post outs e,
                 actions = pre ++ action :: post →
                 Forall2 (λ a o, Parser.parse_action pb a = Ok o) pre outs →
                 Parser.parse_action pb action = Raise e →
                 ∃ out,
                   Parser.parse_game_record pb b64decode record = Ok out
                   ∧ out = dict_set
                             (dict_set
                                (dict_set (dict_set head_part "version" (VInt version))
                                   "actions" (VList (entries_of outs)))
                                "parse_error" (VStr (exn_msg e)))
                             "raw_data" data
                   ∧ dict_get out "actions" = Some (VList (entries_of outs))
                   ∧ dict_get out "parse_error" = Some (VStr (exn_msg e))
                   ∧ dict_get out "raw_data" = Some data
                   ∧ ∀ k, k ∉ payload_keys → dict_get out k = dict_get head_part k)))
  ∧ (∀ head_part,
       Parser.parse_head pb b64decode record = Ok head_part →
       (dict_get record "data" = None
        ∨ ∃ data, dict_get record "data" = Some data ∧ truthy data = false) →
       Parser.parse_game_record pb b64decode record
       = Ok (dict_set head_part "error" (VStr "No game data"))).
Proof.
  split; [| split; [| split; [| split; [| split; [| split]]]]].
  - intros head Hh Ha Hr.
    pose proof (parse_head_left pb b64decode record head Hh Ha Hr) as Hhead.
    split; [assumption |].
    unfold Parser.parse_game_record. rewrite Hhead. reflexivity.
  - intros head res parsed. apply parse_head_players.
  - intros head parsed. apply parse_head_accounts.
  - intros head res accounts players. apply parse_head_both.
  - intros action. apply parse_action_cases.
  - intros head_part data Hh Hd Ht. split.
    + intros e He.
      assert (Parser.parse_envelope pb b64decode data = Raise e) as Henv.
      { destruct (parse_envelope_cases pb b64decode data) as (H1 & H2 & H3).
        destruct He as [He | (data_bytes & Hb & [Hw | (name & wd & Hw & Hg)])].
        - apply H1. assumption.
        - apply (H2 data_bytes); assumption.
        - rewrite (H3 data_bytes name wd Hb Hw). assumption. }
      eexists. split; [apply (parse_game_record_envelope pb b64decode _ _ _ _ Hh Hd Ht Henv) |].
      split; [reflexivity |].
      split; [rewrite dict_get_set_ne by discriminate; apply dict_get_set_eq |].
      split; [apply dict_get_set_eq |].
      split; [rewrite !dict_get_set_ne by discriminate; reflexivity |].
      intros k Hk. unfold payload_keys in Hk. rewrite !not_elem_of_cons in Hk.
      rewrite !dict_get_set_ne by (intros <-; intuition). reflexivity.
    + intros data_bytes name wrapper_data version actions Hb Hw Hg.
      assert (Parser.parse_envelope pb b64decode data = Ok (version, actions)) as Henv.
      { destruct (parse_envelope_cases pb b64decode data) as (_ & _ & H3).
        rewrite (H3 data_bytes name wrapper_data Hb Hw). assumption. }
      pose proof (parse_game_record_actions pb b64decode _ _ _ _ _ Hh Hd Ht Henv) as Hrec.
      split.
      * intros outs Houts. rewrite Hrec.
        rewrite (parse_actions_entries pb actions outs Houts). reflexivity.
      * intros pre action post outs e -> Hpre Hact. rewrite Hrec.
        rewrite (parse_actions_failure pb pre post action outs e Hpre Hact).
        eexists. split; [reflexivity |]. split; [reflexivity |].
        split; [rewrite !dict_get_set_ne by discriminate; apply dict_get_set_eq |].
        split; [rewrite dict_get_set_ne by discriminate; apply dict_get_set_eq |].
        split; [apply dict_get_set_eq |].
        intros k Hk. unfold payload_keys in Hk. rewrite !not_elem_of_cons in Hk.
        rewrite !dict_get_set_ne by (intros <-; intuition). reflexivity.
  - intros head_part Hh Hd. unfold Parser.parse_game_record. rewrite Hh.
    cbn [mbind result_bind]. unfold Parser.parse_data.
    destruct Hd as [-> | (data & -> & ->)]; reflexivity.
Qed.


(** A record whose second action is malformed: of its three actions only
    the first is in the output; the malformed one is not degraded to an
    opaque entry and the good one after it is lost, while the raw payload is
    kept. *)
Lemma action_failure_aborts_record :
  Parser.parse_action Parser.sample_pb Parser.future_action
  = Ok (Some (VDict [("type", VStr "RecordFutureType"); ("raw", VStr "AQ==")]))
  ∧ raises (Parser.parse_action Parser.sample_pb Parser.broken_action) = true
  ∧ Parser.parse_envelope Parser.sample_pb Parser.sample_b64decode
      (VStr (b64encode (Parser.record_payload
                          [Parser.future_action; Parser.broken_action;
                           Parser.future_action])))
    = Ok (1, [Parser.future_action; Parser.broken_action; Parser.future_action])
  ∧ Parser.parse_game_record Parser.sample_pb Parser.sample_b64decode
      (Parser.sample_record
         [Parser.future_action; Parser.broken_action; Parser.future_action])
    = Ok [("head", VDict [("uuid", VStr "230101-aaaa")]);
          ("uuid", VStr "230101-aaaa");
          ("version", VInt 1);
          ("actions",
           VList [VDict [("type", VStr "RecordFutureType"); ("raw", VStr "AQ==")]]);
          ("parse_error", VStr "Error parsing message");
          ("raw_data",
           VStr (b64encode (Parser.record_payload
                              [Parser.future_action; Parser.broken_action;
                               Parser.future_action])))].
Proof. repeat split; vm_compute; reflexivity. Qed.

Lemma parse_game_record_policy_witness :
  Parser.parse_game_record Parser.sample_pb Parser.sample_b64decode
    (sample_record_bad_accounts
       [Parser.future_action; Parser.broken_action; Parser.future_action])
  = Ok [("head", VDict [("uuid", VStr "230101-aaaa"); ("accounts", VStr "/w==")]);
        ("uuid", VStr "230101-aaaa");
        ("version", VInt 1);
        ("actions",
         VList [VDict [("type", VStr "RecordFutureType"); ("raw", VStr "AQ==")]]);
        ("parse_error", VStr "Error parsing message");
        ("raw_data",
         VStr (b64encode (Parser.record_payload
                            [Parser.future_action; Parser.broken_action;
                             Parser.future_action])))].
Proof.
  destruct (parse_game_record_policy Parser.sample_pb Parser.sample_b64decode
              (sample_record_bad_accounts
                 [Parser.future_action; Parser.broken_action; Parser.future_action]))
    as (Hhead & _ & _ & _ & _ & Hpayload & _).
  destruct (Hhead [("uuid", VStr "230101-aaaa"); ("accounts", VStr "/w==")] eq_refl)
    as [Hh _].
  { right. exists (bs [0xFF]). split; [vm_compute; reflexivity |].
    left. eexists. vm_compute. reflexivity. }
  { exact I. }
  destruct (Hpayload _
              (VStr (b64encode (Parser.record_payload
                                  [Parser.future_action; Parser.broken_action;
                                   Parser.future_action])))
              Hh eq_refl eq_refl) as [_ Hok].
  destruct (Hok (Parser.record_payload
                   [Parser.future_action; Parser.broken_action; Parser.future_action])
              ".lq.GameDetailRecords"
              (Parser.detail_of
                 [Parser.future_action; Parser.broken_action; Parser.future_action])
              1 [Parser.future_action; Parser.broken_action; Parser.future_action])
    as [_ Hfail]; [vm_compute; reflexivity .. |].
  destruct (Hfail [Parser.future_action] Parser.broken_action [Parser.future_action]
              [Some (VDict [("type", VStr "RecordFutureType"); ("raw", VStr "AQ==")])]
              (mk_exn DecodeError "Error parsing message") eq_refl)
    as (out & Hout & -> & _).
  { repeat constructor. }
  { vm_compute. reflexivity. }
  exact Hout.
Defined.

(** ** Termination of the encoder *)

Lemma py_bytes_returns (l : list Z) : py_bytes l ≠ OutOfFuel.
Proof.
  induction l as [|z l IH]; cbn; [discriminate |].
  destruct (byte_of_Z z); [| discriminate].
  apply bind_returns; [assumption | discriminate].
Qed.

(** The iteration bound of [_encode_varint] is never reached. *)
Lemma encode_varint_returns (v : Z) : _encode_varint v ≠ OutOfFuel.
Proof.
  destruct (Z.lt_ge_cases v 0) as [Hneg | Hpos].
  - unfold _encode_varint, encode_fuel. rewrite encode_loop_S.
    destruct (Z.gtb_spec v 127); [lia |]. cbn [mbind result_bind].
    apply py_bytes_returns.
  - destruct (varint_roundtrip v Hpos) as (b & -> & _). discriminate.
Qed.

Lemma encode_field_returns (field_num wire_type : Z) (value : bytes) :
  _encode_field field_num wire_type value ≠ OutOfFuel.
Proof.
  unfold _encode_field. apply bind_returns; [apply encode_varint_returns | discriminate].
Qed.

Lemma encode_string_returns (field_num : Z) (value : bytes) :
  _encode_string field_num value ≠ OutOfFuel.
Proof.
  unfold _encode_string. apply bind_returns; [apply encode_varint_returns |].
  intros l. apply encode_field_returns.
Qed.

Section EncodeTerminates.

Variable types : gmap string TypeDef.
Variable int_of_str : string → result Z.
Variable int_of_bytes : bytes → result Z.
Hypothesis int_of_str_returns : ∀ s, int_of_str s ≠ OutOfFuel.
Hypothesis int_of_bytes_returns : ∀ b, int_of_bytes b ≠ OutOfFuel.

Local Abbreviation single_field :=
  (Codec._encode_single_field types int_of_str int_of_bytes).

Lemma encode_single_field_returns encode_nested field_id field_type (value : PyVal) :
  (∀ d name, value = VDict d → encode_nested name d ≠ OutOfFuel) →
  single_field encode_nested field_id field_type value ≠ OutOfFuel.
Proof.
  intros Hnested. unfold Codec._encode_single_field, Codec.encode_string_obj.
  destruct (String.eqb field_type "string").
  { destruct value; try discriminate; apply encode_string_returns. }
  destruct (String.eqb field_type "bytes").
  { destruct value; try discriminate; apply encode_string_returns. }
  destruct (Codec.is_int_type field_type).
  { destruct value; try discriminate; cbn [Codec.py_int];
      (apply bind_returns;
       [first [discriminate | apply int_of_str_returns | apply int_of_bytes_returns]
       | intros i; apply bind_returns;
         [apply encode_varint_returns | intros v; apply encode_field_returns]]). }
  destruct (String.eqb field_type "bool").
  { destruct value; try discriminate;
      (apply bind_returns;
       [apply encode_varint_returns | intros v; apply encode_field_returns]). }
  destruct (Codec.is_message_type types field_type);
    destruct value; try discriminate.
  apply bind_returns; [apply (Hnested d); reflexivity |].
  intros b. apply encode_string_returns.
Qed.

Lemma encode_items_returns encode_nested field_id field_type (items : list PyVal) :
  (∀ d name, In (VDict d) items → encode_nested name d ≠ OutOfFuel) →
  ∀ result_,
    Codec.encode_items types int_of_str int_of_bytes encode_nested field_id field_type
      items result_ ≠ OutOfFuel.
Proof.
  induction items as [|item items IH]; intros Hnested result_; cbn; [discriminate |].
  apply bind_returns.
  - apply encode_single_field_returns. intros d name ->. apply Hnested. now left.
  - intros r. apply IH. intros d name Hin. apply Hnested. now right.
Qed.

Lemma list_max_In (f : PyVal → nat) (l : list PyVal) (v : PyVal) :
  In v l → (f v ≤ list_max (map f l))%nat.
Proof.
  induction l as [|x l IH]; intros Hin; [contradiction |].
  cbn [map list_max foldr]. destruct Hin as [-> | Hin]; [lia |].
  specialize (IH Hin). unfold list_max in IH. lia.
Qed.

Lemma depth_dict_get (data : dict PyVal) (k : string) (v : PyVal) :
  dict_get data k = Some v →
  (Codec.depth v ≤ list_max (map (λ kv, Codec.depth (snd kv)) data))%nat.
Proof.
  induction data as [|[k' v'] data IH]; intros H; [discriminate |].
  cbn [dict_get] in H. cbn [map list_max foldr snd].
  destruct (String.eqb k' k).
  - injection H as ->. lia.
  - specialize (IH H). unfold list_max in IH. lia.
Qed.

Lemma encode_fields_returns encode_nested (n : nat) (data : dict PyVal)
    (fields : TypeDef) :
  (∀ d name, (Codec.depth (VDict d) ≤ n)%nat → encode_nested name d ≠ OutOfFuel) →
  (list_max (map (λ kv, Codec.depth (snd kv)) data) ≤ n)%nat →
  ∀ result_,
    Codec.encode_fields types int_of_str int_of_bytes encode_nested fields data result_
    ≠ OutOfFuel.
Proof.
  intros Hnested Hdepth.
  induction fields as [|[field_name field_def] fields IH]; intros result_;
    cbn [Codec.encode_fields]; [discriminate |].
  destruct (dict_get data field_name) as [value|] eqn:Hget; [| apply IH].
  pose proof (depth_dict_get data field_name value Hget) as Hv.
  apply bind_returns; [| intros r; apply IH].
  assert (single_field encode_nested (fd_id field_def) (fd_type field_def) value
            ≫= (λ r, Ok (result_ ++ r)) ≠ OutOfFuel) as Hsingle.
  { apply bind_returns; [| discriminate].
    apply encode_single_field_returns. intros d name ->. apply Hnested. lia. }
  destruct value; try exact Hsingle.
  destruct (bool_decide (fd_rule field_def = Some "repeated")); [| exact Hsingle].
  apply encode_items_returns. intros d name Hin. apply Hnested.
  pose proof (list_max_In Codec.depth l (VDict d) Hin) as Hd.
  cbn [Codec.depth] in Hv. lia.
Qed.

(** A bound at least the nesting depth of the value is never reached. *)
Lemma encode_message_fuel_returns (fuel : nat) :
  ∀ type_name (data : dict PyVal),
    (Codec.depth (VDict data) ≤ fuel)%nat →
    Codec.encode_message_fuel types int_of_str int_of_bytes fuel type_name data
    ≠ OutOfFuel.
Proof.
  induction fuel as [|fuel IH]; intros type_name data Hdepth.
  - cbn [Codec.depth] in Hdepth. lia.
  - cbn [Codec.encode_message_fuel].
    destruct (Codec.lookup_type types type_name) as [type_def|]; [| discriminate].
    apply (encode_fields_returns _ fuel).
    + intros d name Hd. apply IH. assumption.
    + cbn [Codec.depth] in Hdepth. lia.
Qed.

(** [_encode_message] returns or raises on every type name and value. *)
Lemma encode_message_terminates type_name (data : dict PyVal) :
  Codec._encode_message types int_of_str int_of_bytes type_name data ≠ OutOfFuel.
Proof.
  unfold Codec._encode_message. apply encode_message_fuel_returns. lia.
Qed.

End EncodeTerminates.

(** ** Responses *)

Lemma unpack_pack_H (n : Z) (b : bytes) :
  pack_H n = Ok b → unpack_H b = Ok n.
Proof.
  intros H. destruct (Z.le_gt_cases n 65535) as [Hle | Hgt].
  - destruct (Z.le_gt_cases 0 n) as [H0 | Hneg].
    + destruct (pack_H_spec n ltac:(lia)) as (b1 & b2 & Hp & Hv).
      rewrite Hp in H. injection H as <-. cbn [unpack_H]. now rewrite Hv.
    + unfold pack_H in H. destruct (Z.leb_spec 0 n); [lia |]. discriminate.
  - rewrite pack_H_overflow in H by assumption. discriminate.
Qed.

(** One turn of the wrapper loop over a length-delimited record, wherever it
    stands in the buffer *)
Lemma wrapper_step_wire (f : Z) (v b pre post : bytes) (env : Response.Envelope) :
  0 ≤ f →
  encode_wire_record (WDelimited f v) = Ok b →
  Response.wrapper_step (pre ++ b ++ post) (len pre) env
  = (env' ← store_envelope env (WDelimited f v); Ok (len pre + len b, env'))
  ∧ (0 < length b)%nat.
Proof.
  intros Hf Henc.
  destruct (encode_wire_record_ok (WDelimited f v) Hf) as (t & Ht & l & Hl & Hb).
  rewrite Hb in Henc. injection Henc as <-. cbn [wire_field_num] in Ht.
  destruct (tag_parts f 2) as (Htag & Hid & Hwt); [lia | lia |].
  destruct (varint_roundtrip _ Htag) as (t' & Ht' & Htpos & Htdec).
  rewrite Ht in Ht'. injection Ht' as <-.
  destruct (varint_roundtrip (len v) (len_nonneg v)) as (l' & Hl' & Hlpos & Hldec).
  rewrite Hl in Hl'. injection Hl' as <-.
  split; [| rewrite length_app; lia].
  unfold Response.wrapper_step.
  rewrite <- (app_assoc t (l ++ v) post), Htdec. cbn [mbind result_bind].
  rewrite Hid, Hwt. change (2 =? 2) with true. cbv iota.
  replace (pre ++ t ++ (l ++ v) ++ post) with ((pre ++ t) ++ l ++ (v ++ post))
    by (now rewrite <- !app_assoc).
  rewrite <- len_app, Hldec. cbn [mbind result_bind].
  replace ((pre ++ t) ++ l ++ v ++ post) with (((pre ++ t) ++ l) ++ v ++ post)
    by (now rewrite <- !app_assoc).
  rewrite <- len_app, py_slice_middle.
  replace (len ((pre ++ t) ++ l) + len v) with (len pre + len (t ++ l ++ v))
    by (rewrite !len_app; lia).
  cbn [store_envelope]. destruct (f =? 1).
  - destruct (decode_utf8 v); reflexivity.
  - destruct (f =? 2); reflexivity.
Qed.

Lemma wrapper_loop_wire (records : list WireRecord) :
  ∀ (data pre : bytes) (env : Response.Envelope) (fuel : nat),
    Forall wire_record_ok records → Forall is_delimited records →
    encode_wire_records records = Ok data →
    (length records < fuel)%nat →
    Response.wrapper_loop fuel (pre ++ data) (len pre) env
    = store_envelopes env records.
Proof.
  induction records as [|r records IH]; intros data pre env fuel Hok Hdel Henc Hfuel.
  - cbn in Henc. injection Henc as <-. rewrite app_nil_r.
    destruct fuel as [|fuel]; [lia |]. cbn [Response.wrapper_loop store_envelopes].
    destruct (Z.ltb_spec (len pre) (len pre)); [lia | reflexivity].
  - cbn [encode_wire_records] in Henc.
    destruct (encode_wire_record r) as [b| |] eqn:Hb; cbn in Henc; try discriminate.
    destruct (encode_wire_records records) as [rest| |] eqn:Hrest; cbn in Henc;
      try discriminate.
    injection Henc as <-.
    apply Forall_cons in Hok as [Hr Hok]. apply Forall_cons in Hdel as [Hd Hdel].
    destruct r as [f v | f v]; [contradiction |].
    destruct (wrapper_step_wire f v b pre rest env Hr Hb) as [Hstep Hpos].
    destruct fuel as [|fuel]; [lia |]. cbn [Response.wrapper_loop store_envelopes].
    destruct (Z.ltb_spec (len pre) (len (pre ++ b ++ rest))) as [_ | Hge].
    2: { rewrite !len_app in Hge. unfold len in Hge. lia. }
    rewrite Hstep.
    destruct (store_envelope env (WDelimited f v)) as [env'| |];
      cbn [mbind result_bind]; try reflexivity.
    rewrite app_assoc, <- len_app.
    apply (IH rest); [assumption | assumption | first [assumption | reflexivity] |].
    cbn [length] in Hfuel. lia.
Qed.

Lemma parse_wrapper_wire (records : list WireRecord) (data : bytes) :
  Forall wire_record_ok records → Forall is_delimited records →
  encode_wire_records records = Ok data →
  Response.parse_wrapper data
  = store_envelopes (Response.mk_envelope None None) records.
Proof.
  intros Hok Hdel Henc. unfold Response.parse_wrapper.
  destruct (encode_wire_records_sizes records data Hok Henc) as [Hlen _].
  rewrite <- (app_nil_l data) at 2. change 0 with (len (@nil byte)).
  apply wrapper_loop_wire; try assumption. lia.
Qed.

Section ResponseFacts.

Variable types : gmap string TypeDef.

Local Abbreviation decode_response := (Response.decode_response types).

(** A frame with a pending id: the entry is removed whatever follows. *)
Lemma decode_response_pending self kind b1 b2 (wrapper : bytes) msg_id
    method_name response_type :
  byte_to_Z kind = MsgType.RESPONSE →
  byte_to_Z b1 + 256 * byte_to_Z b2 = msg_id →
  pending_requests self !! msg_id = Some (method_name, response_type) →
  decode_response self (kind :: b1 :: b2 :: wrapper)
  = (mk_codec (msg_index self) (delete msg_id (pending_requests self)),
     Response.decode_body types msg_id method_name response_type wrapper).
Proof.
  intros Hk Hid Hp. unfold Response.decode_response.
  destruct (Z.ltb_spec (len (kind :: b1 :: b2 :: wrapper)) 3) as [Hlt | _].
  { unfold len in Hlt. cbn [length] in Hlt. lia. }
  change (kind :: b1 :: b2 :: wrapper) with ([] ++ kind :: b1 :: b2 :: wrapper) at 1.
  change 0 with (len (@nil byte)). rewrite bytes_getitem_at, Hk.
  change (MsgType.RESPONSE =? MsgType.RESPONSE) with true. cbv iota.
  change (py_slice (kind :: b1 :: b2 :: wrapper) 1 3)
    with (py_slice ([kind] ++ [b1; b2] ++ wrapper) (len [kind]) (len [kind] + len [b1; b2])).
  rewrite py_slice_middle. cbn [unpack_H]. rewrite Hid, Hp. reflexivity.
Qed.

End ResponseFacts.

Lemma decode_response_on_records (types : gmap string TypeDef) self kind b1 b2
    msg_id method_name response_type (records : list WireRecord) (wrapper : bytes) :
  byte_to_Z kind = 3 →
  byte_to_Z b1 + 256 * byte_to_Z b2 = msg_id →
  pending_requests self !! msg_id = Some (method_name, response_type) →
  Forall wire_record_ok records → Forall is_delimited records →
  encode_wire_records records = Ok wrapper →
  Response.decode_response types self (kind :: b1 :: b2 :: wrapper)
  = (mk_codec (msg_index self) (delete msg_id (pending_requests self)),
     env ← store_envelopes (Response.mk_envelope None None) records;
     match Response.env_payload env with
     | Some payload_data =>
         if negb (Nat.eqb (length payload_data) 0) then
           payload ← Codec._decode_message types response_type payload_data;
           Ok (Some (VDict [("id", VInt msg_id); ("method", VStr method_name);
                            ("data", payload)]))
         else Ok None
     | None => Ok None
     end).
Proof.
  intros Hk Hid Hp Hok Hdel Henc.
  rewrite (decode_response_pending types self kind b1 b2 wrapper msg_id
             method_name response_type Hk Hid Hp).
  unfold Response.decode_body. rewrite (parse_wrapper_wire records wrapper Hok Hdel Henc).
  reflexivity.
Qed.

(** X1. A response whose id is pending.  The entry is removed, and the
    envelope, read as length-delimited records, gives the payload of its last
    field 2, decoded against the response type recorded with the request; the
    method returned is the one recorded, not the one in the envelope. *)
Theorem decode_response_matching (types : gmap string TypeDef) self kind b1 b2
    msg_id method_name response_type (records : list WireRecord) (wrapper : bytes) :
  byte_to_Z kind = 3 →
  byte_to_Z b1 + 256 * byte_to_Z b2 = msg_id →
  pending_requests self !! msg_id = Some (method_name, response_type) →
  Forall wire_record_ok records → Forall is_delimited records →
  encode_wire_records records = Ok wrapper →
  Response.decode_response types self (kind :: b1 :: b2 :: wrapper)
  = (mk_codec (msg_index self) (delete msg_id (pending_requests self)),
     env ← store_envelopes (Response.mk_envelope None None) records;
     match Response.env_payload env with
     | Some payload_data =>
         if negb (Nat.eqb (length payload_data) 0) then
           payload ← Codec._decode_message types response_type payload_data;
           Ok (Some (VDict [("id", VInt msg_id); ("method", VStr method_name);
                            ("data", payload)]))
         else Ok None
     | None => Ok None
     end).
Proof. apply decode_response_on_records. Qed.

Lemma decode_response_matching_witness :
  Response.decode_response sample_types
    (mk_codec 1 {[ 1 := (".lq.Lobby.heatbeat", "ResCommon") ]})
    ("003"%byte :: "001"%byte :: "000"%byte :: bs [0x0a; 1; 0x78; 0x12; 2; 0x08; 0x05])
  = (mk_codec 1 (delete 1 {[ 1 := (".lq.Lobby.heatbeat", "ResCommon") ]}),
     env ← store_envelopes (Response.mk_envelope None None)
             [WDelimited 1 (bytes_of_str "x"); WDelimited 2 (bs [0x08; 0x05])];
     match Response.env_payload env with
     | Some payload_data =>
         if negb (Nat.eqb (length payload_data) 0) then
           payload ← Codec._decode_message sample_types "ResCommon" payload_data;
           Ok (Some (VDict [("id", VInt 1); ("method", VStr ".lq.Lobby.heatbeat");
                            ("data", payload)]))
         else Ok None
     | None => Ok None
     end).
Proof.
  exact (decode_response_matching sample_types
           (mk_codec 1 {[ 1 := (".lq.Lobby.heatbeat", "ResCommon") ]})
           "003"%byte "001"%byte "000"%byte 1 ".lq.Lobby.heatbeat" "ResCommon"
           [WDelimited 1 (bytes_of_str "x"); WDelimited 2 (bs [0x08; 0x05])]
           (bs [0x0a; 1; 0x78; 0x12; 2; 0x08; 0x05])
           eq_refl eq_refl eq_refl
           ltac:(repeat constructor; cbn; lia) ltac:(repeat constructor) eq_refl).
Defined.

(** X2. A response frame consumes the pending entry of its id before the
    envelope is read: whatever bytes follow the id, well-formed or not, the
    entry is gone afterwards and the counter is untouched; and when nothing
    follows, the call returns [None] although the entry was consumed. *)
Theorem decode_response_consumes_pending (types : gmap string TypeDef) self kind b1 b2
    msg_id (wrapper : bytes) entry :
  byte_to_Z kind = 3 →
  byte_to_Z b1 + 256 * byte_to_Z b2 = msg_id →
  pending_requests self !! msg_id = Some entry →
  pending_requests (fst (Response.decode_response types self (kind :: b1 :: b2 :: wrapper)))
  = delete msg_id (pending_requests self)
  ∧ msg_index (fst (Response.decode_response types self (kind :: b1 :: b2 :: wrapper)))
    = msg_index self
  ∧ Response.decode_response types self [kind; b1; b2]
    = (mk_codec (msg_index self) (delete msg_id (pending_requests self)), Ok None).
Proof.
  intros Hk Hid Hp. destruct entry as [method_name response_type].
  rewrite !(decode_response_pending types self kind b1 b2 _ msg_id
              method_name response_type Hk Hid Hp).
  repeat split.
Qed.

Lemma decode_response_consumes_pending_witness :
  pending_requests
    (fst (Response.decode_response sample_types
            (mk_codec 1 {[ 1 := (".lq.Lobby.heatbeat", "ResCommon") ]})
            ("003"%byte :: "001"%byte :: "000"%byte :: bs [0xFF])))
  = delete 1 {[ 1 := (".lq.Lobby.heatbeat", "ResCommon") ]}
  ∧ msg_index
      (fst (Response.decode_response sample_types
              (mk_codec 1 {[ 1 := (".lq.Lobby.heatbeat", "ResCommon") ]})
              ("003"%byte :: "001"%byte :: "000"%byte :: bs [0xFF])))
    = msg_index (mk_codec 1 {[ 1 := (".lq.Lobby.heatbeat", "ResCommon") ]})
  ∧ Response.decode_response sample_types
      (mk_codec 1 {[ 1 := (".lq.Lobby.heatbeat", "ResCommon") ]})
      ["003"%byte; "001"%byte; "000"%byte]
    = (mk_codec 1 (delete 1 {[ 1 := (".lq.Lobby.heatbeat", "ResCommon") ]}), Ok None).
Proof.
  exact (decode_response_consumes_pending sample_types
           (mk_codec 1 {[ 1 := (".lq.Lobby.heatbeat", "ResCommon") ]})
           "003"%byte "001"%byte "000"%byte 1 (bs [0xFF])
           (".lq.Lobby.heatbeat", "ResCommon") eq_refl eq_refl eq_refl).
Defined.

(** Frames that are not responses, and responses whose id is not pending,
    leave the codec as it is and give [None]. *)
Lemma decode_response_not_response (types : gmap string TypeDef) self (frame : bytes) :
  not_response frame → Response.decode_response types self frame = (self, Ok None).
Proof.
  intros Hn. unfold Response.decode_response.
  destruct (Z.ltb_spec (len frame) 3) as [_ | Hge]; [reflexivity |].
  destruct frame as [|kind [|b1 [|b2 rest]]];
    try (unfold len in Hge; cbn [length] in Hge; lia).
  cbn [not_response] in Hn.
  change (kind :: b1 :: b2 :: rest) with ([] ++ kind :: b1 :: b2 :: rest) at 1.
  change 0 with (len (@nil byte)). rewrite bytes_getitem_at.
  destruct (Z.eqb_spec (byte_to_Z kind) MsgType.RESPONSE); [contradiction | reflexivity].
Qed.

Lemma decode_response_unknown_id (types : gmap string TypeDef) self kind b1 b2
    (wrapper : bytes) :
  pending_requests self !! (byte_to_Z b1 + 256 * byte_to_Z b2) = None →
  Response.decode_response types self (kind :: b1 :: b2 :: wrapper) = (self, Ok None).
Proof.
  intros Hp. unfold Response.decode_response.
  destruct (Z.ltb_spec (len (kind :: b1 :: b2 :: wrapper)) 3) as [_ | _];
    [reflexivity |].
  change (kind :: b1 :: b2 :: wrapper) with ([] ++ kind :: b1 :: b2 :: wrapper) at 1.
  change 0 with (len (@nil byte)). rewrite bytes_getitem_at.
  destruct (byte_to_Z kind =? MsgType.RESPONSE); [| reflexivity].
  change (py_slice (kind :: b1 :: b2 :: wrapper) 1 3)
    with (py_slice ([kind] ++ [b1; b2] ++ wrapper) (len [kind]) (len [kind] + len [b1; b2])).
  rewrite py_slice_middle. cbn [unpack_H]. rewrite Hp. reflexivity.
Qed.

(** ** Sessions *)

Section SessionFacts.

Variable types : gmap string TypeDef.
Variable services : gmap string ServiceDef.
Variable int_of_str : string → result Z.
Variable int_of_bytes : bytes → result Z.

Local Abbreviation reachable_ := (reachable types services int_of_str int_of_bytes).

Lemma decode_response_state self (data : bytes) :
  msg_index (fst (Response.decode_response types self data)) = msg_index self
  ∧ ∀ msg_id, is_Some (pending_requests (fst (Response.decode_response types self data))
                       !! msg_id) →
              is_Some (pending_requests self !! msg_id).
Proof.
  unfold Response.decode_response.
  destruct (len data <? 3); [split; [reflexivity | auto] |].
  destruct (bytes_getitem data 0) as [msg_type| |]; try (split; [reflexivity | auto]).
  destruct (msg_type =? MsgType.RESPONSE); [| split; [reflexivity | auto]].
  destruct (unpack_H (py_slice data 1 3)) as [msg_id| |];
    try (split; [reflexivity | auto]).
  destruct (pending_requests self !! msg_id) as [[m rt]|]; [| split; [reflexivity | auto]].
  cbn [fst msg_index pending_requests]. split; [reflexivity |].
  intros i [x Hi]. destruct (decide (msg_id = i)) as [-> | Hne].
  - rewrite lookup_delete_eq in Hi. discriminate.
  - rewrite lookup_delete_ne in Hi by assumption. eauto.
Qed.

Lemma reachable_pending_bounded self :
  reachable_ self →
  0 ≤ msg_index self
  ∧ ∀ msg_id, is_Some (pending_requests self !! msg_id) → 1 ≤ msg_id ≤ msg_index self.
Proof.
  induction 1 as [| self method_name payload _ [IH0 IH] | self data _ [IH0 IH]].
  - split; [cbn; lia |]. intros i [x Hi]. cbn in Hi. rewrite lookup_empty in Hi.
    discriminate.
  - unfold encode_request.
    destruct (resolve_method services method_name) as [[req resp]| |];
      cbn [fst msg_index pending_requests].
    + split; [lia |]. intros i [x Hi].
      destruct (decide (msg_index self + 1 = i)) as [<- | Hne]; [lia |].
      rewrite lookup_insert_ne in Hi by assumption.
      specialize (IH i ltac:(eauto)). lia.
    + split; [lia |]. intros i Hi. specialize (IH i Hi). lia.
    + split; [lia |]. intros i Hi. specialize (IH i Hi). lia.
  - destruct (decode_response_state self data) as [-> Hsub].
    split; [assumption |]. intros i Hi. apply IH, Hsub, Hi.
Qed.

End SessionFacts.

Lemma pending_ids_bounded_aux (types : gmap string TypeDef)
    (services : gmap string ServiceDef) int_of_str int_of_bytes self :
  reachable types services int_of_str int_of_bytes self →
  0 ≤ msg_index self ∧ pending_requests self !! (msg_index self + 1) = None.
Proof.
  intros Hr.
  destruct (reachable_pending_bounded types services int_of_str int_of_bytes self Hr)
    as [H0 Hb].
  split; [assumption |].
  destruct (pending_requests self !! (msg_index self + 1)) as [x|] eqn:Hx;
    [| reflexivity].
  specialize (Hb (msg_index self + 1) ltac:(eauto)). lia.
Qed.

(** X3. In every codec that a session can reach, the pending ids lie between
    1 and the counter; so the id that the next request is given, the counter
    plus one, is never the id of an outstanding request. *)
Theorem pending_ids_bounded (types : gmap string TypeDef)
    (services : gmap string ServiceDef) int_of_str int_of_bytes self :
  reachable types services int_of_str int_of_bytes self →
  0 ≤ msg_index self
  ∧ (∀ msg_id, is_Some (pending_requests self !! msg_id) → 1 ≤ msg_id ≤ msg_index self)
  ∧ pending_requests self !! (msg_index self + 1) = None.
Proof.
  intros Hr.
  destruct (reachable_pending_bounded types services int_of_str int_of_bytes self Hr)
    as [H0 Hb].
  split; [assumption | split; [assumption |]].
  destruct (pending_requests self !! (msg_index self + 1)) as [x|] eqn:Hx;
    [| reflexivity].
  specialize (Hb (msg_index self + 1) ltac:(eauto)). lia.
Qed.

Lemma pending_ids_bounded_witness :
  0 ≤ msg_index (fst (encode_request sample_types sample_services no_int_of_str
                        no_int_of_bytes codec_init (fst heartbeat) (snd heartbeat)))
  ∧ (∀ msg_id,
       is_Some (pending_requests
                  (fst (encode_request sample_types sample_services no_int_of_str
                          no_int_of_bytes codec_init (fst heartbeat) (snd heartbeat)))
                !! msg_id) →
       1 ≤ msg_id
       ≤ msg_index (fst (encode_request sample_types sample_services no_int_of_str
                           no_int_of_bytes codec_init (fst heartbeat) (snd heartbeat))))
  ∧ pending_requests
      (fst (encode_request sample_types sample_services no_int_of_str
              no_int_of_bytes codec_init (fst heartbeat) (snd heartbeat)))
    !! (msg_index (fst (encode_request sample_types sample_services no_int_of_str
                          no_int_of_bytes codec_init (fst heartbeat) (snd heartbeat)))
        + 1)
    = None.
Proof.
  apply (pending_ids_bounded sample_types sample_services no_int_of_str no_int_of_bytes).
  apply reachable_request. apply reachable_init.
Defined.

Lemma encode_request_resolved (types : gmap string TypeDef)
    (services : gmap string ServiceDef) int_of_str int_of_bytes
    self method_name payload req resp :
  resolve_method services method_name = Ok (req, resp) →
  encode_request types services int_of_str int_of_bytes self method_name payload
  = (mk_codec (msg_index self + 1)
       (<[msg_index self + 1 := (method_name, resp)]> (pending_requests self)),
     build_frame types int_of_str int_of_bytes (msg_index self + 1) method_name req payload).
Proof. intros Hr. unfold encode_request. rewrite Hr. reflexivity. Qed.

Lemma response_frame_shape (b1 b2 : byte) (name : string) (payload : bytes) :
  ∃ kind wrapper,
    response_frame b1 b2 name payload = Ok (kind :: b1 :: b2 :: wrapper)
    ∧ byte_to_Z kind = 3
    ∧ encode_wire_records [WDelimited 1 (bytes_of_str name); WDelimited 2 payload]
      = Ok wrapper.
Proof.
  destruct (encode_wire_records_ok
              [WDelimited 1 (bytes_of_str name); WDelimited 2 payload])
    as [wrapper Hw].
  { repeat constructor; cbn; lia. }
  exists "003"%byte, wrapper. unfold response_frame. rewrite Hw.
  split; [reflexivity | split; [reflexivity | reflexivity]].
Qed.

Lemma request_then_response (types : gmap string TypeDef)
    (services : gmap string ServiceDef) int_of_str int_of_bytes
    self method_name payload req resp data (name : string) (reply_payload : bytes) :
  reachable types services int_of_str int_of_bytes self →
  resolve_method services method_name = Ok (req, resp) →
  Codec._encode_message types int_of_str int_of_bytes req payload = Ok data →
  msg_index self + 1 ≤ 65535 →
  utf8_valid (bytes_of_str name) = true →
  reply_payload ≠ [] →
  ∃ self1 kind b1 b2 wrapper reply,
    encode_request types services int_of_str int_of_bytes self method_name payload
    = (self1, Ok (kind :: b1 :: b2 :: wrapper))
    ∧ response_frame b1 b2 name reply_payload = Ok reply
    ∧ Response.decode_response types self1 reply
      = (mk_codec (msg_index self + 1) (pending_requests self),
         p ← Codec._decode_message types resp reply_payload;
         Ok (Some (VDict [("id", VInt (msg_index self + 1));
                          ("method", VStr method_name);
                          ("data", p)]))).
Proof.
  intros Hreach Hres Hdata Hsmall Hutf Hne.
  destruct (pending_ids_bounded_aux types services int_of_str int_of_bytes self Hreach)
    as (H0 & Hfresh).
  destruct (build_frame_in_range types int_of_str int_of_bytes (msg_index self + 1)
              method_name req payload data Hdata ltac:(lia))
    as (kind & b1 & b2 & w1 & w2 & Hframe & _ & Hid & _).
  destruct (response_frame_shape b1 b2 name reply_payload)
    as (k3 & wrapper & Hreply & Hk3 & Hwrap).
  eexists _, kind, b1, b2, (w1 ++ w2), (k3 :: b1 :: b2 :: wrapper).
  split; [| split; [exact Hreply |]].
  - rewrite (encode_request_resolved _ _ _ _ _ _ _ _ _ Hres), Hframe. reflexivity.
  - rewrite (decode_response_on_records types _ k3 b1 b2 (msg_index self + 1)
               method_name resp
               [WDelimited 1 (bytes_of_str name); WDelimited 2 reply_payload]
               wrapper Hk3 Hid).
    + cbn [msg_index pending_requests]. rewrite delete_insert_id by assumption.
      cbn [store_envelopes store_envelope]. change (1 =? 1) with true.
      change (2 =? 1) with false. change (2 =? 2) with true. cbv iota.
      unfold decode_utf8. rewrite Hutf. cbn [mbind result_bind Response.env_payload].
      destruct reply_payload as [|x reply_payload]; [contradiction |]. reflexivity.
    + cbn [pending_requests]. apply lookup_insert_eq.
    + repeat constructor; cbn; lia.
    + repeat constructor.
    + assumption.
Qed.

(** X4. A request and its response.  From any codec a session can reach,
    while the counter is below 65535: a request whose method resolves and
    whose payload encodes gives a frame with a fresh id; and when the reply
    with the same two id bytes, any method name and a non-empty payload is
    decoded, the result carries that id, the method name of the request and
    the payload decoded against the response type of the method, and the
    pending table is back to what it was before the request. *)
Theorem request_response_roundtrip (types : gmap string TypeDef)
    (services : gmap string ServiceDef) int_of_str int_of_bytes
    self method_name payload req resp data (name : string) (reply_payload : bytes) :
  reachable types services int_of_str int_of_bytes self →
  resolve_method services method_name = Ok (req, resp) →
  Codec._encode_message types int_of_str int_of_bytes req payload = Ok data →
  msg_index self + 1 ≤ 65535 →
  utf8_valid (bytes_of_str name) = true →
  reply_payload ≠ [] →
  ∃ self1 kind b1 b2 wrapper reply,
    encode_request types services int_of_str int_of_bytes self method_name payload
    = (self1, Ok (kind :: b1 :: b2 :: wrapper))
    ∧ response_frame b1 b2 name reply_payload = Ok reply
    ∧ Response.decode_response types self1 reply
      = (mk_codec (msg_index self + 1) (pending_requests self),
         p ← Codec._decode_message types resp reply_payload;
         Ok (Some (VDict [("id", VInt (msg_index self + 1));
                          ("method", VStr method_name);
                          ("data", p)]))).
Proof. apply request_then_response. Qed.

Lemma request_response_roundtrip_witness :
  ∃ self1 kind b1 b2 wrapper reply,
    encode_request sample_types sample_services no_int_of_str no_int_of_bytes
      codec_init ".lq.Lobby.heatbeat" [("no_operation_counter", VInt 0)]
    = (self1, Ok (kind :: b1 :: b2 :: wrapper))
    ∧ response_frame b1 b2 "" (bs [0x0a; 0]) = Ok reply
    ∧ Response.decode_response sample_types self1 reply
      = (mk_codec (msg_index codec_init + 1) (pending_requests codec_init),
         p ← Codec._decode_message sample_types "ResCommon" (bs [0x0a; 0]);
         Ok (Some (VDict [("id", VInt (msg_index codec_init + 1));
                          ("method", VStr ".lq.Lobby.heatbeat");
                          ("data", p)]))).
Proof.
  apply (request_response_roundtrip sample_types sample_services no_int_of_str
           no_int_of_bytes codec_init ".lq.Lobby.heatbeat"
           [("no_operation_counter", VInt 0)] "ReqHeatBeat" "ResCommon" (bs [8; 0])
           "" (bs [0x0a; 0]));
    try reflexivity.
  - apply reachable_init.
  - cbn. lia.
  - discriminate.
Defined.

Section CallFacts.

Variable types : gmap string TypeDef.
Variable services : gmap string ServiceDef.
Variable int_of_str : string → result Z.
Variable int_of_bytes : bytes → result Z.

(** Frames that are not responses are read and dropped. *)
Lemma recv_loop_skips (noise : list bytes) :
  ∀ codec_ rest,
    Forall not_response noise →
    Session.recv_loop types codec_ (noise ++ rest) = Session.recv_loop types codec_ rest.
Proof.
  induction noise as [|frame noise IH]; intros codec_ rest Hn; [reflexivity |].
  apply Forall_cons in Hn as [Hf Hn]. cbn [app Session.recv_loop].
  rewrite (decode_response_not_response types codec_ frame Hf). apply IH. assumption.
Qed.

Lemma call_matching self method_name payload req resp data (name : string)
    (reply_payload : bytes) (noise rest : list bytes) sent_ :
  reachable types services int_of_str int_of_bytes self →
  resolve_method services method_name = Ok (req, resp) →
  Codec._encode_message types int_of_str int_of_bytes req payload = Ok data →
  msg_index self + 1 ≤ 65535 →
  utf8_valid (bytes_of_str name) = true →
  reply_payload ≠ [] →
  Forall not_response noise →
  ∃ self1 kind b1 b2 wrapper reply,
    encode_request types services int_of_str int_of_bytes self method_name payload
    = (self1, Ok (kind :: b1 :: b2 :: wrapper))
    ∧ response_frame b1 b2 name reply_payload = Ok reply
    ∧ Session.call types services int_of_str int_of_bytes
        (Session.mk_session self sent_ (noise ++ reply :: rest)) method_name (Some payload)
      = (Session.mk_session (mk_codec (msg_index self + 1) (pending_requests self))
           (sent_ ++ [kind :: b1 :: b2 :: wrapper]) rest,
         p ← Codec._decode_message types resp reply_payload; Ok (Some p)).
Proof.
  intros Hreach Hres Hdata Hsmall Hutf Hne Hnoise.
  destruct (request_then_response types services int_of_str int_of_bytes self
              method_name payload req resp data name reply_payload
              Hreach Hres Hdata Hsmall Hutf Hne)
    as (self1 & kind & b1 & b2 & wrapper & reply & Hreq & Hreply & Hdec).
  exists self1, kind, b1, b2, wrapper, reply.
  split; [assumption | split; [assumption |]].
  unfold Session.call. cbn [Session.codec Session.sent Session.inbox].
  rewrite Hreq, (recv_loop_skips noise self1 (reply :: rest) Hnoise).
  cbn [Session.recv_loop]. rewrite Hdec.
  destruct (Codec._decode_message types resp reply_payload) as [p| |];
    reflexivity.
Qed.

End CallFacts.

(** X5. [call] returns the answer to its own request.  From a reachable codec
    with the counter below 65535, when the socket delivers any number of
    frames that are not responses and then the reply to the request just
    sent, [call] sends exactly one frame, drops the frames before the reply,
    leaves the frames after it unread, returns the reply's payload decoded
    against the method's response type, and leaves the pending table as it
    was. *)
Theorem call_returns_reply (types : gmap string TypeDef)
    (services : gmap string ServiceDef) int_of_str int_of_bytes
    self method_name payload req resp data (name : string)
    (reply_payload : bytes) (noise rest : list bytes) sent_ :
  reachable types services int_of_str int_of_bytes self →
  resolve_method services method_name = Ok (req, resp) →
  Codec._encode_message types int_of_str int_of_bytes req payload = Ok data →
  msg_index self + 1 ≤ 65535 →
  utf8_valid (bytes_of_str name) = true →
  reply_payload ≠ [] →
  Forall not_response noise →
  ∃ self1 kind b1 b2 wrapper reply,
    encode_request types services int_of_str int_of_bytes self method_name payload
    = (self1, Ok (kind :: b1 :: b2 :: wrapper))
    ∧ response_frame b1 b2 name reply_payload = Ok reply
    ∧ Session.call types services int_of_str int_of_bytes
        (Session.mk_session self sent_ (noise ++ reply :: rest)) method_name (Some payload)
      = (Session.mk_session (mk_codec (msg_index self + 1) (pending_requests self))
           (sent_ ++ [kind :: b1 :: b2 :: wrapper]) rest,
         p ← Codec._decode_message types resp reply_payload; Ok (Some p)).
Proof. apply call_matching. Qed.

Lemma call_returns_reply_witness :
  ∃ self1 kind b1 b2 wrapper reply,
    encode_request sample_types sample_services no_int_of_str no_int_of_bytes
      codec_init ".lq.Lobby.heatbeat" [("no_operation_counter", VInt 0)]
    = (self1, Ok (kind :: b1 :: b2 :: wrapper))
    ∧ response_frame b1 b2 "" (bs [0x0a; 0]) = Ok reply
    ∧ Session.call sample_types sample_services no_int_of_str no_int_of_bytes
        (Session.mk_session codec_init [] ([bs [1; 0x0a; 0]] ++ reply :: [bs [1]]))
        ".lq.Lobby.heatbeat" (Some [("no_operation_counter", VInt 0)])
      = (Session.mk_session (mk_codec (msg_index codec_init + 1)
                               (pending_requests codec_init))
           ([] ++ [kind :: b1 :: b2 :: wrapper]) [bs [1]],
         p ← Codec._decode_message sample_types "ResCommon" (bs [0x0a; 0]);
         Ok (Some p)).
Proof.
  apply (call_returns_reply sample_types sample_services no_int_of_str
           no_int_of_bytes codec_init ".lq.Lobby.heatbeat"
           [("no_operation_counter", VInt 0)] "ReqHeatBeat" "ResCommon" (bs [8; 0])
           "" (bs [0x0a; 0]) [bs [1; 0x0a; 0]] [bs [1]] []);
    try reflexivity.
  - apply reachable_init.
  - cbn. lia.
  - discriminate.
  - repeat constructor. cbn. unfold MsgType.RESPONSE. lia.
Defined.

(** ** The login handshake *)

Section LoginFacts.

Variable py_repr : PyVal → string.
Variable py_str : PyVal → string.

Local Abbreviation hb := ".lq.Lobby.heatbeat".
Local Abbreviation chk := ".lq.Lobby.oauth2Check".
Local Abbreviation lgn := ".lq.Lobby.oauth2Login".

Ltac login_cases answers :=
  unfold Login.traced_login, Login.login, Login.after_check, Login.do_login,
    Login.traced_call, Login.traced_sleep, Login.traced_uuid4;
  cbn [Login.script Login.methods Login.delays];
  repeat match goal with
    | |- context [match ?l with [] => _ | _ :: _ => _ end] =>
        is_var l; destruct l as [|[?v| |] ?l];
        cbn [Login.script Login.methods Login.delays app]
    | |- context [Login.unlinked ?v] =>
        let H := fresh "Hu" in
        destruct (Login.unlinked v) as [[|]| |] eqn:H;
        cbn [Login.script Login.methods Login.delays app]
    | |- context [py_get ?v "account_id" VNone] =>
        let H := fresh "Ha" in
        destruct (py_get v "account_id" VNone) as [?acc| |] eqn:H;
        cbn [Login.script Login.methods Login.delays app]
    | |- context [truthy ?a] =>
        let H := fresh "Ht" in
        destruct (truthy a) eqn:H;
        cbn [negb Login.script Login.methods Login.delays app]
    end.

Lemma login_sequence (answers : list (result PyVal)) (access_token : string) :
  let '(w, out, r) := Login.traced_login py_repr py_str answers access_token in
  (Login.methods w `prefix_of` [hb; chk; lgn]
   ∨ Login.methods w `prefix_of` [hb; chk; chk; lgn])
  ∧ (Login.delays w `prefix_of` [100; 2000])
  ∧ (In lgn (Login.methods w) →
     (∃ h c, firstn 2 answers = [Ok h; Ok c] ∧ Login.unlinked c = Ok false
             ∧ Login.methods w = [hb; chk; lgn] ∧ Login.delays w = [100])
     ∨ (∃ h c1 c2, firstn 3 answers = [Ok h; Ok c1; Ok c2]
                   ∧ Login.unlinked c1 = Ok true ∧ Login.unlinked c2 = Ok false
                   ∧ Login.methods w = [hb; chk; chk; lgn]
                   ∧ Login.delays w = [100; 2000]))
  ∧ (∀ v, r = Ok v →
       ∃ acc, py_get v "account_id" VNone = Ok acc ∧ truthy acc = true
              ∧ out = ["Logged in as account: " +:+ py_str acc]
              ∧ List.last (Login.methods w) "" = lgn).
Proof.
  login_cases answers; cbv beta iota zeta;
    (split; [| split; [| split]]).
  all: try (first [left; eexists; reflexivity | right; eexists; reflexivity]).
  all: try (eexists; reflexivity).
  all: try (intros v' Hv; first [discriminate Hv | injection Hv as <-];
            eexists; repeat split; eauto).
  all: cbn [In firstn];
    intros Hin;
    first
      [ left; do 2 eexists; repeat split; (reflexivity || eassumption)
      | right; do 3 eexists; repeat split; (reflexivity || eassumption)
      | repeat (destruct Hin as [Hin | Hin]; [try discriminate Hin |]);
        contradiction ].
Qed.

Lemma login_unlinked (hb_answer c1 c2 : PyVal) (rest : list (result PyVal))
    (access_token : string) :
  Login.unlinked c1 = Ok true → Login.unlinked c2 = Ok true →
  Login.traced_login py_repr py_str (Ok hb_answer :: Ok c1 :: Ok c2 :: rest) access_token
  = (Login.mk_trace rest [hb; chk; chk] [100; 2000], [],
     Raise (mk_exn Exception "Token invalid or no account associated")).
Proof.
  intros H1 H2.
  unfold Login.traced_login, Login.login, Login.after_check, Login.traced_call,
    Login.traced_sleep.
  cbn [Login.script Login.methods Login.delays app]. rewrite H1.
  cbn [Login.script Login.methods Login.delays app]. rewrite H2. reflexivity.
Qed.

Lemma login_retry (hb_answer c1 c2 : PyVal) (rest : list (result PyVal))
    (access_token : string) :
  Login.unlinked c1 = Ok true → Login.unlinked c2 = Ok false →
  Login.traced_login py_repr py_str (Ok hb_answer :: Ok c1 :: Ok c2 :: rest) access_token
  = Login.do_login Login.Trace Login.traced_call Login.traced_uuid4 py_repr py_str
      (Login.mk_trace rest [hb; chk; chk] [100; 2000]) "0.11.1.w" "web-0.11.1"
      access_token.
Proof.
  intros H1 H2.
  unfold Login.traced_login, Login.login, Login.after_check, Login.traced_call,
    Login.traced_sleep.
  cbn [Login.script Login.methods Login.delays app]. rewrite H1.
  cbn [Login.script Login.methods Login.delays app]. rewrite H2. reflexivity.
Qed.

End LoginFacts.


(** X7 (login, unlinked token): when both answers to [oauth2Check] lack a
    true [has_account], [login] raises "Token invalid or no account
    associated" after the heartbeat and two checks, 2 s apart; it never
    calls [oauth2Login] and prints nothing. *)
Theorem login_rejects_unlinked_token (py_repr py_str : PyVal → string)
    (hb_answer c1 c2 : PyVal) (rest : list (result PyVal)) (access_token : string) :
  Login.unlinked c1 = Ok true → Login.unlinked c2 = Ok true →
  Login.traced_login py_repr py_str (Ok hb_answer :: Ok c1 :: Ok c2 :: rest) access_token
  = (Login.mk_trace rest
       [".lq.Lobby.heatbeat"; ".lq.Lobby.oauth2Check"; ".lq.Lobby.oauth2Check"]
       [100; 2000],
     [], Raise (mk_exn Exception "Token invalid or no account associated")).
Proof. apply login_unlinked. Qed.

Lemma login_rejects_unlinked_token_witness :
  Login.traced_login (λ _, "") (λ _, "")
    [Ok (VDict []); Ok (VDict []); Ok (VDict [("has_account", VBool false)]);
     Ok (VDict [("account_id", VInt 7)])] "token"
  = (Login.mk_trace [Ok (VDict [("account_id", VInt 7)])]
       [".lq.Lobby.heatbeat"; ".lq.Lobby.oauth2Check"; ".lq.Lobby.oauth2Check"]
       [100; 2000],
     [], Raise (mk_exn Exception "Token invalid or no account associated")).
Proof.
  apply (login_rejects_unlinked_token (λ _, "") (λ _, "") (VDict []) (VDict [])
           (VDict [("has_account", VBool false)])
           [Ok (VDict [("account_id", VInt 7)])] "token");
    reflexivity.
Defined.

(** X8 (login, second check): when the first answer to [oauth2Check]
    lacks a true [has_account] and the second has one, [login] goes on as
    after a first successful check: it sleeps 2 s between the checks, then
    calls [oauth2Login] with the token, and returns its answer when that
    has a true [account_id]. *)
Theorem login_second_check (py_repr py_str : PyVal → string)
    (hb_answer c1 c2 res acc : PyVal) (rest : list (result PyVal))
    (access_token : string) :
  Login.unlinked c1 = Ok true → Login.unlinked c2 = Ok false →
  py_get res "account_id" VNone = Ok acc → truthy acc = true →
  Login.traced_login py_repr py_str
    (Ok hb_answer :: Ok c1 :: Ok c2 :: Ok res :: rest) access_token
  = (Login.mk_trace rest
       [".lq.Lobby.heatbeat"; ".lq.Lobby.oauth2Check"; ".lq.Lobby.oauth2Check";
        ".lq.Lobby.oauth2Login"]
       [100; 2000],
     ["Logged in as account: " +:+ py_str acc], Ok res).
Proof.
  intros H1 H2 Ha Ht. rewrite (login_retry py_repr py_str _ _ _ _ _ H1 H2).
  unfold Login.do_login, Login.traced_uuid4, Login.traced_call.
  cbn [Login.script Login.methods Login.delays app]. rewrite Ha, Ht. reflexivity.
Qed.

Lemma login_second_check_witness :
  Login.traced_login (λ _, "") (λ _, "7")
    [Ok (VDict []); Ok (VDict []); Ok (VDict [("has_account", VBool true)]);
     Ok (VDict [("account_id", VInt 7)])] "token"
  = (Login.mk_trace []
       [".lq.Lobby.heatbeat"; ".lq.Lobby.oauth2Check"; ".lq.Lobby.oauth2Check";
        ".lq.Lobby.oauth2Login"]
       [100; 2000],
     ["Logged in as account: " +:+ "7"], Ok (VDict [("account_id", VInt 7)])).
Proof.
  apply (login_second_check (λ _, "") (λ _, "7") (VDict []) (VDict [])
           (VDict [("has_account", VBool true)]) (VDict [("account_id", VInt 7)])
           (VInt 7) [] "token");
    reflexivity.
Defined.

(** ** Repeated messages *)

(** Where [_decode_varint]'s loop reads a varint, the length loop of
    [parse_repeated_pb] reads the same value and stops at the same place. *)
Lemma length_loop_of_decode (fuel : nat) :
  ∀ (data : bytes) (pos r shift v pos' : Z),
    0 ≤ pos →
    Varint.decode_loop fuel data pos r shift = Ok (v, pos') →
    Repeated.length_loop fuel data pos r shift = Ok (v, pos').
Proof.
  induction fuel as [|fuel IH]; intros data pos r shift v pos' Hpos Hdec;
    [discriminate |].
  cbn [Varint.decode_loop Repeated.length_loop] in *.
  pose proof (bytes_getitem_nonneg data pos Hpos) as Hget.
  destruct (bytes_getitem data pos) as [byte| |]; cbn [mbind result_bind] in *;
    [| discriminate | contradiction].
  destruct Hget as [Hlt _].
  destruct (Z.ltb_spec pos (len data)); [| lia].
  destruct (Z.land byte 128 =? 0); [assumption |].
  apply IH; [lia | assumption].
Qed.

(** The length loop never raises and never runs out of iterations: it stops
    within the buffer, or where it started when that is the end already. *)
Lemma length_loop_facts (fuel : nat) :
  ∀ (data : bytes) (pos length_ shift : Z),
    0 ≤ pos → 0 ≤ length_ → 0 ≤ shift → (Z.to_nat (len data - pos) < fuel)%nat →
    ∃ l pos', Repeated.length_loop fuel data pos length_ shift = Ok (l, pos')
      ∧ pos ≤ pos' ∧ 0 ≤ l
      ∧ (pos < len data → pos < pos' ≤ len data)
      ∧ (len data ≤ pos → pos' = pos ∧ l = length_).
Proof.
  induction fuel as [|fuel IH]; intros data pos length_ shift Hpos Hlen Hshift Hfuel;
    [lia |].
  cbn [Repeated.length_loop].
  destruct (Z.ltb_spec pos (len data)) as [Hlt | Hge].
  - pose proof (bytes_getitem_nonneg data pos Hpos) as Hget.
    destruct (bytes_getitem data pos) as [byte| |] eqn:Hb; cbn [mbind result_bind].
    + destruct Hget as [_ Hbyte].
      assert (0 ≤ Z.lor length_ (Z.shiftl (Z.land byte 127) shift)) as Hl'.
      { apply Z.lor_nonneg. split; [assumption |]. apply Z.shiftl_nonneg.
        apply Z.land_nonneg. lia. }
      destruct (Z.land byte 128 =? 0).
      * eexists _, _. split; [reflexivity |]. lia.
      * destruct (IH data (pos + 1) (Z.lor length_ (Z.shiftl (Z.land byte 127) shift))
                    (shift + 7)) as (l & pos' & Hl & Hle & Hnn & Hin & Hout);
          [lia | assumption | lia | lia |].
        exists l, pos'. split; [exact Hl |].
        destruct (Z.lt_ge_cases (pos + 1) (len data)); lia.
    + exfalso. unfold bytes_getitem in Hb.
      destruct (Z.ltb_spec pos 0); [lia |]. destruct (Z.ltb_spec pos 0); [lia |].
      destruct (data !! Z.to_nat pos) eqn:Hlk; [discriminate |].
      apply lookup_ge_None_1 in Hlk. unfold len in Hlt. lia.
    + contradiction.
  - eexists _, _. split; [reflexivity |]. lia.
Qed.

Section RepeatedFacts.

Variable msg_class : bytes → result PyVal.

(** The loop of [parse_repeated_pb] fails only where [msg_class] does, on a
    slice of the buffer; it appends to [results], at most one message per
    byte left. *)
Lemma outer_loop_facts (fuel : nat) :
  ∀ (data : bytes) (pos : Z) (results : list PyVal),
    0 ≤ pos → (Z.to_nat (len data - pos) < fuel)%nat →
    match Repeated.outer_loop msg_class fuel data pos results with
    | Ok l => results `prefix_of` l
              ∧ (length l ≤ length results + Z.to_nat (len data - pos))%nat
    | Raise e => ∃ lo hi, msg_class (py_slice data lo hi) = Raise e
    | OutOfFuel => ∃ lo hi, msg_class (py_slice data lo hi) = OutOfFuel
    end.
Proof.
  induction fuel as [|fuel IH]; intros data pos results Hpos Hfuel; [lia |].
  cbn [Repeated.outer_loop].
  destruct (Z.ltb_spec pos (len data)) as [Hlt | Hge]; [| split; [reflexivity | lia]].
  destruct (Z.leb_spec (len data) pos); [lia |].
  pose proof (bytes_getitem_nonneg data pos Hpos) as Hget.
  destruct (bytes_getitem data pos) as [tag| |] eqn:Hb; cbn [mbind result_bind].
  2: { exfalso. unfold bytes_getitem in Hb.
       destruct (Z.ltb_spec pos 0); [lia |]. destruct (Z.ltb_spec pos 0); [lia |].
       destruct (data !! Z.to_nat pos) eqn:Hlk; [discriminate |].
       apply lookup_ge_None_1 in Hlk. unfold len in Hlt. lia. }
  2: contradiction.
  destruct (Z.land tag 7 =? 2); [| split; [reflexivity | lia]].
  destruct (length_loop_facts (S (length data)) data (pos + 1) 0 0)
    as (l & pos' & Hl & Hle & Hnn & Hin & Hout); [lia | lia | lia | unfold len; lia |].
  rewrite Hl. cbn [mbind result_bind].
  destruct (Z.leb_spec (pos' + l) (len data)) as [Hfit | Hover].
  - destruct (msg_class (py_slice data pos' (pos' + l))) as [m| |] eqn:Hm;
      cbn [mbind result_bind]; [| eexists _, _; exact Hm ..].
    specialize (IH data (pos' + l) (results ++ [m]) ltac:(lia) ltac:(lia)).
    destruct (Repeated.outer_loop msg_class fuel data (pos' + l) (results ++ [m]));
      [| assumption ..].
    destruct IH as [Hpre Hcount]. split.
    + etransitivity; [| exact Hpre]. apply prefix_app_r. reflexivity.
    + rewrite length_app in Hcount. cbn [length] in Hcount. lia.
  - specialize (IH data pos' results ltac:(lia) ltac:(lia)).
    destruct (Repeated.outer_loop msg_class fuel data pos' results); [| assumption ..].
    destruct IH as [Hpre Hcount]. split; [assumption | lia].
Qed.

Lemma parse_repeated_pb_facts (data : bytes) :
  match Repeated.parse_repeated_pb msg_class data with
  | Ok l => (length l ≤ length data)%nat
  | Raise e => ∃ lo hi, msg_class (py_slice data lo hi) = Raise e
  | OutOfFuel => ∃ lo hi, msg_class (py_slice data lo hi) = OutOfFuel
  end.
Proof.
  unfold Repeated.parse_repeated_pb.
  pose proof (outer_loop_facts (S (length data)) data 0 [] ltac:(lia)
                ltac:(unfold len; lia)) as H.
  destruct (Repeated.outer_loop msg_class (S (length data)) data 0 []);
    [| assumption ..].
  destruct H as [_ H]. cbn [length] in H. unfold len in H. lia.
Qed.

(** A tag below 128 is one byte. *)
Lemma encode_varint_small (v : Z) :
  0 ≤ v ≤ 127 → ∃ b, _encode_varint v = Ok [b] ∧ byte_to_Z b = v.
Proof.
  intros Hv. destruct (byte_of_Z_Some v) as (b & Hb & Hvb); [lia |].
  exists b. split; [| assumption].
  unfold _encode_varint, encode_fuel. rewrite encode_loop_S.
  destruct (Z.gtb_spec v 127); [lia |]. cbn [app mbind result_bind py_bytes].
  rewrite Hb. reflexivity.
Qed.

(** Over a buffer of length-delimited records with field numbers up to 15,
    the loop parses the value of each record, in order. *)
Lemma outer_loop_wire (fields : list (Z * bytes)) :
  ∀ (data pre : bytes) (results : list PyVal) (fuel : nat),
    Forall (λ field, 0 ≤ field.1 ≤ 15) fields →
    encode_wire_records (delimited_records fields) = Ok data →
    (length fields < fuel)%nat →
    Repeated.outer_loop msg_class fuel (pre ++ data) (len pre) results
    = (ms ← map_result msg_class (map snd fields); Ok (results ++ ms)).
Proof.
  induction fields as [|[f v] fields IH]; intros data pre results fuel Hok Henc Hfuel.
  - cbn in Henc. injection Henc as <-. rewrite app_nil_r.
    destruct fuel as [|fuel]; [lia |]. cbn [Repeated.outer_loop].
    destruct (Z.ltb_spec (len pre) (len pre)); [lia |].
    cbn. rewrite app_nil_r. reflexivity.
  - apply Forall_cons in Hok as [Hf Hok]. cbn [fst] in Hf.
    cbn [delimited_records map encode_wire_records fst snd] in Henc.
    fold (delimited_records fields) in Henc.
    destruct (encode_wire_record_ok (WDelimited f v)) as (t & Ht & l & Hl & Hr);
      [cbn; lia |].
    cbn [wire_field_num] in Ht. rewrite Hr in Henc. cbn [mbind result_bind] in Henc.
    destruct (encode_wire_records (delimited_records fields)) as [rest| |] eqn:Hrest;
      cbn [mbind result_bind] in Henc; try discriminate.
    injection Henc as <-.
    destruct (tag_parts f 2) as (Htag & _ & Hwt); [lia | lia |].
    destruct (encode_varint_small (Z.lor (Z.shiftl f 3) 2)) as (tb & Htb & Htv).
    { split; [assumption |].
      assert (Z.lor (Z.shiftl f 3) 2 < 2 ^ 7); [| lia].
      apply (lor_range _ _ 7); [lia | | lia].
      rewrite Z.shiftl_mul_pow2 by lia. lia. }
    rewrite Ht in Htb. injection Htb as ->.
    destruct (varint_roundtrip (len v) (len_nonneg v)) as (l' & Hl' & Hlpos & Hldec).
    rewrite Hl in Hl'. injection Hl' as <-.
    destruct fuel as [|fuel]; [lia |]. cbn [Repeated.outer_loop map snd map_result].
    pose proof (len_nonneg pre). pose proof (len_nonneg v). pose proof (len_nonneg l).
    pose proof (len_nonneg rest).
    destruct (Z.ltb_spec (len pre) (len (pre ++ ([tb] ++ l ++ v) ++ rest))) as [_ | Hge].
    2: { rewrite !len_app in Hge. unfold len in Hge. cbn [length] in Hge. lia. }
    destruct (Z.leb_spec (len (pre ++ ([tb] ++ l ++ v) ++ rest)) (len pre)) as [Hle | _].
    { rewrite !len_app in Hle. unfold len in Hle. cbn [length] in Hle. lia. }
    change (pre ++ ([tb] ++ l ++ v) ++ rest) with (pre ++ tb :: (l ++ v) ++ rest).
    rewrite bytes_getitem_at. cbn [mbind result_bind]. rewrite Htv, Hwt.
    change (2 =? 2) with true. cbv iota.
    replace (pre ++ tb :: (l ++ v) ++ rest) with ((pre ++ [tb]) ++ l ++ (v ++ rest))
      by (rewrite <- !app_assoc; reflexivity).
    replace (len pre + 1) with (len (pre ++ [tb]))
      by (rewrite len_app; unfold len; cbn [length]; lia).
    rewrite (length_loop_of_decode _ _ _ _ _ _ _ (len_nonneg _) (Hldec (pre ++ [tb]) (v ++ rest))).
    cbn [mbind result_bind].
    replace ((pre ++ [tb]) ++ l ++ v ++ rest) with (((pre ++ [tb]) ++ l) ++ v ++ rest)
      by (rewrite <- !app_assoc; reflexivity).
    rewrite <- len_app.
    destruct (Z.leb_spec (len ((pre ++ [tb]) ++ l) + len v)
                (len (((pre ++ [tb]) ++ l) ++ v ++ rest))) as [_ | Hover].
    2: { rewrite !len_app in Hover. lia. }
    rewrite py_slice_middle.
    destruct (msg_class v) as [m| |]; cbn [mbind result_bind]; try reflexivity.
    replace (((pre ++ [tb]) ++ l) ++ v ++ rest) with ((((pre ++ [tb]) ++ l) ++ v) ++ rest)
      by (rewrite <- !app_assoc; reflexivity).
    rewrite <- len_app.
    rewrite (IH rest _ (results ++ [m]) fuel Hok eq_refl ltac:(cbn [length] in Hfuel; lia)).
    destruct (map_result msg_class (map snd fields)); cbn [mbind result_bind];
      try reflexivity.
    rewrite <- app_assoc. reflexivity.
Qed.

Lemma encode_wire_records_count (records : list WireRecord) (data : bytes) :
  Forall wire_record_ok records →
  encode_wire_records records = Ok data → (length records ≤ length data)%nat.
Proof.
  revert data. induction records as [|r records IH]; intros data Hok Henc;
    [cbn; lia |].
  apply Forall_cons in Hok as [Hr Hok]. cbn [encode_wire_records] in Henc.
  destruct (encode_wire_record r) as [b| |] eqn:Hb; cbn in Henc; try discriminate.
  destruct (encode_wire_records records) as [rest| |] eqn:Hrest; cbn in Henc;
    try discriminate.
  injection Henc as <-.
  destruct (decode_record_wire ∅ (λ _ _, Ok VNone) ∅ r b [] [] [] Hr Hb) as [_ Hpos].
  specialize (IH rest Hok eq_refl). rewrite length_app. cbn [length]. lia.
Qed.

Lemma parse_repeated_pb_on_records (fields : list (Z * bytes)) (data : bytes) :
  Forall (λ field, 0 ≤ field.1 ≤ 15) fields →
  encode_wire_records (delimited_records fields) = Ok data →
  Repeated.parse_repeated_pb msg_class data = map_result msg_class (map snd fields).
Proof.
  intros Hok Henc. unfold Repeated.parse_repeated_pb.
  assert (Forall wire_record_ok (delimited_records fields)) as Hwf.
  { unfold delimited_records. apply Forall_map.
    eapply Forall_impl; [exact Hok |]. intros [f v] Hf. cbn in *. lia. }
  pose proof (encode_wire_records_count _ _ Hwf Henc) as Hcount.
  unfold delimited_records in Hcount. rewrite length_map in Hcount.
  pose proof (outer_loop_wire fields data [] [] (S (length data)) Hok Henc ltac:(lia))
    as Hloop.
  cbn [app] in Hloop. change (len (@nil byte)) with 0 in Hloop. rewrite Hloop.
  destruct (map_result msg_class (map snd fields)); reflexivity.
Qed.

End RepeatedFacts.

(** X9 (parse_repeated_pb, no failure of its own): on any buffer
    [parse_repeated_pb] returns, its two loops never index past the end;
    it fails only with the failure of [msg_class] on a slice of the
    buffer, and it returns at most one message per byte. *)
Theorem parse_repeated_pb_total (msg_class : bytes → result PyVal) (data : bytes) :
  match Repeated.parse_repeated_pb msg_class data with
  | Ok l => (length l ≤ length data)%nat
  | Raise e => ∃ lo hi, msg_class (py_slice data lo hi) = Raise e
  | OutOfFuel => ∃ lo hi, msg_class (py_slice data lo hi) = OutOfFuel
  end.
Proof. apply parse_repeated_pb_facts. Qed.

(** X10 (parse_repeated_pb, well-formed buffers): a buffer made of
    length-delimited records whose field numbers are at most 15, so that
    each tag is the single byte the function reads, is parsed into the
    messages of the record values, in order, whatever the field numbers;
    the first failure of [msg_class] is the failure of the whole. *)
Theorem parse_repeated_pb_wire (msg_class : bytes → result PyVal)
    (fields : list (Z * bytes)) (data : bytes) :
  Forall (λ field, 0 ≤ field.1 ≤ 15) fields →
  encode_wire_records (delimited_records fields) = Ok data →
  Repeated.parse_repeated_pb msg_class data = map_result msg_class (map snd fields).
Proof. apply parse_repeated_pb_on_records. Qed.

Lemma parse_repeated_pb_wire_witness :
  Repeated.parse_repeated_pb (λ b, Ok (VBytes b)) (bs [0x0a; 2; 1; 2; 0x7a; 0])
  = map_result (λ b, Ok (VBytes b)) (map snd [(1, bs [1; 2]); (15, bs [])]).
Proof.
  apply (parse_repeated_pb_wire (λ b, Ok (VBytes b)) [(1, bs [1; 2]); (15, bs [])]
           (bs [0x0a; 2; 1; 2; 0x7a; 0])).
  - repeat constructor; cbn; lia.
  - reflexivity.
Defined.

(** ** Varints in general *)

(** X11 (varint round trip): every non-negative integer is encoded
    without exception into at least one byte, and [_decode_varint] reads it
    back from wherever these bytes stand in a buffer, returning the position
    right after them. *)
Theorem varint_roundtrip_all (v : Z) :
  0 ≤ v →
  ∃ b, _encode_varint v = Ok b
    ∧ (0 < length b)%nat
    ∧ ∀ pre post, _decode_varint (pre ++ b ++ post) (len pre) = Ok (v, len pre + len b).
Proof. apply varint_roundtrip. Qed.

Lemma varint_roundtrip_all_witness :
  ∃ b, _encode_varint 300 = Ok b
    ∧ (0 < length b)%nat
    ∧ ∀ pre post, _decode_varint (pre ++ b ++ post) (len pre) = Ok (300, len pre + len b).
Proof. apply (varint_roundtrip_all 300). lia. Defined.

Lemma encode_varint_negative_raises (v : Z) :
  v < 0 → _encode_varint v = raise ValueError.
Proof.
  intros Hv. unfold _encode_varint, encode_fuel. rewrite encode_loop_S.
  destruct (Z.gtb_spec v 127); [lia |]. cbn [app mbind result_bind py_bytes].
  unfold byte_of_Z. destruct (Z.leb_spec 0 v); [lia |]. reflexivity.
Qed.

(** X12 (varint, negative input): the loop of [_encode_varint] does not
    run on a negative integer, and [bytes([value])] then raises
    [ValueError]: negative integers have no encoding. *)
Theorem encode_varint_negative (v : Z) :
  v < 0 → _encode_varint v = raise ValueError.
Proof. apply encode_varint_negative_raises. Qed.

Lemma encode_varint_negative_witness : _encode_varint (-1) = raise ValueError.
Proof. apply (encode_varint_negative (-1)). lia. Defined.

(** X13 (varint, reading): from any position [pos >= 0] of any buffer,
    [_decode_varint] either raises (the [IndexError] of a read past the
    end) or returns a non-negative value and a position after [pos] and
    within the buffer; its loop always ends. *)
Theorem decode_varint_bounds (data : bytes) (pos : Z) :
  0 ≤ pos →
  match _decode_varint data pos with
  | Ok (v, pos') => pos < pos' ≤ len data ∧ 0 ≤ v
  | Raise _ => True
  | OutOfFuel => False
  end.
Proof. apply decode_varint_facts. Qed.

Lemma decode_varint_bounds_witness :
  match _decode_varint (bs [0xAC; 0x02; 0x01]) 0 with
  | Ok (v, pos') => 0 < pos' ≤ len (bs [0xAC; 0x02; 0x01]) ∧ 0 ≤ v
  | Raise _ => True
  | OutOfFuel => False
  end.
Proof. apply (decode_varint_bounds (bs [0xAC; 0x02; 0x01]) 0). lia. Defined.

(** ** Termination of the codec *)

Lemma wrapper_step_facts (wrapper_data : bytes) (pos : Z) (env : Response.Envelope) :
  0 ≤ pos →
  match Response.wrapper_step wrapper_data pos env with
  | Ok (pos', _) => pos < pos'
  | Raise _ => True
  | OutOfFuel => False
  end.
Proof.
  intros Hpos. unfold Response.wrapper_step.
  pose proof (decode_varint_facts wrapper_data pos Hpos) as Htag.
  destruct (_decode_varint wrapper_data pos) as [[tag pos1]| |];
    cbn [mbind result_bind]; [| exact I | contradiction].
  destruct (Z.land tag 7 =? 2); [| lia].
  pose proof (decode_varint_facts wrapper_data pos1 ltac:(lia)) as Hlen.
  destruct (_decode_varint wrapper_data pos1) as [[l pos2]| |];
    cbn [mbind result_bind]; [| exact I | contradiction].
  destruct (Z.shiftr tag 3 =? 1).
  - unfold decode_utf8. destruct (utf8_valid _); cbn [mbind result_bind]; [lia | exact I].
  - destruct (Z.shiftr tag 3 =? 2); lia.
Qed.

Lemma wrapper_loop_returns (fuel : nat) :
  ∀ (wrapper_data : bytes) (pos : Z) (env : Response.Envelope),
    0 ≤ pos → (Z.to_nat (len wrapper_data - pos) < fuel)%nat →
    Response.wrapper_loop fuel wrapper_data pos env ≠ OutOfFuel.
Proof.
  induction fuel as [|fuel IH]; intros wrapper_data pos env Hpos Hfuel; [lia |].
  cbn [Response.wrapper_loop].
  destruct (Z.ltb_spec pos (len wrapper_data)); [| discriminate].
  pose proof (wrapper_step_facts wrapper_data pos env Hpos) as Hstep.
  destruct (Response.wrapper_step wrapper_data pos env) as [[pos' env']| |];
    cbn [mbind result_bind]; [| discriminate | contradiction].
  apply IH; lia.
Qed.

Lemma decode_response_returns (types : gmap string TypeDef) self (data : bytes) :
  snd (Response.decode_response types self data) ≠ OutOfFuel.
Proof.
  unfold Response.decode_response.
  destruct (len data <? 3); [discriminate |].
  pose proof (bytes_getitem_nonneg data 0 ltac:(lia)) as Hget.
  destruct (bytes_getitem data 0) as [msg_type| |]; [| discriminate | contradiction].
  destruct (msg_type =? MsgType.RESPONSE); [| discriminate].
  unfold unpack_H.
  destruct (py_slice data 1 3) as [|b1 [|b2 [|b3 rest]]]; try discriminate.
  destruct (pending_requests self !! _) as [[method_name response_type]|];
    [| discriminate].
  cbn [snd]. unfold Response.decode_body, Response.parse_wrapper.
  pose proof (wrapper_loop_returns (S (length (drop 3 data))) (drop 3 data) 0
                (Response.mk_envelope None None) ltac:(lia)
                ltac:(unfold len; lia)) as Hloop.
  destruct (Response.wrapper_loop _ _ _ _) as [env| |]; cbn [mbind result_bind];
    [| discriminate | contradiction].
  destruct (Response.env_payload env) as [payload_data|]; [| discriminate].
  destruct (negb _); [| discriminate].
  pose proof (decode_message_terminates types response_type payload_data) as Hm.
  destruct (Codec._decode_message types response_type payload_data);
    cbn [mbind result_bind]; [discriminate | discriminate | contradiction].
Qed.

(** X14 (decoders, termination): on every registry, type name and buffer,
    well-formed or not, [_decode_message] returns or raises: its loop
    advances by at least one byte per record and a nested message is
    shorter than the buffer that holds it.  So does [decode_response] on
    every frame, whose envelope loop advances in the same way. *)
Theorem decode_message_total (types : gmap string TypeDef) type_name (data : bytes)
    self (frame : bytes) :
  Codec._decode_message types type_name data ≠ OutOfFuel
  ∧ snd (Response.decode_response types self frame) ≠ OutOfFuel.
Proof. split; [apply decode_message_terminates | apply decode_response_returns]. Qed.

(** X15 (_encode_message, termination): when [int(value)] returns or
    raises on strings and bytes, [_encode_message] returns or raises on
    every registry, type name and value, however deeply nested. *)
Theorem encode_message_total (types : gmap string TypeDef)
    (int_of_str : string → result Z) (int_of_bytes : bytes → result Z)
    type_name (data : dict PyVal) :
  (∀ s, int_of_str s ≠ OutOfFuel) → (∀ b, int_of_bytes b ≠ OutOfFuel) →
  Codec._encode_message types int_of_str int_of_bytes type_name data ≠ OutOfFuel.
Proof. intros Hs Hb. apply encode_message_terminates; assumption. Qed.

Lemma encode_message_total_witness :
  Codec._encode_message sample_types no_int_of_str no_int_of_bytes "ReqHeatBeat"
    [("no_operation_counter", VStr "x")] ≠ OutOfFuel.
Proof.
  apply (encode_message_total sample_types no_int_of_str no_int_of_bytes "ReqHeatBeat"
           [("no_operation_counter", VStr "x")]);
    intros x; discriminate.
Defined.

(** ** Frames that are not answers *)

Lemma decode_response_other (types : gmap string TypeDef) self (frame : bytes) :
  not_response frame
  ∨ (∃ kind b1 b2 wrapper,
       frame = kind :: b1 :: b2 :: wrapper
       ∧ pending_requests self !! (byte_to_Z b1 + 256 * byte_to_Z b2) = None) →
  Response.decode_response types self frame = (self, Ok None).
Proof.
  intros [Hn | (kind & b1 & b2 & wrapper & -> & Hp)].
  - apply decode_response_not_response. assumption.
  - apply decode_response_unknown_id. assumption.
Qed.

(** X16 (decode_response, frames ignored): a frame shorter than 3 bytes,
    a frame whose first byte is not the response kind, and a response whose
    id is not pending all give [None] and leave the codec as it is,
    whatever the rest of the frame holds. *)
Theorem decode_response_ignores (types : gmap string TypeDef) self (frame : bytes) :
  not_response frame
  ∨ (∃ kind b1 b2 wrapper,
       frame = kind :: b1 :: b2 :: wrapper
       ∧ pending_requests self !! (byte_to_Z b1 + 256 * byte_to_Z b2) = None) →
  Response.decode_response types self frame = (self, Ok None).
Proof. apply decode_response_other. Qed.

Lemma decode_response_ignores_witness :
  Response.decode_response sample_types codec_init
    ("003"%byte :: "001"%byte :: "000"%byte :: bs [0xFF])
  = (codec_init, Ok None).
Proof.
  apply (decode_response_ignores sample_types codec_init
           ("003"%byte :: "001"%byte :: "000"%byte :: bs [0xFF])).
  right. exists "003"%byte, "001"%byte, "000"%byte, (bs [0xFF]).
  split; reflexivity.
Defined.

(** ** Requests that fail *)

Lemma resolve_method_raises (services : gmap string ServiceDef) method_name e :
  resolve_method services method_name = Raise e → exn_class e = ValueError.
Proof.
  unfold resolve_method.
  destruct (3 <=? len (split_dot (lstrip_dot method_name)));
    [| intros H; injection H as <-; reflexivity].
  destruct (services !! _) as [service|]; [| intros H; injection H as <-; reflexivity].
  destruct (dict_get service _) as [method_def|];
    [discriminate | intros H; injection H as <-; reflexivity].
Qed.

Lemma encode_request_failure (types : gmap string TypeDef)
    (services : gmap string ServiceDef) int_of_str int_of_bytes
    self method_name payload :
  (∀ e, resolve_method services method_name = Raise e →
     exn_class e = ValueError
     ∧ encode_request types services int_of_str int_of_bytes self method_name payload
       = (mk_codec (msg_index self + 1) (pending_requests self), Raise e))
  ∧ (∀ req resp e,
       resolve_method services method_name = Ok (req, resp) →
       Codec._encode_message types int_of_str int_of_bytes req payload = Raise e →
       encode_request types services int_of_str int_of_bytes self method_name payload
       = (mk_codec (msg_index self + 1)
            (<[msg_index self + 1 := (method_name, resp)]> (pending_requests self)),
          Raise e)).
Proof.
  split.
  - intros e He. split; [eapply resolve_method_raises; eassumption |].
    unfold encode_request. rewrite He. reflexivity.
  - intros req resp e Hr He.
    rewrite (encode_request_resolved _ _ _ _ _ _ _ _ _ Hr). unfold build_frame.
    rewrite He. reflexivity.
Qed.

(** X17 (encode_request, failed calls): a call that raises still changes
    the codec.  When the method name does not resolve (fewer than three
    parts, unknown service or unknown method) the exception is a
    [ValueError], the counter is advanced and the pending table is left
    alone; when the method resolves and the payload fails to encode, the
    counter is advanced and the pending entry of the new id stays in the
    table, although no frame was built. *)
Theorem encode_request_failed_call (types : gmap string TypeDef)
    (services : gmap string ServiceDef) int_of_str int_of_bytes
    self method_name payload :
  (∀ e, resolve_method services method_name = Raise e →
     exn_class e = ValueError
     ∧ encode_request types services int_of_str int_of_bytes self method_name payload
       = (mk_codec (msg_index self + 1) (pending_requests self), Raise e))
  ∧ (∀ req resp e,
       resolve_method services method_name = Ok (req, resp) →
       Codec._encode_message types int_of_str int_of_bytes req payload = Raise e →
       encode_request types services int_of_str int_of_bytes self method_name payload
       = (mk_codec (msg_index self + 1)
            (<[msg_index self + 1 := (method_name, resp)]> (pending_requests self)),
          Raise e)).
Proof. apply encode_request_failure. Qed.

Lemma encode_request_failed_call_witness :
  encode_request sample_types sample_services no_int_of_str no_int_of_bytes
    codec_init ".lq.Lobby.heatbeat" [("no_operation_counter", VInt (-1))]
  = (mk_codec (msg_index codec_init + 1)
       (<[msg_index codec_init + 1 := (".lq.Lobby.heatbeat", "ResCommon")]>
          (pending_requests codec_init)),
     raise ValueError).
Proof.
  apply (proj2 (encode_request_failed_call sample_types sample_services no_int_of_str
                  no_int_of_bytes codec_init ".lq.Lobby.heatbeat"
                  [("no_operation_counter", VInt (-1))])
           "ReqHeatBeat" "ResCommon");
    reflexivity.
Defined.

(** ** Messages of scalar fields: encoding, then decoding *)

Lemma int_type_cases (field_type : string) :
  Codec.is_int_type field_type = true →
  String.eqb field_type "string" = false ∧ String.eqb field_type "bytes" = false
  ∧ String.eqb field_type "bool" = false.
Proof.
  unfold Codec.is_int_type. intros H.
  repeat (apply orb_true_iff in H as [H | H]);
    apply String.eqb_eq in H; subst; repeat split.
Qed.

Section ScalarFacts.

Variable types : gmap string TypeDef.
Variable int_of_str : string → result Z.
Variable int_of_bytes : bytes → result Z.

(** The encoder writes the record of a scalar value. *)
Lemma encode_single_scalar encode_nested field_id field_type (v : PyVal) :
  scalar_ok field_type v →
  ∃ r, scalar_record field_id v = Some r
    ∧ Codec._encode_single_field types int_of_str int_of_bytes encode_nested
        field_id field_type v
      = encode_wire_record r
    ∧ (0 ≤ field_id → wire_record_ok r).
Proof.
  intros Hok. destruct v as [| b | z | s | | |]; cbn [scalar_ok] in Hok;
    try contradiction.
  - subst field_type. eexists. split; [reflexivity |]. split; [| cbn; destruct b; lia].
    unfold Codec._encode_single_field. cbn. reflexivity.
  - destruct Hok as [Hty Hz]. destruct (int_type_cases _ Hty) as (Hs & Hb & _).
    eexists. split; [reflexivity |]. split; [| cbn; lia].
    unfold Codec._encode_single_field. rewrite Hs, Hb, Hty. reflexivity.
  - destruct Hok as [-> Hutf]. eexists. split; [reflexivity |].
    split; [reflexivity | cbn; lia].
Qed.

(** The decoder stores the value of the record of a scalar value. *)
Lemma store_scalar_record D (by_id : gmap Z (string * FieldDef)) field_name field_def
    (v : PyVal) (r : WireRecord) (result_ : dict PyVal) :
  scalar_ok (fd_type field_def) v →
  scalar_record (fd_id field_def) v = Some r →
  by_id !! fd_id field_def = Some (field_name, field_def) →
  store_record types D by_id result_ r = Ok (dict_set result_ field_name v).
Proof.
  intros Hok Hr Hid. unfold store_record.
  destruct v as [| b | z | s | | |]; cbn [scalar_ok scalar_record] in Hok, Hr;
    try contradiction; injection Hr as <-; cbn [wire_field_num]; rewrite Hid.
  - rewrite Hok. cbn. destruct b; reflexivity.
  - destruct Hok as [Hty Hz]. destruct (int_type_cases _ Hty) as (_ & _ & ->).
    reflexivity.
  - destruct Hok as [-> Hutf]. unfold Codec.decode_delimited, decode_utf8.
    cbn [String.eqb Ascii.eqb Bool.eqb]. rewrite Hutf. cbn [mbind result_bind].
    unfold str_of_bytes, bytes_of_str. rewrite string_of_list_byte_of_string.
    reflexivity.
Qed.

Lemma encode_fields_scalar encode_nested (data : dict PyVal) (fields : TypeDef) :
  ∀ acc,
    (∀ name fd v, In (name, fd) fields → dict_get data name = Some v →
       scalar_ok (fd_type fd) v) →
    Forall (λ nf, 0 ≤ fd_id nf.2) fields →
    Forall wire_record_ok (scalar_records fields data)
    ∧ ∃ b, encode_wire_records (scalar_records fields data) = Ok b
        ∧ Codec.encode_fields types int_of_str int_of_bytes encode_nested fields data acc
          = Ok (acc ++ b).
Proof.
  induction fields as [|[name fd] fields IH]; intros acc Hok Hids.
  - split; [constructor |]. exists []. split; [reflexivity |].
    cbn. rewrite app_nil_r. reflexivity.
  - apply Forall_cons in Hids as [Hid Hids]. cbn [snd] in Hid.
    assert (∀ name' fd' v, In (name', fd') fields → dict_get data name' = Some v →
              scalar_ok (fd_type fd') v) as Hok'.
    { intros name' fd' v Hin. apply Hok. right. assumption. }
    cbn [Codec.encode_fields scalar_records].
    destruct (dict_get data name) as [v|] eqn:Hv; cbn [mbind option_bind].
    + destruct (encode_single_scalar encode_nested (fd_id fd) (fd_type fd) v)
        as (r & Hr & Henc & Hwf); [apply (Hok name fd v); [left |]; auto |].
      rewrite Hr. specialize (Hwf Hid).
      destruct (encode_wire_record_ok r Hwf) as (t & _ & Hb).
      assert (∃ b, encode_wire_record r = Ok b) as [b Hrb].
      { destruct r; [destruct Hb as (x & _ & ->) | destruct Hb as (x & _ & ->)]; eauto. }
      assert ((match v with
               | VList items =>
                   if bool_decide (fd_rule fd = Some "repeated")
                   then Codec.encode_items types int_of_str int_of_bytes encode_nested
                          (fd_id fd) (fd_type fd) items acc
                   else r0 ← Codec._encode_single_field types int_of_str int_of_bytes
                                encode_nested (fd_id fd) (fd_type fd) v;
                        Ok (acc ++ r0)
               | _ => r0 ← Codec._encode_single_field types int_of_str int_of_bytes
                            encode_nested (fd_id fd) (fd_type fd) v;
                      Ok (acc ++ r0)
               end) = Ok (acc ++ b)) as ->.
      { rewrite Henc, Hrb.
        destruct v; cbn [scalar_record] in Hr; try discriminate; reflexivity. }
      cbn [mbind result_bind].
      destruct (IH (acc ++ b) Hok' Hids) as (Hwfs & rest & Hrest & Hfields).
      split; [constructor; assumption |].
      exists (b ++ rest). cbn [encode_wire_records]. rewrite Hrb, Hrest, Hfields.
      cbn [mbind result_bind]. rewrite app_assoc. split; reflexivity.
    + apply IH; assumption.
Qed.

Lemma store_scalar_records D (by_id : gmap Z (string * FieldDef)) (data : dict PyVal)
    (fields : TypeDef) :
  ∀ acc,
    (∀ name fd v, In (name, fd) fields → dict_get data name = Some v →
       scalar_ok (fd_type fd) v) →
    (∀ name fd, In (name, fd) fields → by_id !! fd_id fd = Some (name, fd)) →
    ∃ d, store_records types D by_id acc (scalar_records fields data) = Ok d
      ∧ ∀ k, dict_get d k
             = match (if bool_decide (k ∈ map fst fields) then dict_get data k else None)
               with
               | Some v => Some v
               | None => dict_get acc k
               end.
Proof.
  induction fields as [|[name fd] fields IH]; intros acc Hok Hids.
  - exists acc. split; [reflexivity |]. intros k.
    rewrite bool_decide_eq_false_2; [reflexivity |]. cbn. apply not_elem_of_nil.
  - assert (∀ name' fd' v, In (name', fd') fields → dict_get data name' = Some v →
              scalar_ok (fd_type fd') v) as Hok'.
    { intros name' fd' v Hin. apply Hok. right. assumption. }
    assert (∀ name' fd', In (name', fd') fields →
              by_id !! fd_id fd' = Some (name', fd')) as Hids'.
    { intros name' fd' Hin. apply Hids. right. assumption. }
    cbn [scalar_records map fst].
    destruct (dict_get data name) as [v|] eqn:Hv; cbn [mbind option_bind].
    + pose proof (Hok name fd v ltac:(left; reflexivity) Hv) as Hs.
      destruct (encode_single_scalar (λ _ _, Ok []) (fd_id fd) (fd_type fd) v Hs)
        as (r & Hr & _).
      rewrite Hr. cbn [store_records].
      rewrite (store_scalar_record D by_id name fd v r acc Hs Hr
                 (Hids name fd ltac:(left; reflexivity))).
      cbn [mbind result_bind].
      destruct (IH (dict_set acc name v) Hok' Hids') as (d & Hd & Hget).
      exists d. split; [assumption |]. intros k. rewrite Hget.
      destruct (decide (k = name)) as [-> | Hne].
      * rewrite (bool_decide_eq_true_2 (name ∈ name :: map fst fields))
          by (left; reflexivity).
        rewrite Hv. destruct (bool_decide (name ∈ map fst fields));
          [reflexivity | apply dict_get_set_eq].
      * rewrite dict_get_set_ne by congruence.
        destruct (bool_decide (k ∈ map fst fields)) eqn:Hin.
        -- apply bool_decide_eq_true in Hin.
           rewrite bool_decide_eq_true_2 by (right; assumption). reflexivity.
        -- apply bool_decide_eq_false in Hin.
           rewrite bool_decide_eq_false_2; [reflexivity |].
           intros Hin'. apply elem_of_cons in Hin' as [? | ?]; contradiction.
    + destruct (IH acc Hok' Hids') as (d & Hd & Hget).
      exists d. split; [assumption |]. intros k. rewrite Hget.
      destruct (decide (k = name)) as [-> | Hne].
      * rewrite (bool_decide_eq_true_2 (name ∈ name :: map fst fields))
          by (left; reflexivity).
        rewrite Hv. destruct (bool_decide (name ∈ map fst fields)); reflexivity.
      * destruct (bool_decide (k ∈ map fst fields)) eqn:Hin.
        -- apply bool_decide_eq_true in Hin.
           rewrite bool_decide_eq_true_2 by (right; assumption). reflexivity.
        -- apply bool_decide_eq_false in Hin.
           rewrite bool_decide_eq_false_2; [reflexivity |].
           intros Hin'. apply elem_of_cons in Hin' as [? | ?]; contradiction.
Qed.

End ScalarFacts.

(** A key outside [i]'s is not touched by the inserts. *)
Lemma field_by_id_fold_other (fields : TypeDef) :
  ∀ (m : gmap Z (string * FieldDef)) (i : Z),
    i ∉ map (λ nf, fd_id nf.2) fields →
    foldl (λ m nf, <[fd_id (snd nf) := nf]> m) m fields !! i = m !! i.
Proof.
  induction fields as [|nf fields IH]; intros m i Hi; [reflexivity |].
  cbn [foldl]. cbn [map] in Hi. apply not_elem_of_cons in Hi as [Hne Hi].
  rewrite IH by assumption. apply lookup_insert_ne. congruence.
Qed.

(** With distinct field ids, every field is found under its id. *)
Lemma field_by_id_lookup (fields : TypeDef) name fd :
  NoDup (map (λ nf, fd_id nf.2) fields) →
  In (name, fd) fields →
  Codec.field_by_id fields !! fd_id fd = Some (name, fd).
Proof.
  unfold Codec.field_by_id. generalize (∅ : gmap Z (string * FieldDef)).
  induction fields as [|nf fields IH]; intros m Hnd Hin; [contradiction |].
  cbn [map] in Hnd. apply NoDup_cons in Hnd as [Hfresh Hnd]. cbn [foldl].
  destruct Hin as [-> | Hin].
  - cbn [snd] in *. rewrite field_by_id_fold_other by assumption.
    apply lookup_insert_eq.
  - apply IH; assumption.
Qed.

Lemma encode_decode_scalars (types : gmap string TypeDef)
    (int_of_str : string → result Z) (int_of_bytes : bytes → result Z)
    type_name (fields : TypeDef) (data : dict PyVal) :
  Codec.lookup_type types type_name = Some fields →
  NoDup (map (λ nf, fd_id nf.2) fields) →
  Forall (λ nf, 0 ≤ fd_id nf.2) fields →
  (∀ name fd v, In (name, fd) fields → dict_get data name = Some v →
     scalar_ok (fd_type fd) v) →
  ∃ b d,
    Codec._encode_message types int_of_str int_of_bytes type_name data = Ok b
    ∧ Codec._decode_message types type_name b = Ok (VDict d)
    ∧ ∀ k, dict_get d k
           = if bool_decide (k ∈ map fst fields) then dict_get data k else None.
Proof.
  intros Htype Hnd Hids Hok.
  unfold Codec._encode_message. cbn [Codec.depth Codec.encode_message_fuel].
  rewrite Htype.
  destruct (encode_fields_scalar types int_of_str int_of_bytes
              (Codec.encode_message_fuel types int_of_str int_of_bytes
                 (list_max (map (λ kv, Codec.depth kv.2) data)))
              data fields [] Hok Hids) as (Hwf & b & Hb & Henc).
  destruct (store_scalar_records types int_of_str int_of_bytes
              (Codec._decode_message types)
              (Codec.field_by_id fields) data fields [] Hok) as (d & Hd & Hget).
  { intros name fd Hin. apply field_by_id_lookup; assumption. }
  exists b, d. split; [exact Henc |].
  rewrite (decode_message_wire types type_name fields _ b Htype Hwf Hb), Hd.
  split; [reflexivity |]. intros k. rewrite Hget.
  destruct (bool_decide (k ∈ map fst fields)); [| reflexivity].
  destruct (dict_get data k); reflexivity.
Qed.

(** X18 (codec, round trip of scalar fields): for a registered type with
    distinct non-negative field ids, and a dict whose values for the fields
    of the type are texts in string fields, non-negative integers in integer
    fields and truth values in bool fields, [_encode_message] returns a
    buffer that [_decode_message] decodes to a dict with exactly these
    values under the field names; keys of the dict that are no fields of the
    type are not encoded, and fields without a value stay absent. *)
Theorem encode_decode_roundtrip (types : gmap string TypeDef)
    (int_of_str : string → result Z) (int_of_bytes : bytes → result Z)
    type_name (fields : TypeDef) (data : dict PyVal) :
  Codec.lookup_type types type_name = Some fields →
  NoDup (map (λ nf, fd_id nf.2) fields) →
  Forall (λ nf, 0 ≤ fd_id nf.2) fields →
  (∀ name fd v, In (name, fd) fields → dict_get data name = Some v →
     scalar_ok (fd_type fd) v) →
  ∃ b d,
    Codec._encode_message types int_of_str int_of_bytes type_name data = Ok b
    ∧ Codec._decode_message types type_name b = Ok (VDict d)
    ∧ ∀ k, dict_get d k
           = if bool_decide (k ∈ map fst fields) then dict_get data k else None.
Proof. apply encode_decode_scalars. Qed.

Lemma encode_decode_roundtrip_witness :
  ∃ b d,
    Codec._encode_message scalar_types no_int_of_str no_int_of_bytes "Point"
      [("n", VInt 300); ("extra", VList []); ("name", VStr "hi")] = Ok b
    ∧ Codec._decode_message scalar_types "Point" b = Ok (VDict d)
    ∧ ∀ k, dict_get d k
           = if bool_decide (k ∈ map fst [("name", mk_field 1 "string" None);
                                          ("n", mk_field 2 "uint32" None);
                                          ("ok", mk_field 3 "bool" None)])
             then dict_get [("n", VInt 300); ("extra", VList []); ("name", VStr "hi")] k
             else None.
Proof.
  apply (encode_decode_roundtrip scalar_types no_int_of_str no_int_of_bytes "Point"
           [("name", mk_field 1 "string" None); ("n", mk_field 2 "uint32" None);
            ("ok", mk_field 3 "bool" None)]
           [("n", VInt 300); ("extra", VList []); ("name", VStr "hi")]).
  - reflexivity.
  - cbn [map snd fd_id]. repeat (apply NoDup_cons; split; [rewrite ?elem_of_cons, ?elem_of_nil; lia |]).
    apply NoDup_nil_2.
  - repeat constructor; cbn; lia.
  - intros name fd v Hin Hget. cbn [In] in Hin.
    destruct Hin as [H | [H | [H | []]]]; injection H as <- <-;
      cbn in Hget; try discriminate; injection Hget as <-; cbn; auto with zarith.
Defined.

(** ** Repeated fields: encoding, then decoding *)

Section RepeatedFieldFacts.

Variable types : gmap string TypeDef.
Variable int_of_str : string → result Z.
Variable int_of_bytes : bytes → result Z.

Lemma encode_fields_absent encode_nested (data : dict PyVal) (fields : TypeDef) :
  ∀ acc,
    (∀ nf, In nf fields → dict_get data nf.1 = None) →
    Codec.encode_fields types int_of_str int_of_bytes encode_nested fields data acc
    = Ok acc.
Proof.
  induction fields as [|[name fd] fields IH]; intros acc Habs; [reflexivity |].
  cbn [Codec.encode_fields].
  pose proof (Habs (name, fd) ltac:(left; reflexivity)) as Hn. cbn [fst] in Hn.
  rewrite Hn. apply IH. intros nf Hin. apply Habs. right. assumption.
Qed.

Lemma encode_items_ints encode_nested field_id field_type (zs : list Z) :
  ∀ acc,
    Codec.is_int_type field_type = true → 0 ≤ field_id → Forall (λ z, 0 ≤ z) zs →
    ∃ b, encode_wire_records (map (WVarint field_id) zs) = Ok b
      ∧ Codec.encode_items types int_of_str int_of_bytes encode_nested
          field_id field_type (map VInt zs) acc
        = Ok (acc ++ b).
Proof.
  induction zs as [|z zs IH]; intros acc Hty Hid Hzs.
  - exists []. split; [reflexivity |]. cbn. rewrite app_nil_r. reflexivity.
  - apply Forall_cons in Hzs as [Hz Hzs]. cbn [map Codec.encode_items].
    destruct (encode_single_scalar types int_of_str int_of_bytes encode_nested
                field_id field_type (VInt z)) as (r & Hr & Henc & Hwf);
      [split; assumption |].
    cbn [scalar_record] in Hr. injection Hr as <-. specialize (Hwf Hid).
    destruct (encode_wire_record_ok _ Hwf) as (t & _ & v & _ & Hb).
    rewrite Henc, Hb. cbn [mbind result_bind].
    destruct (IH (acc ++ t ++ v) Hty Hid Hzs) as (rest & Hrest & Hitems).
    exists ((t ++ v) ++ rest). cbn [encode_wire_records]. rewrite Hb, Hrest, Hitems.
    cbn [mbind result_bind]. rewrite !app_assoc. split; reflexivity.
Qed.

(** Every record of an integer field overwrites the value stored before. *)
Lemma store_records_ints D (by_id : gmap Z (string * FieldDef)) field_name field_def
    (zs : list Z) :
  ∀ z0,
    Codec.is_int_type (fd_type field_def) = true →
    by_id !! fd_id field_def = Some (field_name, field_def) →
    store_records types D by_id [(field_name, VInt z0)]
      (map (WVarint (fd_id field_def)) zs)
    = Ok [(field_name, VInt (List.last zs z0))].
Proof.
  induction zs as [|z zs IH]; intros z0 Hty Hid; [reflexivity |].
  cbn [map store_records]. unfold store_record at 1. cbn [wire_field_num].
  rewrite Hid. destruct (int_type_cases _ Hty) as (_ & _ & ->).
  cbn [mbind result_bind dict_set]. rewrite String.eqb_refl.
  rewrite (IH z Hty Hid). f_equal. f_equal. f_equal.
  destruct zs as [|z1 zs]; [reflexivity |].
  change (List.last (z :: z1 :: zs) z0) with (List.last (z1 :: zs) z0).
  f_equal. apply last_nonempty_default.
Qed.

Lemma encode_fields_single encode_nested field_name field_def (v : PyVal) (b : bytes)
    (fields : TypeDef) :
  ∀ acc,
    NoDup (map fst fields) → In (field_name, field_def) fields →
    (∀ acc',
       match v with
       | VList items =>
           if bool_decide (fd_rule field_def = Some "repeated")
           then Codec.encode_items types int_of_str int_of_bytes encode_nested
                  (fd_id field_def) (fd_type field_def) items acc'
           else r ← Codec._encode_single_field types int_of_str int_of_bytes
                      encode_nested (fd_id field_def) (fd_type field_def) v;
                Ok (acc' ++ r)
       | _ => r ← Codec._encode_single_field types int_of_str int_of_bytes
                    encode_nested (fd_id field_def) (fd_type field_def) v;
              Ok (acc' ++ r)
       end = Ok (acc' ++ b)) →
    Codec.encode_fields types int_of_str int_of_bytes encode_nested fields
      [(field_name, v)] acc
    = Ok (acc ++ b).
Proof.
  induction fields as [|[name fd] fields IH]; intros acc Hnd Hin Henc;
    [contradiction |].
  cbn [map fst] in Hnd. apply NoDup_cons in Hnd as [Hfresh Hnd].
  cbn [Codec.encode_fields dict_get].
  destruct (String.eqb_spec field_name name) as [<- | Hne].
  - assert (fd = field_def) as ->.
    { destruct Hin as [H | H]; [congruence |]. exfalso. apply Hfresh.
      apply list_elem_of_In. apply (in_map fst) in H. exact H. }
    rewrite Henc. cbn [mbind result_bind]. apply encode_fields_absent.
    intros [name' fd'] Hin'. cbn [fst dict_get].
    destruct (String.eqb_spec field_name name') as [<- | _]; [| reflexivity].
    exfalso. apply Hfresh. apply list_elem_of_In. apply (in_map fst) in Hin'.
    exact Hin'.
  - apply IH; [assumption | | assumption].
    destruct Hin as [H | H]; [congruence | assumption].
Qed.

End RepeatedFieldFacts.

Lemma repeated_ints_last (types : gmap string TypeDef)
    (int_of_str : string → result Z) (int_of_bytes : bytes → result Z)
    type_name (fields : TypeDef) field_name field_def (zs : list Z) (z : Z) :
  Codec.lookup_type types type_name = Some fields →
  NoDup (map fst fields) →
  NoDup (map (λ nf, fd_id nf.2) fields) →
  In (field_name, field_def) fields →
  Codec.is_int_type (fd_type field_def) = true →
  fd_rule field_def = Some "repeated" →
  0 ≤ fd_id field_def →
  Forall (λ z, 0 ≤ z) (zs ++ [z]) →
  ∃ b,
    Codec._encode_message types int_of_str int_of_bytes type_name
      [(field_name, VList (map VInt (zs ++ [z])))] = Ok b
    ∧ encode_wire_records (map (WVarint (fd_id field_def)) (zs ++ [z])) = Ok b
    ∧ Codec._decode_message types type_name b = Ok (VDict [(field_name, VInt z)]).
Proof.
  intros Htype Hnames Hids Hin Hty Hrule Hid Hzs.
  unfold Codec._encode_message. cbn [Codec.encode_message_fuel Codec.depth].
  rewrite Htype.
  set (E := Codec.encode_message_fuel types int_of_str int_of_bytes _).
  destruct (encode_items_ints types int_of_str int_of_bytes E (fd_id field_def)
              (fd_type field_def) (zs ++ [z]) [] Hty Hid Hzs) as (b & Hb & _).
  exists b. split; [| split; [assumption |]].
  - rewrite (encode_fields_single types int_of_str int_of_bytes E field_name field_def
               (VList (map VInt (zs ++ [z]))) b fields [] Hnames Hin); [reflexivity |].
    intros acc'. rewrite bool_decide_eq_true_2 by assumption.
    destruct (encode_items_ints types int_of_str int_of_bytes E (fd_id field_def)
                (fd_type field_def) (zs ++ [z]) acc' Hty Hid Hzs) as (b' & Hb' & ->).
    congruence.
  - rewrite (decode_message_wire types type_name fields
               (map (WVarint (fd_id field_def)) (zs ++ [z])) b Htype); [| | assumption].
    2: { apply Forall_map. eapply Forall_impl; [exact Hzs |].
         intros x Hx. cbv [compose wire_record_ok]. cbv beta in Hx. lia. }
    pose proof (field_by_id_lookup fields field_name field_def Hids Hin) as Hlk.
    destruct zs as [|z1 zs].
    + cbn [app map store_records]. unfold store_record. cbn [wire_field_num].
      rewrite Hlk. destruct (int_type_cases _ Hty) as (_ & _ & ->). reflexivity.
    + cbn [app map store_records]. unfold store_record at 1. cbn [wire_field_num].
      rewrite Hlk. destruct (int_type_cases _ Hty) as (_ & _ & ->).
      cbn [mbind result_bind dict_set].
      rewrite (store_records_ints types (Codec._decode_message types) _ field_name
                 field_def (zs ++ [z]) z1 Hty Hlk).
      rewrite last_last. reflexivity.
Qed.

(** X19 (codec, repeated fields): the encoder writes one record per
    element of the list given for a repeated integer field, and the decoder
    stores each record of a field over the one before: of the non-negative
    integers encoded for such a field, decoding returns the last one only,
    as a single integer and not as a list. *)
Theorem repeated_field_keeps_last (types : gmap string TypeDef)
    (int_of_str : string → result Z) (int_of_bytes : bytes → result Z)
    type_name (fields : TypeDef) field_name field_def (zs : list Z) (z : Z) :
  Codec.lookup_type types type_name = Some fields →
  NoDup (map fst fields) →
  NoDup (map (λ nf, fd_id nf.2) fields) →
  In (field_name, field_def) fields →
  Codec.is_int_type (fd_type field_def) = true →
  fd_rule field_def = Some "repeated" →
  0 ≤ fd_id field_def →
  Forall (λ z, 0 ≤ z) (zs ++ [z]) →
  ∃ b,
    Codec._encode_message types int_of_str int_of_bytes type_name
      [(field_name, VList (map VInt (zs ++ [z])))] = Ok b
    ∧ encode_wire_records (map (WVarint (fd_id field_def)) (zs ++ [z])) = Ok b
    ∧ Codec._decode_message types type_name b = Ok (VDict [(field_name, VInt z)]).
Proof. apply repeated_ints_last. Qed.

Lemma repeated_field_keeps_last_witness :
  ∃ b,
    Codec._encode_message repeated_types no_int_of_str no_int_of_bytes "Scores"
      [("scores", VList (map VInt ([25000; 300] ++ [7])))] = Ok b
    ∧ encode_wire_records (map (WVarint 2) ([25000; 300] ++ [7])) = Ok b
    ∧ Codec._decode_message repeated_types "Scores" b = Ok (VDict [("scores", VInt 7)]).
Proof.
  apply (repeated_field_keeps_last repeated_types no_int_of_str no_int_of_bytes "Scores"
           [("uuid", mk_field 1 "string" None);
            ("scores", mk_field 2 "int32" (Some "repeated"))]
           "scores" (mk_field 2 "int32" (Some "repeated")) [25000; 300] 7).
  - reflexivity.
  - cbn [map fst].
    repeat (apply NoDup_cons; split;
            [rewrite ?elem_of_cons, ?elem_of_nil; intros H; intuition discriminate |]).
    apply NoDup_nil_2.
  - cbn [map snd fd_id].
    repeat (apply NoDup_cons; split; [rewrite ?elem_of_cons, ?elem_of_nil; lia |]).
    apply NoDup_nil_2.
  - right. left. reflexivity.
  - reflexivity.
  - reflexivity.
  - cbn. lia.
  - repeat constructor; lia.
Defined.

(** ** Matching when the scores agree *)

Section ExactMatching.

Import Stats.

Variable csv_scores : list (dict PyVal * Z).
Variable final_scores : list Z.
Hypothesis scores_distinct : NoDup final_scores.
Hypothesis scores_known :
  ∀ s, s ∈ final_scores → ∃ i p, csv_scores !! i = Some (p, s).

Lemma seat_step_exact k st json :
  final_scores !! k = Some json →
  seats_exact csv_scores final_scores k st →
  seats_exact csv_scores final_scores (S k) (seat_step csv_scores st k json).
Proof.
  intros Hk (Hseats & Hused & Hdom). destruct st as [m used]. cbn [fst snd] in *.
  destruct (scores_known json) as (i0 & p0 & Hi0).
  { apply list_elem_of_lookup. exists k. assumption. }
  assert (i0 ∉ used) as Hfree.
  { intros Hin. destruct (Hused i0 Hin) as (seat & s & p & Hlt & Hs & Hc).
    rewrite Hi0 in Hc. injection Hc as _ <-.
    pose proof (NoDup_lookup _ _ _ _ scores_distinct Hs Hk). lia. }
  unfold seat_step. pose proof (best_loop_full csv_scores used json) as Hbest.
  destruct (best_loop used json 0 csv_scores (None, None)) as [[[ib p]|] [d|]];
    cbn [best_inv] in Hbest; try contradiction.
  2: { exfalso. apply Hfree. apply (Hbest i0 (p0, json)); [| assumption].
       apply lookup_lt_Some in Hi0. assumption. }
  destruct Hbest as (Hlt & Hnot & c & Hc & Hd & Hmin).
  pose proof (Hmin i0 p0 json ltac:(apply lookup_lt_Some in Hi0; assumption)
                Hfree Hi0) as Hle.
  assert (c = json) as -> by lia. assert (d = 0) as -> by lia.
  change (0 <? 100) with true. cbv iota. cbn [fst snd].
  split; [| split]; cbn [fst snd].
  - intros seat s Hseat Hs. destruct (decide (seat = k)) as [-> | Hne].
    + rewrite Hk in Hs. injection Hs as <-. exists ib, p.
      split; [assumption | apply lookup_insert_eq].
    + destruct (Hseats seat s ltac:(lia) Hs) as (i & p' & Hi & Hm).
      exists i, p'. split; [assumption |].
      rewrite lookup_insert_ne by congruence. assumption.
  - intros i Hi. apply elem_of_union in Hi as [Hi | Hi].
    + apply elem_of_singleton in Hi as ->. exists k, json, p.
      split; [lia | split; assumption].
    + destruct (Hused i Hi) as (seat & s & p' & Hseat & Hs & Hcs).
      exists seat, s, p'. split; [lia | split; assumption].
  - intros seat Hsome. destruct (decide (seat = k)) as [-> | Hne]; [lia |].
    rewrite lookup_insert_ne in Hsome by congruence.
    specialize (Hdom seat Hsome). lia.
Qed.

Lemma seat_loop_exact (l : list Z) :
  ∀ pre st,
    final_scores = pre ++ l →
    seats_exact csv_scores final_scores (length pre) st →
    seats_exact csv_scores final_scores (length final_scores)
      (seat_loop csv_scores (length pre) l st).
Proof.
  induction l as [|json l IH]; intros pre st Hfs Hinv.
  - cbn [seat_loop]. rewrite Hfs at 2. rewrite length_app, Nat.add_0_r. assumption.
  - cbn [seat_loop].
    replace (S (length pre)) with (length (pre ++ [json]))
      by (rewrite length_app; cbn; lia).
    apply IH; [rewrite <- app_assoc; assumption |].
    rewrite length_app. cbn [length]. rewrite Nat.add_1_r.
    apply seat_step_exact; [| assumption].
    rewrite Hfs, lookup_app_r by lia. rewrite Nat.sub_diag. reflexivity.
Qed.

End ExactMatching.

Lemma match_players_exact (int_of_float : PyVal → result Z)
    (csv_players : list (dict PyVal)) (scores : list Z)
    (csv_scores : list (dict PyVal * Z)) :
  length scores = 4%nat →
  NoDup scores →
  Stats.csv_scores_of int_of_float csv_players = Ok csv_scores →
  (∀ s, s ∈ scores → ∃ i p, csv_scores !! i = Some (p, s)) →
  ∃ m : gmap nat (dict PyVal),
    Stats.match_players_by_score int_of_float csv_players (Some scores) = Ok m
    ∧ (∀ seat s, scores !! seat = Some s →
         ∃ i p, csv_players !! i = Some p ∧ csv_scores !! i = Some (p, s)
                ∧ m !! seat = Some p)
    ∧ (∀ seat, is_Some (m !! seat) ↔ (seat < 4)%nat).
Proof.
  intros Hlen Hnd Hcsv Hknown.
  unfold Stats.match_players_by_score. rewrite Hlen, Hcsv.
  cbn [Nat.eqb orb negb mbind result_bind].
  pose proof (seat_loop_exact csv_scores scores Hnd Hknown scores [] (∅, ∅) eq_refl)
    as Hinv.
  cbn [length] in Hinv.
  destruct Hinv as (Hseats & _ & Hdom).
  { split; [| split]; cbn [fst snd].
    - intros seat s Hlt. lia.
    - intros i Hi. apply elem_of_empty in Hi. contradiction.
    - intros seat [x Hx]. rewrite lookup_empty in Hx. discriminate. }
  eexists. split; [reflexivity |]. rewrite Hlen in Hseats, Hdom. split.
  - intros seat s Hs.
    destruct (Hseats seat s) as (i & p & Hi & Hm); [| assumption |].
    { apply lookup_lt_Some in Hs. lia. }
    exists i, p. split; [| split; assumption].
    rewrite <- (csv_scores_of_fst _ _ _ Hcsv), list_lookup_fmap, Hi. reflexivity.
  - intros seat. split; [apply Hdom |]. intros Hlt.
    destruct (lookup_lt_is_Some_2 scores seat ltac:(lia)) as [s Hs].
    destruct (Hseats seat s Hlt Hs) as (i & p & _ & Hm). eauto.
Qed.

(** X20 (match_players_by_score, agreeing scores): when the four final
    scores are pairwise distinct and each of them is the CSV score of some
    player, every seat is mapped, and mapped to a player whose CSV score is
    the seat's final score; no other key is in the mapping. *)
Theorem match_players_by_equal_score (int_of_float : PyVal → result Z)
    (csv_players : list (dict PyVal)) (scores : list Z)
    (csv_scores : list (dict PyVal * Z)) :
  length scores = 4%nat →
  NoDup scores →
  Stats.csv_scores_of int_of_float csv_players = Ok csv_scores →
  (∀ s, s ∈ scores → ∃ i p, csv_scores !! i = Some (p, s)) →
  ∃ m : gmap nat (dict PyVal),
    Stats.match_players_by_score int_of_float csv_players (Some scores) = Ok m
    ∧ (∀ seat s, scores !! seat = Some s →
         ∃ i p, csv_players !! i = Some p ∧ csv_scores !! i = Some (p, s)
                ∧ m !! seat = Some p)
    ∧ (∀ seat, is_Some (m !! seat) ↔ (seat < 4)%nat).
Proof. apply match_players_exact. Qed.

Lemma match_players_by_equal_score_witness :
  ∃ m : gmap nat (dict PyVal),
    Stats.match_players_by_score sample_int_of_float sample_players
      (Some [15000; 35000; 23000; 27000]) = Ok m
    ∧ (∀ seat s, [15000; 35000; 23000; 27000] !! seat = Some s →
         ∃ i p, sample_players !! i = Some p
                ∧ [(sample_player 1 "A" "35000", 35000);
                   (sample_player 2 "B" "27000", 27000);
                   (sample_player 3 "C" "23000", 23000);
                   (sample_player 4 "D" "15000", 15000)] !! i = Some (p, s)
                ∧ m !! seat = Some p)
    ∧ (∀ seat, is_Some (m !! seat) ↔ (seat < 4)%nat).
Proof.
  apply (match_players_by_equal_score sample_int_of_float sample_players
           [15000; 35000; 23000; 27000]
           [(sample_player 1 "A" "35000", 35000); (sample_player 2 "B" "27000", 27000);
            (sample_player 3 "C" "23000", 23000); (sample_player 4 "D" "15000", 15000)]).
  - reflexivity.
  - repeat (apply NoDup_cons; split; [rewrite ?elem_of_cons, ?elem_of_nil; lia |]).
    apply NoDup_nil_2.
  - reflexivity.
  - intros s Hs. rewrite ?elem_of_cons, elem_of_nil in Hs.
    destruct Hs as [-> | [-> | [-> | [-> | []]]]].
    + exists 3%nat. eexists. reflexivity.
    + exists 0%nat. eexists. reflexivity.
    + exists 2%nat. eexists. reflexivity.
    + exists 1%nat. eexists. reflexivity.
Defined.

(** ** The registries *)

Lemma py_contains_raises key (v : PyVal) :
  match py_contains key v with
  | Ok _ => True
  | Raise e => exn_class e = TypeError
  | OutOfFuel => False
  end.
Proof. destruct v; cbn; auto. Qed.

Lemma dict_get_set_inv {V} (d : dict V) (k k' : string) (v x : V) :
  dict_get (dict_set d k v) k' = Some x → x = v ∨ dict_get d k' = Some x.
Proof.
  destruct (String.eqb_spec k k') as [<- | Hne].
  - rewrite dict_get_set_eq. intros H. injection H as ->. left. reflexivity.
  - rewrite dict_get_set_ne by assumption. auto.
Qed.

Lemma register_outcome reg full_name (value : PyVal) :
  ProtoDef.well_sorted reg →
  match ProtoDef.register reg full_name value with
  | Ok reg' => ProtoDef.well_sorted reg'
  | Raise e => exn_class e = TypeError
  | OutOfFuel => False
  end.
Proof.
  intros [Ht Hs]. unfold ProtoDef.register.
  pose proof (py_contains_raises "fields" value) as Hf.
  destruct (py_contains "fields" value) as [[|]| |] eqn:Ef; cbn [mbind result_bind];
    [| | assumption | contradiction].
  - split; cbn [ProtoDef.reg_types ProtoDef.reg_services]; [| assumption].
    intros name v Hv. apply dict_get_set_inv in Hv as [-> | Hv]; [assumption |].
    apply (Ht name). assumption.
  - pose proof (py_contains_raises "methods" value) as Hm.
    destruct (py_contains "methods" value) as [[|]| |] eqn:Em; cbn [mbind result_bind];
      [| split; assumption | assumption | contradiction].
    split; cbn [ProtoDef.reg_types ProtoDef.reg_services]; [assumption |].
    intros name v Hv. apply dict_get_set_inv in Hv as [-> | Hv]; [split; assumption |].
    apply (Hs name). assumption.
Qed.

Lemma parse_items_outcome parse_nested (items : dict PyVal) prefix :
  ∀ reg,
    (∀ name value pfx reg', In (name, value) items → ProtoDef.well_sorted reg' →
       registry_outcome (parse_nested value pfx reg')) →
    ProtoDef.well_sorted reg →
    registry_outcome (ProtoDef.parse_items parse_nested items prefix reg).
Proof.
  induction items as [|[name value] items IH]; intros reg Hnested Hreg;
    [exact Hreg |].
  cbn [ProtoDef.parse_items].
  pose proof (register_outcome reg (ProtoDef.full_name prefix name) value Hreg) as H1.
  destruct (ProtoDef.register reg (ProtoDef.full_name prefix name) value)
    as [reg1| |]; cbn [mbind result_bind]; [| left; assumption | contradiction].
  pose proof (py_contains_raises "nested" value) as Hn.
  destruct (py_contains "nested" value) as [has_nested| |]; cbn [mbind result_bind];
    [| left; assumption | contradiction].
  assert (registry_outcome
            (if has_nested
             then parse_nested value (ProtoDef.full_name prefix name) reg1
             else Ok reg1)) as H2.
  { destruct has_nested; [| exact H1]. apply (Hnested name); [left; reflexivity |].
    assumption. }
  destruct (if has_nested then _ else _) as [reg2| |]; cbn [mbind result_bind];
    [| exact H2 | contradiction].
  apply IH; [| exact H2].
  intros name' value' pfx reg' Hin. apply (Hnested name'). right. assumption.
Qed.

Lemma depth_member (items : dict PyVal) name (value : PyVal) :
  In (name, value) items →
  (Codec.depth value ≤ list_max (map (λ kv, Codec.depth kv.2) items))%nat.
Proof.
  induction items as [|[k v] items IH]; intros Hin; [contradiction |].
  cbn [map list_max foldr snd]. destruct Hin as [H | Hin].
  - injection H as _ ->. lia.
  - specialize (IH Hin). unfold list_max in IH. lia.
Qed.

(** A bound above the nesting depth of the schema is never reached. *)
Lemma parse_fuel_outcome (fuel : nat) :
  ∀ (proto_def : PyVal) prefix reg,
    (Codec.depth proto_def < fuel)%nat →
    ProtoDef.well_sorted reg →
    registry_outcome (ProtoDef.parse_fuel fuel proto_def prefix reg).
Proof.
  induction fuel as [|fuel IH]; intros proto_def prefix reg Hdepth Hreg; [lia |].
  cbn [ProtoDef.parse_fuel].
  destruct proto_def as [| | | | | |d]; try (right; reflexivity).
  cbn [py_get mbind result_bind].
  assert (∀ nested, nested = VDict [] ∨ dict_get d "nested" = Some nested →
            registry_outcome
              match nested with
              | VDict items =>
                  ProtoDef.parse_items (ProtoDef.parse_fuel fuel) items prefix reg
              | _ => raise AttributeError
              end) as Hcases.
  { intros nested Hn. destruct nested as [| | | | | |items]; try (right; reflexivity).
    apply parse_items_outcome; [| assumption].
    intros name value pfx reg' Hin Hreg'. apply IH; [| assumption].
    destruct Hn as [Hn | Hn]; [injection Hn as ->; contradiction |].
    pose proof (depth_dict_get d "nested" _ Hn) as H1.
    pose proof (depth_member items name value Hin) as H2.
    cbn [Codec.depth] in Hdepth, H1. lia. }
  destruct (dict_get d "nested") as [nested|] eqn:Hn;
    [apply Hcases; auto | apply (Hcases (VDict [])); auto].
Qed.

Lemma init_outcome (proto_def : PyVal) : registry_outcome (ProtoDef.init proto_def).
Proof.
  unfold ProtoDef.init, ProtoDef._parse_proto_def. apply parse_fuel_outcome; [lia |].
  split; intros name value H; discriminate.
Qed.

(** X21 (_parse_proto_def, outcome): on every schema value, [__init__]
    builds the registries or raises the [TypeError] or [AttributeError] of a
    member that is no dict; the recursion always ends.  In the registries
    built, every type has a ["fields"] member, and every service has a
    ["methods"] member and no ["fields"] member: a definition with both is
    registered as a type only. *)
Theorem parse_proto_def_outcome (proto_def : PyVal) :
  registry_outcome (ProtoDef.init proto_def).
Proof. apply init_outcome. Qed.

Lemma dict_set_fresh {V} (d : dict V) (k : string) (v : V) :
  dict_get d k = None → dict_set d k v = d ++ [(k, v)].
Proof.
  induction d as [|[k' v'] d IH]; intros H; [reflexivity |].
  cbn [dict_get dict_set app] in *.
  destruct (String.eqb k' k); [discriminate |]. f_equal. apply IH. assumption.
Qed.

Lemma dict_get_snoc_ne {V} (d : dict V) (k k' : string) (v : V) :
  k ≠ k' → dict_get (d ++ [(k, v)]) k' = dict_get d k'.
Proof.
  intros Hne. induction d as [|[k0 v0] d IH]; cbn [app dict_get].
  - destruct (String.eqb_spec k k'); [contradiction | reflexivity].
  - destruct (String.eqb k0 k'); [reflexivity | assumption].
Qed.

Lemma append_inj_r (p a b : string) : p +:+ a = p +:+ b → a = b.
Proof.
  induction p as [|c p IH]; cbn; intros H; [assumption |].
  injection H as H. apply IH. assumption.
Qed.

Lemma full_name_inj prefix (a b : string) :
  ProtoDef.full_name prefix a = ProtoDef.full_name prefix b → a = b.
Proof.
  unfold ProtoDef.full_name. destruct (String.eqb prefix ""); [auto |].
  intros H. apply append_inj_r in H. apply (append_inj_r "." a b). assumption.
Qed.

(** Members without members of their own are registered in order, each under
    its full name, the messages as types and the other services as
    services. *)
Lemma parse_items_leaves parse_nested prefix (members : dict PyVal) :
  ∀ reg,
    NoDup (map fst members) →
    Forall (λ nv, is_leaf nv.2 = true) members →
    (∀ n, n ∈ map fst members →
       dict_get (ProtoDef.reg_types reg) (ProtoDef.full_name prefix n) = None
       ∧ dict_get (ProtoDef.reg_services reg) (ProtoDef.full_name prefix n) = None) →
    ProtoDef.parse_items parse_nested members prefix reg
    = Ok (ProtoDef.mk_registry
            (ProtoDef.reg_types reg ++ registered ProtoDef.is_message prefix members)
            (ProtoDef.reg_services reg ++ registered ProtoDef.is_service prefix members)).
Proof.
  induction members as [|[n v] members IH]; intros reg Hnd Hleaf Hfresh.
  - cbn. rewrite !app_nil_r. destruct reg; reflexivity.
  - cbn [map fst] in Hnd. apply NoDup_cons in Hnd as [Hn Hnd].
    apply Forall_cons in Hleaf as [Hv Hleaf]. cbn [snd] in Hv.
    destruct v as [| | | | | |d]; try discriminate. cbn [is_leaf] in Hv.
    apply negb_true_iff in Hv.
    destruct (Hfresh n ltac:(left)) as [Ht Hs].
    assert (∀ reg1,
              (∀ n', n' ∈ map fst members →
                 dict_get (ProtoDef.reg_types reg1) (ProtoDef.full_name prefix n') = None
                 ∧ dict_get (ProtoDef.reg_services reg1) (ProtoDef.full_name prefix n')
                   = None) →
              ProtoDef.parse_items parse_nested members prefix reg1
              = Ok (ProtoDef.mk_registry
                      (ProtoDef.reg_types reg1
                       ++ registered ProtoDef.is_message prefix members)
                      (ProtoDef.reg_services reg1
                       ++ registered ProtoDef.is_service prefix members))) as Hrest.
    { intros reg1 H1. apply IH; assumption. }
    assert (∀ n', n' ∈ map fst members → n ≠ n') as Hne.
    { intros n' Hin ->. contradiction. }
    cbn [ProtoDef.parse_items]. unfold ProtoDef.register.
    cbn [py_contains mbind result_bind]. rewrite Hv.
    unfold registered. cbn [List.filter snd fst ProtoDef.is_message ProtoDef.is_service].
    destruct (dict_has d "fields") eqn:Hf; cbn [mbind result_bind negb andb].
    + rewrite Hrest.
      * cbn [ProtoDef.reg_types ProtoDef.reg_services map fst snd].
        rewrite dict_set_fresh by assumption. rewrite <- app_assoc. reflexivity.
      * intros n' Hin. cbn [ProtoDef.reg_types ProtoDef.reg_services].
        rewrite dict_set_fresh by assumption.
        rewrite dict_get_snoc_ne.
        -- apply Hfresh. right. assumption.
        -- intros Heq. apply full_name_inj in Heq. apply (Hne n' Hin Heq).
    + destruct (dict_has d "methods") eqn:Hm; cbn [mbind result_bind].
      * rewrite Hrest.
        -- cbn [ProtoDef.reg_types ProtoDef.reg_services map fst snd].
           rewrite dict_set_fresh by assumption. rewrite <- app_assoc. reflexivity.
        -- intros n' Hin. cbn [ProtoDef.reg_types ProtoDef.reg_services].
           rewrite dict_set_fresh by assumption.
           rewrite dict_get_snoc_ne.
           ++ apply Hfresh. right. assumption.
           ++ intros Heq. apply full_name_inj in Heq. apply (Hne n' Hin Heq).
      * apply Hrest. intros n' Hin. apply Hfresh. right. assumption.
Qed.

Lemma init_package (name : string) (members : dict PyVal) :
  NoDup (map fst members) →
  Forall (λ nv, is_leaf nv.2 = true) members →
  ProtoDef.init (ProtoDef.package name members)
  = Ok (ProtoDef.mk_registry (registered ProtoDef.is_message name members)
          (registered ProtoDef.is_service name members)).
Proof.
  intros Hnd Hleaf. unfold ProtoDef.init, ProtoDef._parse_proto_def.
  assert (∃ f, S (Codec.depth (ProtoDef.package name members)) = S (S (S f)))
    as [f ->].
  { eexists. unfold ProtoDef.package. cbn [Codec.depth map list_max foldr snd].
    rewrite !Nat.max_0_r. reflexivity. }
  unfold ProtoDef.package.
  cbn [ProtoDef.parse_fuel py_get dict_get String.eqb Ascii.eqb Bool.eqb mbind
         result_bind ProtoDef.parse_items ProtoDef.register py_contains dict_has].
  change (ProtoDef.full_name "" name) with name.
  rewrite (parse_items_leaves _ name members _ Hnd Hleaf); [reflexivity |].
  intros n Hn. split; reflexivity.
Qed.



(** ** Statistics of one record *)

Lemma update_seat_spec stats seat f stats' :
  Analyze.update_seat stats seat f = Ok stats' →
  ∃ st, stats !! seat = Some st ∧ stats' = <[seat := f st]> stats.
Proof.
  unfold Analyze.update_seat. destruct (stats !! seat) as [st|]; [| discriminate].
  intros H. injection H as <-. eauto.
Qed.

Lemma update_seat_dom stats seat f stats' :
  Analyze.update_seat stats seat f = Ok stats' → seat_dom stats →
  seat_dom stats' ∧ 0 ≤ seat < 4.
Proof.
  intros H Hdom. apply update_seat_spec in H as (st & Hst & ->).
  assert (0 ≤ seat < 4) as Hseat by (apply Hdom; eauto).
  split; [| assumption]. intros i.
  destruct (decide (i = seat)) as [-> | Hne].
  - rewrite lookup_insert_eq. split; eauto.
  - rewrite lookup_insert_ne by congruence. apply Hdom.
Qed.

Lemma update_seat_returns stats seat f :
  seat_dom stats → 0 ≤ seat < 4 → ∃ stats', Analyze.update_seat stats seat f = Ok stats'.
Proof.
  intros Hdom Hseat. unfold Analyze.update_seat.
  destruct (proj2 (Hdom seat) Hseat) as [st ->]. eauto.
Qed.

(** What an update leaves of a property of the entries *)
Lemma update_seat_keeps (P : Z → Analyze.SeatStats → Prop) stats seat f stats' :
  Analyze.update_seat stats seat f = Ok stats' →
  (∀ s, stats !! seat = Some s → P seat s → P seat (f s)) →
  (∀ i s, stats !! i = Some s → P i s) →
  ∀ i s, stats' !! i = Some s → P i s.
Proof.
  intros H Hf HP i s Hi. apply update_seat_spec in H as (st & Hst & ->).
  destruct (decide (i = seat)) as [-> | Hne].
  - rewrite lookup_insert_eq in Hi. injection Hi as <-. apply Hf; auto.
  - rewrite lookup_insert_ne in Hi by congruence. auto.
Qed.

Lemma total_insert (F : Analyze.SeatStats → Z) stats seat st st' :
  0 ≤ seat < 4 → stats !! seat = Some st →
  Analyze.total F (<[seat := st']> stats) = Analyze.total F stats + F st' - F st.
Proof.
  intros Hseat Hst. unfold Analyze.total, Analyze.range4. cbn [foldr].
  assert (seat = 0 ∨ seat = 1 ∨ seat = 2 ∨ seat = 3) as Hcases by lia.
  destruct Hcases as [-> | [-> | [-> | ->]]];
    rewrite ?lookup_insert_eq, ?Hst;
    rewrite ?lookup_insert_ne by lia;
    rewrite ?lookup_insert_eq, ?Hst;
    repeat match goal with |- context [stats !! ?i] => destruct (stats !! i) end;
    lia.
Qed.

Lemma update_seat_total (F : Analyze.SeatStats → Z) stats seat f stats' :
  seat_dom stats →
  Analyze.update_seat stats seat f = Ok stats' →
  ∃ st, stats !! seat = Some st
    ∧ Analyze.total F stats' = Analyze.total F stats + F (f st) - F st.
Proof.
  intros Hdom H. destruct (update_seat_dom _ _ _ _ H Hdom) as [_ Hseat].
  apply update_seat_spec in H as (st & Hst & ->).
  exists st. split; [assumption |]. apply total_insert; assumption.
Qed.

Lemma flush_furo_spec furo (seats : list Z) :
  ∀ stats stats',
    Analyze.flush_furo seats furo stats = Ok stats' → NoDup seats → seat_dom stats →
    seat_dom stats'
    ∧ (∀ i s', stats' !! i = Some s' →
         ∃ s, stats !! i = Some s
           ∧ s' = if bool_decide (i ∈ seats) && called furo i
                  then Analyze.add_furo s else s)
    ∧ (∀ F : Analyze.SeatStats → Z, (∀ s, F (Analyze.add_furo s) = F s) →
         Analyze.total F stats' = Analyze.total F stats).
Proof.
  induction seats as [|i0 seats IH]; intros stats stats' H Hnd Hdom.
  - cbn in H. injection H as <-. split; [assumption |]. split; [| reflexivity].
    intros i s' Hi. exists s'. split; [assumption |].
    rewrite bool_decide_eq_false_2 by apply not_elem_of_nil. reflexivity.
  - apply NoDup_cons in Hnd as [Hfresh Hnd]. cbn [Analyze.flush_furo] in H.
    destruct (furo !! i0) as [c|] eqn:Hc; [| discriminate].
    destruct c.
    + destruct (Analyze.update_seat stats i0 Analyze.add_furo) as [stats1| |] eqn:Hu;
        cbn [mbind result_bind] in H; try discriminate.
      destruct (update_seat_dom _ _ _ _ Hu Hdom) as [Hdom1 _].
      destruct (update_seat_total (λ s, 0) _ _ _ _ Hdom Hu) as (st & Hst & _).
      destruct (IH stats1 stats' H Hnd Hdom1) as (Hdom' & Hlook & Htot).
      split; [assumption |]. split.
      * intros i s' Hi. destruct (Hlook i s' Hi) as (s1 & Hs1 & ->).
        apply update_seat_spec in Hu as (st' & Hst' & ->).
        rewrite Hst in Hst'. injection Hst' as <-.
        destruct (decide (i = i0)) as [-> | Hne].
        -- rewrite lookup_insert_eq in Hs1. injection Hs1 as <-.
           exists st. split; [assumption |].
           rewrite (bool_decide_eq_false_2 (i0 ∈ seats)) by assumption.
           rewrite (bool_decide_eq_true_2 (i0 ∈ i0 :: seats)) by left.
           unfold called. rewrite Hc. reflexivity.
        -- rewrite lookup_insert_ne in Hs1 by congruence.
           exists s1. split; [assumption |].
           assert (bool_decide (i ∈ i0 :: seats) = bool_decide (i ∈ seats)) as ->;
             [| reflexivity].
           apply bool_decide_ext. rewrite elem_of_cons. intuition congruence.
      * intros F HF. rewrite (Htot F HF).
        destruct (update_seat_total F _ _ _ _ Hdom Hu) as (st' & _ & ->).
        rewrite HF. lia.
    + cbn [mbind result_bind] in H.
      destruct (IH stats stats' H Hnd Hdom) as (Hdom' & Hlook & Htot).
      split; [assumption |]. split; [| assumption].
      intros i s' Hi. destruct (Hlook i s' Hi) as (s1 & Hs1 & ->).
      exists s1. split; [assumption |].
      destruct (decide (i = i0)) as [-> | Hne].
      * rewrite (bool_decide_eq_false_2 (i0 ∈ seats)) by assumption.
        unfold called. rewrite Hc. rewrite !andb_false_r. reflexivity.
      * assert (bool_decide (i ∈ i0 :: seats) = bool_decide (i ∈ seats)) as ->;
          [| reflexivity].
        apply bool_decide_ext. rewrite elem_of_cons. intuition congruence.
Qed.

Lemma bump_rounds_spec (seats : list Z) :
  ∀ stats stats',
    Analyze.bump_rounds seats stats = Ok stats' → NoDup seats → seat_dom stats →
    seat_dom stats'
    ∧ (∀ i s', stats' !! i = Some s' →
         ∃ s, stats !! i = Some s
           ∧ s' = if bool_decide (i ∈ seats) then Analyze.add_round s else s)
    ∧ (∀ F : Analyze.SeatStats → Z, (∀ s, F (Analyze.add_round s) = F s) →
         Analyze.total F stats' = Analyze.total F stats).
Proof.
  induction seats as [|i0 seats IH]; intros stats stats' H Hnd Hdom.
  - cbn in H. injection H as <-. split; [assumption |]. split; [| reflexivity].
    intros i s' Hi. exists s'. split; [assumption |].
    rewrite bool_decide_eq_false_2 by apply not_elem_of_nil. reflexivity.
  - apply NoDup_cons in Hnd as [Hfresh Hnd]. cbn [Analyze.bump_rounds] in H.
    destruct (Analyze.update_seat stats i0 Analyze.add_round) as [stats1| |] eqn:Hu;
      cbn [mbind result_bind] in H; try discriminate.
    destruct (update_seat_dom _ _ _ _ Hu Hdom) as [Hdom1 _].
    destruct (update_seat_total (λ s, 0) _ _ _ _ Hdom Hu) as (st & Hst & _).
    destruct (IH stats1 stats' H Hnd Hdom1) as (Hdom' & Hlook & Htot).
    split; [assumption |]. split.
    + intros i s' Hi. destruct (Hlook i s' Hi) as (s1 & Hs1 & ->).
      apply update_seat_spec in Hu as (st' & Hst' & ->).
      rewrite Hst in Hst'. injection Hst' as <-.
      destruct (decide (i = i0)) as [-> | Hne].
      * rewrite lookup_insert_eq in Hs1. injection Hs1 as <-.
        exists st. split; [assumption |].
        rewrite (bool_decide_eq_false_2 (i0 ∈ seats)) by assumption.
        rewrite (bool_decide_eq_true_2 (i0 ∈ i0 :: seats)) by left. reflexivity.
      * rewrite lookup_insert_ne in Hs1 by congruence.
        exists s1. split; [assumption |].
        assert (bool_decide (i ∈ i0 :: seats) = bool_decide (i ∈ seats)) as ->;
          [| reflexivity].
        apply bool_decide_ext. rewrite elem_of_cons. intuition congruence.
    + intros F HF. rewrite (Htot F HF).
      destruct (update_seat_total F _ _ _ _ Hdom Hu) as (st' & _ & ->).
      rewrite HF. lia.
Qed.

Lemma range4_NoDup : NoDup Analyze.range4.
Proof.
  unfold Analyze.range4.
  repeat (apply NoDup_cons; split; [rewrite ?elem_of_cons, ?elem_of_nil; lia |]).
  apply NoDup_nil_2.
Qed.

Lemma range4_elem (i : Z) : i ∈ Analyze.range4 ↔ 0 ≤ i < 4.
Proof. unfold Analyze.range4. rewrite ?elem_of_cons, elem_of_nil. lia. Qed.

Lemma flush_furo_returns furo (seats : list Z) :
  ∀ stats,
    seat_dom stats → furo_dom furo → Forall (λ i, 0 ≤ i < 4) seats →
    ∃ stats', Analyze.flush_furo seats furo stats = Ok stats'.
Proof.
  induction seats as [|i0 seats IH]; intros stats Hdom Hfuro Hseats; [cbn; eauto |].
  apply Forall_cons in Hseats as [Hi0 Hseats]. cbn [Analyze.flush_furo].
  destruct (Hfuro i0 Hi0) as [c ->]. destruct c; cbn [mbind result_bind].
  - destruct (update_seat_returns stats i0 Analyze.add_furo Hdom Hi0) as [stats1 Hu].
    rewrite Hu. cbn [mbind result_bind]. apply IH; [| assumption | assumption].
    apply (update_seat_dom _ _ _ _ Hu Hdom).
  - apply IH; assumption.
Qed.

Lemma bump_rounds_returns (seats : list Z) :
  ∀ stats,
    seat_dom stats → Forall (λ i, 0 ≤ i < 4) seats →
    ∃ stats', Analyze.bump_rounds seats stats = Ok stats'.
Proof.
  induction seats as [|i0 seats IH]; intros stats Hdom Hseats; [cbn; eauto |].
  apply Forall_cons in Hseats as [Hi0 Hseats]. cbn [Analyze.bump_rounds].
  destruct (update_seat_returns stats i0 Analyze.add_round Hdom Hi0) as [stats1 Hu].
  rewrite Hu. cbn [mbind result_bind]. apply IH; [| assumption].
  apply (update_seat_dom _ _ _ _ Hu Hdom).
Qed.

Lemma deal_in_index_bound (delta_scores : list Z) :
  ∀ i min_delta winner_seat j,
    Analyze.deal_in_index i delta_scores min_delta winner_seat = Some j →
    i ≤ j < i + len delta_scores.
Proof.
  induction delta_scores as [|delta rest IH]; intros i min_delta winner_seat j H;
    [discriminate |].
  cbn [Analyze.deal_in_index] in H. unfold len. cbn [length].
  destruct ((delta =? min_delta) && negb (i =? winner_seat) && (delta <? 0)).
  - injection H as <-. lia.
  - apply IH in H. unfold len in H. lia.
Qed.

(** One win: the winner's counters and at most one other seat's deal-in
    counters change. *)
Lemma hule_step_spec delta_scores_ stats (hule : Analyze.Hule) stats' :
  Analyze.hule_step delta_scores_ stats hule = Ok stats' → seat_dom stats →
  seat_dom stats'
  ∧ (∀ P : Z → Analyze.SeatStats → Prop,
       (∀ i s d, P i s → P i (Analyze.add_win d s)) →
       (∀ i s d, P i s → P i (Analyze.add_deal_in d s)) →
       (∀ i s, stats !! i = Some s → P i s) →
       ∀ i s, stats' !! i = Some s → P i s)
  ∧ Analyze.total Analyze.win_count stats' = Analyze.total Analyze.win_count stats + 1
  ∧ Analyze.total Analyze.win_points stats'
    = Analyze.total Analyze.win_points stats + default 0 (Analyze.hule_dadian hule)
  ∧ Analyze.total Analyze.deal_in_count stats
    ≤ Analyze.total Analyze.deal_in_count stats'
    ≤ Analyze.total Analyze.deal_in_count stats
      + (if default false (Analyze.hule_zimo hule) then 0 else 1).
Proof.
  intros H Hdom. unfold Analyze.hule_step in H.
  destruct (Analyze.update_seat stats (default 0 (Analyze.hule_seat hule))
              (Analyze.add_win (default 0 (Analyze.hule_dadian hule))))
    as [stats1| |] eqn:Hu; cbn [mbind result_bind] in H; try discriminate.
  destruct (update_seat_dom _ _ _ _ Hu Hdom) as [Hdom1 _].
  destruct (update_seat_total Analyze.win_count _ _ _ _ Hdom Hu) as (st & Hst & Hw).
  destruct (update_seat_total Analyze.win_points _ _ _ _ Hdom Hu) as (st1 & Hst1 & Hp).
  destruct (update_seat_total Analyze.deal_in_count _ _ _ _ Hdom Hu)
    as (st2 & Hst2 & Hd).
  rewrite Hst in Hst1, Hst2. injection Hst1 as <-. injection Hst2 as <-.
  cbn [Analyze.add_win Analyze.win_count Analyze.win_points Analyze.deal_in_count]
    in Hw, Hp, Hd.
  assert (∀ P : Z → Analyze.SeatStats → Prop,
            (∀ i s d, P i s → P i (Analyze.add_win d s)) →
            (∀ i s, stats !! i = Some s → P i s) →
            ∀ i s, stats1 !! i = Some s → P i s) as Hkeep1.
  { intros P Hwin HP. apply (update_seat_keeps P _ _ _ _ Hu); [| assumption].
    intros s _. apply Hwin. }
  assert (seat_dom stats1
          ∧ (∀ P : Z → Analyze.SeatStats → Prop,
               (∀ i s d, P i s → P i (Analyze.add_win d s)) →
               (∀ i s d, P i s → P i (Analyze.add_deal_in d s)) →
               (∀ i s, stats !! i = Some s → P i s) →
               ∀ i s, stats1 !! i = Some s → P i s)
          ∧ Analyze.total Analyze.win_count stats1
            = Analyze.total Analyze.win_count stats + 1
          ∧ Analyze.total Analyze.win_points stats1
            = Analyze.total Analyze.win_points stats
              + default 0 (Analyze.hule_dadian hule)
          ∧ Analyze.total Analyze.deal_in_count stats
            ≤ Analyze.total Analyze.deal_in_count stats1
            ≤ Analyze.total Analyze.deal_in_count stats
              + (if default false (Analyze.hule_zimo hule) then 0 else 1)) as Hsame.
  { split; [assumption |]. split; [intros P Hwin _; apply Hkeep1; assumption |].
    split; [lia |]. split; [lia |]. destruct (default false _); lia. }
  destruct (default false (Analyze.hule_zimo hule)) eqn:Hz; cbn [negb] in H.
  { injection H as <-. assumption. }
  destruct (default [] delta_scores_) as [|first others];
    [injection H as <-; assumption |].
  destruct (Analyze.deal_in_index 0 (first :: others) _ _) as [j|];
    [| injection H as <-; assumption].
  destruct (update_seat_dom _ _ _ _ H Hdom1) as [Hdom2 _].
  destruct (update_seat_total Analyze.win_count _ _ _ _ Hdom1 H) as (t & Ht & Hw2).
  destruct (update_seat_total Analyze.win_points _ _ _ _ Hdom1 H) as (t1 & Ht1 & Hp2).
  destruct (update_seat_total Analyze.deal_in_count _ _ _ _ Hdom1 H)
    as (t2 & Ht2 & Hd2).
  rewrite Ht in Ht1, Ht2. injection Ht1 as <-. injection Ht2 as <-.
  cbn [Analyze.add_deal_in Analyze.win_count Analyze.win_points
         Analyze.deal_in_count] in Hw2, Hp2, Hd2.
  split; [assumption |]. split; [| split; [lia | split; lia]].
  intros P Hwin Hdeal HP.
  apply (update_seat_keeps P _ _ _ _ H); [intros s _; apply Hdeal |].
  apply Hkeep1; assumption.
Qed.

Lemma hule_loop_spec delta_scores_ (hules : list Analyze.Hule) :
  ∀ stats stats',
    Analyze.hule_loop delta_scores_ hules stats = Ok stats' → seat_dom stats →
    seat_dom stats'
    ∧ (∀ P : Z → Analyze.SeatStats → Prop,
         (∀ i s d, P i s → P i (Analyze.add_win d s)) →
         (∀ i s d, P i s → P i (Analyze.add_deal_in d s)) →
         (∀ i s, stats !! i = Some s → P i s) →
         ∀ i s, stats' !! i = Some s → P i s)
    ∧ Analyze.total Analyze.win_count stats'
      = Analyze.total Analyze.win_count stats + len hules
    ∧ Analyze.total Analyze.win_points stats'
      = Analyze.total Analyze.win_points stats + sum_dadian hules
    ∧ Analyze.total Analyze.deal_in_count stats
      ≤ Analyze.total Analyze.deal_in_count stats'
      ≤ Analyze.total Analyze.deal_in_count stats + len (by_discard hules).
Proof.
  induction hules as [|hule hules IH]; intros stats stats' H Hdom.
  - cbn in H. injection H as <-. unfold len. cbn. split; [assumption |].
    split; [auto |]. lia.
  - cbn [Analyze.hule_loop] in H.
    destruct (Analyze.hule_step delta_scores_ stats hule) as [stats1| |] eqn:Hs;
      cbn [mbind result_bind] in H; try discriminate.
    destruct (hule_step_spec _ _ _ _ Hs Hdom) as (Hdom1 & Hk1 & Hw1 & Hp1 & Hd1).
    destruct (IH stats1 stats' H Hdom1) as (Hdom' & Hk & Hw & Hp & Hd).
    split; [assumption |]. split; [| split; [| split]].
    + intros P Hwin Hdeal HP. apply Hk; [assumption | assumption |].
      apply Hk1; assumption.
    + rewrite Hw, Hw1. unfold len. cbn [length]. lia.
    + rewrite Hp, Hp1. cbn [sum_dadian foldr]. fold (sum_dadian hules). lia.
    + unfold by_discard. cbn [List.filter]. fold (by_discard hules).
      destruct (default false (Analyze.hule_zimo hule)); cbn [negb];
        unfold len in *; cbn [length]; lia.
Qed.

Lemma hule_loop_returns delta_scores_ (hules : list Analyze.Hule) :
  ∀ stats,
    seat_dom stats →
    Forall (λ h, 0 ≤ default 0 (Analyze.hule_seat h) < 4) hules →
    (length (default [] delta_scores_) ≤ 4)%nat →
    ∃ stats', Analyze.hule_loop delta_scores_ hules stats = Ok stats'.
Proof.
  induction hules as [|hule hules IH]; intros stats Hdom Hseats Hlen; [cbn; eauto |].
  apply Forall_cons in Hseats as [Hseat Hseats]. cbn [Analyze.hule_loop].
  assert (∃ stats1, Analyze.hule_step delta_scores_ stats hule = Ok stats1)
    as [stats1 Hs].
  { unfold Analyze.hule_step.
    destruct (update_seat_returns stats _
                (Analyze.add_win (default 0 (Analyze.hule_dadian hule))) Hdom Hseat)
      as [stats1 Hu].
    rewrite Hu. cbn [mbind result_bind].
    destruct (update_seat_dom _ _ _ _ Hu Hdom) as [Hdom1 _].
    destruct (negb _); [| eauto].
    destruct (default [] delta_scores_) as [|first others] eqn:Hds; [eauto |].
    destruct (Analyze.deal_in_index 0 (first :: others) _ _) as [j|] eqn:Hj;
      [| eauto].
    apply deal_in_index_bound in Hj. apply update_seat_returns; [assumption |].
    unfold len in Hj. lia. }
  rewrite Hs. cbn [mbind result_bind]. apply IH; [| assumption | assumption].
  apply (hule_step_spec _ _ _ _ Hs Hdom).
Qed.

Lemma count_type_snoc t (seen : list Analyze.Action) (a : Analyze.Action) :
  Analyze.count_type t (seen ++ [a])
  = Analyze.count_type t seen + (if String.eqb (Analyze.action_type a) t then 1 else 0).
Proof.
  unfold Analyze.count_type. rewrite List.filter_app, len_app. cbn [List.filter].
  destruct (String.eqb (Analyze.action_type a) t); reflexivity.
Qed.

Lemma starts_round_snoc (seen : list Analyze.Action) (a : Analyze.Action) :
  Analyze.starts_round (seen ++ [a])
  = match seen with
    | [] => if String.eqb (Analyze.action_type a) "RecordNewRound" then 1 else 0
    | _ :: _ => Analyze.starts_round seen
    end.
Proof. destruct seen; reflexivity. Qed.

Lemma all_hules_snoc (seen : list Analyze.Action) (a : Analyze.Action) :
  Analyze.all_hules (seen ++ [a])
  = Analyze.all_hules seen
    ++ (if String.eqb (Analyze.action_type a) "RecordHule"
        then default [] (Analyze.hules a) else []).
Proof.
  unfold Analyze.all_hules. rewrite map_app, concat_app. cbn [map concat].
  rewrite app_nil_r. reflexivity.
Qed.

Lemma sum_dadian_app (h1 h2 : list Analyze.Hule) :
  sum_dadian (h1 ++ h2) = sum_dadian h1 + sum_dadian h2.
Proof.
  induction h1 as [|h h1 IH]; [reflexivity |].
  cbn [app sum_dadian foldr]. fold (sum_dadian (h1 ++ h2)). fold (sum_dadian h1). lia.
Qed.

Lemma by_discard_app (h1 h2 : list Analyze.Hule) :
  by_discard (h1 ++ h2) = by_discard h1 ++ by_discard h2.
Proof. apply List.filter_app. Qed.

Lemma furo_init_dom : furo_dom Analyze.furo_init.
Proof.
  intros i Hi. assert (i = 0 ∨ i = 1 ∨ i = 2 ∨ i = 3) as Hc by lia.
  destruct Hc as [-> | [-> | [-> | ->]]]; exists false; reflexivity.
Qed.

Lemma furo_init_called (i : Z) : called Analyze.furo_init i = false.
Proof.
  destruct (decide (i = 0)) as [-> | H0]; [reflexivity |].
  destruct (decide (i = 1)) as [-> | H1]; [reflexivity |].
  destruct (decide (i = 2)) as [-> | H2]; [reflexivity |].
  destruct (decide (i = 3)) as [-> | H3]; [reflexivity |].
  unfold called, Analyze.furo_init. rewrite !lookup_insert_ne by congruence.
  rewrite lookup_empty. reflexivity.
Qed.

Lemma stats_init_dom : seat_dom Analyze.stats_init.
Proof.
  intros i. unfold Analyze.stats_init. split.
  - intros [s Hs].
    destruct (decide (i = 0)) as [-> | H0]; [lia |].
    destruct (decide (i = 1)) as [-> | H1]; [lia |].
    destruct (decide (i = 2)) as [-> | H2]; [lia |].
    destruct (decide (i = 3)) as [-> | H3]; [lia |].
    rewrite !lookup_insert_ne in Hs by congruence.
    rewrite lookup_empty in Hs. discriminate.
  - intros Hi. assert (i = 0 ∨ i = 1 ∨ i = 2 ∨ i = 3) as Hc by lia.
    destruct Hc as [-> | [-> | [-> | ->]]]; exists Analyze.seat_init; reflexivity.
Qed.

Lemma stats_init_entry (i : Z) s :
  Analyze.stats_init !! i = Some s → s = Analyze.seat_init.
Proof.
  intros Hs.
  destruct (decide (i = 0)) as [-> | H0]; [injection Hs as <-; reflexivity |].
  destruct (decide (i = 1)) as [-> | H1]; [injection Hs as <-; reflexivity |].
  destruct (decide (i = 2)) as [-> | H2]; [injection Hs as <-; reflexivity |].
  destruct (decide (i = 3)) as [-> | H3]; [injection Hs as <-; reflexivity |].
  unfold Analyze.stats_init in Hs. rewrite !lookup_insert_ne in Hs by congruence.
  rewrite lookup_empty in Hs. discriminate.
Qed.

Lemma note_scores_inv seen st (a : Analyze.Action) :
  analyze_inv seen st → analyze_inv seen (Analyze.note_scores st a).
Proof.
  intros Hinv. unfold Analyze.note_scores.
  destruct (_ || _); [| assumption].
  destruct (Analyze.scores a) as [[|x l]|]; try assumption.
  destruct Hinv as (H1 & H2 & _ & H4). split; [assumption |].
  split; [assumption |]. split; [discriminate | assumption].
Qed.

(** After an action that is no new round, the rounds seen are the same. *)
Lemma analyze_inv_other seen (a : Analyze.Action) stats fs furo :
  Analyze.action_type a ≠ "RecordNewRound" →
  seat_dom stats → furo_dom furo → fs ≠ Some [] →
  (∀ i s, stats !! i = Some s →
     entry_ok (Analyze.count_type "RecordNewRound" seen) (Analyze.starts_round seen) s) →
  Analyze.total Analyze.win_count stats = len (Analyze.all_hules (seen ++ [a])) →
  Analyze.total Analyze.win_points stats = sum_dadian (Analyze.all_hules (seen ++ [a])) →
  0 ≤ Analyze.total Analyze.deal_in_count stats
    ≤ len (by_discard (Analyze.all_hules (seen ++ [a]))) →
  analyze_inv (seen ++ [a]) (Analyze.mk_state stats fs furo).
Proof.
  intros Hty Hdom Hfuro Hfs Hentries Hw Hp Hd.
  split; [assumption |]. split; [assumption |]. split; [assumption |].
  split; [| split; [| split; [assumption | split; assumption]]].
  - cbn [Analyze.seat_stats]. intros i s Hs. specialize (Hentries i s Hs).
    rewrite count_type_snoc, starts_round_snoc.
    destruct (String.eqb_spec (Analyze.action_type a) "RecordNewRound");
      [contradiction |].
    rewrite Z.add_0_r. destruct seen; assumption.
  - intros Hnil. destruct seen; discriminate.
Qed.

Lemma count_action_inv seen st (a : Analyze.Action) st1 :
  analyze_inv seen st → Analyze.count_action st a = Ok st1 →
  analyze_inv (seen ++ [a]) st1.
Proof.
  intros (Hdom & Hfuro & Hfs & Hentries & Hfresh & Hw & Hp & Hd) H.
  destruct st as [stats fs furo].
  cbn [Analyze.seat_stats Analyze.final_scores Analyze.current_round_furo] in *.
  unfold Analyze.count_action in H.
  cbn [Analyze.seat_stats Analyze.final_scores Analyze.current_round_furo] in H.
  destruct (String.eqb_spec (Analyze.action_type a) "RecordNewRound") as [Hty | Hty].
  { destruct (Analyze.flush_furo Analyze.range4 furo stats) as [stats1| |] eqn:Hf;
      cbn [mbind result_bind] in H; try discriminate.
    destruct (Analyze.bump_rounds Analyze.range4 stats1) as [stats2| |] eqn:Hb;
      cbn [mbind result_bind] in H; try discriminate.
    injection H as <-.
    destruct (flush_furo_spec _ _ _ _ Hf range4_NoDup Hdom) as (Hdom1 & Hlook1 & Htot1).
    destruct (bump_rounds_spec _ _ _ Hb range4_NoDup Hdom1) as (Hdom2 & Hlook2 & Htot2).
    assert (Analyze.all_hules (seen ++ [a]) = Analyze.all_hules seen) as Hsame.
    { rewrite all_hules_snoc, Hty. cbn. apply app_nil_r. }
    split; [assumption |]. split; [apply furo_init_dom |]. split; [assumption |].
    cbn [Analyze.seat_stats Analyze.final_scores Analyze.current_round_furo].
    split; [| split; [| split; [| split]]].
    - intros i s Hs. destruct (Hlook2 i s Hs) as (s1 & Hs1 & ->).
      destruct (Hlook1 i s1 Hs1) as (s0 & Hs0 & ->).
      assert (i ∈ Analyze.range4) as Hi by (apply range4_elem, Hdom; eauto).
      rewrite !(bool_decide_eq_true_2 _ Hi). cbn [andb].
      destruct (Hentries i s0 Hs0) as (Hr & H0 & Hu).
      rewrite count_type_snoc, starts_round_snoc, Hty. cbn [String.eqb Ascii.eqb Bool.eqb].
      destruct seen as [|x seen].
      + rewrite (Hfresh eq_refl i). unfold entry_ok.
        cbn [Analyze.add_round Analyze.round_count Analyze.furo_round_count].
        change (Analyze.count_type "RecordNewRound" []) with 0 in *.
        change (Analyze.starts_round []) with 0 in *. lia.
      + destruct (called furo i); unfold entry_ok;
          cbn [Analyze.add_round Analyze.add_furo Analyze.round_count
                 Analyze.furo_round_count]; lia.
    - intros Hnil. destruct seen; discriminate.
    - rewrite Hsame, <- Hw, (Htot2 Analyze.win_count), (Htot1 Analyze.win_count);
        reflexivity.
    - rewrite Hsame, <- Hp, (Htot2 Analyze.win_points), (Htot1 Analyze.win_points);
        reflexivity.
    - rewrite Hsame, (Htot2 Analyze.deal_in_count), (Htot1 Analyze.deal_in_count);
        [assumption | reflexivity | reflexivity]. }
  destruct (String.eqb_spec (Analyze.action_type a) "RecordDiscardTile") as [Hdt | Hdt].
  { assert (Analyze.all_hules (seen ++ [a]) = Analyze.all_hules seen) as Hsame.
    { rewrite all_hules_snoc, Hdt. cbn. apply app_nil_r. }
    destruct (default false (Analyze.is_liqi a)).
    - destruct (Analyze.update_seat stats _ Analyze.add_riichi) as [stats1| |] eqn:Hu;
        cbn [mbind result_bind] in H; try discriminate.
      injection H as <-.
      destruct (update_seat_dom _ _ _ _ Hu Hdom) as [Hdom1 _].
      destruct (update_seat_total Analyze.win_count _ _ _ _ Hdom Hu) as (t & _ & Hw1).
      destruct (update_seat_total Analyze.win_points _ _ _ _ Hdom Hu) as (t1 & _ & Hp1).
      destruct (update_seat_total Analyze.deal_in_count _ _ _ _ Hdom Hu)
        as (t2 & _ & Hd1).
      cbn [Analyze.add_riichi Analyze.win_count Analyze.win_points
             Analyze.deal_in_count] in Hw1, Hp1, Hd1.
      apply analyze_inv_other; try assumption; rewrite ?Hsame; try lia.
      apply (update_seat_keeps (λ _ s, entry_ok _ _ s) _ _ _ _ Hu); [| assumption].
      intros s _ Hs. exact Hs.
    - injection H as <-. apply analyze_inv_other; try assumption; rewrite Hsame;
        assumption. }
  destruct (String.eqb_spec (Analyze.action_type a) "RecordChiPengGang") as [Hcp | Hcp].
  { assert (Analyze.all_hules (seen ++ [a]) = Analyze.all_hules seen) as Hsame.
    { rewrite all_hules_snoc, Hcp. cbn. apply app_nil_r. }
    injection H as <-. apply analyze_inv_other; try assumption; rewrite ?Hsame;
      try assumption.
    intros i Hi. destruct (decide (i = default 0 (Analyze.seat a))) as [-> | Hne].
    - rewrite lookup_insert_eq. eauto.
    - rewrite lookup_insert_ne by congruence. apply Hfuro. assumption. }
  destruct (String.eqb_spec (Analyze.action_type a) "RecordHule") as [Hh | Hh].
  { destruct (Analyze.hule_loop _ _ stats) as [stats1| |] eqn:Hl;
      cbn [mbind result_bind] in H; try discriminate.
    injection H as <-.
    destruct (hule_loop_spec _ _ _ _ Hl Hdom) as (Hdom1 & Hk & Hw1 & Hp1 & Hd1).
    assert (Analyze.all_hules (seen ++ [a])
            = Analyze.all_hules seen ++ default [] (Analyze.hules a)) as Hall.
    { rewrite all_hules_snoc, Hh. reflexivity. }
    apply analyze_inv_other; try assumption.
    - apply (Hk (λ _ s, entry_ok _ _ s)); [| | assumption]; intros i s d Hs; exact Hs.
    - rewrite Hall, len_app. lia.
    - rewrite Hall, sum_dadian_app. lia.
    - rewrite Hall, by_discard_app, len_app. lia. }
  injection H as <-.
  assert (Analyze.all_hules (seen ++ [a]) = Analyze.all_hules seen) as Hsame.
  { rewrite all_hules_snoc.
    destruct (String.eqb_spec (Analyze.action_type a) "RecordHule"); [contradiction |].
    apply app_nil_r. }
  apply analyze_inv_other; try assumption; rewrite Hsame; assumption.
Qed.

Lemma action_loop_inv (actions : list Analyze.Action) :
  ∀ seen st st',
    analyze_inv seen st → Analyze.action_loop actions st = Ok st' →
    analyze_inv (seen ++ actions) st'.
Proof.
  induction actions as [|a actions IH]; intros seen st st' Hinv H.
  - cbn in H. injection H as <-. rewrite app_nil_r. assumption.
  - cbn [Analyze.action_loop] in H.
    destruct (Analyze.count_action st a) as [st1| |] eqn:Hc;
      cbn [mbind result_bind] in H; try discriminate.
    replace (seen ++ a :: actions) with ((seen ++ [a]) ++ actions)
      by (rewrite <- app_assoc; reflexivity).
    apply (IH _ (Analyze.note_scores st1 a)); [| assumption].
    apply note_scores_inv. eapply count_action_inv; eassumption.
Qed.

Lemma init_inv : analyze_inv [] (Analyze.mk_state Analyze.stats_init None Analyze.furo_init).
Proof.
  split; [apply stats_init_dom |]. split; [apply furo_init_dom |].
  split; [discriminate |].
  cbn [Analyze.seat_stats Analyze.final_scores Analyze.current_round_furo].
  split; [| split; [| split; [| split]]].
  - intros i s Hs. apply stats_init_entry in Hs as ->.
    unfold entry_ok, Analyze.count_type, Analyze.starts_round, len. cbn. lia.
  - intros _ i. apply furo_init_called.
  - reflexivity.
  - reflexivity.
  - assert (Analyze.total Analyze.deal_in_count Analyze.stats_init = 0) as ->
      by reflexivity.
    unfold len. cbn. lia.
Qed.

Lemma key_error_bind {A B} (r : result A) (f : A → result B) :
  key_error_only r → (∀ a, key_error_only (f a)) → key_error_only (r ≫= f).
Proof. destruct r; cbn; auto. Qed.

Lemma update_seat_key_error stats seat f :
  key_error_only (Analyze.update_seat stats seat f).
Proof. unfold Analyze.update_seat. destruct (stats !! seat); cbn; auto. Qed.

Lemma flush_furo_key_error furo (seats : list Z) :
  ∀ stats, key_error_only (Analyze.flush_furo seats furo stats).
Proof.
  induction seats as [|i seats IH]; intros stats; [exact I |].
  cbn [Analyze.flush_furo]. destruct (furo !! i) as [[|]|]; [| | reflexivity].
  - apply key_error_bind; [apply update_seat_key_error | apply IH].
  - apply IH.
Qed.

Lemma bump_rounds_key_error (seats : list Z) :
  ∀ stats, key_error_only (Analyze.bump_rounds seats stats).
Proof.
  induction seats as [|i seats IH]; intros stats; [exact I |].
  cbn [Analyze.bump_rounds].
  apply key_error_bind; [apply update_seat_key_error | apply IH].
Qed.

Lemma hule_loop_key_error delta_scores_ (hules : list Analyze.Hule) :
  ∀ stats, key_error_only (Analyze.hule_loop delta_scores_ hules stats).
Proof.
  induction hules as [|hule hules IH]; intros stats; [exact I |].
  cbn [Analyze.hule_loop]. apply key_error_bind; [| apply IH].
  unfold Analyze.hule_step.
  apply key_error_bind; [apply update_seat_key_error |]. intros stats1.
  destruct (negb _); [| exact I].
  destruct (default [] delta_scores_); [exact I |].
  destruct (Analyze.deal_in_index _ _ _ _); [apply update_seat_key_error | exact I].
Qed.

Lemma count_action_key_error st (a : Analyze.Action) :
  key_error_only (Analyze.count_action st a).
Proof.
  unfold Analyze.count_action.
  destruct (String.eqb _ "RecordNewRound").
  { apply key_error_bind; [apply flush_furo_key_error |]. intros stats1.
    apply key_error_bind; [apply bump_rounds_key_error |]. intros stats2. exact I. }
  destruct (String.eqb _ "RecordDiscardTile").
  { destruct (default false _); [| exact I].
    apply key_error_bind; [apply update_seat_key_error |]. intros stats1. exact I. }
  destruct (String.eqb _ "RecordChiPengGang"); [exact I |].
  destruct (String.eqb _ "RecordHule"); [| exact I].
  apply key_error_bind; [apply hule_loop_key_error |]. intros stats1. exact I.
Qed.

Lemma action_loop_key_error (actions : list Analyze.Action) :
  ∀ st, key_error_only (Analyze.action_loop actions st).
Proof.
  induction actions as [|a actions IH]; intros st; [exact I |].
  cbn [Analyze.action_loop].
  apply key_error_bind; [apply count_action_key_error |]. intros st1. apply IH.
Qed.

Lemma analyze_key_error (actions : list Analyze.Action) :
  key_error_only (Analyze.analyze_paipu_json actions).
Proof.
  unfold Analyze.analyze_paipu_json.
  apply key_error_bind; [apply action_loop_key_error |]. intros st.
  apply key_error_bind; [apply flush_furo_key_error |]. intros stats. exact I.
Qed.

(** What the function returns, from the invariant of its loop *)
Lemma analyze_result (actions : list Analyze.Action) stats fs :
  Analyze.analyze_paipu_json actions = Ok (stats, fs) →
  seat_dom stats ∧ fs ≠ Some []
  ∧ (∀ i s, stats !! i = Some s →
       Analyze.round_count s = Analyze.count_type "RecordNewRound" actions
       ∧ 0 ≤ Analyze.furo_round_count s
       ∧ Analyze.furo_round_count s + Analyze.starts_round actions
         ≤ Analyze.count_type "RecordNewRound" actions + 1)
  ∧ Analyze.total Analyze.win_count stats = len (Analyze.all_hules actions)
  ∧ Analyze.total Analyze.win_points stats = sum_dadian (Analyze.all_hules actions)
  ∧ 0 ≤ Analyze.total Analyze.deal_in_count stats
    ≤ len (by_discard (Analyze.all_hules actions)).
Proof.
  unfold Analyze.analyze_paipu_json. intros H.
  destruct (Analyze.action_loop actions _) as [st| |] eqn:Hloop;
    cbn [mbind result_bind] in H; try discriminate.
  destruct (Analyze.flush_furo Analyze.range4 _ _) as [stats'| |] eqn:Hf;
    cbn [mbind result_bind] in H; try discriminate.
  injection H as <- <-.
  pose proof (action_loop_inv actions [] _ st init_inv Hloop) as Hinv.
  cbn [app] in Hinv.
  destruct Hinv as (Hdom & Hfuro & Hfs & Hentries & _ & Hw & Hp & Hd).
  destruct (flush_furo_spec _ _ _ _ Hf range4_NoDup Hdom) as (Hdom' & Hlook & Htot).
  split; [assumption |]. split; [assumption |]. split; [| split; [| split]].
  - intros i s Hs. destruct (Hlook i s Hs) as (s0 & Hs0 & ->).
    destruct (Hentries i s0 Hs0) as (Hr & H0 & Hu).
    destruct (_ && _);
      cbn [Analyze.add_furo Analyze.round_count Analyze.furo_round_count]; lia.
  - rewrite (Htot Analyze.win_count); [assumption | reflexivity].
  - rewrite (Htot Analyze.win_points); [assumption | reflexivity].
  - rewrite (Htot Analyze.deal_in_count); [assumption | reflexivity].
Qed.

Lemma count_action_returns seen st (a : Analyze.Action) :
  analyze_inv seen st → Analyze.action_ok a →
  ∃ st1, Analyze.count_action st a = Ok st1.
Proof.
  intros (Hdom & Hfuro & _) [Hdiscard Hhule]. unfold Analyze.count_action.
  destruct (String.eqb_spec (Analyze.action_type a) "RecordNewRound") as [Hty | Hty].
  { destruct (flush_furo_returns (Analyze.current_round_furo st) Analyze.range4
                (Analyze.seat_stats st) Hdom Hfuro) as [stats1 Hf].
    { repeat constructor; lia. }
    rewrite Hf. cbn [mbind result_bind].
    destruct (bump_rounds_returns Analyze.range4 stats1) as [stats2 Hb].
    { apply (flush_furo_spec _ _ _ _ Hf range4_NoDup Hdom). }
    { repeat constructor; lia. }
    rewrite Hb. cbn [mbind result_bind]. eauto. }
  destruct (String.eqb_spec (Analyze.action_type a) "RecordDiscardTile") as [Hdt | Hdt].
  { destruct (default false (Analyze.is_liqi a)) eqn:Hl; [| eauto].
    destruct (update_seat_returns (Analyze.seat_stats st) (default 0 (Analyze.seat a))
                Analyze.add_riichi Hdom (Hdiscard Hdt eq_refl)) as [stats1 Hu].
    rewrite Hu. cbn [mbind result_bind]. eauto. }
  destruct (String.eqb_spec (Analyze.action_type a) "RecordChiPengGang"); [eauto |].
  destruct (String.eqb_spec (Analyze.action_type a) "RecordHule") as [Hh | Hh];
    [| eauto].
  destruct (Hhule Hh) as [Hseats Hlen].
  destruct (hule_loop_returns (Analyze.delta_scores a) (default [] (Analyze.hules a))
              (Analyze.seat_stats st) Hdom Hseats Hlen) as [stats1 Hl].
  rewrite Hl. cbn [mbind result_bind]. eauto.
Qed.

Lemma action_loop_returns (actions : list Analyze.Action) :
  ∀ seen st,
    analyze_inv seen st → Forall Analyze.action_ok actions →
    ∃ st', Analyze.action_loop actions st = Ok st' ∧ analyze_inv (seen ++ actions) st'.
Proof.
  induction actions as [|a actions IH]; intros seen st Hinv Hok.
  - exists st. rewrite app_nil_r. split; [reflexivity | assumption].
  - apply Forall_cons in Hok as [Ha Hok]. cbn [Analyze.action_loop].
    destruct (count_action_returns seen st a Hinv Ha) as [st1 H1].
    rewrite H1. cbn [mbind result_bind].
    replace (seen ++ a :: actions) with ((seen ++ [a]) ++ actions)
      by (rewrite <- app_assoc; reflexivity).
    apply IH; [| assumption].
    apply note_scores_inv. eapply count_action_inv; eassumption.
Qed.

Lemma analyze_on_table (actions : list Analyze.Action) :
  Forall Analyze.action_ok actions →
  ∃ stats fs, Analyze.analyze_paipu_json actions = Ok (stats, fs).
Proof.
  intros Hok. unfold Analyze.analyze_paipu_json.
  destruct (action_loop_returns actions [] _ init_inv Hok) as (st & Hloop & Hinv).
  rewrite Hloop. cbn [mbind result_bind].
  destruct Hinv as (Hdom & Hfuro & _).
  destruct (flush_furo_returns (Analyze.current_round_furo st) Analyze.range4
              (Analyze.seat_stats st) Hdom Hfuro) as [stats Hf].
  { repeat constructor; lia. }
  rewrite Hf. cbn [mbind result_bind]. eauto.
Qed.

Lemma action_loop_app (l1 l2 : list Analyze.Action) :
  ∀ st, Analyze.action_loop (l1 ++ l2) st
        = Analyze.action_loop l1 st ≫= Analyze.action_loop l2.
Proof.
  induction l1 as [|a l1 IH]; intros st; [reflexivity |].
  cbn [app Analyze.action_loop].
  destruct (Analyze.count_action st a); cbn [mbind result_bind]; [apply IH | auto ..].
Qed.

Lemma analyze_off_table (seen rest : list Analyze.Action) (a : Analyze.Action) :
  Forall Analyze.action_ok seen →
  Analyze.action_type a = "RecordDiscardTile" →
  Analyze.is_liqi a = Some true →
  ¬ 0 ≤ default 0 (Analyze.seat a) < 4 →
  Analyze.analyze_paipu_json (seen ++ a :: rest) = raise KeyError.
Proof.
  intros Hok Hty Hliqi Hseat. unfold Analyze.analyze_paipu_json.
  rewrite action_loop_app.
  destruct (action_loop_returns seen [] _ init_inv Hok) as (st & -> & Hinv).
  cbn [mbind result_bind Analyze.action_loop]. unfold Analyze.count_action.
  rewrite Hty, Hliqi. cbn [String.eqb Ascii.eqb Bool.eqb default].
  unfold Analyze.update_seat. destruct Hinv as (Hdom & _).
  destruct (Analyze.seat_stats st !! default 0 (Analyze.seat a)) as [s|] eqn:Hs;
    [| reflexivity].
  exfalso. apply Hseat. apply Hdom. eauto.
Qed.

(** X23 (analyze_paipu_json, rounds): the function returns or raises a
    [KeyError], nothing else.  In what it returns, [seat_stats] has the
    keys 0 to 3; the [round_count] of every seat is the number of
    [RecordNewRound] actions; [furo_round_count] is at most that number
    when the first action is a [RecordNewRound], and at most one more
    otherwise, the calls before the first new round counting as a round of
    their own; and [final_scores] is [None] or a list that is not empty. *)
Theorem analyze_rounds (actions : list Analyze.Action) :
  match Analyze.analyze_paipu_json actions with
  | Ok (stats, fs) =>
      seat_dom stats ∧ fs ≠ Some []
      ∧ ∀ i s, stats !! i = Some s →
          Analyze.round_count s = Analyze.count_type "RecordNewRound" actions
          ∧ 0 ≤ Analyze.furo_round_count s
          ∧ Analyze.furo_round_count s + Analyze.starts_round actions
            ≤ Analyze.count_type "RecordNewRound" actions + 1
  | Raise e => exn_class e = KeyError
  | OutOfFuel => False
  end.
Proof.
  pose proof (analyze_key_error actions) as Hk.
  pose proof (analyze_result actions) as Hr.
  destruct (Analyze.analyze_paipu_json actions) as [[stats fs]| |];
    [| exact Hk | exact Hk].
  destruct (Hr stats fs eq_refl) as (H1 & H2 & H3 & _). auto.
Qed.

(** X24 (analyze_paipu_json, wins): in what the function returns, the
    [win_count]s of the four seats add up to the number of entries of
    [hules] in the [RecordHule] actions, the [win_points] to the sum of
    their [dadian], and the [deal_in_count]s to at most the number of
    entries that are no [zimo]: a win by discard is charged to at most one
    seat. *)
Theorem analyze_wins (actions : list Analyze.Action) :
  match Analyze.analyze_paipu_json actions with
  | Ok (stats, fs) =>
      Analyze.total Analyze.win_count stats = len (Analyze.all_hules actions)
      ∧ Analyze.total Analyze.win_points stats = sum_dadian (Analyze.all_hules actions)
      ∧ 0 ≤ Analyze.total Analyze.deal_in_count stats
        ≤ len (by_discard (Analyze.all_hules actions))
  | Raise _ | OutOfFuel => True
  end.
Proof.
  pose proof (analyze_result actions) as Hr.
  destruct (Analyze.analyze_paipu_json actions) as [[stats fs]| |]; [| exact I ..].
  destruct (Hr stats fs eq_refl) as (_ & _ & _ & H4). exact H4.
Qed.



(** X26 (analyze_paipu_json, a seat off the table): after actions that
    name only seats of the table, a riichi discard by a seat that is none of
    0 to 3 raises [KeyError], whatever follows. *)
Theorem analyze_riichi_off_table (seen rest : list Analyze.Action) (a : Analyze.Action) :
  Forall Analyze.action_ok seen →
  Analyze.action_type a = "RecordDiscardTile" →
  Analyze.is_liqi a = Some true →
  ¬ 0 ≤ default 0 (Analyze.seat a) < 4 →
  Analyze.analyze_paipu_json (seen ++ a :: rest) = raise KeyError.
Proof. apply analyze_off_table. Qed.

Lemma analyze_riichi_off_table_witness :
  Analyze.analyze_paipu_json
    ([Analyze.mk_action "RecordNewRound" None None None None None]
     ++ Analyze.mk_action "RecordDiscardTile" (Some true) (Some 4) None None None
        :: [Analyze.mk_action "RecordNoTile" None None None None None])
  = raise KeyError.
Proof.
  apply (analyze_riichi_off_table
           [Analyze.mk_action "RecordNewRound" None None None None None]
           [Analyze.mk_action "RecordNoTile" None None None None None]
           (Analyze.mk_action "RecordDiscardTile" (Some true) (Some 4) None None None)).
  - repeat constructor; try discriminate; cbn; intros; try lia; try discriminate.
  - reflexivity.
  - reflexivity.
  - cbn. lia.
Defined.

Example analyze_sample :
  ∃ stats, Analyze.analyze_paipu_json sample_actions
           = Ok (stats, Some [26000; 16000; 34000; 24000])
    ∧ stats !! 1 = Some (Analyze.mk_seat 0 1 0 1 0 8000 2)
    ∧ stats !! 2 = Some (Analyze.mk_seat 1 0 1 0 8000 0 2).
Proof. eexists. split; [reflexivity |]. split; reflexivity. Qed.

(** ** The two parts of [parse_game_record] *)

Section PayloadFacts.

Variable pb : PbModule.
Variable b64decode : PyVal → result bytes.
Hypothesis pb_ok : pb_returns pb.
Hypothesis b64decode_returns : ∀ v, b64decode v ≠ OutOfFuel.

Lemma parse_action_returns (action : bytes) : Parser.parse_action pb action ≠ OutOfFuel.
Proof.
  destruct pb_ok as (Hw & _ & Hcls). unfold Parser.parse_action.
  destruct (Nat.eqb (length action) 0); [discriminate |].
  specialize (Hw action).
  destruct (pb_Wrapper pb action) as [[name data]| |]; cbn [mbind result_bind];
    [| discriminate | contradiction].
  destruct (pb_getattr pb _) as [msg_class|] eqn:Hg; [| discriminate].
  specialize (Hcls _ msg_class data Hg).
  destruct (msg_class data); cbn [mbind result_bind];
    [discriminate | discriminate | contradiction].
Qed.

Lemma parse_actions_returns (actions : list bytes) :
  ∀ acc, snd (Parser.parse_actions pb actions acc) ≠ OutOfFuel.
Proof.
  induction actions as [|a actions IH]; intros acc; [discriminate |].
  cbn [Parser.parse_actions]. pose proof (parse_action_returns a) as Ha.
  destruct (Parser.parse_action pb a) as [[entry|]| |];
    [apply IH | apply IH | discriminate | contradiction].
Qed.

Lemma parse_envelope_returns (data : PyVal) :
  Parser.parse_envelope pb b64decode data ≠ OutOfFuel.
Proof.
  destruct pb_ok as (Hw & Hd & _). unfold Parser.parse_envelope.
  specialize (b64decode_returns data).
  destruct (b64decode data) as [data_bytes| |]; cbn [mbind result_bind];
    [| discriminate | contradiction].
  specialize (Hw data_bytes).
  destruct (pb_Wrapper pb data_bytes) as [[name wrapper_data]| |];
    cbn [mbind result_bind]; [apply Hd | discriminate | contradiction].
Qed.

Lemma on_parse_error_frame (record : dict PyVal) e (result_ : dict PyVal) k :
  k ∉ payload_keys →
  dict_get (Parser.on_parse_error record e result_) k = dict_get result_ k.
Proof.
  intros Hk. unfold payload_keys in Hk. rewrite !not_elem_of_cons in Hk.
  unfold Parser.on_parse_error.
  rewrite !dict_get_set_ne by (intros <-; intuition). reflexivity.
Qed.

(** The part after the head always returns, and writes its own keys only. *)
Lemma parse_data_returns (record result_ : dict PyVal) :
  ∃ out, Parser.parse_data pb b64decode record result_ = Ok out
    ∧ (∀ k, k ∉ payload_keys → dict_get out k = dict_get result_ k)
    ∧ (is_Some (dict_get out "error") ∨ is_Some (dict_get out "actions")
       ∨ is_Some (dict_get out "parse_error")).
Proof.
  assert (∀ v k, k ∉ payload_keys →
            dict_get (dict_set result_ "error" v) k = dict_get result_ k) as Herr.
  { intros v k Hk. unfold payload_keys in Hk. rewrite !not_elem_of_cons in Hk.
    apply dict_get_set_ne. intros <-. intuition. }
  assert (∀ v1 v2 k, k ∉ payload_keys →
            dict_get (dict_set (dict_set result_ "version" v1) "actions" v2) k
            = dict_get result_ k) as Hact.
  { intros v1 v2 k Hk. unfold payload_keys in Hk. rewrite !not_elem_of_cons in Hk.
    rewrite !dict_get_set_ne by (intros <-; intuition). reflexivity. }
  unfold Parser.parse_data.
  destruct (dict_get record "data") as [data|] eqn:Hd.
  2: { eexists. split; [reflexivity |]. split; [apply Herr |]. left.
       rewrite dict_get_set_eq. eauto. }
  destruct (truthy data); cbn [negb].
  2: { eexists. split; [reflexivity |]. split; [apply Herr |]. left.
       rewrite dict_get_set_eq. eauto. }
  pose proof (parse_envelope_returns data) as Henv.
  destruct (Parser.parse_envelope pb b64decode data) as [[version actions]|e|];
    [| | contradiction].
  - pose proof (parse_actions_returns actions []) as Hacts.
    destruct (Parser.parse_actions pb actions []) as [entries r]. cbn [snd] in Hacts.
    destruct r as [[]|e|]; [| | contradiction].
    + eexists. split; [reflexivity |]. split; [apply Hact |]. right. left.
      rewrite dict_get_set_eq. eauto.
    + eexists. split; [reflexivity |]. split.
      * intros k Hk. rewrite on_parse_error_frame by assumption. apply Hact.
        assumption.
      * right. right. unfold Parser.on_parse_error.
        rewrite dict_get_set_ne by discriminate. rewrite dict_get_set_eq. eauto.
  - eexists. split; [reflexivity |]. split.
    + intros k Hk. apply on_parse_error_frame. assumption.
    + right. right. unfold Parser.on_parse_error.
      rewrite dict_get_set_ne by discriminate. rewrite dict_get_set_eq. eauto.
Qed.

End PayloadFacts.

Lemma parse_game_record_parts (pb : PbModule) (b64decode : PyVal → result bytes)
    (record : dict PyVal) :
  pb_returns pb → (∀ v, b64decode v ≠ OutOfFuel) →
  match Parser.parse_head pb b64decode record with
  | Ok head_part =>
      ∃ out, Parser.parse_game_record pb b64decode record = Ok out
        ∧ (∀ k, k ∉ payload_keys → dict_get out k = dict_get head_part k)
        ∧ (is_Some (dict_get out "error") ∨ is_Some (dict_get out "actions")
           ∨ is_Some (dict_get out "parse_error"))
  | Raise e => Parser.parse_game_record pb b64decode record = Raise e
  | OutOfFuel => True
  end.
Proof.
  intros Hpb Hb64. unfold Parser.parse_game_record.
  destruct (Parser.parse_head pb b64decode record) as [head_part|e|];
    cbn [mbind result_bind]; [| reflexivity | exact I].
  apply parse_data_returns; assumption.
Qed.

Lemma parse_head_bad_base64 (pb : PbModule) (b64decode : PyVal → result bytes)
    (record head : dict PyVal) (v : PyVal) e :
  dict_get record "head" = Some (VDict head) →
  dict_get head "accounts" = Some v → truthy v = true →
  b64decode v = Raise e →
  Parser.parse_game_record pb b64decode record = Raise e.
Proof.
  intros Hh Ha Ht Hb. unfold Parser.parse_game_record, Parser.parse_head.
  rewrite Hh. cbn [py_copy mbind result_bind]. unfold Parser.decode_subfield.
  cbn [py_contains mbind result_bind]. unfold dict_has. rewrite Ha.
  cbn [py_getitem mbind result_bind]. rewrite Ha. cbn [mbind result_bind].
  rewrite Ht, Hb. reflexivity.
Qed.

(** X27 (parse_game_record, the payload part): when the protobuf classes
    and [b64decode] return or raise, whatever the head part produced, the
    part after it returns without raising and writes only the keys
    ["error"], ["version"], ["actions"], ["parse_error"] and ["raw_data"]:
    ["head"] and ["uuid"] come out as the head part set them, and at least
    one of ["error"], ["actions"] and ["parse_error"] is set.  An exception
    of the head part, which is outside the [try], is the exception of
    [parse_game_record]. *)
Theorem parse_game_record_payload_safe (pb : PbModule)
    (b64decode : PyVal → result bytes) (record : dict PyVal) :
  pb_returns pb → (∀ v, b64decode v ≠ OutOfFuel) →
  match Parser.parse_head pb b64decode record with
  | Ok head_part =>
      ∃ out, Parser.parse_game_record pb b64decode record = Ok out
        ∧ (∀ k, k ∉ payload_keys → dict_get out k = dict_get head_part k)
        ∧ (is_Some (dict_get out "error") ∨ is_Some (dict_get out "actions")
           ∨ is_Some (dict_get out "parse_error"))
  | Raise e => Parser.parse_game_record pb b64decode record = Raise e
  | OutOfFuel => True
  end.
Proof. apply parse_game_record_parts. Qed.

Lemma a2b_base64_returns (s : string) :
  ∀ quad_pos leftchar pads acc,
    Parser.a2b_base64 s quad_pos leftchar pads acc ≠ OutOfFuel.
Proof.
  induction s as [|c s IH]; intros quad_pos leftchar pads acc;
    cbn [Parser.a2b_base64].
  - destruct (quad_pos =? 0); [discriminate |].
    destruct (quad_pos =? 1); discriminate.
  - destruct (Ascii.eqb c "=").
    + destruct (2 <=? quad_pos); [| apply IH].
      destruct (4 <=? quad_pos + (pads + 1)); [discriminate | apply IH].
    + destruct (Parser.b64_value c); [| apply IH].
      destruct (quad_pos =? 0); [apply IH |].
      destruct (quad_pos =? 1); [apply IH |].
      destruct (quad_pos =? 2); apply IH.
Qed.

Lemma sample_b64decode_returns (v : PyVal) : Parser.sample_b64decode v ≠ OutOfFuel.
Proof.
  destruct v; cbn [Parser.sample_b64decode]; try discriminate.
  - destruct (Parser.is_ascii s); [| discriminate].
    apply bind_returns; [apply a2b_base64_returns | intros l; apply py_bytes_returns].
  - apply bind_returns; [apply a2b_base64_returns | intros l; apply py_bytes_returns].
Qed.

Lemma parse_game_record_payload_safe_witness :
  match Parser.parse_head plain_pb Parser.sample_b64decode
          (Parser.sample_record [Parser.future_action]) with
  | Ok head_part =>
      ∃ out, Parser.parse_game_record plain_pb Parser.sample_b64decode
               (Parser.sample_record [Parser.future_action]) = Ok out
        ∧ (∀ k, k ∉ payload_keys → dict_get out k = dict_get head_part k)
        ∧ (is_Some (dict_get out "error") ∨ is_Some (dict_get out "actions")
           ∨ is_Some (dict_get out "parse_error"))
  | Raise e =>
      Parser.parse_game_record plain_pb Parser.sample_b64decode
        (Parser.sample_record [Parser.future_action]) = Raise e
  | OutOfFuel => True
  end.
Proof.
  apply (parse_game_record_payload_safe plain_pb Parser.sample_b64decode
           (Parser.sample_record [Parser.future_action])).
  - repeat split; intros; discriminate.
  - apply sample_b64decode_returns.
Defined.

(** X28 (parse_game_record, the head part): the base64 decoding of
    [head["accounts"]] is outside every [try]; when it raises, on a value
    that is not empty, [parse_game_record] raises that exception and
    returns nothing, whatever the payload holds. *)
Theorem parse_game_record_head_raises (pb : PbModule)
    (b64decode : PyVal → result bytes) (record head : dict PyVal) (v : PyVal) e :
  dict_get record "head" = Some (VDict head) →
  dict_get head "accounts" = Some v → truthy v = true →
  b64decode v = Raise e →
  Parser.parse_game_record pb b64decode record = Raise e.
Proof. apply parse_head_bad_base64. Qed.

Lemma parse_game_record_head_raises_witness :
  Parser.parse_game_record Parser.sample_pb Parser.sample_b64decode
    [("head", VDict [("accounts", VStr "A")]); ("data", VStr "")]
  = Raise (mk_exn BinasciiError
             "Invalid base64-encoded string: number of data characters (1) cannot be 1 more than a multiple of 4").
Proof.
  apply (parse_game_record_head_raises Parser.sample_pb Parser.sample_b64decode
           [("head", VDict [("accounts", VStr "A")]); ("data", VStr "")]
           [("accounts", VStr "A")] (VStr "A"));
    reflexivity.
Defined.

(** ** A connection that succeeds *)

Lemma connect_loop_ok (World Socket : Type)
    (fetch_json : World → string → World * result PyVal)
    (ws_connect : World → string → World * result Socket) (servers : list string) :
  ∀ w self last_error w' self',
    Client.connect_loop World Socket fetch_json ws_connect servers w self last_error
    = (w', self', Ok tt) →
    ∃ server sock w0 w1 probe,
      In server servers
      ∧ fst (fetch_json w0 (Client.route_url Socket self server)) = w1
      ∧ snd (fetch_json w0 (Client.route_url Socket self server)) = probe
      ∧ Client.reports_maintenance probe = false
      ∧ ws_connect w1 (Client.ws_url server) = (w', Ok sock)
      ∧ Client.ws Socket self' = Some sock.
Proof.
  induction servers as [|server servers IH]; intros w self last_error w' self' H;
    [discriminate |].
  cbn [Client.connect_loop] in H.
  destruct (Client.attempt World Socket fetch_json ws_connect w self server)
    as [[w1 self1] a] eqn:Ha.
  assert (Client.version Socket self1 = Client.version Socket self) as Hv.
  { unfold Client.attempt in Ha.
    destruct (fetch_json w (Client.route_url Socket self server)) as [wp probe].
    destruct (Client.reports_maintenance probe);
      [injection Ha as <- <- <-; reflexivity |].
    destruct (ws_connect wp (Client.ws_url server)) as [w2 [sock|e|]];
      injection Ha as <- <- <-; reflexivity. }
  assert (∀ s, Client.route_url Socket self1 s = Client.route_url Socket self s) as Hurl.
  { intros s. unfold Client.route_url. rewrite Hv. reflexivity. }
  destruct a as [| |e|].
  - destruct (IH _ _ _ _ _ H) as (s & sock & w0 & w2 & probe & Hin & H1 & H2 & H3).
    exists s, sock, w0, w2, probe. rewrite <- Hurl. split; [right |]; auto.
  - injection H as <- <-.
    destruct (attempt_connected _ _ _ _ _ _ _ _ _ Ha)
      as (wp & probe & sock & Hf & Hm & Hc & Hws & _).
    exists server, sock, w, wp, probe. rewrite Hf. split; [left |]; auto.
  - destruct (IH _ _ _ _ _ H) as (s & sock & w0 & w2 & probe & Hin & H1 & H2 & H3).
    exists s, sock, w0, w2, probe. rewrite <- Hurl. split; [right |]; auto.
  - discriminate.
Qed.

Lemma connect_ok (World Socket : Type)
    (fetch_json : World → string → World * result PyVal)
    (ws_connect : World → string → World * result Socket)
    (get_server_list :
       World → Client.Client Socket → World * Client.Client Socket * result (list string))
    w0 self0 w' self' :
  Client.connect World Socket fetch_json ws_connect get_server_list w0 self0
  = (w', self', Ok tt) →
  ∃ w self servers server sock wa wb probe,
    get_server_list w0 self0 = (w, self, Ok servers)
    ∧ In server servers
    ∧ fetch_json wa (Client.route_url Socket self server) = (wb, probe)
    ∧ Client.reports_maintenance probe = false
    ∧ ws_connect wb (Client.ws_url server) = (w', Ok sock)
    ∧ Client.ws Socket self' = Some sock.
Proof.
  unfold Client.connect. intros H.
  destruct (get_server_list w0 self0) as [[w self] [servers|e|]] eqn:Hl;
    try discriminate.
  destruct servers as [|s servers]; [discriminate |].
  destruct (connect_loop_ok _ _ _ _ _ _ _ _ _ _ H)
    as (server & sock & wa & wb & probe & Hin & H1 & H2 & Hm & Hc & Hws).
  exists w, self, (s :: servers), server, sock, wa, wb, probe.
  repeat split; try assumption.
  destruct (fetch_json wa (Client.route_url Socket self server)); cbn in *; congruence.
Qed.



(** ** Batch download *)

Section BatchFacts.

Variable World : Type.
Variable file_exists : World → string → bool.
Variable download_record : World → string → World * option exn.
Variable sleep : World → World.

(** A count of the sleeps: [sleep] adds one, a download none. *)
Variable slept : World → Z.
Hypothesis slept_sleep : ∀ w, slept (sleep w) = slept w + 1.
Hypothesis slept_download :
  ∀ w paipu_id, slept (fst (download_record w paipu_id)) = slept w.

Local Abbreviation loop := (Batch.download_loop World file_exists download_record sleep).

Lemma download_loop_tally skip_existing (paipu_ids : list string) :
  ∀ w t,
    let w' := fst (loop skip_existing paipu_ids w t) in
    let t' := snd (loop skip_existing paipu_ids w t) in
    Batch.success_count t ≤ Batch.success_count t'
    ∧ Batch.skip_count t ≤ Batch.skip_count t'
    ∧ Batch.fail_count t ≤ Batch.fail_count t'
    ∧ Batch.success_count t' + Batch.skip_count t' + Batch.fail_count t'
      = Batch.success_count t + Batch.skip_count t + Batch.fail_count t + len paipu_ids
    ∧ (skip_existing = false → Batch.skip_count t' = Batch.skip_count t)
    ∧ (∃ failed, Batch.failed_ids t' = Batch.failed_ids t ++ failed
         ∧ failed `sublist_of` paipu_ids
         ∧ len failed = Batch.fail_count t' - Batch.fail_count t)
    ∧ 0 ≤ slept w' - slept w
      ≤ (Batch.success_count t' - Batch.success_count t)
        + (Batch.fail_count t' - Batch.fail_count t)
    ∧ (paipu_ids ≠ [] → slept w' - slept w < len paipu_ids).
Proof.
  induction paipu_ids as [|paipu_id rest IH]; intros w t; cbn zeta.
  - cbn [Batch.download_loop fst snd]. unfold len. cbn [length].
    repeat split; try lia; try contradiction.
    exists []. rewrite app_nil_r. repeat split; [constructor | cbn; lia].
  - cbn [Batch.download_loop].
    assert (len (paipu_id :: rest) = len rest + 1) as Hlen
      by (unfold len; cbn [length]; lia).
    assert (rest ≠ [] → 0 < len rest) as Hpos
      by (destruct rest; [contradiction | unfold len; cbn [length]; lia]).
    destruct (skip_existing && file_exists w paipu_id) eqn:Hskip.
    + specialize (IH w (Batch.mk_tally (Batch.success_count t) (Batch.skip_count t + 1)
                          (Batch.fail_count t) (Batch.failed_ids t))).
      cbn zeta in IH.
      cbn [Batch.success_count Batch.skip_count Batch.fail_count Batch.failed_ids] in IH.
      destruct IH as (H1 & H2 & H3 & H4 & H5 & (failed & Hf & Hsub & Hfl) & H6 & H7).
      split; [lia |]. split; [lia |]. split; [lia |]. split; [lia |].
      split; [intros ->; discriminate |].
      split; [exists failed; split; [assumption | split; [| assumption]];
              apply sublist_cons; assumption |].
      split; [lia |]. intros _. destruct rest as [|x rest'].
      * cbn [Batch.download_loop fst] in *. lia.
      * specialize (H7 ltac:(discriminate)). lia.
    + pose proof (slept_download w paipu_id) as Hd.
      destruct (download_record w paipu_id) as [w1 raised]. cbn [fst] in Hd.
      set (t1 := match raised with
                 | None => if file_exists w1 paipu_id then _ else _
                 | Some _ => _
                 end).
      set (w2 := match rest with [] => w1 | _ :: _ => sleep w1 end).
      assert (slept w2 = slept w + (match rest with [] => 0 | _ :: _ => 1 end)) as Hw2.
      { unfold w2. destruct rest; [lia | rewrite slept_sleep; lia]. }
      assert ((Batch.success_count t1 = Batch.success_count t + 1
               ∧ Batch.fail_count t1 = Batch.fail_count t
               ∧ Batch.failed_ids t1 = Batch.failed_ids t)
              ∨ (Batch.success_count t1 = Batch.success_count t
                 ∧ Batch.fail_count t1 = Batch.fail_count t + 1
                 ∧ Batch.failed_ids t1 = Batch.failed_ids t ++ [paipu_id])) as Ht1.
      { unfold t1. destruct raised; [right; cbn; auto |].
        destruct (file_exists w1 paipu_id); [left | right]; cbn; auto. }
      assert (Batch.skip_count t1 = Batch.skip_count t) as Hs1.
      { unfold t1. destruct raised; [reflexivity |].
        destruct (file_exists w1 paipu_id); reflexivity. }
      specialize (IH w2 t1). cbn zeta in IH.
      destruct IH as (H1 & H2 & H3 & H4 & H5 & (failed & Hf & Hsub & Hfl) & H6 & H7).
      split; [lia |]. split; [lia |]. split; [lia |]. split; [lia |].
      split; [intros Hk; rewrite (H5 Hk); assumption |].
      split.
      * destruct Ht1 as [(Ha & Hb & Hc) | (Ha & Hb & Hc)].
        -- exists failed. rewrite Hf, Hc. split; [reflexivity |].
           split; [apply sublist_cons; assumption | lia].
        -- exists (paipu_id :: failed). rewrite Hf, Hc, <- app_assoc.
           split; [reflexivity |]. split; [apply sublist_skip; assumption |].
           unfold len in *. cbn [length]. lia.
      * split; [destruct rest; lia |]. intros _. destruct rest as [|x rest'].
        -- cbn [Batch.download_loop fst] in *. lia.
        -- specialize (H7 ltac:(discriminate)). lia.
Qed.

End BatchFacts.

(** X30 (batch_download, the tally): for every list of ids, the three
    counters printed at the end add up to the number of ids, [failed_ids]
    holds as many ids as [fail_count] counts and is a sublist of the ids,
    and nothing is skipped without [--skip-existing]; the loop sleeps at
    most once per download attempted, never after the last id, so fewer
    times than there are ids. *)
Theorem batch_download_tally (World : Type) (file_exists : World → string → bool)
    (download_record : World → string → World * option exn) (sleep : World → World)
    (slept : World → Z) (paipu_ids : list string) (skip_existing : bool) (w : World) :
  (∀ w, slept (sleep w) = slept w + 1) →
  (∀ w paipu_id, slept (fst (download_record w paipu_id)) = slept w) →
  let w' := fst (Batch.batch_download World file_exists download_record sleep
                   paipu_ids skip_existing w) in
  let t := snd (Batch.batch_download World file_exists download_record sleep
                  paipu_ids skip_existing w) in
  Batch.success_count t + Batch.skip_count t + Batch.fail_count t = len paipu_ids
  ∧ 0 ≤ Batch.success_count t ∧ 0 ≤ Batch.skip_count t ∧ 0 ≤ Batch.fail_count t
  ∧ len (Batch.failed_ids t) = Batch.fail_count t
  ∧ Batch.failed_ids t `sublist_of` paipu_ids
  ∧ (skip_existing = false → Batch.skip_count t = 0)
  ∧ 0 ≤ slept w' - slept w ≤ Batch.success_count t + Batch.fail_count t
  ∧ (paipu_ids ≠ [] → slept w' - slept w < len paipu_ids).
Proof.
  intros Hsleep Hdl. cbn zeta. unfold Batch.batch_download.
  pose proof (download_loop_tally World file_exists download_record sleep slept
                Hsleep Hdl skip_existing paipu_ids w (Batch.mk_tally 0 0 0 [])) as H.
  cbn zeta in H.
  cbn [Batch.success_count Batch.skip_count Batch.fail_count Batch.failed_ids] in H.
  destruct H as (H1 & H2 & H3 & H4 & H5 & (failed & Hf & Hsub & Hfl) & H6 & H7).
  cbn [app] in Hf. rewrite Hf.
  repeat split; try assumption; try lia.
Qed.

Lemma batch_download_tally_witness :
  let w' := fst (Batch.batch_download Batch.Disk Batch.disk_exists Batch.disk_download
                   Batch.disk_sleep ["a"; "bad"; "b"] true (Batch.mk_disk ["a"] 0)) in
  let t := snd (Batch.batch_download Batch.Disk Batch.disk_exists Batch.disk_download
                  Batch.disk_sleep ["a"; "bad"; "b"] true (Batch.mk_disk ["a"] 0)) in
  Batch.success_count t + Batch.skip_count t + Batch.fail_count t
  = len ["a"; "bad"; "b"]
  ∧ 0 ≤ Batch.success_count t ∧ 0 ≤ Batch.skip_count t ∧ 0 ≤ Batch.fail_count t
  ∧ len (Batch.failed_ids t) = Batch.fail_count t
  ∧ Batch.failed_ids t `sublist_of` ["a"; "bad"; "b"]
  ∧ (true = false → Batch.skip_count t = 0)
  ∧ 0 ≤ Batch.sleeps w' - Batch.sleeps (Batch.mk_disk ["a"] 0)
    ≤ Batch.success_count t + Batch.fail_count t
  ∧ (["a"; "bad"; "b"] ≠ [] →
     Batch.sleeps w' - Batch.sleeps (Batch.mk_disk ["a"] 0) < len ["a"; "bad"; "b"]).
Proof.
  apply (batch_download_tally Batch.Disk Batch.disk_exists Batch.disk_download
           Batch.disk_sleep Batch.sleeps ["a"; "bad"; "b"] true (Batch.mk_disk ["a"] 0)).
  - intros w. reflexivity.
  - intros w paipu_id. unfold Batch.disk_download.
    destruct (String.eqb paipu_id "bad"); reflexivity.
Defined.

Example batch_download_sample :
  Batch.batch_download Batch.Disk Batch.disk_exists Batch.disk_download
    Batch.disk_sleep ["a"; "bad"; "b"] true (Batch.mk_disk ["a"] 0)
  = (Batch.mk_disk ["b"; "a"] 1, Batch.mk_tally 1 1 1 ["bad"]).
Proof. reflexivity. Qed.
